(** * CtrlAltMoe: avatar motion core, embedded in Rocq

    A shallow embedding of the animation code of the repository:
    - [src/lib/vrm/procedural-animations.ts]  (module [Procedural])
    - [src/lib/vrm/mixamo-retarget.ts]        (module [Retarget])
    - [src/lib/vrm/animation-manager.ts]      (modules [History], [Manager])
    - [src/lib/vrm/model.ts]                  (module [Blink])
    - [src/lib/vrm/interactions.ts]           (modules [Jelly], [ArmIK])

    Conventions.  JavaScript numbers are modelled as exact rationals [Q];
    [Math.sin], [Math.cos] and [Math.PI] are not rational and are taken
    from a [Trig] instance.  Each call of [Math.random] is an explicit
    argument, in the order of the calls.  A thrown exception is the
    [Throw] constructor of [outcome]. *)

From Stdlib Require Import QArith Qminmax Qabs Qround Lqa ZArith List Ascii String Lia Bool.
From stdpp Require Import gmap strings.
Import ListNotations.

Open Scope Q_scope.
Open Scope string_scope.

(** ** Exceptions *)

Inductive outcome (A : Type) : Type :=
| Ok (a : A)
| Throw (msg : string).
Arguments Ok {A} a.
Arguments Throw {A} msg.

Definition obind {A B} (x : outcome A) (f : A -> outcome B) : outcome B :=
  match x with
  | Ok a => f a
  | Throw m => Throw m
  end.

(** ** The part of [Math] that leaves the rationals *)

Class Trig := {
  sin : Q -> Q;
  cos : Q -> Q;
  PI : Q
}.

(** [Math.sqrt] and [Math.acos], where they give a number: [sqrt] on the
    numbers that are not negative, [acos] on [-1, 1]. *)
Class MathRoots := {
  sqrt : Q -> Q;
  acos : Q -> Q
}.

(** ** THREE.Vector3, THREE.Quaternion *)

Record Vector3 := mkV3 { vx : Q; vy : Q; vz : Q }.

Record Quaternion := mkQuat { qx : Q; qy : Q; qz : Q; qw : Q }.

Module Quat.

Definition identity : Quaternion := mkQuat 0 0 0 1.

(** [Quaternion.multiplyQuaternions(a, b)]. *)
Definition mul (a b : Quaternion) : Quaternion :=
  mkQuat
    (qx a * qw b + qw a * qx b + qy a * qz b - qz a * qy b)
    (qy a * qw b + qw a * qy b + qz a * qx b - qx a * qz b)
    (qz a * qw b + qw a * qz b + qx a * qy b - qy a * qx b)
    (qw a * qw b - qx a * qx b - qy a * qy b - qz a * qz b).

(** [this.multiply(q)] is [this * q]; [this.premultiply(q)] is [q * this]. *)
Definition multiply (this q : Quaternion) : Quaternion := mul this q.
Definition premultiply (this q : Quaternion) : Quaternion := mul q this.

(** [Quaternion.invert()]: the quaternion is assumed to have unit length,
    the inverse is the conjugate. *)
Definition invert (q : Quaternion) : Quaternion :=
  mkQuat (- qx q) (- qy q) (- qz q) (qw q).

(** [Quaternion.setFromEuler(e)] for the default order XYZ. *)
Definition setFromEuler `{Trig} (e : Q * Q * Q) : Quaternion :=
  let '(x, y, z) := e in
  let c1 := cos (x / 2) in
  let c2 := cos (y / 2) in
  let c3 := cos (z / 2) in
  let s1 := sin (x / 2) in
  let s2 := sin (y / 2) in
  let s3 := sin (z / 2) in
  mkQuat
    (s1 * c2 * c3 + c1 * s2 * s3)
    (c1 * s2 * c3 - s1 * c2 * s3)
    (c1 * c2 * s3 + s1 * s2 * c3)
    (c1 * c2 * c3 - s1 * s2 * s3).

(** [Quaternion.setFromAxisAngle(axis, angle)] *)
Definition setFromAxisAngle `{Trig} (axis : Vector3) (angle : Q) : Quaternion :=
  let halfAngle := angle / 2 in
  let s := sin halfAngle in
  mkQuat (vx axis * s) (vy axis * s) (vz axis * s) (cos halfAngle).


Definition toArray (q : Quaternion) : list Q := [qx q; qy q; qz q; qw q].

End Quat.

(** ** Scene nodes, skeletons, avatars *)

(** [THREE.Object3D], with the fields the animation code reads or writes. *)
Record Object3D := mkObj {
  name : string;
  position : Vector3;
  quaternion : Quaternion;
  scale : Vector3
}.

(** A [VRMHumanoid]: the canonical bone name is the key, the node of the
    normalized rig and the node of the raw rig are the values.  A rig may
    lack any bone. *)
Record VRMHumanoid := mkHumanoid {
  normalizedBones : gmap string Object3D;
  rawBones : gmap string Object3D;
  (** [normalizedRestPose.hips?.position?.[1]] *)
  restHipsY : option Q
}.

Record VRM := mkVRM {
  humanoid : option VRMHumanoid;
  (** [vrm.meta.metaVersion] *)
  metaVersion : option string
}.

Definition getNormalizedBoneNode (h : VRMHumanoid) (bone : string) : option Object3D :=
  normalizedBones h !! bone.

Definition getRawBoneNode (h : VRMHumanoid) (bone : string) : option Object3D :=
  rawBones h !! bone.

(** ** Animation clips *)

Inductive TrackType := QuaternionKeyframeTrack | VectorKeyframeTrack | OtherKeyframeTrack.

(** A keyframe track.  [trackQuats] holds the values of a quaternion track,
    one quaternion per stride of four numbers; [trackVecs] those of a vector
    track, one vector per stride of three. *)
Record KeyframeTrack := mkTrack {
  trackType : TrackType;
  trackName : string;
  trackTimes : list Q;
  trackQuats : list Quaternion;
  trackVecs : list Vector3
}.

Record AnimationClip := mkClip {
  clipName : string;
  clipDuration : Q;
  clipTracks : list KeyframeTrack
}.

(** ** procedural-animations.ts *)

Module Procedural.

Section Generators.
Context `{Trig}.

Definition Euler : Type := (Q * Q * Q)%type.

(** Arms-down rest pose rotations (Euler XYZ radians). *)
Definition REST_POSE_leftUpperArm : Euler := (0.2, 0, 1.15).
Definition REST_POSE_rightUpperArm : Euler := (0.2, 0, -1.15).
Definition REST_POSE_leftLowerArm : Euler := (0, 0, 0.08).
Definition REST_POSE_rightLowerArm : Euler := (0, 0, -0.08).

Definition L_UP := REST_POSE_leftUpperArm.
Definition R_UP := REST_POSE_rightUpperArm.
Definition L_LO := REST_POSE_leftLowerArm.
Definition R_LO := REST_POSE_rightLowerArm.

Definition getBone (vrm : VRM) (bone : string) : option Object3D :=
  match humanoid vrm with
  | Some h => getNormalizedBoneNode h bone
  | None => None
  end.

Definition quatTrack (bone : Object3D) (times : list Q) (eulers : list Euler) : KeyframeTrack :=
  mkTrack QuaternionKeyframeTrack (name bone ++ ".quaternion") times
    (map Quat.setFromEuler eulers) [].

Definition posTrack (bone : Object3D) (times : list Q) (offsets : list Euler) : KeyframeTrack :=
  mkTrack VectorKeyframeTrack (name bone ++ ".position") times []
    (map (fun '(dx, dy, dz) =>
            mkV3 (vx (position bone) + dx) (vy (position bone) + dy) (vz (position bone) + dz))
         offsets).

Definition addEuler (base : Euler) (dx dy dz : Q) : Euler :=
  let '(x, y, z) := base in (x + dx, y + dy, z + dz).

(** [if (bone) tracks.push(f(bone))]: the tracks pushed by one guarded
    statement. *)
Definition pushIf (bone : option Object3D) (f : Object3D -> list KeyframeTrack) : list KeyframeTrack :=
  match bone with
  | Some b => f b
  | None => []
  end.

(** [tracks.length > 0 ? new THREE.AnimationClip(id, dur, tracks) : null] *)
Definition clipOrNull (id : string) (dur : Q) (tracks : list KeyframeTrack) : option AnimationClip :=
  match tracks with
  | [] => None
  | _ => Some (mkClip id dur tracks)
  end.

Definition idle_breathe (vrm : VRM) : option AnimationClip :=
  let dur := 4.0 in
  let spine := getBone vrm "spine" in
  let chest := getBone vrm "chest" in
  let head := getBone vrm "head" in
  let lArm := getBone vrm "leftUpperArm" in
  let rArm := getBone vrm "rightUpperArm" in
  let hips := getBone vrm "hips" in
  clipOrNull "idle_breathe" dur
    (pushIf spine (fun b => [posTrack b [0; 1.3; 2.6; dur]
        [(0, 0, 0); (0, 0.003, 0); (0, 0.001, 0); (0, 0, 0)]])
     ++ pushIf chest (fun b => [quatTrack b [0; 1.3; 2.6; dur]
        [(0, 0, 0); (0.015, 0, 0); (0.005, 0, 0); (0, 0, 0)]])
     ++ pushIf head (fun b => [quatTrack b [0; 1.2; 2.0; 3.2; dur]
        [(0.02, 0.01, 0); (-0.01, -0.02, 0); (0.015, 0.02, 0.005);
         (-0.01, -0.01, -0.005); (0.02, 0.01, 0)]])
     ++ pushIf hips (fun b => [posTrack b [0; 2.0; dur]
        [(0, 0, 0); (0.003, 0, 0); (0, 0, 0)]])
     ++ pushIf lArm (fun b => [quatTrack b [0; 1.5; 3.0; dur]
        [L_UP; addEuler L_UP 0 0 (-0.02); addEuler L_UP 0 0 0.015; L_UP]])
     ++ pushIf rArm (fun b => [quatTrack b [0; 1.5; 3.0; dur]
        [R_UP; addEuler R_UP 0 0 0.02; addEuler R_UP 0 0 (-0.015); R_UP]])).

Definition idle_happy (vrm : VRM) : option AnimationClip :=
  let dur := 3.0 in
  let spine := getBone vrm "spine" in
  let head := getBone vrm "head" in
  let hips := getBone vrm "hips" in
  let lArm := getBone vrm "leftUpperArm" in
  let rArm := getBone vrm "rightUpperArm" in
  clipOrNull "idle_happy" dur
    (pushIf hips (fun b => [posTrack b [0; 0.5; 1.0; 1.5; 2.0; 2.5; dur]
        [(0, 0, 0); (0.004, 0.005, 0); (-0.004, 0, 0);
         (0.004, 0.005, 0); (-0.004, 0, 0); (0.004, 0.005, 0); (0, 0, 0)]])
     ++ pushIf head (fun b => [quatTrack b [0; 0.75; 1.5; 2.25; dur]
        [(-0.05, 0.02, 0.04); (-0.03, -0.03, -0.04); (-0.05, 0.02, 0.04);
         (-0.03, -0.03, -0.04); (-0.05, 0.02, 0.04)]])
     ++ pushIf spine (fun b => [quatTrack b [0; 1.5; dur]
        [(-0.02, 0, 0); (-0.03, 0, 0); (-0.02, 0, 0)]])
     ++ pushIf lArm (fun b => [quatTrack b [0; 1.0; 2.0; dur]
        [addEuler L_UP 0.05 0 (-0.08); addEuler L_UP 0.02 0 (-0.05);
         addEuler L_UP 0.05 0 (-0.08); addEuler L_UP 0.05 0 (-0.08)]])
     ++ pushIf rArm (fun b => [quatTrack b [0; 1.0; 2.0; dur]
        [addEuler R_UP 0.05 0 0.08; addEuler R_UP 0.02 0 0.05;
         addEuler R_UP 0.05 0 0.08; addEuler R_UP 0.05 0 0.08]])).

Definition idle_sad (vrm : VRM) : option AnimationClip :=
  let dur := 5.0 in
  let head := getBone vrm "head" in
  let spine := getBone vrm "spine" in
  let chest := getBone vrm "chest" in
  let lArm := getBone vrm "leftUpperArm" in
  let rArm := getBone vrm "rightUpperArm" in
  clipOrNull "idle_sad" dur
    (pushIf head (fun b => [quatTrack b [0; 2.5; dur]
        [(0.12, -0.02, 0); (0.14, 0.02, 0); (0.12, -0.02, 0)]])
     ++ pushIf spine (fun b => [quatTrack b [0; 2.5; dur]
        [(0.06, 0, 0); (0.07, 0, 0.01); (0.06, 0, 0)]])
     ++ pushIf chest (fun b => [quatTrack b [0; 2.5; dur]
        [(0.04, 0, 0); (0.05, 0, 0); (0.04, 0, 0)]])
     ++ pushIf lArm (fun b => [quatTrack b [0; 2.5; dur]
        [addEuler L_UP 0.15 0 0.05; addEuler L_UP 0.16 0 0.06; addEuler L_UP 0.15 0 0.05]])
     ++ pushIf rArm (fun b => [quatTrack b [0; 2.5; dur]
        [addEuler R_UP 0.15 0 (-0.05); addEuler R_UP 0.16 0 (-0.06);
         addEuler R_UP 0.15 0 (-0.05)]])).

Definition nod (vrm : VRM) : option AnimationClip :=
  let head := getBone vrm "head" in
  let lArm := getBone vrm "leftUpperArm" in
  let rArm := getBone vrm "rightUpperArm" in
  match head with
  | None => None
  | Some h =>
    Some (mkClip "nod" 1.2
      ([quatTrack h [0; 0.2; 0.5; 0.7; 1.0; 1.2]
          [(0, 0, 0); (-0.18, 0, 0); (0.02, 0, 0); (-0.12, 0, 0); (0.01, 0, 0); (0, 0, 0)]]
       ++ pushIf lArm (fun b => [quatTrack b [0; 1.2] [L_UP; L_UP]])
       ++ pushIf rArm (fun b => [quatTrack b [0; 1.2] [R_UP; R_UP]])))
  end.

Definition shake (vrm : VRM) : option AnimationClip :=
  let head := getBone vrm "head" in
  let lArm := getBone vrm "leftUpperArm" in
  let rArm := getBone vrm "rightUpperArm" in
  match head with
  | None => None
  | Some h =>
    Some (mkClip "shake" 1.0
      ([quatTrack h [0; 0.15; 0.35; 0.55; 0.75; 1.0]
          [(0, 0, 0); (0, 0.15, 0); (0, -0.15, 0); (0, 0.1, 0); (0, -0.08, 0); (0, 0, 0)]]
       ++ pushIf lArm (fun b => [quatTrack b [0; 1.0] [L_UP; L_UP]])
       ++ pushIf rArm (fun b => [quatTrack b [0; 1.0] [R_UP; R_UP]])))
  end.

Definition thinking (vrm : VRM) : option AnimationClip :=
  let head := getBone vrm "head" in
  let lArm := getBone vrm "leftUpperArm" in
  let rArm := getBone vrm "rightUpperArm" in
  let rForearm := getBone vrm "rightLowerArm" in
  let rHand := getBone vrm "rightHand" in
  clipOrNull "thinking" 3.0
    (pushIf head (fun b => [quatTrack b [0; 0.5; 2.5; 3.0]
        [(0, 0, 0); (0.1, 0.06, 0.03); (0.1, -0.04, -0.02); (0, 0, 0)]])
     ++ pushIf rArm (fun b => [quatTrack b [0; 0.5; 2.5; 3.0]
        [R_UP; (-0.6, 0.3, -0.3); (-0.6, 0.3, -0.3); R_UP]])
     ++ pushIf rForearm (fun b => [quatTrack b [0; 0.5; 2.5; 3.0]
        [R_LO; (-1.2, 0, 0); (-1.2, 0, 0); R_LO]])
     ++ pushIf rHand (fun b => [quatTrack b [0; 0.5; 2.5; 3.0]
        [(0, 0, 0); (0.2, 0, 0.1); (0.2, 0, 0.1); (0, 0, 0)]])
     ++ pushIf lArm (fun b => [quatTrack b [0; 3.0] [L_UP; L_UP]])).

Definition point (vrm : VRM) : option AnimationClip :=
  let lArm := getBone vrm "leftUpperArm" in
  let rArm := getBone vrm "rightUpperArm" in
  let rForearm := getBone vrm "rightLowerArm" in
  clipOrNull "point" 1.5
    (pushIf rArm (fun b => [quatTrack b [0; 0.3; 1.2; 1.5]
        [R_UP; (-0.4, 0, -1.0); (-0.4, 0, -1.0); R_UP]])
     ++ pushIf rForearm (fun b => [quatTrack b [0; 0.3; 1.2; 1.5]
        [R_LO; (-0.3, 0, 0); (-0.3, 0, 0); R_LO]])
     ++ pushIf lArm (fun b => [quatTrack b [0; 1.5] [L_UP; L_UP]])).

Definition shrug (vrm : VRM) : option AnimationClip :=
  let lArm := getBone vrm "leftUpperArm" in
  let rArm := getBone vrm "rightUpperArm" in
  let lForearm := getBone vrm "leftLowerArm" in
  let rForearm := getBone vrm "rightLowerArm" in
  let head := getBone vrm "head" in
  let lShoulder := getBone vrm "leftShoulder" in
  let rShoulder := getBone vrm "rightShoulder" in
  let times := [0; 0.3; 1.0; 1.3] in
  clipOrNull "shrug" 1.3
    (pushIf lShoulder (fun b => [quatTrack b times
        [(0, 0, 0); (0, 0, 0.15); (0, 0, 0.15); (0, 0, 0)]])
     ++ pushIf rShoulder (fun b => [quatTrack b times
        [(0, 0, 0); (0, 0, -0.15); (0, 0, -0.15); (0, 0, 0)]])
     ++ pushIf lArm (fun b => [quatTrack b times
        [L_UP; addEuler L_UP 0 0 0.3; addEuler L_UP 0 0 0.3; L_UP]])
     ++ pushIf rArm (fun b => [quatTrack b times
        [R_UP; addEuler R_UP 0 0 (-0.3); addEuler R_UP 0 0 (-0.3); R_UP]])
     ++ pushIf lForearm (fun b => [quatTrack b times
        [L_LO; addEuler L_LO (-0.5) 0 0; addEuler L_LO (-0.5) 0 0; L_LO]])
     ++ pushIf rForearm (fun b => [quatTrack b times
        [R_LO; addEuler R_LO (-0.5) 0 0; addEuler R_LO (-0.5) 0 0; R_LO]])
     ++ pushIf head (fun b => [quatTrack b times
        [(0, 0, 0); (0, 0.05, 0.08); (0, 0.05, 0.08); (0, 0, 0)]])).

Definition wave (vrm : VRM) : option AnimationClip :=
  let lArm := getBone vrm "leftUpperArm" in
  let rArm := getBone vrm "rightUpperArm" in
  let rForearm := getBone vrm "rightLowerArm" in
  let rHand := getBone vrm "rightHand" in
  clipOrNull "wave" 2.1
    (pushIf rArm (fun b => [quatTrack b [0; 0.3; 1.8; 2.1]
        [R_UP; (-0.2, 0, -1.5); (-0.2, 0, -1.5); R_UP]])
     ++ pushIf rForearm (fun b => [quatTrack b [0; 0.3; 1.8; 2.1]
        [R_LO; addEuler R_LO (-1.0) 0 0; addEuler R_LO (-1.0) 0 0; R_LO]])
     ++ pushIf lArm (fun b => [quatTrack b [0; 2.1] [L_UP; L_UP]])
     ++ pushIf rHand (fun b => [quatTrack b [0; 0.3; 0.6; 0.9; 1.2; 1.5; 1.8; 2.1]
        [(0, 0, 0); (0, 0, 0.3); (0, 0, -0.3); (0, 0, 0.3);
         (0, 0, -0.3); (0, 0, 0.3); (0, 0, -0.3); (0, 0, 0)]])).

Definition clap (vrm : VRM) : option AnimationClip :=
  let lArm := getBone vrm "leftUpperArm" in
  let rArm := getBone vrm "rightUpperArm" in
  let lForearm := getBone vrm "leftLowerArm" in
  let rForearm := getBone vrm "rightLowerArm" in
  let times := [0; 0.2; 0.4; 0.6; 0.8; 1.0; 1.2; 1.4; 1.6] in
  let clapAngles := [0; 0.15; 0; 0.15; 0; 0.15; 0; 0.1; 0] in
  clipOrNull "clap" 1.6
    (pushIf lArm (fun b => [quatTrack b [0; 0.15; 1.5; 1.6]
        [L_UP; addEuler L_UP (-0.6) 0.4 (-0.85); addEuler L_UP (-0.6) 0.4 (-0.85); L_UP]])
     ++ pushIf rArm (fun b => [quatTrack b [0; 0.15; 1.5; 1.6]
        [R_UP; addEuler R_UP (-0.6) (-0.4) 0.85; addEuler R_UP (-0.6) (-0.4) 0.85; R_UP]])
     ++ pushIf lForearm (fun b => [quatTrack b times
        (map (fun a => addEuler L_LO (-0.8) a 0) clapAngles)])
     ++ pushIf rForearm (fun b => [quatTrack b times
        (map (fun a => addEuler R_LO (-0.8) (- a) 0) clapAngles)])).

Definition bow (vrm : VRM) : option AnimationClip :=
  let spine := getBone vrm "spine" in
  let chest := getBone vrm "chest" in
  let head := getBone vrm "head" in
  let lArm := getBone vrm "leftUpperArm" in
  let rArm := getBone vrm "rightUpperArm" in
  let times := [0; 0.5; 1.5; 2.0] in
  clipOrNull "bow" 2.0
    (pushIf spine (fun b => [quatTrack b times
        [(0, 0, 0); (0.25, 0, 0); (0.25, 0, 0); (0, 0, 0)]])
     ++ pushIf chest (fun b => [quatTrack b times
        [(0, 0, 0); (0.15, 0, 0); (0.15, 0, 0); (0, 0, 0)]])
     ++ pushIf head (fun b => [quatTrack b times
        [(0, 0, 0); (0.15, 0, 0); (0.15, 0, 0); (0, 0, 0)]])
     ++ pushIf lArm (fun b => [quatTrack b [0; 2.0] [L_UP; L_UP]])
     ++ pushIf rArm (fun b => [quatTrack b [0; 2.0] [R_UP; R_UP]])).

Definition cheer (vrm : VRM) : option AnimationClip :=
  let lArm := getBone vrm "leftUpperArm" in
  let rArm := getBone vrm "rightUpperArm" in
  let lForearm := getBone vrm "leftLowerArm" in
  let rForearm := getBone vrm "rightLowerArm" in
  let hips := getBone vrm "hips" in
  clipOrNull "cheer" 1.8
    (pushIf lArm (fun b => [quatTrack b [0; 0.3; 0.6; 0.9; 1.2; 1.5; 1.8]
        [L_UP; (0, 0, 1.8); (0, 0, 1.6); (0, 0, 1.8); (0, 0, 1.6); (0, 0, 1.8); L_UP]])
     ++ pushIf rArm (fun b => [quatTrack b [0; 0.3; 0.6; 0.9; 1.2; 1.5; 1.8]
        [R_UP; (0, 0, -1.8); (0, 0, -1.6); (0, 0, -1.8); (0, 0, -1.6); (0, 0, -1.8); R_UP]])
     ++ pushIf lForearm (fun b => [quatTrack b [0; 0.3; 1.5; 1.8]
        [L_LO; addEuler L_LO (-0.4) 0 0; addEuler L_LO (-0.4) 0 0; L_LO]])
     ++ pushIf rForearm (fun b => [quatTrack b [0; 0.3; 1.5; 1.8]
        [R_LO; addEuler R_LO (-0.4) 0 0; addEuler R_LO (-0.4) 0 0; R_LO]])
     ++ pushIf hips (fun b => [posTrack b [0; 0.3; 0.6; 0.9; 1.2; 1.5; 1.8]
        [(0, 0, 0); (0, 0.01, 0); (0, 0, 0); (0, 0.01, 0);
         (0, 0, 0); (0, 0.01, 0); (0, 0, 0)]])).

Definition surprised_back (vrm : VRM) : option AnimationClip :=
  let spine := getBone vrm "spine" in
  let head := getBone vrm "head" in
  let hips := getBone vrm "hips" in
  let lArm := getBone vrm "leftUpperArm" in
  let rArm := getBone vrm "rightUpperArm" in
  clipOrNull "surprised_back" 0.8
    (pushIf spine (fun b => [quatTrack b [0; 0.15; 0.5; 0.8]
        [(0, 0, 0); (-0.1, 0, 0); (-0.06, 0, 0); (0, 0, 0)]])
     ++ pushIf head (fun b => [quatTrack b [0; 0.12; 0.5; 0.8]
        [(0, 0, 0); (-0.15, 0, 0); (-0.08, 0, 0); (0, 0, 0)]])
     ++ pushIf hips (fun b => [posTrack b [0; 0.15; 0.5; 0.8]
        [(0, 0, 0); (0, 0.008, -0.02); (0, 0.004, -0.01); (0, 0, 0)]])
     ++ pushIf lArm (fun b => [quatTrack b [0; 0.15; 0.5; 0.8]
        [L_UP; addEuler L_UP (-0.2) 0 (-0.55); addEuler L_UP (-0.1) 0 (-0.85); L_UP]])
     ++ pushIf rArm (fun b => [quatTrack b [0; 0.15; 0.5; 0.8]
        [R_UP; addEuler R_UP (-0.2) 0 0.55; addEuler R_UP (-0.1) 0 0.85; R_UP]])).

Definition happy_jump (vrm : VRM) : option AnimationClip :=
  let hips := getBone vrm "hips" in
  let lArm := getBone vrm "leftUpperArm" in
  let rArm := getBone vrm "rightUpperArm" in
  let head := getBone vrm "head" in
  clipOrNull "happy_jump" 1.0
    (pushIf hips (fun b => [posTrack b [0; 0.2; 0.4; 0.6; 0.8; 1.0]
        [(0, 0, 0); (0, -0.01, 0); (0, 0.025, 0); (0, 0.02, 0); (0, -0.005, 0); (0, 0, 0)]])
     ++ pushIf lArm (fun b => [quatTrack b [0; 0.2; 0.5; 0.8; 1.0]
        [L_UP; addEuler L_UP 0 0 (-0.85); (0, 0, 1.6); addEuler L_UP 0 0 (-0.65); L_UP]])
     ++ pushIf rArm (fun b => [quatTrack b [0; 0.2; 0.5; 0.8; 1.0]
        [R_UP; addEuler R_UP 0 0 0.85; (0, 0, -1.6); addEuler R_UP 0 0 0.65; R_UP]])
     ++ pushIf head (fun b => [quatTrack b [0; 0.3; 0.6; 1.0]
        [(0, 0, 0); (-0.1, 0, 0); (-0.05, 0, 0); (0, 0, 0)]])).

Definition sad_cry (vrm : VRM) : option AnimationClip :=
  let head := getBone vrm "head" in
  let spine := getBone vrm "spine" in
  let lArm := getBone vrm "leftUpperArm" in
  let rArm := getBone vrm "rightUpperArm" in
  let lForearm := getBone vrm "leftLowerArm" in
  let rForearm := getBone vrm "rightLowerArm" in
  clipOrNull "sad_cry" 2.5
    (pushIf head (fun b => [quatTrack b [0; 0.3; 0.8; 1.3; 1.8; 2.5]
        [(0, 0, 0); (0.2, 0, 0); (0.2, 0.04, 0); (0.2, -0.04, 0); (0.2, 0.02, 0); (0, 0, 0)]])
     ++ pushIf spine (fun b => [quatTrack b [0; 0.3; 2.0; 2.5]
        [(0, 0, 0); (0.1, 0, 0); (0.1, 0, 0); (0, 0, 0)]])
     ++ pushIf lArm (fun b => [quatTrack b [0; 0.3; 2.0; 2.5]
        [L_UP; addEuler L_UP (-0.5) 0.3 (-0.85); addEuler L_UP (-0.5) 0.3 (-0.85); L_UP]])
     ++ pushIf rArm (fun b => [quatTrack b [0; 0.3; 2.0; 2.5]
        [R_UP; addEuler R_UP (-0.5) (-0.3) 0.85; addEuler R_UP (-0.5) (-0.3) 0.85; R_UP]])
     ++ pushIf lForearm (fun b => [quatTrack b [0; 0.3; 2.0; 2.5]
        [L_LO; addEuler L_LO (-1.4) 0 0; addEuler L_LO (-1.4) 0 0; L_LO]])
     ++ pushIf rForearm (fun b => [quatTrack b [0; 0.3; 2.0; 2.5]
        [R_LO; addEuler R_LO (-1.4) 0 0; addEuler R_LO (-1.4) 0 0; R_LO]])).

Definition angry_stomp (vrm : VRM) : option AnimationClip :=
  let head := getBone vrm "head" in
  let spine := getBone vrm "spine" in
  let hips := getBone vrm "hips" in
  let lArm := getBone vrm "leftUpperArm" in
  let rArm := getBone vrm "rightUpperArm" in
  let lForearm := getBone vrm "leftLowerArm" in
  let rForearm := getBone vrm "rightLowerArm" in
  clipOrNull "angry_stomp" 1.0
    (pushIf head (fun b => [quatTrack b [0; 0.2; 0.6; 1.0]
        [(0, 0, 0); (0.08, 0, 0); (0.05, 0, 0); (0, 0, 0)]])
     ++ pushIf spine (fun b => [quatTrack b [0; 0.2; 0.6; 1.0]
        [(0, 0, 0); (0.06, 0, 0); (0.03, 0, 0); (0, 0, 0)]])
     ++ pushIf hips (fun b => [posTrack b [0; 0.15; 0.3; 0.45; 0.6; 1.0]
        [(0, 0, 0); (0, -0.008, 0); (0, 0, 0); (0, -0.008, 0); (0, 0, 0); (0, 0, 0)]])
     ++ pushIf lArm (fun b => [quatTrack b [0; 0.2; 0.8; 1.0]
        [L_UP; addEuler L_UP (-0.3) 0.3 (-0.95); addEuler L_UP (-0.3) 0.3 (-0.95); L_UP]])
     ++ pushIf rArm (fun b => [quatTrack b [0; 0.2; 0.8; 1.0]
        [R_UP; addEuler R_UP (-0.3) (-0.3) 0.95; addEuler R_UP (-0.3) (-0.3) 0.95; R_UP]])
     ++ pushIf lForearm (fun b => [quatTrack b [0; 0.2; 0.8; 1.0]
        [L_LO; addEuler L_LO (-1.2) 0 0; addEuler L_LO (-1.2) 0 0; L_LO]])
     ++ pushIf rForearm (fun b => [quatTrack b [0; 0.2; 0.8; 1.0]
        [R_LO; addEuler R_LO (-1.2) 0 0; addEuler R_LO (-1.2) 0 0; R_LO]])).

Definition dance_happy (vrm : VRM) : option AnimationClip :=
  let dur := 4.0 in
  let hips := getBone vrm "hips" in
  let spine := getBone vrm "spine" in
  let head := getBone vrm "head" in
  let lArm := getBone vrm "leftUpperArm" in
  let rArm := getBone vrm "rightUpperArm" in
  let lForearm := getBone vrm "leftLowerArm" in
  let rForearm := getBone vrm "rightLowerArm" in
  clipOrNull "dance_happy" dur
    (pushIf hips (fun b =>
        let t := [0; 0.5; 1.0; 1.5; 2.0; 2.5; 3.0; 3.5; dur] in
        [posTrack b t
           [(0, 0, 0); (0.008, 0.01, 0); (-0.008, 0, 0); (0.008, 0.01, 0); (-0.008, 0, 0);
            (0.008, 0.01, 0); (-0.008, 0, 0); (0.008, 0.01, 0); (0, 0, 0)];
         quatTrack b t
           [(0, 0, 0); (0, 0, 0.03); (0, 0, -0.03); (0, 0, 0.03); (0, 0, -0.03);
            (0, 0, 0.03); (0, 0, -0.03); (0, 0, 0.03); (0, 0, 0)]])
     ++ pushIf spine (fun b => [quatTrack b [0; 1.0; 2.0; 3.0; dur]
        [(0, 0, 0.02); (0, 0, -0.03); (0, 0, 0.03); (0, 0, -0.03); (0, 0, 0.02)]])
     ++ pushIf head (fun b => [quatTrack b [0; 0.5; 1.0; 1.5; 2.0; 2.5; 3.0; 3.5; dur]
        [(0, 0, 0.04); (-0.04, 0, -0.04); (0, 0, 0.04); (-0.04, 0, -0.04); (0, 0, 0.04);
         (-0.04, 0, -0.04); (0, 0, 0.04); (-0.04, 0, -0.04); (0, 0, 0.04)]])
     ++ pushIf lArm (fun b => [quatTrack b [0; 0.5; 1.0; 1.5; 2.0; 2.5; 3.0; 3.5; dur]
        [addEuler L_UP 0 0 (-0.85); (-0.2, 0, 1.0); addEuler L_UP 0 0 (-0.85);
         (-0.2, 0, 1.0); addEuler L_UP 0 0 (-0.85); (-0.2, 0, 1.0);
         addEuler L_UP 0 0 (-0.85); (-0.2, 0, 1.0); addEuler L_UP 0 0 (-0.85)]])
     ++ pushIf rArm (fun b => [quatTrack b [0; 0.5; 1.0; 1.5; 2.0; 2.5; 3.0; 3.5; dur]
        [(-0.2, 0, -1.0); addEuler R_UP 0 0 0.85; (-0.2, 0, -1.0);
         addEuler R_UP 0 0 0.85; (-0.2, 0, -1.0); addEuler R_UP 0 0 0.85;
         (-0.2, 0, -1.0); addEuler R_UP 0 0 0.85; (-0.2, 0, -1.0)]])
     ++ pushIf lForearm (fun b => [quatTrack b [0; dur]
        [addEuler L_LO (-0.6) 0 0; addEuler L_LO (-0.6) 0 0]])
     ++ pushIf rForearm (fun b => [quatTrack b [0; dur]
        [addEuler R_LO (-0.6) 0 0; addEuler R_LO (-0.6) 0 0]])).

(** Reuses the happy dance: the clip returned by [dance_happy] is a fresh
    object, its [name] field is overwritten. *)
Definition dance_hiphop (vrm : VRM) : option AnimationClip :=
  let clip := dance_happy vrm in
  match clip with
  | Some c => Some (mkClip "dance_hiphop" (clipDuration c) (clipTracks c))
  | None => None
  end.

Definition sleeping (vrm : VRM) : option AnimationClip :=
  let dur := 6.0 in
  let head := getBone vrm "head" in
  let spine := getBone vrm "spine" in
  let chest := getBone vrm "chest" in
  let lArm := getBone vrm "leftUpperArm" in
  let rArm := getBone vrm "rightUpperArm" in
  clipOrNull "sleeping" dur
    (pushIf head (fun b => [quatTrack b [0; 2; 4; dur]
        [(0.15, -0.05, 0); (0.18, 0.03, 0.02); (0.15, -0.03, -0.02); (0.15, -0.05, 0)]])
     ++ pushIf spine (fun b => [quatTrack b [0; 3; dur]
        [(0.08, 0, 0); (0.09, 0, 0); (0.08, 0, 0)]])
     ++ pushIf chest (fun b => [quatTrack b [0; 3; dur]
        [(0.04, 0, 0); (0.06, 0, 0); (0.04, 0, 0)]])
     ++ pushIf lArm (fun b => [quatTrack b [0; dur] [L_UP; L_UP]])
     ++ pushIf rArm (fun b => [quatTrack b [0; dur] [R_UP; R_UP]])).

Definition sitting (vrm : VRM) : option AnimationClip :=
  let dur := 4.0 in
  let head := getBone vrm "head" in
  let spine := getBone vrm "spine" in
  let hips := getBone vrm "hips" in
  let lArm := getBone vrm "leftUpperArm" in
  let rArm := getBone vrm "rightUpperArm" in
  clipOrNull "sitting" dur
    (pushIf hips (fun b => [posTrack b [0; dur]
        [(0, -0.15, 0.02); (0, -0.15, 0.02)]])
     ++ pushIf spine (fun b => [quatTrack b [0; 2; dur]
        [(-0.05, 0, 0); (-0.04, 0, 0); (-0.05, 0, 0)]])
     ++ pushIf head (fun b => [quatTrack b [0; 1.5; 3.0; dur]
        [(0.02, 0.02, 0); (0, -0.02, 0); (0.02, 0.01, 0); (0.02, 0.02, 0)]])
     ++ pushIf lArm (fun b => [quatTrack b [0; dur] [L_UP; L_UP]])
     ++ pushIf rArm (fun b => [quatTrack b [0; dur] [R_UP; R_UP]])).

(** Registry of all procedural animation generators, key = motion id. *)
Definition PROCEDURAL_CLIPS : list (string * (VRM -> option AnimationClip)) :=
  [ ("idle_breathe", idle_breathe); ("idle_happy", idle_happy); ("idle_sad", idle_sad);
    ("nod", nod); ("shake", shake); ("thinking", thinking); ("point", point);
    ("shrug", shrug); ("wave", wave); ("clap", clap); ("bow", bow); ("cheer", cheer);
    ("surprised_back", surprised_back); ("happy_jump", happy_jump); ("sad_cry", sad_cry);
    ("angry_stomp", angry_stomp); ("dance_happy", dance_happy);
    ("dance_hiphop", dance_hiphop); ("sleeping", sleeping); ("sitting", sitting) ].

(** [PROCEDURAL_CLIPS[motionId]] for the keys of the object itself.  The
    object is a literal, so an id that names a property it inherits
    ([constructor], [toString], [__proto__], ...) finds that property
    instead of [undefined]; those ids are outside this lookup. *)
Fixpoint lookupClip (reg : list (string * (VRM -> option AnimationClip))) (motionId : string)
  : option (VRM -> option AnimationClip) :=
  match reg with
  | [] => None
  | (k, fn) :: rest => if String.eqb k motionId then Some fn else lookupClip rest motionId
  end.

Definition createProceduralClip (vrm : VRM) (motionId : string) : option AnimationClip :=
  match lookupClip PROCEDURAL_CLIPS motionId with
  | None => None
  | Some fn => fn vrm
  end.

Definition getProceduralMotionIds : list string := map fst PROCEDURAL_CLIPS.

End Generators.

End Procedural.

(** ** mixamo-retarget.ts *)

Module Retarget.

(** Mixamo -> VRM bone name mapping. *)
Definition MIXAMO_VRM_RIG_MAP : list (string * string) :=
  [ ("mixamorigHips", "hips"); ("mixamorigSpine", "spine"); ("mixamorigSpine1", "chest");
    ("mixamorigSpine2", "upperChest"); ("mixamorigNeck", "neck"); ("mixamorigHead", "head");
    ("mixamorigLeftShoulder", "leftShoulder"); ("mixamorigLeftArm", "leftUpperArm");
    ("mixamorigLeftForeArm", "leftLowerArm"); ("mixamorigLeftHand", "leftHand");
    ("mixamorigLeftHandThumb1", "leftThumbMetacarpal");
    ("mixamorigLeftHandThumb2", "leftThumbProximal");
    ("mixamorigLeftHandThumb3", "leftThumbDistal");
    ("mixamorigLeftHandIndex1", "leftIndexProximal");
    ("mixamorigLeftHandIndex2", "leftIndexIntermediate");
    ("mixamorigLeftHandIndex3", "leftIndexDistal");
    ("mixamorigLeftHandMiddle1", "leftMiddleProximal");
    ("mixamorigLeftHandMiddle2", "leftMiddleIntermediate");
    ("mixamorigLeftHandMiddle3", "leftMiddleDistal");
    ("mixamorigLeftHandRing1", "leftRingProximal");
    ("mixamorigLeftHandRing2", "leftRingIntermediate");
    ("mixamorigLeftHandRing3", "leftRingDistal");
    ("mixamorigLeftHandPinky1", "leftLittleProximal");
    ("mixamorigLeftHandPinky2", "leftLittleIntermediate");
    ("mixamorigLeftHandPinky3", "leftLittleDistal");
    ("mixamorigRightShoulder", "rightShoulder"); ("mixamorigRightArm", "rightUpperArm");
    ("mixamorigRightForeArm", "rightLowerArm"); ("mixamorigRightHand", "rightHand");
    ("mixamorigRightHandThumb1", "rightThumbMetacarpal");
    ("mixamorigRightHandThumb2", "rightThumbProximal");
    ("mixamorigRightHandThumb3", "rightThumbDistal");
    ("mixamorigRightHandIndex1", "rightIndexProximal");
    ("mixamorigRightHandIndex2", "rightIndexIntermediate");
    ("mixamorigRightHandIndex3", "rightIndexDistal");
    ("mixamorigRightHandMiddle1", "rightMiddleProximal");
    ("mixamorigRightHandMiddle2", "rightMiddleIntermediate");
    ("mixamorigRightHandMiddle3", "rightMiddleDistal");
    ("mixamorigRightHandRing1", "rightRingProximal");
    ("mixamorigRightHandRing2", "rightRingIntermediate");
    ("mixamorigRightHandRing3", "rightRingDistal");
    ("mixamorigRightHandPinky1", "rightLittleProximal");
    ("mixamorigRightHandPinky2", "rightLittleIntermediate");
    ("mixamorigRightHandPinky3", "rightLittleDistal");
    ("mixamorigLeftUpLeg", "leftUpperLeg"); ("mixamorigLeftLeg", "leftLowerLeg");
    ("mixamorigLeftFoot", "leftFoot"); ("mixamorigLeftToeBase", "leftToes");
    ("mixamorigRightUpLeg", "rightUpperLeg"); ("mixamorigRightLeg", "rightLowerLeg");
    ("mixamorigRightFoot", "rightFoot"); ("mixamorigRightToeBase", "rightToes") ].

Fixpoint rigMapLookup (m : list (string * string)) (k : string) : option string :=
  match m with
  | [] => None
  | (k', v) :: rest => if String.eqb k' k then Some v else rigMapLookup rest k
  end.

(** The scene graph of a loaded FBX asset: a node, the rotation
    [getWorldQuaternion] reports for it, and its children.  three.js takes
    that rotation from the node's world matrix (the rotations and scales of
    the node and all its ancestors, decomposed with square roots); it is
    part of the asset here, and nothing is assumed of it. *)
#[warnings="-register-all"]
Inductive SceneNode :=
  Node (self : Object3D) (worldQuaternion : Quaternion) (children : list SceneNode).

Definition nodeSelf (n : SceneNode) : Object3D :=
  match n with Node self _ _ => self end.


(** [node.getWorldQuaternion(target)] *)
Definition getWorldQuaternion (n : SceneNode) : Quaternion :=
  match n with Node _ worldQuaternion _ => worldQuaternion end.

Record FBXAsset := mkAsset {
  assetRoot : SceneNode;
  animations : list AnimationClip
}.

(** [getObjectByName]: depth-first, the node itself first.  The result is
    the node found together with its [parent] ([None] for the root of the
    asset). *)
Fixpoint findByName (parent : option SceneNode) (n : SceneNode) (nm : string)
  : option (option SceneNode * SceneNode) :=
  match n with
  | Node self _ children =>
    if String.eqb (name self) nm then Some (parent, n)
    else
      (fix inChildren (cs : list SceneNode) : option (option SceneNode * SceneNode) :=
         match cs with
         | [] => None
         | c :: rest =>
           match findByName (Some n) c nm with
           | Some r => Some r
           | None => inChildren rest
           end
         end) children
  end.

Definition getObjectByName (asset : FBXAsset) (nm : string)
  : option (option SceneNode * SceneNode) :=
  findByName None (assetRoot asset) nm.

(** [String.prototype.split('.')] *)
Fixpoint splitDotAux (s : string) (cur : string) : list string :=
  match s with
  | EmptyString => [cur]
  | String c rest =>
    if Ascii.eqb c "."%char then cur :: splitDotAux rest ""
    else splitDotAux rest (cur ++ String c "")
  end.

Definition splitDot (s : string) : list string := splitDotAux s "".

(** A missing array element prints as [undefined] in a template string. *)
Definition orUndefined (x : option string) : string :=
  match x with
  | Some s => s
  | None => "undefined"
  end.

Definition Qgtb (a b : Q) : bool := negb (Qle_bool a b).

Section Retargeting.
Context `{Trig}.

(** [armBiasQuats[vrmBoneName]] *)
Definition armBiasQuat (armSpreadBiasDeg : Q) (vrmBoneName : string) : option Quaternion :=
  let ARM_SPREAD_BIAS_RAD := (armSpreadBiasDeg * PI) / 180 in
  if Qgtb (Qabs ARM_SPREAD_BIAS_RAD) 0.001 then
    if String.eqb vrmBoneName "leftUpperArm" then
      Some (Quat.setFromEuler (0, 0, - ARM_SPREAD_BIAS_RAD))
    else if String.eqb vrmBoneName "rightUpperArm" then
      Some (Quat.setFromEuler (0, 0, ARM_SPREAD_BIAS_RAD))
    else None
  else None.

(** The body of the loop over the values of one quaternion track. *)
Definition retargetQuat (parentRestWorldRotation restRotationInverse : Quaternion)
    (isVRM0 : bool) (biasQ : option Quaternion) (v : Quaternion) : Quaternion :=
  let q := Quat.multiply (Quat.premultiply v parentRestWorldRotation) restRotationInverse in
  let q := if isVRM0 then mkQuat (- qx q) (qy q) (- qz q) (qw q) else q in
  match biasQ with
  | Some b => Quat.premultiply q b
  | None => q
  end.

Definition retargetVec (isVRM0 : bool) (hipsPositionScale : Q) (v : Vector3) : Vector3 :=
  if isVRM0 then
    mkV3 (- vx v * hipsPositionScale) (vy v * hipsPositionScale) (- vz v * hipsPositionScale)
  else
    mkV3 (vx v * hipsPositionScale) (vy v * hipsPositionScale) (vz v * hipsPositionScale).

(** One iteration of [for (const track of sourceClip.tracks)]: the tracks
    pushed for [track] (none when the iteration hits a [continue]). *)
Definition retargetTrack (asset : FBXAsset) (vrm : VRM) (armSpreadBiasDeg : Q)
    (hipsPositionScale : Q) (isVRM0 : bool) (track : KeyframeTrack) : list KeyframeTrack :=
  let parts := splitDot (trackName track) in
  let mixamoRigName := orUndefined (nth_error parts 0) in
  let propertyName := orUndefined (nth_error parts 1) in
  match rigMapLookup MIXAMO_VRM_RIG_MAP mixamoRigName with
  | None => []
  | Some vrmBoneName =>
    match Procedural.getBone vrm vrmBoneName with
    | None => []
    | Some vrmNode =>
      let vrmNodeName := name vrmNode in
      match getObjectByName asset mixamoRigName with
      | None => []
      | Some (parent, mixamoRigNode) =>
        let restRotationInverse := Quat.invert (getWorldQuaternion mixamoRigNode) in
        let parentRestWorldRotation :=
          match parent with
          | Some p => getWorldQuaternion p
          | None => Quat.identity
          end in
        match trackType track with
        | QuaternionKeyframeTrack =>
          [mkTrack QuaternionKeyframeTrack (vrmNodeName ++ "." ++ propertyName)
             (trackTimes track)
             (map (retargetQuat parentRestWorldRotation restRotationInverse isVRM0
                     (armBiasQuat armSpreadBiasDeg vrmBoneName))
                  (trackQuats track))
             []]
        | VectorKeyframeTrack =>
          [mkTrack VectorKeyframeTrack (vrmNodeName ++ "." ++ propertyName)
             (trackTimes track) []
             (map (retargetVec isVRM0 hipsPositionScale) (trackVecs track))]
        | OtherKeyframeTrack => []
        end
      end
    end
  end.

(** [asset.animations.find(c => c.name === 'mixamo.com') ?? asset.animations[0]] *)
Definition sourceClipOf (asset : FBXAsset) : option AnimationClip :=
  match find (fun c => String.eqb (clipName c) "mixamo.com") (animations asset) with
  | Some c => Some c
  | None => nth_error (animations asset) 0
  end.

(** The part of [loadMixamoAnimation] after the asset is loaded. *)
Definition retarget (asset : FBXAsset) (url : string) (vrm : VRM)
    (clipNameArg : option string) (armSpreadBiasDeg : Q) : outcome AnimationClip :=
  match sourceClipOf asset with
  | None => Throw ("No animation clip found in FBX: " ++ url)
  | Some sourceClip =>
    let motionHipsHeight :=
      match getObjectByName asset "mixamorigHips" with
      | Some (_, node) => vy (position (nodeSelf node))
      | None => 1
      end in
    let vrmHipsY :=
      match Procedural.getBone vrm "hips" with
      | Some _ =>
        match humanoid vrm with
        | Some h => match restHipsY h with Some y => y | None => 1 end
        | None => 1
        end
      | None => 1
      end in
    let hipsPositionScale := vrmHipsY / motionHipsHeight in
    let isVRM0 :=
      match metaVersion vrm with Some v => String.eqb v "0" | None => false end in
    let tracks :=
      flat_map (retargetTrack asset vrm armSpreadBiasDeg hipsPositionScale isVRM0)
               (clipTracks sourceClip) in
    let nm := match clipNameArg with Some n => n | None => clipName sourceClip end in
    Ok (mkClip nm (clipDuration sourceClip) tracks)
  end.

(** [loadMixamoAnimation]; [loadAsync] is the FBX loader, which throws when
    the file cannot be fetched or parsed. *)
Definition loadMixamoAnimation (loadAsync : string -> outcome FBXAsset) (url : string)
    (vrm : VRM) (clipNameArg : option string) (armSpreadBiasDeg : Q) : outcome AnimationClip :=
  obind (loadAsync url) (fun asset => retarget asset url vrm clipNameArg armSpreadBiasDeg).

End Retargeting.

End Retarget.

(** ** animation-manager.ts: motion definitions *)

Module Motion.

Inductive MotionCategory := idle | emotion | gesture | dance | special | exercise.

Inductive PlayMode := playLoop | playOnce.

Inductive Format := vrma | fbx.

Record MotionDef := mkMotionDef {
  id : string;
  category : MotionCategory;
  playMode : PlayMode;
  url : string;
  format : Format;
  fadeDuration : Q;
  moodTags : list string;
  altGroup : string;
  keywords : list string
}.

Definition categoryEqb (a b : MotionCategory) : bool :=
  match a, b with
  | idle, idle | emotion, emotion | gesture, gesture
  | dance, dance | special, special | exercise, exercise => true
  | _, _ => false
  end.

End Motion.

(** ** animation-manager.ts: motion history tracker *)

Module History.

Definition MAX_HISTORY : nat := 10.
Definition MAX_SAME_MOTION_USES : nat := 2.

Record MotionHistory := mkHistory {
  history : list string;
  altGroupUsage : gmap string (list string)
}.

Definition empty : MotionHistory := mkHistory [] ∅.

(** [list.push(x); if (list.length > n) list.shift()] *)
Definition pushBounded (n : nat) (l : list string) (x : string) : list string :=
  let l' := (l ++ [x])%list in
  if Nat.ltb n (length l') then tl l' else l'.

Definition record (motionId altGroup : string) (h : MotionHistory) : MotionHistory :=
  let hist := pushBounded MAX_HISTORY (history h) motionId in
  let groupList := match altGroupUsage h !! altGroup with Some l => l | None => [] end in
  let groupList := pushBounded 10 groupList motionId in
  mkHistory hist (<[altGroup := groupList]> (altGroupUsage h)).

Definition recentCount (h : MotionHistory) (motionId : string) : nat :=
  length (List.filter (fun i => String.eqb i motionId) (history h)).

(** [this.history.slice(-n)]; [slice(-0)] is [slice(0)], the whole array. *)
Definition getRecent (h : MotionHistory) (n : nat) : list string :=
  match n with
  | O => history h
  | S _ => skipn (length (history h) - n) (history h)
  end.

(** A string is truthy when it is not empty. *)
Definition truthy (s : option string) : bool :=
  match s with
  | Some "" => false
  | Some _ => true
  | None => false
  end.

Definition eligibleOf (h : MotionHistory) (candidates : list Motion.MotionDef) : list Motion.MotionDef :=
  List.filter (fun m => Nat.ltb (recentCount h (Motion.id m)) MAX_SAME_MOTION_USES) candidates.

Definition poolOf (h : MotionHistory) (candidates : list Motion.MotionDef) : list Motion.MotionDef :=
  match eligibleOf h candidates with
  | [] => candidates
  | eligible => eligible
  end.

Definition weightOf (h : MotionHistory) (preferAltGroup : option string) (m : Motion.MotionDef) : Q :=
  let count := recentCount h (Motion.id m) in
  let w := Qmax 1 (inject_Z (Z.of_nat MAX_SAME_MOTION_USES + 1 - Z.of_nat count)) in
  if truthy preferAltGroup
     && match preferAltGroup with
        | Some g => String.eqb (Motion.altGroup m) g
        | None => false
        end
  then w * 1.5 else w.

(** [for (i...) { r -= weights[i]; if (r <= 0) return pool[i]; }] *)
Fixpoint drawLoop (r : Q) (pool : list Motion.MotionDef) (weights : list Q) : option Motion.MotionDef :=
  match pool, weights with
  | m :: pool', w :: weights' =>
    let r' := r - w in
    if Qle_bool r' 0 then Some m else drawLoop r' pool' weights'
  | _, _ => None
  end.

(** [random] is the value of [Math.random()]. *)
Definition pickWithRotation (h : MotionHistory) (candidates : list Motion.MotionDef)
    (preferAltGroup : option string) (random : Q) : option Motion.MotionDef :=
  match candidates with
  | [] => None
  | _ =>
    let pool := poolOf h candidates in
    let weights := map (weightOf h preferAltGroup) pool in
    let totalWeight := fold_left Qplus weights 0 in
    let r := random * totalWeight in
    match drawLoop r pool weights with
    | Some m => Some m
    | None => last pool
    end
  end.

(** [arr[Math.floor(Math.random() * arr.length)]] *)
Definition randomElement {A} (random : Q) (arr : list A) : option A :=
  nth_error arr (Z.to_nat (Qfloor (random * inject_Z (Z.of_nat (length arr))))).

(** Next alt in a group (round-robin, skip recently used).  [None] stands for
    [null]; an index outside the array (only when [random] is not below 1)
    is [None] too. *)
Definition getNextAlt (library : list Motion.MotionDef) (h : MotionHistory)
    (altGroup : string) (random : Q) : option string :=
  let groupMotions := List.filter (fun m => String.eqb (Motion.altGroup m) altGroup) library in
  if Nat.leb (length groupMotions) 1 then option_map Motion.id (nth_error groupMotions 0)
  else
    let used := match altGroupUsage h !! altGroup with Some l => l | None => [] end in
    let lastUsed : option string := last used in
    let notLast (m : Motion.MotionDef) :=
      match lastUsed with
      | Some l => negb (String.eqb (Motion.id m) l)
      | None => true
      end in
    let candidates :=
      List.filter (fun m => notLast m && Nat.ltb (recentCount h (Motion.id m)) MAX_SAME_MOTION_USES)
             groupMotions in
    match candidates with
    | _ :: _ => option_map Motion.id (randomElement random candidates)
    | [] =>
      let any := List.filter notLast groupMotions in
      match any with
      | _ :: _ => option_map Motion.id (randomElement random any)
      | [] => option_map Motion.id (nth_error groupMotions 0)
      end
    end.

Definition clear (h : MotionHistory) : MotionHistory := empty.

End History.

(** ** THREE.AnimationMixer and THREE.AnimationAction

    The state of an action that the manager sets or reads.  An action belongs
    to one clip object; [mixer.clipAction(clip)] returns the same action for
    the same clip object, so actions are keyed by the [uuid] of their clip. *)

Module Mixer.

Inductive LoopMode := LoopOnce | LoopRepeat.

Record ClipObject := mkClipObject {
  uuid : nat;
  clip : AnimationClip
}.

Record AnimationAction := mkAction {
  actionClip : nat;
  loopMode : LoopMode;
  clampWhenFinished : bool;
  weight : Q;
  effectiveWeight : Q;
  timeScale : Q;
  enabled : bool;
  paused : bool;
  (** the pending weight interpolant: from, to, duration *)
  fading : option (Q * Q * Q);
  (** the pending time-scale interpolant: from, to, duration *)
  warping : option (Q * Q * Q);
  (** activated in the mixer by [play()] *)
  scheduled : bool
}.

Definition newAction (clipUuid : nat) : AnimationAction :=
  mkAction clipUuid LoopRepeat false 1 1 1 true false None None false.

Definition setLoop (mode : LoopMode) (a : AnimationAction) : AnimationAction :=
  let 'mkAction c _ cl w ew ts en pa fa wa sc := a in
  mkAction c mode cl w ew ts en pa fa wa sc.

Definition setClampWhenFinished (b : bool) (a : AnimationAction) : AnimationAction :=
  let 'mkAction c lm _ w ew ts en pa fa wa sc := a in
  mkAction c lm b w ew ts en pa fa wa sc.

(** [reset()]: [paused = false; enabled = true; time = 0], then
    [stopFading().stopWarping()]. *)
Definition reset (a : AnimationAction) : AnimationAction :=
  let 'mkAction c lm cl w ew ts _ _ _ _ sc := a in
  mkAction c lm cl w ew ts true false None None sc.

Definition setEffectiveTimeScale (t : Q) (a : AnimationAction) : AnimationAction :=
  let 'mkAction c lm cl w ew _ en pa fa _ sc := a in
  mkAction c lm cl w ew t en pa fa None sc.

(** [setEffectiveWeight(w)]: [this.weight = w;
    this._effectiveWeight = this.enabled ? w : 0; return this.stopFading()]. *)
Definition setEffectiveWeight (w' : Q) (a : AnimationAction) : AnimationAction :=
  let 'mkAction c lm cl _ _ ts en pa _ wa sc := a in
  mkAction c lm cl w' (if en then w' else 0) ts en pa None wa sc.

Definition fadeIn (duration : Q) (a : AnimationAction) : AnimationAction :=
  let 'mkAction c lm cl w ew ts en pa _ wa sc := a in
  mkAction c lm cl w ew ts en pa (Some (0, 1, duration)) wa sc.

Definition fadeOut (duration : Q) (a : AnimationAction) : AnimationAction :=
  let 'mkAction c lm cl w ew ts en pa _ wa sc := a in
  mkAction c lm cl w ew ts en pa (Some (1, 0, duration)) wa sc.

Definition warp (startScale endScale duration : Q) (a : AnimationAction) : AnimationAction :=
  let 'mkAction c lm cl w ew ts en pa fa _ sc := a in
  mkAction c lm cl w ew ts en pa fa (Some (startScale, endScale, duration)) sc.

Definition play (a : AnimationAction) : AnimationAction :=
  let 'mkAction c lm cl w ew ts en pa fa wa _ := a in
  mkAction c lm cl w ew ts en pa fa wa true.

Definition isRunning (a : AnimationAction) : bool :=
  enabled a && negb (paused a) && negb (Qeq_bool (timeScale a) 0) && scheduled a.

(** The weight the mixer applies once the pending fade, if any, is over:
    [_updateWeight] multiplies [weight] by the end value of the interpolant
    and disables the action when that value is 0. *)
Definition settledWeight (a : AnimationAction) : Q :=
  if enabled a then
    match fading a with
    | Some (_, to, _) => weight a * to
    | None => weight a
    end
  else 0.

Record AnimationMixer := mkMixer {
  actions : gmap nat AnimationAction;
  (** duration of the clip of each action, for [crossFadeTo] with warping *)
  clipDurations : gmap nat Q
}.

Definition emptyMixer : AnimationMixer := mkMixer ∅ ∅.

(** [mixer.clipAction(clip)]: the action of this clip, created on first use. *)
Definition clipAction (c : ClipObject) (m : AnimationMixer) : nat * AnimationMixer :=
  match actions m !! uuid c with
  | Some _ => (uuid c, m)
  | None =>
    (uuid c, mkMixer (<[uuid c := newAction (uuid c)]> (actions m))
                     (<[uuid c := clipDuration (clip c)]> (clipDurations m)))
  end.

(** Apply a method to the action [ref] of the mixer. *)
Definition onAction (ref : nat) (f : AnimationAction -> AnimationAction) (m : AnimationMixer)
  : AnimationMixer :=
  match actions m !! ref with
  | Some a => mkMixer (<[ref := f a]> (actions m)) (clipDurations m)
  | None => m
  end.

Definition durationOf (ref : nat) (m : AnimationMixer) : Q :=
  match clipDurations m !! ref with Some d => d | None => 0 end.

(** [fadeOutAction.crossFadeTo(fadeInAction, duration, warp)] *)
Definition crossFadeTo (fadeOutRef fadeInRef : nat) (duration : Q) (warpFlag : bool)
    (m : AnimationMixer) : AnimationMixer :=
  let m := onAction fadeOutRef (fadeOut duration) m in
  let m := onAction fadeInRef (fadeIn duration) m in
  if warpFlag then
    let fadeInDuration := durationOf fadeInRef m in
    let fadeOutDuration := durationOf fadeOutRef m in
    let startEndRatio := fadeOutDuration / fadeInDuration in
    let endStartRatio := fadeInDuration / fadeOutDuration in
    let m := onAction fadeOutRef (warp 1 startEndRatio duration) m in
    onAction fadeInRef (warp endStartRatio 1 duration) m
  else m.

Definition getAction (ref : option nat) (m : AnimationMixer) : option AnimationAction :=
  match ref with
  | Some r => actions m !! r
  | None => None
  end.

End Mixer.

(** ** animation-manager.ts: the manager *)

Module Manager.

Record AnimationManager := mkManager {
  vrm : option VRM;
  mixer : option Mixer.AnimationMixer;
  (** source of the [uuid] of the next clip object created *)
  nextUuid : nat;
  clipCache : gmap string Mixer.ClipObject;
  activeLoopAction : option nat;
  activeLoopMotionId : option string;
  activeShotAction : option nat;
  fallbackIdleAction : option nat;
  motionHistory : History.MotionHistory;
  idleSeconds : Q;
  hobbyPlaying : bool;
  hobbyKeywords : list string;
  currentEmotion : string;
  armSpreadBiasDeg : Q
}.

(** [setHobbyKeywords], [setCurrentEmotion], [setArmSpreadBias],
    [resetIdleTimer] *)
Definition setHobbyKeywords (keywords : list string) (s : AnimationManager) : AnimationManager :=
  let 'mkManager v m n cc la li sa fa h i hp _ ce ab := s in
  mkManager v m n cc la li sa fa h i hp keywords ce ab.

Definition setCurrentEmotion (emo : string) (s : AnimationManager) : AnimationManager :=
  let 'mkManager v m n cc la li sa fa h i hp hk _ ab := s in
  mkManager v m n cc la li sa fa h i hp hk emo ab.

Definition setArmSpreadBias (deg : Q) (s : AnimationManager) : AnimationManager :=
  let 'mkManager v m n cc la li sa fa h i hp hk ce _ := s in
  mkManager v m n cc la li sa fa h i hp hk ce deg.

Definition resetIdleTimer (s : AnimationManager) : AnimationManager :=
  let 'mkManager v m n cc la li sa fa h _ _ hk ce ab := s in
  mkManager v m n cc la li sa fa h 0 false hk ce ab.

Definition defaultFade : Q := 0.5.
Definition hobbyIdleThreshold : Q := 600.

Definition initial : AnimationManager :=
  mkManager None None 0 ∅ None None None None History.empty 0 false [] "neutral" 20.

Definition setMixer (m : Mixer.AnimationMixer) (s : AnimationManager) : AnimationManager :=
  let 'mkManager v _ n cc la li sa fa h i hp hk ce ab := s in
  mkManager v (Some m) n cc la li sa fa h i hp hk ce ab.

Definition setLoopSlot (a : option nat) (mid : option string) (s : AnimationManager)
  : AnimationManager :=
  let 'mkManager v m n cc _ _ sa fa h i hp hk ce ab := s in
  mkManager v m n cc a mid sa fa h i hp hk ce ab.

Definition setShotSlot (a : option nat) (s : AnimationManager) : AnimationManager :=
  let 'mkManager v m n cc la li _ fa h i hp hk ce ab := s in
  mkManager v m n cc la li a fa h i hp hk ce ab.

Definition setFallbackIdle (a : option nat) (s : AnimationManager) : AnimationManager :=
  let 'mkManager v m n cc la li sa _ h i hp hk ce ab := s in
  mkManager v m n cc la li sa a h i hp hk ce ab.

Definition setHistory (h' : History.MotionHistory) (s : AnimationManager) : AnimationManager :=
  let 'mkManager v m n cc la li sa fa _ i hp hk ce ab := s in
  mkManager v m n cc la li sa fa h' i hp hk ce ab.

(** [new THREE.AnimationClip(...)] gives the clip a fresh [uuid];
    [this.clipCache.set(motionId, clip)]. *)
Definition cacheNewClip (motionId : string) (c : AnimationClip) (s : AnimationManager)
  : Mixer.ClipObject * AnimationManager :=
  let 'mkManager v m n cc la li sa fa h i hp hk ce ab := s in
  let obj := Mixer.mkClipObject n c in
  (obj, mkManager v m (S n) (<[motionId := obj]> cc) la li sa fa h i hp hk ce ab).

Definition newClipObject (c : AnimationClip) (s : AnimationManager)
  : Mixer.ClipObject * AnimationManager :=
  let 'mkManager v m n cc la li sa fa h i hp hk ce ab := s in
  (Mixer.mkClipObject n c, mkManager v m (S n) cc la li sa fa h i hp hk ce ab).

(** Apply a method to an action of the bound mixer. *)
Definition act (ref : option nat) (f : Mixer.AnimationAction -> Mixer.AnimationAction)
    (s : AnimationManager) : AnimationManager :=
  match ref, mixer s with
  | Some r, Some m => setMixer (Mixer.onAction r f m) s
  | _, _ => s
  end.

Definition optEqb (a : option string) (b : string) : bool :=
  match a with
  | Some x => String.eqb x b
  | None => false
  end.

Definition optNatEqb (a : option nat) (b : nat) : bool :=
  match a with
  | Some x => Nat.eqb x b
  | None => false
  end.

Section WithEnvironment.
Context `{Trig}.

(** The motion library, immutable once loaded. *)
Variable _motionLibrary : list Motion.MotionDef.

(** [gltfLoader.loadAsync(url)] followed by [createVRMAnimationClip]: the
    clip of a VRMA file, or the exception of a failed load. *)
Variable loadVRMAFile : string -> VRM -> outcome AnimationClip.

(** [FBXLoader.loadAsync(url)]. *)
Variable loadFBX : string -> outcome Retarget.FBXAsset.

Definition findDef (motionId : string) : option Motion.MotionDef :=
  find (fun m => String.eqb (Motion.id m) motionId) _motionLibrary.

Definition loadVRMA (s : AnimationManager) (url nm : string) : outcome AnimationClip :=
  match vrm s with
  | None => Throw "No VRM bound"
  | Some v =>
    obind (loadVRMAFile url v)
          (fun c => Ok (mkClip nm (clipDuration c) (clipTracks c)))
  end.

(** The last step of [loadMotion]: the procedural generator, else [null]. *)
Definition loadProcedural (v : VRM) (motionId : string) (s : AnimationManager)
  : option Mixer.ClipObject * AnimationManager :=
  match Procedural.createProceduralClip v motionId with
  | Some proceduralClip =>
    let (obj, s') := cacheNewClip motionId proceduralClip s in (Some obj, s')
  | None => (None, s)
  end.

(** Load a motion by id. *)
Definition loadMotion (motionId : string) (s : AnimationManager)
  : option Mixer.ClipObject * AnimationManager :=
  match vrm s, mixer s with
  | Some v, Some _ =>
    match clipCache s !! motionId with
    | Some obj => (Some obj, s)
    | None =>
      match findDef motionId with
      | Some def =>
        let loaded :=
          match Motion.format def with
          | Motion.vrma => loadVRMA s (Motion.url def) motionId
          | Motion.fbx =>
            Retarget.loadMixamoAnimation loadFBX (Motion.url def) v (Some motionId)
                                         (armSpreadBiasDeg s)
          end in
        match loaded with
        | Ok c => let (obj, s') := cacheNewClip motionId c s in (Some obj, s')
        | Throw _ => loadProcedural v motionId s
        end
      | None => loadProcedural v motionId s
      end
    end
  | _, _ => (None, s)
  end.

Definition playLoop (c : Mixer.ClipObject) (motionId : string) (fadeDuration : Q)
    (s : AnimationManager) : AnimationManager :=
  match mixer s with
  | None => s
  | Some m =>
    if optEqb (activeLoopMotionId s) motionId
       && match Mixer.getAction (activeLoopAction s) m with
          | Some a => Mixer.isRunning a
          | None => false
          end
    then s
    else
      let (newAction, m) := Mixer.clipAction c m in
      let m := Mixer.onAction newAction (Mixer.setLoop Mixer.LoopRepeat) m in
      let m := Mixer.onAction newAction (Mixer.setClampWhenFinished false) m in
      let m :=
        match activeLoopAction s with
        | Some old =>
          if negb (Nat.eqb old newAction) then
            let m := Mixer.onAction newAction
                       (fun a => Mixer.setEffectiveWeight 1
                                   (Mixer.setEffectiveTimeScale 1 (Mixer.reset a))) m in
            let m := Mixer.crossFadeTo old newAction fadeDuration true m in
            Mixer.onAction newAction Mixer.play m
          else
            Mixer.onAction newAction
              (fun a => Mixer.play (Mixer.fadeIn fadeDuration (Mixer.reset a))) m
        | None =>
          Mixer.onAction newAction
            (fun a => Mixer.play (Mixer.fadeIn fadeDuration (Mixer.reset a))) m
        end in
      setLoopSlot (Some newAction) (Some motionId) (setMixer m s)
  end.

Definition playOneShot (c : Mixer.ClipObject) (fadeDuration : Q) (s : AnimationManager)
  : AnimationManager :=
  match mixer s with
  | None => s
  | Some _ =>
    let s := act (activeShotAction s) (Mixer.fadeOut (fadeDuration * 0.5)) s in
    match mixer s with
    | None => s
    | Some m =>
      let (action, m) := Mixer.clipAction c m in
      let m := Mixer.onAction action (Mixer.setLoop Mixer.LoopOnce) m in
      let m := Mixer.onAction action (Mixer.setClampWhenFinished true) m in
      let m := Mixer.onAction action
                 (fun a => Mixer.setEffectiveWeight 1
                             (Mixer.setEffectiveTimeScale 1 (Mixer.reset a))) m in
      let s := setMixer m s in
      let s := act (activeLoopAction s) (Mixer.setEffectiveWeight 0.2) s in
      let s := act (Some action) (fun a => Mixer.play (Mixer.fadeIn fadeDuration a)) s in
      setShotSlot (Some action) s
    end
  end.

(** The handler of the mixer's [finished] event. *)
Definition onAnimationFinished (action : nat) (s : AnimationManager) : AnimationManager :=
  if optNatEqb (activeShotAction s) action then
    let s := act (Some action) (Mixer.fadeOut 0.4) s in
    let s := setShotSlot None s in
    act (activeLoopAction s) (Mixer.setEffectiveWeight 1) s
  else s.

(** Play a motion by id with crossfading.  The result is [Ok tt] when the
    call returns and [Throw] when it throws. *)
Definition playMotion (motionId : string) (s : AnimationManager)
  : outcome unit * AnimationManager :=
  match mixer s with
  | None => (Ok tt, s)
  | Some _ =>
    let def := findDef motionId in
    let fadeDuration := match def with Some d => Motion.fadeDuration d | None => defaultFade end in
    let playMode := match def with Some d => Motion.playMode d | None => Motion.playOnce end in
    let (loaded, s) := loadMotion motionId s in
    match loaded with
    | None => (Ok tt, s)
    | Some c =>
      let s :=
        match def with
        | Some d => setHistory (History.record motionId (Motion.altGroup d) (motionHistory s)) s
        | None => s
        end in
      match playMode with
      | Motion.playLoop => (Ok tt, playLoop c motionId fadeDuration s)
      | Motion.playOnce => (Ok tt, playOneShot c fadeDuration s)
      end
    end
  end.

Definition playMotionWithFallback (motionId : string) (s : AnimationManager)
  : bool * AnimationManager :=
  match mixer s with
  | None => (false, s)
  | Some _ =>
    match playMotion motionId s with
    | (Ok _, s') => (true, s')
    | (Throw _, s') => (false, s')
    end
  end.

Definition resetToIdle (s : AnimationManager) : AnimationManager :=
  match mixer s with
  | None => s
  | Some _ =>
    let s := act (activeLoopAction s) (Mixer.fadeOut 0.5) s in
    let s := act (activeShotAction s) (Mixer.fadeOut 0.3) s in
    let s := setShotSlot None (setLoopSlot None None s) in
    match fallbackIdleAction s with
    | Some f =>
      let s := act (Some f) (fun a => Mixer.play (Mixer.fadeIn 0.5 (Mixer.reset a))) s in
      setLoopSlot (Some f) (Some "__fallback_idle") s
    | None => s
    end
  end.

(** [moodMap[emotion] ?? ['neutral']] for the keys of the map itself.  The
    map is an object literal, so an emotion that names a property it
    inherits ([constructor], [toString], ...) finds that property instead;
    those strings are outside this lookup. *)
Definition moodTagsOf (emo : string) : list string :=
  if String.eqb emo "happy" then ["happy"]
  else if String.eqb emo "sad" then ["sad"]
  else if String.eqb emo "angry" then ["angry"]
  else ["neutral"].

Definition includes (l : list string) (x : string) : bool :=
  existsb (String.eqb x) l.

(** The pool of idle clips [playEmotionIdle] selects from. *)
Definition idlePool (emo : string) : list Motion.MotionDef :=
  let tags := moodTagsOf emo in
  let candidates :=
    List.filter (fun m => Motion.categoryEqb (Motion.category m) Motion.idle
                     && existsb (includes tags) (Motion.moodTags m)) _motionLibrary in
  match candidates with
  | _ :: _ => candidates
  | [] => List.filter (fun m => Motion.categoryEqb (Motion.category m) Motion.idle) _motionLibrary
  end.

(** Pick the best idle for the current emotion using alt rotation and
    history.  [randomPick] is the draw of [pickWithRotation], [randomAlt]
    the draw of [getNextAlt]. *)
Definition playEmotionIdle (emo : string) (randomPick randomAlt : Q) (s : AnimationManager)
  : AnimationManager :=
  let pool := idlePool emo in
  match pool with
  | [] => resetToIdle s
  | _ =>
    let pick := History.pickWithRotation (motionHistory s) pool None randomPick in
    let samePick :=
      match pick with
      | None => true
      | Some p => optEqb (activeLoopMotionId s) (Motion.id p)
      end in
    if samePick then
      let currentDef :=
        match activeLoopMotionId s with
        | Some a => findDef a
        | None => None
        end in
      match currentDef with
      | Some cd =>
        match History.getNextAlt _motionLibrary (motionHistory s) (Motion.altGroup cd) randomAlt with
        | Some altId =>
          if History.truthy (Some altId) && negb (optEqb (activeLoopMotionId s) altId) then
            snd (playMotionWithFallback altId s)
          else s
        | None => s
        end
      | None => s
      end
    else
      match pick with
      | None => s
      | Some p =>
        let (success, s') := playMotionWithFallback (Motion.id p) s in
        if success then s' else resetToIdle s'
      end
  end.

(** The tracks of the fallback idle clip: one guarded block per bone. *)
Definition fallbackIdleTracks (v : VRM) : list KeyframeTrack :=
  let hips := Procedural.getBone v "hips" in
  let spine := Procedural.getBone v "spine" in
  let chest := Procedural.getBone v "chest" in
  let head := Procedural.getBone v "head" in
  let leftArm := Procedural.getBone v "leftUpperArm" in
  let rightArm := Procedural.getBone v "rightUpperArm" in
  let duration := 4.0 in
  let times4 := [0; 1.5; 3; duration] in
  let times3 := [0; 2; duration] in
  let armEuler (base : Procedural.Euler) (dz : Q) : Procedural.Euler :=
    let '(x, y, z) := base in (x, y, z + dz) in
  (Procedural.pushIf spine (fun b =>
      let p := position b in
      [mkTrack VectorKeyframeTrack (name b ++ ".position") times4 []
         [mkV3 (vx p) (vy p) (vz p); mkV3 (vx p) (vy p + 0.003) (vz p);
          mkV3 (vx p) (vy p + 0.001) (vz p); mkV3 (vx p) (vy p) (vz p)]])
   ++ Procedural.pushIf chest (fun b =>
      [Procedural.quatTrack b times4
         (map (fun pitch => (pitch, 0, 0)) [0; 0.012; 0.004; 0])])
   ++ Procedural.pushIf head (fun b =>
      [Procedural.quatTrack b [0; 1.5; 2.5; 3.5; duration]
         (map (fun '(pitch, yaw) => (pitch, yaw, 0))
              [(0.02, 0.01); (-0.01, -0.015); (0.01, 0.02); (-0.015, -0.01); (0.02, 0.01)])])
   ++ Procedural.pushIf hips (fun b =>
      let p := position b in
      [mkTrack VectorKeyframeTrack (name b ++ ".position") times3 []
         [mkV3 (vx p) (vy p) (vz p); mkV3 (vx p + 0.002) (vy p) (vz p);
          mkV3 (vx p) (vy p) (vz p)]])
   ++ Procedural.pushIf leftArm (fun b =>
      [Procedural.quatTrack b times4
         (map (armEuler Procedural.REST_POSE_leftUpperArm) [0; 0.015; -0.01; 0])])
   ++ Procedural.pushIf rightArm (fun b =>
      [Procedural.quatTrack b times4
         (map (armEuler Procedural.REST_POSE_rightUpperArm) [0; -0.015; 0.01; 0])]))%list.

Definition createFallbackIdle (s : AnimationManager) : AnimationManager :=
  match vrm s, mixer s with
  | Some v, Some _ =>
    match fallbackIdleTracks v with
    | [] => s
    | tracks =>
      let (obj, s) := newClipObject (mkClip "fallback_idle" 4.0 tracks) s in
      match mixer s with
      | None => s
      | Some m =>
        let (a, m) := Mixer.clipAction obj m in
        let m := Mixer.onAction a (Mixer.setLoop Mixer.LoopRepeat) m in
        let m := Mixer.onAction a Mixer.play m in
        setLoopSlot (Some a) (Some "__fallback_idle") (setFallbackIdle (Some a) (setMixer m s))
      end
    end
  | _, _ => s
  end.

(** [dispose()] *)
Definition dispose (s : AnimationManager) : AnimationManager :=
  let 'mkManager _ _ n _ _ _ _ _ _ i hp hk ce ab := s in
  mkManager None None n ∅ None None None None History.empty i hp hk ce ab.

(** Bind to a VRM model: creates the mixer and the fallback idle. *)
Definition bind (v : VRM) (s : AnimationManager) : AnimationManager :=
  let 'mkManager _ _ n _ _ _ _ _ _ i hp hk ce ab := dispose s in
  createFallbackIdle
    (mkManager (Some v) (Some Mixer.emptyMixer) n ∅ None None None None History.empty
               i hp hk ce ab).

Definition playClipOnce (c : Mixer.ClipObject) (fadeDuration : Q) (s : AnimationManager)
  : AnimationManager := playOneShot c fadeDuration s.

Definition playClipLoop (c : Mixer.ClipObject) (fadeDuration : Q) (s : AnimationManager)
  : AnimationManager := playLoop c (clipName (Mixer.clip c)) fadeDuration s.

Definition getActiveLoopMotionId (s : AnimationManager) : option string := activeLoopMotionId s.

Definition getMotionsByCategory (category : Motion.MotionCategory) : list Motion.MotionDef :=
  List.filter (fun m => Motion.categoryEqb (Motion.category m) category) _motionLibrary.

Definition getMotionHistory (s : AnimationManager) : list string :=
  History.getRecent (motionHistory s) History.MAX_HISTORY.

End WithEnvironment.

End Manager.

(** ** model.ts: [VRMModel], the calls into the animation manager *)

Module VRMModel.

Section WithEnvironment.
Context `{Trig}.
Variable _motionLibrary : list Motion.MotionDef.
Variable loadVRMAFile : string -> VRM -> outcome AnimationClip.
Variable loadFBX : string -> outcome Retarget.FBXAsset.

Definition idleCandidates : list string := ["Idle1"; "Idle2"; "Idle3"; "Idle4"; "Idle5"].

(** [for (const idleId of idleCandidates) { idleLoaded = await
    playMotionWithFallback(idleId); if (idleLoaded) break; }] *)
Fixpoint tryIdles (ids : list string) (s : Manager.AnimationManager)
  : bool * Manager.AnimationManager :=
  match ids with
  | [] => (false, s)
  | idleId :: rest =>
    let (idleLoaded, s') :=
      Manager.playMotionWithFallback _motionLibrary loadVRMAFile loadFBX idleId s in
    if idleLoaded then (true, s') else tryIdles rest s'
  end.

(** The part of [loadVRM] that drives the animation manager:
    [setArmSpreadBias(vrmSettings?.armSpreadBias ?? 20)], [bind(vrm)], then
    the idle candidates in order. *)
Definition loadVRM (v : VRM) (armSpreadBias : option Q) (s : Manager.AnimationManager)
  : bool * Manager.AnimationManager :=
  let bias := match armSpreadBias with Some b => b | None => 20 end in
  let s := Manager.setArmSpreadBias bias s in
  tryIdles idleCandidates (Manager.bind v s).

(** [gestureMotionMap[gesture]] *)
Definition gestureMotionMap (gesture : string) : option string :=
  if String.eqb gesture "nod" then Some "Nod1"
  else if String.eqb gesture "shake" then Some "Shake_Head_No1"
  else if String.eqb gesture "thinking" then Some "Think1"
  else if String.eqb gesture "clap" then Some "Clapping"
  else if String.eqb gesture "cheer" then Some "Cheering1"
  else if String.eqb gesture "shrug" then Some "Shrugging"
  else if String.eqb gesture "point" then Some "Pointing1"
  else if String.eqb gesture "surprise" then Some "Surprised1"
  else if String.eqb gesture "wave" then Some "Hi"
  else if String.eqb gesture "bow" then Some "Bowing"
  else None.

(** [playGesture]; [bound] tells whether [this.vrm] is set. *)
Definition playGesture (bound : bool) (gesture : string) (s : Manager.AnimationManager)
  : Manager.AnimationManager :=
  if negb bound || String.eqb gesture "none" then s
  else
    match gestureMotionMap gesture with
    | Some motionId =>
      if History.truthy (Some motionId) then
        snd (Manager.playMotionWithFallback _motionLibrary loadVRMAFile loadFBX motionId s)
      else s
    | None => s
    end.

End WithEnvironment.

End VRMModel.

(** ** model.ts: the blink state machine of [EmoteController] *)

Module Blink.

Inductive BlinkPhase := waiting | closing | closed | opening.

Record BlinkState := mkBlink {
  blinkPhase : BlinkPhase;
  (** countdown to next blink *)
  blinkTimer : Q;
  (** current phase progress (0 -> 1) *)
  blinkT : Q;
  blinkCloseTime : Q;
  blinkHoldTime : Q;
  blinkOpenTime : Q;
  (** the weight last written by [em.setValue('blink', _)] *)
  blinkValue : Q
}.

Definition easeInQuad (t : Q) : Q := t * t.

Definition easeOutQuad (t : Q) : Q := t * (2 - t).

Definition Qltb (a b : Q) : bool := negb (Qle_bool b a).

(** [random i] is the value of the [i]-th call of [Math.random()] made by
    the current operation.  The result carries the number of calls made. *)
Definition nextBlinkInterval (random : nat -> Q) (i : nat) : Q * nat :=
  let base := 2.5 + random i * 3.5 in
  if Qltb (random (S i)) 0.1
  then (base + 3 + random (S (S i)) * 4, S (S (S i)))
  else (base, S (S i)).

Definition updateBlink (delta : Q) (random : nat -> Q) (s : BlinkState) : BlinkState :=
  let 'mkBlink phase timer t closeTime holdTime openTime value := s in
  match phase with
  | waiting =>
    let timer := timer - delta in
    if Qle_bool timer 0 then
      mkBlink closing timer 0
              (0.06 + random 0%nat * 0.04)
              (0.02 + random 1%nat * 0.04)
              (0.08 + random 2%nat * 0.06)
              value
    else mkBlink waiting timer t closeTime holdTime openTime value
  | closing =>
    let t := t + delta / closeTime in
    if Qle_bool 1 t then mkBlink closed timer 0 closeTime holdTime openTime 1
    else mkBlink closing timer t closeTime holdTime openTime (easeInQuad t)
  | closed =>
    let t := t + delta / holdTime in
    if Qle_bool 1 t then mkBlink opening timer 0 closeTime holdTime openTime 1
    else mkBlink closed timer t closeTime holdTime openTime 1
  | opening =>
    let t := t + delta / openTime in
    if Qle_bool 1 t then
      let (interval, i) := nextBlinkInterval random 0 in
      let timer :=
        if Qltb (random i) 0.15 then 0.15 + random (S i) * 0.1 else interval in
      mkBlink waiting timer t closeTime holdTime openTime 0
    else mkBlink opening timer t closeTime holdTime openTime (1 - easeOutQuad t)
  end.

(** The state set up by the constructor. *)
Definition init (random : nat -> Q) : BlinkState :=
  mkBlink waiting (fst (nextBlinkInterval random 0)) 0 0.08 0.04 0.10 0.

End Blink.

(** ** model.ts: expression weights of [EmoteController] *)

(** [Math.exp] *)
Class MathExp := {
  exp : Q -> Q
}.

Module Emote.

Definition EXPRESSION_NAMES : list string := ["happy"; "angry"; "sad"; "surprised"].

(** Base lerp speed (units/sec). *)
Definition lerpSpeed : Q := 2.0.

(** The argument of [setEmotion]: every field is optional. *)
Record EmotionWeights := mkWeights {
  happy : option Q;
  angry : option Q;
  sad : option Q;
  surprised : option Q
}.

Record EmoteState := mkEmote {
  currentEmotion : string;
  targetEmotions : gmap string Q;
  currentEmotions : gmap string Q;
  microTarget : gmap string Q
}.

(** The state set up by the field initialisers. *)
Definition initial : EmoteState := mkEmote "neutral" ∅ ∅ ∅.

(** [o[name] ?? 0] *)
Definition orZero (x : option Q) : Q :=
  match x with
  | Some q => q
  | None => 0
  end.

(** [Math.min(1, Math.max(0, x ?? 0))] *)
Definition clamp01 (x : option Q) : Q := Qmin 1 (Qmax 0 (orZero x)).

(** The loop over [Object.entries(this.targetEmotions)]: the first entry
    with the largest value above 0. *)
Definition dominant (entries : list (string * Q)) : string * Q :=
  fold_left (fun (acc : string * Q) (entry : string * Q) =>
               if Blink.Qltb (snd acc) (snd entry) then entry else acc)
            entries ("neutral", 0).

(** Set target emotion weights. *)
Definition setEmotion (emotions : EmotionWeights) (s : EmoteState) : EmoteState :=
  let entries :=
    [ ("happy", clamp01 (happy emotions)); ("angry", clamp01 (angry emotions));
      ("sad", clamp01 (sad emotions)); ("surprised", clamp01 (surprised emotions)) ] in
  let targets := fold_left (fun (m : gmap string Q) (e : string * Q) => <[fst e := snd e]> m)
                           entries ∅ in
  let (maxName, maxVal) := dominant entries in
  mkEmote (if Blink.Qltb 0.25 maxVal then maxName else "neutral")
          targets (currentEmotions s) (microTarget s).

Definition getCurrentEmotion (s : EmoteState) : string := currentEmotion s.

(** Expression blending of one frame.  The second component lists the calls
    [em.setValue(name, next)] in the order they are made. *)
Definition updateExpressions `{MathExp} (delta : Q) (s : EmoteState)
  : EmoteState * list (string * Q) :=
  let t := 1 - exp (- lerpSpeed * delta) in
  fold_left
    (fun (acc : EmoteState * list (string * Q)) (name : string) =>
       let (s, writes) := acc in
       let target := orZero (targetEmotions s !! name) + orZero (microTarget s !! name) in
       let current := orZero (currentEmotions s !! name) in
       let next := current + (Qmin 1 target - current) * t in
       (mkEmote (currentEmotion s) (targetEmotions s)
                (<[name := next]> (currentEmotions s)) (microTarget s),
        (writes ++ [(name, next)])%list))
    EXPRESSION_NAMES (s, []).

End Emote.

(** ** interactions.ts: jelly click effect (spring physics on bone scale) *)

Module Vec.

Definition zero : Vector3 := mkV3 0 0 0.

Definition multiplyScalar (v : Vector3) (k : Q) : Vector3 :=
  mkV3 (vx v * k) (vy v * k) (vz v * k).

Definition add (a b : Vector3) : Vector3 :=
  mkV3 (vx a + vx b) (vy a + vy b) (vz a + vz b).

(** [Math.max(min, Math.min(max, x))] *)
Definition clamp (x lo hi : Q) : Q := Qmax lo (Qmin hi x).

Definition clampScalar (v : Vector3) (lo hi : Q) : Vector3 :=
  mkV3 (clamp (vx v) lo hi) (clamp (vy v) lo hi) (clamp (vz v) lo hi).

Definition lengthSq (v : Vector3) : Q := vx v * vx v + vy v * vy v + vz v * vz v.

Definition sub (a b : Vector3) : Vector3 :=
  mkV3 (vx a - vx b) (vy a - vy b) (vz a - vz b).

Definition dot (a b : Vector3) : Q := vx a * vx b + vy a * vy b + vz a * vz b.

Definition distanceToSquared (a b : Vector3) : Q :=
  let dx := vx a - vx b in
  let dy := vy a - vy b in
  let dz := vz a - vz b in
  dx * dx + dy * dy + dz * dz.

(** [Vector3.applyQuaternion(q)]: v + q.w * t + cross(q.xyz, t) for
    t = 2 * cross(q.xyz, v). *)
Definition applyQuaternion (v : Vector3) (q : Quaternion) : Vector3 :=
  let tx := 2 * (qy q * vz v - qz q * vy v) in
  let ty := 2 * (qz q * vx v - qx q * vz v) in
  let tz := 2 * (qx q * vy v - qy q * vx v) in
  mkV3 (vx v + qw q * tx + qy q * tz - qz q * ty)
       (vy v + qw q * ty + qz q * tx - qx q * tz)
       (vz v + qw q * tz + qx q * ty - qy q * tx).

(** [v.length() > c] for a constant [c >= 0].  The length is a square root;
    the comparison is made on the squares. *)
Definition lengthGt (v : Vector3) (c : Q) : bool :=
  negb (Qle_bool (lengthSq v) (c * c)).

End Vec.

Module Jelly.

Record SpringState := mkSpring {
  boneName : string;
  (** scale offset from (1,1,1): the spring displacement *)
  offset : Vector3;
  velocity : Vector3;
  (** propagation delay (seconds) *)
  delay : Q;
  (** remaining delay *)
  delayLeft : Q;
  (** whether this spring has been activated *)
  activated : bool
}.

(** [springs] is a [Map]: the pairs are in insertion order, the keys are
    distinct. *)
Record JellyEffect := mkJelly {
  vrm : option VRM;
  springs : list (string * SpringState);
  active : bool
}.

Definition tension : Q := 300.
Definition damping : Q := 8.
Definition maxDisplacement : Q := 0.35.

(** Bones that support jelly (VRM humanoid names). *)
Definition JELLY_BONES : list string :=
  [ "hips"; "spine"; "chest"; "upperChest"; "head"; "neck";
    "leftUpperArm"; "leftLowerArm"; "leftHand";
    "rightUpperArm"; "rightLowerArm"; "rightHand";
    "leftUpperLeg"; "leftLowerLeg"; "leftFoot";
    "rightUpperLeg"; "rightLowerLeg"; "rightFoot" ].

(** Parent -> children for wave propagation. *)
Definition BONE_CHAIN : list (string * list string) :=
  [ ("hips", ["spine"]);
    ("spine", ["chest"; "leftUpperLeg"; "rightUpperLeg"]);
    ("chest", ["upperChest"]);
    ("upperChest", ["neck"; "leftUpperArm"; "rightUpperArm"]);
    ("neck", ["head"]);
    ("leftUpperArm", ["leftLowerArm"]);
    ("leftLowerArm", ["leftHand"]);
    ("rightUpperArm", ["rightLowerArm"]);
    ("rightLowerArm", ["rightHand"]);
    ("leftUpperLeg", ["leftLowerLeg"]);
    ("leftLowerLeg", ["leftFoot"]);
    ("rightUpperLeg", ["rightLowerLeg"]);
    ("rightLowerLeg", ["rightFoot"]) ].

Fixpoint childrenOf (chain : list (string * list string)) (bone : string) : list string :=
  match chain with
  | [] => []
  | (k, cs) :: rest => if String.eqb k bone then cs else childrenOf rest bone
  end.

Definition rawBoneOf (v : VRM) (bone : string) : option Object3D :=
  match humanoid v with
  | Some h => getRawBoneNode h bone
  | None => None
  end.

Definition bind (v : VRM) : JellyEffect :=
  mkJelly (Some v)
    (flat_map (fun b =>
                 match rawBoneOf v b with
                 | Some _ => [(b, mkSpring b Vec.zero Vec.zero 0 0 false)]
                 | None => []
                 end) JELLY_BONES)
    false.

(** [this.springs.get(boneName)] *)
Fixpoint getSpring (l : list (string * SpringState)) (bone : string) : option SpringState :=
  match l with
  | [] => None
  | (k, s) :: rest => if String.eqb k bone then Some s else getSpring rest bone
  end.

(** Writes to the spring object held by the map. *)
Fixpoint putSpring (l : list (string * SpringState)) (bone : string) (s' : SpringState)
  : list (string * SpringState) :=
  match l with
  | [] => []
  | (k, s) :: rest =>
    if String.eqb k bone then (k, s') :: rest else (k, s) :: putSpring rest bone s'
  end.

(** [triggerWithWave]: the recursion follows [BONE_CHAIN], [fuel] bounds its
    depth.  [random] numbers the calls of [Math.random()], the state carries
    the springs and the number of calls made so far. *)
Fixpoint triggerWithWave (fuel : nat) (random : nat -> Q) (bone : string)
    (intensity delay0 : Q) (st : list (string * SpringState) * nat)
  : list (string * SpringState) * nat :=
  match fuel with
  | O => st
  | S fuel' =>
    let (l, i) := st in
    match getSpring l bone with
    | None => st
    | Some spring =>
      let v := mkV3 (- intensity * (0.6 + random i * 0.8))
                    (intensity * (0.6 + random (S i) * 0.8))
                    (- intensity * (0.6 + random (S (S i)) * 0.8)) in
      let spring' := mkSpring (boneName spring) (offset spring) v delay0 delay0 true in
      fold_left (fun st child =>
                   triggerWithWave fuel' random child (intensity * 0.6) (delay0 + 0.06) st)
                (childrenOf BONE_CHAIN bone)
                (putSpring l bone spring', S (S (S i)))
    end
  end.

(** More than the longest chain of [BONE_CHAIN]. *)
Definition waveFuel : nat := 18.

Definition triggerImpulse (random : nat -> Q) (bone : string) (intensity : Q) (j : JellyEffect)
  : JellyEffect :=
  let start := if String.eqb bone "all" then "hips" else bone in
  mkJelly (vrm j) (fst (triggerWithWave waveFuel random start intensity 0 (springs j, 0%nat))) true.

(** [rawBone.scale.set(x, y, z)] on the raw bone of the avatar, when the
    bone exists. *)
Definition setRawScale (v : VRM) (bone : string) (sc : Vector3) : VRM :=
  match humanoid v with
  | Some h =>
    match rawBones h !! bone with
    | Some node =>
      mkVRM (Some (mkHumanoid (normalizedBones h)
                              (<[bone := mkObj (name node) (position node) (quaternion node) sc]>
                                 (rawBones h))
                              (restHipsY h)))
            (metaVersion v)
    | None => v
    end
  | None => v
  end.

(** Spring physics of one frame: F = -k * offset - d * velocity, explicit
    Euler step, clamp. *)
Definition integrate (dt : Q) (s : SpringState) : SpringState :=
  let springF := Vec.multiplyScalar (offset s) (- tension) in
  let dampF := Vec.multiplyScalar (velocity s) (- damping) in
  let accel := Vec.add springF dampF in
  let velocity' := Vec.add (velocity s) (Vec.multiplyScalar accel dt) in
  let offset' := Vec.add (offset s) (Vec.multiplyScalar velocity' dt) in
  let offset' := Vec.clampScalar offset' (- maxDisplacement) maxDisplacement in
  mkSpring (boneName s) offset' velocity' (delay s) (delayLeft s) (activated s).

Definition unsettled (s : SpringState) : bool :=
  Vec.lengthGt (velocity s) 0.005 || Vec.lengthGt (offset s) 0.005.

(** The body of [for (const [boneName, state] of this.springs)] for one
    entry: the new spring, the avatar, and whether [anyActive] was set. *)
Definition updateSpring (dt : Q) (v : VRM) (bone : string) (state : SpringState)
  : SpringState * VRM * bool :=
  if negb (activated state) then (state, v, false)
  else if negb (Qle_bool (delayLeft state) 0) then
    (mkSpring (boneName state) (offset state) (velocity state) (delay state)
              (delayLeft state - dt) (activated state), v, true)
  else
    let state := integrate dt state in
    let v := setRawScale v bone
               (mkV3 (1 + vx (offset state)) (1 + vy (offset state)) (1 + vz (offset state))) in
    if unsettled state then (state, v, true)
    else
      (mkSpring (boneName state) Vec.zero Vec.zero (delay state) (delayLeft state) false,
       setRawScale v bone (mkV3 1 1 1), false).

Fixpoint updateSprings (dt : Q) (v : VRM) (l : list (string * SpringState))
  : list (string * SpringState) * VRM * bool :=
  match l with
  | [] => ([], v, false)
  | (bone, state) :: rest =>
    let '(state', v', a) := updateSpring dt v bone state in
    let '(rest', v'', b) := updateSprings dt v' rest in
    ((bone, state') :: rest', v'', a || b)
  end.

Definition update (delta : Q) (j : JellyEffect) : JellyEffect :=
  if negb (active j) then j
  else
    match vrm j with
    | None => j
    | Some v =>
      match humanoid v with
      | None => j
      | Some _ =>
        let dt := Qmin delta 0.05 in
        let '(springs', v', anyActive) := updateSprings dt v (springs j) in
        mkJelly (Some v') springs' anyActive
      end
    end.

Fixpoint iterate (n : nat) (delta : Q) (j : JellyEffect) : JellyEffect :=
  match n with
  | O => j
  | S n' => iterate n' delta (update delta j)
  end.

(** [dispose()]: the scale of the raw bone of every spring is set back to
    (1, 1, 1).  The second component is the avatar the effect held, after
    these writes. *)
Definition dispose (j : JellyEffect) : JellyEffect * option VRM :=
  let v' :=
    match vrm j with
    | Some v =>
      Some (fold_left (fun v e => setRawScale v (fst e) (mkV3 1 1 1)) (springs j) v)
    | None => None
    end in
  (mkJelly None [] false, v').

End Jelly.

(** ** interactions.ts: head and eye tracking *)

Module HeadTracker.

Definition setQuaternion (n : Object3D) (q : Quaternion) : Object3D :=
  mkObj (name n) (position n) q (scale n).

Section Tracking.
Context `{Trig} `{MathExp}.

(** [THREE.MathUtils.degToRad]: [degrees * DEG2RAD], [DEG2RAD = Math.PI / 180]. *)
Definition degToRad (degrees : Q) : Q := degrees * (PI / 180).

Definition _yAxis : Vector3 := mkV3 0 1 0.
Definition _xAxis : Vector3 := mkV3 1 0 0.

(** The raw bones are the nodes of the avatar the tracker was bound to; the
    tracker writes their rotation. *)
Record HeadTracker := mkTracker {
  vrm : option VRM;
  headRaw : option Object3D;
  neckRaw : option Object3D;
  leftEyeRaw : option Object3D;
  rightEyeRaw : option Object3D;
  (** smoothed current rotation offset (yaw, pitch in radians) *)
  currentYaw : Q;
  currentPitch : Q;
  enabled : bool;
  (** mouse position in NDC (-1 to 1) *)
  mouseNDC : Q * Q;
  isMouseOver : bool
}.

(** head max +-20 degrees yaw, +-15 degrees pitch; eyes +-25 and +-20 *)
Definition headLimitYaw : Q := degToRad 20.
Definition headLimitPitch : Q := degToRad 15.
Definition eyeLimitYaw : Q := degToRad 25.
Definition eyeLimitPitch : Q := degToRad 20.
Definition smoothSpeed : Q := 2.5.

Definition initial : HeadTracker := mkTracker None None None None None 0 0 true (0, 0) false.

(** [bind] also clears the target of the avatar's own lookAt, a field the
    avatar of this development does not carry. *)
Definition bind (v : VRM) (s : HeadTracker) : HeadTracker :=
  match humanoid v with
  | None =>
    mkTracker (Some v) (headRaw s) (neckRaw s) (leftEyeRaw s) (rightEyeRaw s)
              (currentYaw s) (currentPitch s) (enabled s) (mouseNDC s) (isMouseOver s)
  | Some hum =>
    mkTracker (Some v) (getRawBoneNode hum "head") (getRawBoneNode hum "neck")
              (getRawBoneNode hum "leftEye") (getRawBoneNode hum "rightEye")
              (currentYaw s) (currentPitch s) (enabled s) (mouseNDC s) (isMouseOver s)
  end.

Definition setMousePosition (ndcX ndcY : Q) (s : HeadTracker) : HeadTracker :=
  mkTracker (vrm s) (headRaw s) (neckRaw s) (leftEyeRaw s) (rightEyeRaw s)
            (currentYaw s) (currentPitch s) (enabled s) (ndcX, ndcY) true.

Definition setMouseLeave (s : HeadTracker) : HeadTracker :=
  mkTracker (vrm s) (headRaw s) (neckRaw s) (leftEyeRaw s) (rightEyeRaw s)
            (currentYaw s) (currentPitch s) (enabled s) (mouseNDC s) false.

Definition setEnabled (b : bool) (s : HeadTracker) : HeadTracker :=
  mkTracker (vrm s) (headRaw s) (neckRaw s) (leftEyeRaw s) (rightEyeRaw s)
            (currentYaw s) (currentPitch s) b (mouseNDC s) (isMouseOver s).

(** [if (bone) bone.quaternion.multiply(qY).multiply(qP)] *)
Definition applyTo (bone : option Object3D) (yaw pitch : Q) : option Object3D :=
  match bone with
  | Some n =>
    let qY := Quat.setFromAxisAngle _yAxis yaw in
    let qP := Quat.setFromAxisAngle _xAxis pitch in
    Some (setQuaternion n (Quat.multiply (Quat.multiply (quaternion n) qY) qP))
  | None => None
  end.

Definition update (delta : Q) (s : HeadTracker) : HeadTracker :=
  if negb (enabled s) then s
  else
    let targetYaw := if isMouseOver s then fst (mouseNDC s) * headLimitYaw else 0 in
    let targetPitch := if isMouseOver s then snd (mouseNDC s) * headLimitPitch else 0 in
    let t := 1 - exp (- smoothSpeed * delta) in
    let yaw := currentYaw s + (targetYaw - currentYaw s) * t in
    let pitch := currentPitch s + (targetPitch - currentPitch s) * t in
    let neck := applyTo (neckRaw s) (yaw * 0.4) (pitch * 0.4) in
    let head := applyTo (headRaw s) (yaw * 0.6) (pitch * 0.6) in
    let eyeTargetYaw :=
      if isMouseOver s
      then Vec.clamp (fst (mouseNDC s) * eyeLimitYaw) (- eyeLimitYaw) eyeLimitYaw
      else 0 in
    let eyeTargetPitch :=
      if isMouseOver s
      then Vec.clamp (snd (mouseNDC s) * eyeLimitPitch) (- eyeLimitPitch) eyeLimitPitch
      else 0 in
    let leftEye := applyTo (leftEyeRaw s) eyeTargetYaw eyeTargetPitch in
    let rightEye := applyTo (rightEyeRaw s) eyeTargetYaw eyeTargetPitch in
    mkTracker (vrm s) head neck leftEye rightEye yaw pitch (enabled s) (mouseNDC s)
              (isMouseOver s).

Definition dispose (s : HeadTracker) : HeadTracker :=
  mkTracker None None None None None 0 0 (enabled s) (mouseNDC s) (isMouseOver s).

End Tracking.

(** [canvas.getBoundingClientRect()] *)
Record Rect := mkRect { left : Q; top : Q; width : Q; height : Q }.

(** [InteractionManager.onMouseMove]: the pointer position in normalized
    device coordinates goes to the head tracker. *)
Definition onMouseMove (canvas : option Rect) (clientX clientY : Q) (s : HeadTracker)
  : HeadTracker :=
  match canvas with
  | None => s
  | Some rect =>
    let ndcX := ((clientX - left rect) / width rect) * 2 - 1 in
    let ndcY := - ((clientY - top rect) / height rect) * 2 + 1 in
    setMousePosition ndcX ndcY s
  end.

Definition onMouseLeave (s : HeadTracker) : HeadTracker := setMouseLeave s.

End HeadTracker.

(** ** interactions.ts: two-bone IK of the arm drag *)

Module ArmIK.

(** Where a step can leave the finite numbers, the result is [None]: the
    square root of a negative number and the arc cosine outside [-1, 1] are
    NaN. *)
Definition bind {A B} (x : option A) (f : A -> option B) : option B :=
  match x with
  | Some a => f a
  | None => None
  end.

Notation "'let*' x ':=' m 'in' f" := (bind m (fun x => f))
  (at level 10, x name, m at level 100, f at level 200).

Section Solver.
Context `{Trig} `{MathRoots}.

Definition sqrtJS (x : Q) : option Q :=
  if Qle_bool 0 x then Some (sqrt x) else None.

(** A quotient: a number, an infinity or NaN. *)
Inductive Quotient := Fin (q : Q) | PosInfinity | NegInfinity | NaN.

(** [a / b] for a divisor [b] that is not negative (a zero divisor is +0). *)
Definition divide (a b : Q) : Quotient :=
  if Qeq_bool b 0 then
    if Qeq_bool a 0 then NaN
    else if Qle_bool 0 a then PosInfinity else NegInfinity
  else Fin (a / b).

(** [THREE.MathUtils.clamp(value, min, max)]:
    [Math.max(min, Math.min(max, value))]. *)
Definition clampJS (value : Quotient) (min max : Q) : Quotient :=
  match value with
  | Fin q => Fin (Vec.clamp q min max)
  | PosInfinity => Fin (Qmax min max)
  | NegInfinity => Fin min
  | NaN => NaN
  end.

Definition acosJS (x : Quotient) : option Q :=
  match x with
  | Fin q => if Qle_bool (-1) q && Qle_bool q 1 then Some (acos q) else None
  | _ => None
  end.

(** [Vector3.length()], [Vector3.distanceTo(v)] *)
Definition length (v : Vector3) : option Q := sqrtJS (Vec.lengthSq v).

Definition distanceTo (a b : Vector3) : option Q := sqrtJS (Vec.distanceToSquared a b).

(** [Vector3.normalize()]: [divideScalar(length() || 1)], and
    [divideScalar(s)] is [multiplyScalar(1 / s)]. *)
Definition normalize (v : Vector3) : option Vector3 :=
  let* l := length v in
  let scalar := if Qeq_bool l 0 then 1 else l in
  Some (Vec.multiplyScalar v (1 / scalar)).

Definition quatLength (q : Quaternion) : option Q :=
  sqrtJS (qx q * qx q + qy q * qy q + qz q * qz q + qw q * qw q).

(** [Quaternion.normalize()] *)
Definition quatNormalize (q : Quaternion) : option Quaternion :=
  let* l := quatLength q in
  if Qeq_bool l 0 then Some (mkQuat 0 0 0 1)
  else
    let l := 1 / l in
    Some (mkQuat (qx q * l) (qy q * l) (qz q * l) (qw q * l)).

(** [Number.EPSILON], 2^-52 *)
Definition EPSILON : Q := 1 # 4503599627370496.

(** [Quaternion.setFromUnitVectors(vFrom, vTo)] *)
Definition setFromUnitVectors (vFrom vTo : Vector3) : option Quaternion :=
  let r := Vec.dot vFrom vTo + 1 in
  if negb (Qle_bool EPSILON r) then
    (* vFrom and vTo point in opposite directions *)
    let r := 0 in
    if negb (Qle_bool (Qabs (vx vFrom)) (Qabs (vz vFrom))) then
      quatNormalize (mkQuat (- vy vFrom) (vx vFrom) 0 r)
    else
      quatNormalize (mkQuat 0 (- vz vFrom) (vy vFrom) r)
  else
    quatNormalize
      (mkQuat (vy vFrom * vz vTo - vz vFrom * vy vTo)
              (vz vFrom * vx vTo - vx vFrom * vz vTo)
              (vx vFrom * vy vTo - vy vFrom * vx vTo)
              r).

(** What a solve computes and writes. *)
Record IKSolution := mkIK {
  targetDist : Q;
  cosAngle : Quotient;
  elbowAngle : Q;
  (** written to [upperArm.quaternion] and [lowerArm.quaternion] *)
  upperArmQuaternion : Quaternion;
  lowerArmQuaternion : Quaternion
}.

(** [solveTwoBoneIK(chain, targetWorld)].  [shoulderPos], [elbowPos] and
    [handPos] are the world positions of the upper arm, the lower arm and
    the hand, [parentWorld] the world rotation of the parent of the upper
    arm, where it has one. *)
Definition solveTwoBoneIK (shoulderPos elbowPos handPos : Vector3)
    (parentWorld : option Quaternion) (targetWorld : Vector3) : option IKSolution :=
  (* Bone lengths *)
  let* upperLen := distanceTo shoulderPos elbowPos in
  let* lowerLen := distanceTo elbowPos handPos in
  let totalLen := upperLen + lowerLen in
  (* Direction and distance to target *)
  let toTarget := Vec.sub targetWorld shoulderPos in
  let* targetDist := length toTarget in
  (* Clamp target distance to reachable range *)
  let targetDist := Qmin targetDist (totalLen * 0.98) in
  let targetDist := Qmax targetDist (Qabs (upperLen - lowerLen) + 0.01) in
  let* dir := normalize toTarget in
  (* Law of cosines for elbow angle *)
  let cosAngle := divide (upperLen * upperLen + lowerLen * lowerLen - targetDist * targetDist)
                         (2 * upperLen * lowerLen) in
  let* elbowAngle := acosJS (clampJS cosAngle (-1) 1) in
  (* Rotate upper arm to point toward target *)
  let worldToUpper :=
    Quat.invert (match parentWorld with Some q => q | None => Quat.identity end) in
  let localDir := Vec.applyQuaternion dir worldToUpper in
  let currentDir := mkV3 0 (-1) 0 in
  let* rotQ := setFromUnitVectors currentDir localDir in
  (* Apply elbow bend *)
  let bendAxis := mkV3 1 0 0 in
  let bendQ := Quat.setFromAxisAngle bendAxis (PI - elbowAngle) in
  Some (mkIK targetDist cosAngle elbowAngle rotQ bendQ).

End Solver.

End ArmIK.

(** ** The viewer: HDRI background *)

Module Viewer.

Record HdriBgConfig := mkHdri {
  url : string;
  label : string;
  (** horizontal rotation offset in radians *)
  offsetX : Q;
  (** vertical shift via UV offset *)
  offsetY : Q;
  (** brightness multiplier *)
  intensity : Q;
  (** texture zoom *)
  scale : Q
}.

(** The part of [THREE.Texture] the viewer writes: [repeat] and [offset]. *)
Record Texture := mkTexture { repeat : Q * Q; offset : Q * Q }.

(** The part of the sky sphere the viewer writes: [rotation.y] and the
    material's [emissiveIntensity]. *)
Record Mesh := mkMesh { rotationY : Q; emissiveIntensity : Q }.

(** [Partial<Pick<HdriBgConfig, 'offsetX' | 'offsetY' | 'intensity' | 'scale'>>] *)
Record HdriPatch := mkPatch {
  patchOffsetX : option Q;
  patchOffsetY : option Q;
  patchIntensity : option Q;
  patchScale : option Q
}.

Record VRMViewer := mkViewer {
  hdriBgMesh : option Mesh;
  hdriTexture : option Texture;
  currentHdriConfig : option HdriBgConfig
}.

Definition initial : VRMViewer := mkViewer None None None.

Definition getHdriConfig (s : VRMViewer) : option HdriBgConfig := currentHdriConfig s.

Definition clearBackground (s : VRMViewer) : VRMViewer := mkViewer None None None.

(** A texture as the loader returns it. *)
Definition loadedTexture : Texture := mkTexture (1, 1) (0, 0).

Definition applyHdriTextureTransform (scale offsetY : Q) (s : VRMViewer) : VRMViewer :=
  match hdriTexture s with
  | None => s
  | Some _ =>
    let zoom := 1 / Qmax 0.1 scale in
    mkViewer (hdriBgMesh s)
             (Some (mkTexture (zoom, zoom) ((1 - zoom) / 2, (1 - zoom) / 2 + offsetY)))
             (currentHdriConfig s)
  end.

(** [setHdriBackground] is asynchronous: it runs up to
    [await loadAsync(config.url)], and other calls on the viewer can run
    before it goes on.  The part before the [await]: *)
Definition setHdriBackgroundStart (config : HdriBgConfig) (s : VRMViewer) : VRMViewer :=
  let s := clearBackground s in
  mkViewer (hdriBgMesh s) (hdriTexture s) (Some config).

(** The part after the [await], run when the texture has arrived, on the
    viewer as it is by then.  (When the loader fails the call throws at the
    [await] and this part never runs.) *)
Definition setHdriBackgroundResume (config : HdriBgConfig) (s : VRMViewer) : VRMViewer :=
  let s := mkViewer (hdriBgMesh s) (Some loadedTexture) (currentHdriConfig s) in
  let mesh := mkMesh (offsetX config) (intensity config) in
  let s := mkViewer (Some mesh) (hdriTexture s) (currentHdriConfig s) in
  applyHdriTextureTransform (scale config) (offsetY config) s.

(** [setHdriBackground] when nothing else runs during the load.  [loaded]
    tells whether the texture loader succeeds. *)
Definition setHdriBackground (config : HdriBgConfig) (loaded : bool) (s : VRMViewer)
  : VRMViewer :=
  let s := setHdriBackgroundStart config s in
  if negb loaded then s else setHdriBackgroundResume config s.

Definition orElse (p : option Q) (x : Q) : Q :=
  match p with Some y => y | None => x end.

Definition updateHdriBackground (patch : HdriPatch) (s : VRMViewer) : VRMViewer :=
  match currentHdriConfig s, hdriBgMesh s with
  | Some config, Some mesh =>
    let config :=
      mkHdri (url config) (label config)
             (orElse (patchOffsetX patch) (offsetX config))
             (orElse (patchOffsetY patch) (offsetY config))
             (orElse (patchIntensity patch) (intensity config))
             (orElse (patchScale patch) (scale config)) in
    let s := mkViewer (Some (mkMesh (offsetX config) (emissiveIntensity mesh)))
                      (hdriTexture s) (Some config) in
    let s := applyHdriTextureTransform (scale config) (offsetY config) s in
    match hdriBgMesh s with
    | Some mesh =>
      mkViewer (Some (mkMesh (rotationY mesh) (intensity config)))
               (hdriTexture s) (currentHdriConfig s)
    | None => s
    end
  | _, _ => s
  end.

End Viewer.

(** * Definitions used to state the properties *)

(** The track animates a property of a node that the avatar has under some
    canonical bone name. *)
Definition onExistingBone (v : VRM) (t : KeyframeTrack) : Prop :=
  exists bone node prop,
    Procedural.getBone v bone = Some node /\ trackName t = name node ++ "." ++ prop.

(** What the claim says of [dance_hiphop]: the clip of [dance_happy] under
    another name. *)
Definition dance_hiphop_spec `{Trig} (v : VRM) : option AnimationClip :=
  match Procedural.createProceduralClip v "dance_happy" with
  | Some c => Some (mkClip "dance_hiphop" (clipDuration c) (clipTracks c))
  | None => None
  end.

(** ** Anti-repetition selection, as the specification words it *)

(** The motion history after a sequence of successful motion starts, each
    recorded with the id and the alternation group of its motion. *)
Definition replay (plays : list (string * string)) : History.MotionHistory :=
  fold_left (fun h p => History.record (fst p) (snd p) h) plays History.empty.

(** The ids of the 10 most recent plays. *)
Definition recentPlays (plays : list (string * string)) : list string :=
  skipn (length plays - 10) (map fst plays).

Definition usesIn (recent : list string) (m : Motion.MotionDef) : nat :=
  count_occ string_dec recent (Motion.id m).

(** The candidates used fewer than 2 times in the recent plays, or all
    candidates when there is none. *)
Definition specPool (recent : list string) (candidates : list Motion.MotionDef)
  : list Motion.MotionDef :=
  match List.filter (fun m => Nat.ltb (usesIn recent m) 2) candidates with
  | [] => candidates
  | eligible => eligible
  end.

(** A preferred alternation group is supplied and the candidate belongs to
    it.  An empty group name counts as not supplied. *)
Definition preferred (preferAltGroup : option string) (m : Motion.MotionDef) : bool :=
  match preferAltGroup with
  | Some g => negb (String.eqb g "") && String.eqb (Motion.altGroup m) g
  | None => false
  end.

(** max(1, 3 - count), times 1.5 for the preferred group. *)
Definition specWeight (recent : list string) (preferAltGroup : option string)
    (m : Motion.MotionDef) : Q :=
  Qmax 1 (3 - inject_Z (Z.of_nat (usesIn recent m)))
  * (if preferred preferAltGroup m then 1.5 else 1).

Definition Qsum (l : list Q) : Q := fold_right Qplus 0 l.

(** The weights of the first [n] entries of the pool, added up. *)
Definition weightUpTo (recent : list string) (preferAltGroup : option string)
    (pool : list Motion.MotionDef) (n : nat) : Q :=
  Qsum (map (specWeight recent preferAltGroup) (firstn n pool)).

(** Sample data: idle clips, each its own alternation group. *)
Definition demoIdle (motionId group : string) : Motion.MotionDef :=
  Motion.mkMotionDef motionId Motion.idle Motion.playLoop ("/motions/" ++ motionId ++ ".vrma")
                     Motion.vrma 0.5 ["neutral"] group [].

Definition demoIdleA : Motion.MotionDef := demoIdle "idle_a" "a".
Definition demoIdleB : Motion.MotionDef := demoIdle "idle_b" "b".
Definition demoIdleC : Motion.MotionDef := demoIdle "idle_c" "c".

Definition demoPlays : list (string * string) :=
  [("idle_a", "a"); ("idle_b", "b"); ("idle_a", "a")].

(** ** Sample environment *)

(** Small-angle stand-ins for the trigonometric functions, for running the
    definitions on sample data. *)
Definition demoTrig : Trig := {| sin := fun x => x; cos := fun _ => 1; PI := 3.14159 |}.

(** A square root that is exact on the squares of rationals (the integer
    square root of numerator times denominator, over the denominator), and
    an arc cosine that is exact at -1, 0 and 1 (linear in between). *)
Definition demoRoots : MathRoots :=
  {| sqrt := fun x => Z.sqrt (Qnum x * Zpos (Qden x)) # Qden x;
     acos := fun x => (1 - x) * (3.14159 / 2) |}.

Definition demoBone (nm : string) : Object3D :=
  mkObj nm (mkV3 0 1 0) Quat.identity (mkV3 1 1 1).

(** An avatar with a head, hips and a spine, and no arms. *)
Definition demoAvatar : VRM :=
  mkVRM (Some (mkHumanoid
                 (<["head" := demoBone "Normalized_Head"]>
                    (<["hips" := demoBone "Normalized_Hips"]>
                       (<["spine" := demoBone "Normalized_Spine"]> ∅)))
                 (<["head" := demoBone "Head"]>
                    (<["hips" := demoBone "Hips"]>
                       (<["spine" := demoBone "Spine"]> ∅)))
                 (Some 1)))
        (Some "1").

(** Loaders for which every file is missing. *)
Definition noVRMA (url : string) (v : VRM) : outcome AnimationClip :=
  Throw ("404: " ++ url).

Definition noFBX (url : string) : outcome Retarget.FBXAsset :=
  Throw ("404: " ++ url).

(** A loader for which every VRMA file holds a one-second clip. *)
Definition anyVRMA (url : string) (v : VRM) : outcome AnimationClip :=
  Ok (mkClip url 1 []).

(** The manager bound to [demoAvatar]. *)
Definition demoBound : Manager.AnimationManager :=
  Manager.bind (H := demoTrig) demoAvatar Manager.initial.

(** ** Playback slots *)

(** The action [ref] of the mixer of the manager. *)
Definition actionOf (s : Manager.AnimationManager) (ref : nat) : option Mixer.AnimationAction :=
  match Manager.mixer s with
  | Some m => Mixer.actions m !! ref
  | None => None
  end.

(** The playback state outside the mixer and the one-shot slot. *)
Definition samePlaybackState (s s' : Manager.AnimationManager) : Prop :=
  Manager.vrm s' = Manager.vrm s
  /\ Manager.nextUuid s' = Manager.nextUuid s
  /\ Manager.clipCache s' = Manager.clipCache s
  /\ Manager.activeLoopAction s' = Manager.activeLoopAction s
  /\ Manager.activeLoopMotionId s' = Manager.activeLoopMotionId s
  /\ Manager.fallbackIdleAction s' = Manager.fallbackIdleAction s
  /\ Manager.motionHistory s' = Manager.motionHistory s
  /\ Manager.idleSeconds s' = Manager.idleSeconds s
  /\ Manager.hobbyPlaying s' = Manager.hobbyPlaying s
  /\ Manager.hobbyKeywords s' = Manager.hobbyKeywords s
  /\ Manager.currentEmotion s' = Manager.currentEmotion s
  /\ Manager.armSpreadBiasDeg s' = Manager.armSpreadBiasDeg s.

(** A one-second clip object named [nm]. *)
Definition demoClip (n : nat) (nm : string) : Mixer.ClipObject :=
  Mixer.mkClipObject n (mkClip nm 1 []).

(** [demoBound] with the loop clip [idle_happy] playing. *)
Definition demoLooping : Manager.AnimationManager :=
  Manager.playClipLoop (demoClip 7 "idle_happy") 0.5 demoBound.

(** The action of that loop clip. *)
Definition demoLoopAction : Mixer.AnimationAction :=
  match actionOf demoLooping 7 with
  | Some a => a
  | None => Mixer.newAction 7
  end.

(** ** Sequences of idle selections *)

(** Consecutive calls of [playEmotionIdle]; each entry of [draws] holds the
    two random draws of one call. *)
Definition idleSelections `{Trig} (library : list Motion.MotionDef)
    (loadVRMAFile : string -> VRM -> outcome AnimationClip)
    (loadFBX : string -> outcome Retarget.FBXAsset)
    (emo : string) (draws : list (Q * Q)) (s : Manager.AnimationManager)
  : Manager.AnimationManager :=
  fold_left (fun s d => Manager.playEmotionIdle library loadVRMAFile loadFBX emo (fst d) (snd d) s)
            draws s.

(** Every clip of the list has 2 or more plays in the history buffer. *)
Definition allUsedTwice (h : History.MotionHistory) (l : list Motion.MotionDef) : Prop :=
  forall c, In c l -> (2 <= History.recentCount h (Motion.id c))%nat.

(** A library of three idle clips, each its own alternation group. *)
Definition demoLibrary : list Motion.MotionDef := [demoIdleA; demoIdleB; demoIdleC].

(** Thirty selections: the draws of the first seven pick a, b, c, a, b, c, a. *)
Definition demoDraws : list (Q * Q) :=
  [(0, 0); (0.5, 0); (0.9, 0); (0, 0); (0, 0); (0, 0); (0, 0)] ++ repeat (0, 0) 23.

(** The members of alternation group [g] other than the one last used in
    the group: the clips [getNextAlt] falls back to. *)
Definition altOthers (library : list Motion.MotionDef) (h : History.MotionHistory) (g : string)
  : list Motion.MotionDef :=
  let used := match History.altGroupUsage h !! g with Some l => l | None => [] end in
  List.filter (fun m => match last used with
                        | Some l => negb (String.eqb (Motion.id m) l)
                        | None => true
                        end)
              (List.filter (fun m => String.eqb (Motion.altGroup m) g) library).

(** ** Blink timing *)

(** Every value of [Math.random()] lies in [0, 1). *)
Definition unitDraws (random : nat -> Q) : Prop :=
  forall i, 0 <= random i /\ random i < 1.

(** The countdown set when a blink ends, as the specification words it:
    [random 0] and [random 1] are the draws of the base interval and of the
    stare test; the next draw is the double-blink test. *)
Definition countdownSpec (random : nat -> Q) (timer : Q) : Prop :=
  let stare := random 1%nat < 0.1 in
  let doubleDraw := if Blink.Qltb (random 1%nat) 0.1 then random 3%nat else random 2%nat in
  (doubleDraw < 0.15 /\ 0.15 <= timer /\ timer < 0.25)
  \/ (~ doubleDraw < 0.15 /\ ~ stare /\ 2.5 <= timer /\ timer < 6)
  \/ (~ doubleDraw < 0.15 /\ stare
      /\ exists base pause, timer == base + pause
                            /\ 2.5 <= base /\ base < 6 /\ 3 <= pause /\ pause < 7).

Definition halfDraws (i : nat) : Q := 0.5.

(** ** Retargeting on a matching rest pose *)






(** The world rotation of the parent of a node; the identity for a node
    without parent. *)
Definition parentWorldOf (parent : option Retarget.SceneNode) : Quaternion :=
  match parent with
  | Some p => Retarget.getWorldQuaternion p
  | None => Quat.identity
  end.




(** A source skeleton in identity rest pose: a root and the hips bone. *)
Definition demoSkeleton : Retarget.SceneNode :=
  Retarget.Node (mkObj "Armature" (mkV3 0 0 0) Quat.identity (mkV3 1 1 1)) Quat.identity
    [Retarget.Node (mkObj "mixamorigHips" (mkV3 0 1 0) Quat.identity (mkV3 1 1 1))
                   Quat.identity []].

(** One rotation keyframe on the hips: 
    a turn about the x axis, (x, y, z, w) = (3/5, 0, 0, 4/5). *)
Definition demoSourceTrack : KeyframeTrack :=
  mkTrack QuaternionKeyframeTrack "mixamorigHips.quaternion" [0] [mkQuat (3 # 5) 0 0 (4 # 5)] [].

Definition demoAsset : Retarget.FBXAsset :=
  Retarget.mkAsset demoSkeleton [mkClip "mixamo.com" 1 [demoSourceTrack]].


(** The track retargeting makes of [demoSourceTrack] on [demoAvatar], with
    no arm-spread bias. *)
Definition demoRetargetedTrack : KeyframeTrack :=
  match Retarget.retargetTrack (H := demoTrig) demoAsset demoAvatar 0 1 false demoSourceTrack with
  | t :: _ => t
  | [] => demoSourceTrack
  end.

(** ** Jelly spring: one axis, one spring *)

(** One axis of [integrate]: the new velocity and the new, clamped offset. *)
Definition axisV (h x v : Q) : Q :=
  v + (x * - Jelly.tension + v * - Jelly.damping) * h.

Definition axisX (h x v : Q) : Q :=
  Vec.clamp (x + axisV h x v * h) (- Jelly.maxDisplacement) Jelly.maxDisplacement.

(** A quadratic form in offset and velocity that an unclamped step scales by
    exactly [1 - damping * h]. *)
Definition potential (h x v : Q) : Q :=
  300 * x * x + (1 - 8 * h) * v * v + (8 - 300 * h) * x * v.

(** The sum of [potential] over the three axes of a spring. *)
Definition totalPotential (h : Q) (s : Jelly.SpringState) : Q :=
  potential h (vx (Jelly.offset s)) (vx (Jelly.velocity s))
  + potential h (vy (Jelly.offset s)) (vy (Jelly.velocity s))
  + potential h (vz (Jelly.offset s)) (vz (Jelly.velocity s)).

(** Every component lies in [-b, b]. *)
Definition within (b : Q) (u : Vector3) : Prop :=
  (- b <= vx u /\ vx u <= b) /\ (- b <= vy u /\ vy u <= b) /\ (- b <= vz u /\ vz u <= b).

(** A spring at rest: not activated, offset and velocity zero. *)
Definition quiet (s : Jelly.SpringState) : Prop :=
  Jelly.activated s = false /\ Jelly.offset s = Vec.zero /\ Jelly.velocity s = Vec.zero.

(** What one frame makes of a spring, as [updateSpring] computes it. *)
Definition springStep (dt : Q) (s : Jelly.SpringState) : Jelly.SpringState :=
  if negb (Jelly.activated s) then s
  else if negb (Qle_bool (Jelly.delayLeft s) 0) then
    Jelly.mkSpring (Jelly.boneName s) (Jelly.offset s) (Jelly.velocity s) (Jelly.delay s)
                   (Jelly.delayLeft s - dt) (Jelly.activated s)
  else
    let st := Jelly.integrate dt s in
    if Jelly.unsettled st then st
    else Jelly.mkSpring (Jelly.boneName st) Vec.zero Vec.zero (Jelly.delay st)
                        (Jelly.delayLeft st) false.

(** What one frame makes of the scale of the raw bone of a spring. *)
Definition scaleStep (dt : Q) (s : Jelly.SpringState) (sc : Vector3) : Vector3 :=
  if negb (Jelly.activated s) then sc
  else if negb (Qle_bool (Jelly.delayLeft s) 0) then sc
  else
    let st := Jelly.integrate dt s in
    if Jelly.unsettled st then
      mkV3 (1 + vx (Jelly.offset st)) (1 + vy (Jelly.offset st)) (1 + vz (Jelly.offset st))
    else mkV3 1 1 1.

Definition entryStep (dt : Q) (e : Jelly.SpringState * Vector3) : Jelly.SpringState * Vector3 :=
  (springStep dt (fst e), scaleStep dt (fst e) (snd e)).

Fixpoint entryIter (n : nat) (dt : Q) (e : Jelly.SpringState * Vector3)
  : Jelly.SpringState * Vector3 :=
  match n with
  | O => e
  | S n' => entryIter n' dt (entryStep dt e)
  end.

(** The spring is at rest and its bone is back at scale (1, 1, 1). *)
Definition settledEntry (e : Jelly.SpringState * Vector3) : Prop :=
  quiet (fst e) /\ snd e = mkV3 1 1 1.

(** A spring in motion, past its delay: offsets within the clamp, velocities
    within [b]. *)
Definition moving (b : Q) (s : Jelly.SpringState) : Prop :=
  Jelly.activated s = true /\ Jelly.delayLeft s <= 0
  /\ within 0.35 (Jelly.offset s) /\ within b (Jelly.velocity s).

Fixpoint qpow (a : Q) (n : nat) : Q :=
  match n with
  | O => 1
  | S n' => a * qpow a n'
  end.

(** The factor by which the velocity and the potential of a spring shrink
    in one frame of [h] seconds. *)
Definition decay (h : Q) : Q := 1 - 8 * h.

(** Potential below which a spring counts as settled. *)
Definition settleLevel : Q := 0.000005.

(** A spring waiting for its delay: activated, offsets within the clamp,
    velocities within [b], at most [k] frames of [h] seconds of delay left. *)
Definition waiting (h b : Q) (k : nat) (s : Jelly.SpringState) : Prop :=
  Jelly.activated s = true /\ Jelly.delayLeft s <= inject_Z (Z.of_nat k) * h
  /\ within 0.35 (Jelly.offset s) /\ within b (Jelly.velocity s).

(** ** Jelly effect: the springs and the bones they scale *)

(** The scale of the raw bone [bone] of the avatar. *)
Definition scaleOf (v : VRM) (bone : string) : Vector3 :=
  match Jelly.rawBoneOf v bone with
  | Some node => scale node
  | None => mkV3 1 1 1
  end.

Definition isActivated (e : string * Jelly.SpringState) : bool := Jelly.activated (snd e).

(** The effect holds avatar [v], every spring has a raw bone of its own, and
    an inactive effect has no activated spring. *)
Definition boundTo (v : VRM) (j : Jelly.JellyEffect) : Prop :=
  Jelly.vrm j = Some v /\ humanoid v <> None
  /\ List.NoDup (map fst (Jelly.springs j))
  /\ Forall (fun e => Jelly.rawBoneOf v (fst e) <> None) (Jelly.springs j)
  /\ (Jelly.active j = false -> existsb isActivated (Jelly.springs j) = false).

(** A spring after [triggerImpulse] on a fresh effect: untouched and at rest,
    or given an impulse of at most [1.4 * I] per axis and a delay of at most
    [D]. *)
Definition triggered (I D : Q) (s : Jelly.SpringState) : Prop :=
  Jelly.offset s = Vec.zero
  /\ (quiet s
      \/ (Jelly.activated s = true /\ within (1.4 * I) (Jelly.velocity s)
          /\ Jelly.delayLeft s <= D)).

(** The longest delay [triggerWithWave] hands out. *)
Definition maxDelay : Q := 0.06 * inject_Z (Z.of_nat Jelly.waveFuel).

Definition jellyDemo : Jelly.JellyEffect :=
  Jelly.triggerImpulse halfDraws "hips" 0.01 (Jelly.bind demoAvatar).

(** The scale of the raw bone [bone] of the avatar the effect holds. *)
Definition jellyScale (j : Jelly.JellyEffect) (bone : string) : Vector3 :=
  match Jelly.vrm j with
  | Some v => scaleOf v bone
  | None => Vec.zero
  end.

(** ** Motion history *)

(** The ids of the plays recorded under alternation group [g], oldest
    first. *)
Definition playsOfGroup (plays : list (string * string)) (g : string) : list string :=
  map fst (List.filter (fun p => String.eqb (snd p) g) plays).

(** Two idle clips of one alternation group. *)
Definition demoAlternates : list Motion.MotionDef :=
  [demoIdle "idle_a" "g"; demoIdle "idle_b" "g"].

(** The id last recorded under group [g]. *)
Definition lastUsedOf (h : History.MotionHistory) (g : string) : option string :=
  last (match History.altGroupUsage h !! g with Some l => l | None => [] end).

(** ** Manager state *)

(** [s'] is [s] up to the clip cache and the next clip uuid. *)
Definition sameButCache (s s' : Manager.AnimationManager) : Prop :=
  Manager.vrm s' = Manager.vrm s
  /\ Manager.mixer s' = Manager.mixer s
  /\ Manager.activeLoopAction s' = Manager.activeLoopAction s
  /\ Manager.activeLoopMotionId s' = Manager.activeLoopMotionId s
  /\ Manager.activeShotAction s' = Manager.activeShotAction s
  /\ Manager.fallbackIdleAction s' = Manager.fallbackIdleAction s
  /\ Manager.motionHistory s' = Manager.motionHistory s
  /\ Manager.idleSeconds s' = Manager.idleSeconds s
  /\ Manager.hobbyPlaying s' = Manager.hobbyPlaying s
  /\ Manager.hobbyKeywords s' = Manager.hobbyKeywords s
  /\ Manager.currentEmotion s' = Manager.currentEmotion s
  /\ Manager.armSpreadBiasDeg s' = Manager.armSpreadBiasDeg s.

(** The loop action of the manager is running. *)
Definition loopRunning (s : Manager.AnimationManager) : bool :=
  match Manager.mixer s with
  | Some m =>
    match Mixer.getAction (Manager.activeLoopAction s) m with
    | Some a => Mixer.isRunning a
    | None => false
    end
  | None => false
  end.

(** The avatar has one of the six bones the fallback idle animates. *)
Definition hasFallbackBone (v : VRM) : bool :=
  existsb (fun b => match Procedural.getBone v b with Some _ => true | None => false end)
          ["hips"; "spine"; "chest"; "head"; "leftUpperArm"; "rightUpperArm"].

(** [demoBound] after [playMotion("Idle1")] with a library that lists
    [Idle1] as a loop and a loader that finds its file. *)
Definition demoIdle1Playing : Manager.AnimationManager :=
  snd (Manager.playMotion (H := demoTrig) [demoIdle "Idle1" "Idle1"] anyVRMA noFBX
                          "Idle1" demoBound).

(** ** Well-formed keyframe tracks *)

Fixpoint increasing (l : list Q) : bool :=
  match l with
  | a :: (b :: _) as rest => Blink.Qltb a b && increasing rest
  | _ => true
  end.

(** The keyframe times start at 0, increase strictly and end at [dur]. *)
Definition timesSpan (dur : Q) (times : list Q) : bool :=
  match times with
  | t0 :: _ =>
    Qeq_bool t0 0 && increasing times
    && match last times with Some e => Qeq_bool e dur | None => false end
  | [] => false
  end.

(** A quaternion or vector track with one value per keyframe time, the
    times spanning the clip. *)
Definition wellFormedTrack (dur : Q) (t : KeyframeTrack) : Prop :=
  timesSpan dur (trackTimes t) = true
  /\ match trackType t with
     | QuaternionKeyframeTrack =>
       length (trackQuats t) = length (trackTimes t) /\ trackVecs t = []
     | VectorKeyframeTrack =>
       length (trackVecs t) = length (trackTimes t) /\ trackQuats t = []
     | OtherKeyframeTrack => False
     end.

Definition wellFormedClip (c : AnimationClip) : Prop :=
  0 < clipDuration c /\ clipTracks c <> []
  /\ Forall (wellFormedTrack (clipDuration c)) (clipTracks c).

(** ** Retargeted and generated keyframes *)

(** Track [t] was made from source track [t0]: same kind, same keyframe
    times, as many values. *)
Definition sameTiming (t0 t : KeyframeTrack) : Prop :=
  trackTimes t = trackTimes t0
  /\ match trackType t0 with
     | QuaternionKeyframeTrack =>
       trackType t = QuaternionKeyframeTrack /\ length (trackQuats t) = length (trackQuats t0)
     | VectorKeyframeTrack =>
       trackType t = VectorKeyframeTrack /\ length (trackVecs t) = length (trackVecs t0)
     | OtherKeyframeTrack => False
     end.

Definition quatLengthSq (q : Quaternion) : Q :=
  qx q * qx q + qy q * qy q + qz q * qz q + qw q * qw q.

Definition isUnit (q : Quaternion) : Prop := quatLengthSq q == 1.

(** The world rotation of every node of the skeleton is a unit quaternion. *)
Fixpoint unitRestPose (n : Retarget.SceneNode) : Prop :=
  match n with
  | Retarget.Node self world children =>
    isUnit world
    /\ (fix all (cs : list Retarget.SceneNode) : Prop :=
          match cs with
          | [] => True
          | c :: rest => unitRestPose c /\ all rest
          end) children
  end.

(** sin^2 + cos^2 = 1. *)
Definition pythagorean `{Trig} : Prop := forall x, sin x * sin x + cos x * cos x == 1.

(** Sine and cosine by the half-angle parametrisation of the circle,
    (2t / (1 + t^2), (1 - t^2) / (1 + t^2)): rational, and on the unit
    circle for every argument. *)
Definition circleTrig : Trig :=
  {| sin := fun x => (2 * x) / (1 + x * x);
     cos := fun x => (1 - x * x) / (1 + x * x);
     PI := 3.14159 |}.

(** The clip retargeting makes of [demoAsset] on [demoAvatar]. *)
Definition demoRetargetedClip : AnimationClip :=
  match Retarget.retarget (H := circleTrig) demoAsset "/motions/a.fbx" demoAvatar None 20 with
  | Ok c => c
  | Throw _ => mkClip "" 0 []
  end.

(** The clip [nod] generated for [demoAvatar]. *)
Definition demoNodClip : AnimationClip :=
  match Procedural.createProceduralClip (H := circleTrig) demoAvatar "nod" with
  | Some c => c
  | None => mkClip "" 0 []
  end.

(** All rotation keyframes of the track are unit quaternions. *)
Definition unitKeyframes (t : KeyframeTrack) : Prop := Forall isUnit (trackQuats t).

(** A bias rotation, where there is one, has length one. *)
Definition unitOrNone (pw : option Quaternion) : Prop :=
  match pw with
  | Some p => isUnit p
  | None => True
  end.

(** ** Jelly effect: impulses and frames in any order *)

Inductive JellyEvent :=
| Impulse (random : nat -> Q) (bone : string) (intensity : Q)
| Frame (delta : Q).

Definition jellyStep (j : Jelly.JellyEffect) (e : JellyEvent) : Jelly.JellyEffect :=
  match e with
  | Impulse random bone intensity => Jelly.triggerImpulse random bone intensity j
  | Frame delta => Jelly.update delta j
  end.

Definition jellyRun (events : list JellyEvent) (j : Jelly.JellyEffect) : Jelly.JellyEffect :=
  fold_left jellyStep events j.

(** Every component of the scale lies in [0.65, 1.35]. *)
Definition scaleWithin (sc : Vector3) : Prop :=
  (0.65 <= vx sc /\ vx sc <= 1.35) /\ (0.65 <= vy sc /\ vy sc <= 1.35)
  /\ (0.65 <= vz sc /\ vz sc <= 1.35).

(** Node [n'] is node [n] up to its scale. *)
Definition sameButScale (n n' : Object3D) : Prop :=
  name n' = name n /\ position n' = position n /\ quaternion n' = quaternion n.

(** Avatar [v'] is avatar [v] up to the scale of the raw bones in [keys]. *)
Definition sameButScales (keys : list string) (v v' : VRM) : Prop :=
  metaVersion v' = metaVersion v
  /\ match humanoid v, humanoid v' with
     | Some h, Some h' =>
       normalizedBones h' = normalizedBones h /\ restHipsY h' = restHipsY h
       /\ forall b,
            match rawBones h !! b, rawBones h' !! b with
            | Some n, Some n' => sameButScale n n' /\ (~ In b keys -> n' = n)
            | None, None => True
            | _, _ => False
            end
     | None, None => True
     | _, _ => False
     end.

(** A hard impulse and a long frame on the demo avatar. *)
Definition demoJellyEvents : list JellyEvent :=
  [Impulse halfDraws "hips" 1000; Frame 10; Frame 0.016; Impulse halfDraws "spine" 5; Frame 1].

(** What stays true of the effect whatever happens to it: it holds an
    avatar that differs from the one bound only in the scale of the bones
    that have a spring, and its springs are those created by [bind]. *)
Definition jellyInv (v : VRM) (j : Jelly.JellyEffect) : Prop :=
  map fst (Jelly.springs j) = map fst (Jelly.springs (Jelly.bind v))
  /\ exists v', Jelly.vrm j = Some v'
                /\ sameButScales (map fst (Jelly.springs (Jelly.bind v))) v v'.

(** ** Expression weights *)

(** The target weight and the current weight of an expression. *)
Definition targetOf (s : Emote.EmoteState) (name : string) : Q :=
  Emote.orZero (Emote.targetEmotions s !! name).

Definition currentOf (s : Emote.EmoteState) (name : string) : Q :=
  Emote.orZero (Emote.currentEmotions s !! name).

(** The weight an expression is blended towards: target plus micro
    expression, capped at 1. *)
Definition goalOf (s : Emote.EmoteState) (name : string) : Q :=
  Qmin 1 (targetOf s name + Emote.orZero (Emote.microTarget s !! name)).

(** [exp] maps the non-positive numbers into (0, 1]. *)
Definition expDecays `{MathExp} : Prop := forall x, x <= 0 -> 0 < exp x /\ exp x <= 1.

(** A rational stand-in for the exponential on the non-positive numbers:
    1 / (1 - x). *)
Definition demoExp : MathExp := {| exp := fun x => 1 / (1 - x) |}.

(** A happy face with a trace of surprise. *)
Definition demoWeights : Emote.EmotionWeights :=
  Emote.mkWeights (Some 0.8) None (Some (-1)) (Some 2).

(** The weight [updateExpressions] writes for an expression. *)
Definition blendOf `{MathExp} (delta : Q) (s : Emote.EmoteState) (name : string) : Q :=
  currentOf s name + (goalOf s name - currentOf s name) * (1 - exp (- Emote.lerpSpeed * delta)).

(** ** Blink over many frames *)

(** Consecutive frames of the blink controller; each frame has its frame
    time and its own random draws. *)
Definition blinkRun (frames : list (Q * (nat -> Q))) (s : Blink.BlinkState) : Blink.BlinkState :=
  fold_left (fun s f => Blink.updateBlink (fst f) (snd f) s) frames s.

(** What the blink controller keeps true: progress not negative, phase
    durations positive, weight in [0, 1]. *)
Definition blinkInv (s : Blink.BlinkState) : Prop :=
  0 <= Blink.blinkT s
  /\ 0 < Blink.blinkCloseTime s /\ 0 < Blink.blinkHoldTime s /\ 0 < Blink.blinkOpenTime s
  /\ 0 <= Blink.blinkValue s /\ Blink.blinkValue s <= 1.

(** Two hundred frames at 60 frames per second, all draws at 0.5. *)
Definition demoBlinkFrames : list (Q * (nat -> Q)) := repeat (1 # 60, halfDraws) 200.

(** ** Head tracking: what can happen to the tracker *)

Inductive TrackerEvent :=
| MouseMove (clientX clientY : Q)
| MouseLeave
| SetEnabled (b : bool)
| Tick (delta : Q)
| Rebind (v : VRM)
| Release.

Definition trackerStep `{Trig} `{MathExp} (canvas : option HeadTracker.Rect)
    (s : HeadTracker.HeadTracker) (e : TrackerEvent) : HeadTracker.HeadTracker :=
  match e with
  | MouseMove x y => HeadTracker.onMouseMove canvas x y s
  | MouseLeave => HeadTracker.onMouseLeave s
  | SetEnabled b => HeadTracker.setEnabled b s
  | Tick delta => HeadTracker.update delta s
  | Rebind v => HeadTracker.bind v s
  | Release => HeadTracker.dispose s
  end.

Definition trackerRun `{Trig} `{MathExp} (canvas : option HeadTracker.Rect)
    (events : list TrackerEvent) (s : HeadTracker.HeadTracker) : HeadTracker.HeadTracker :=
  fold_left (trackerStep canvas) events s.

(** The pointer is on the canvas. *)
Definition onCanvas (canvas : option HeadTracker.Rect) (x y : Q) : Prop :=
  match canvas with
  | Some r =>
    HeadTracker.left r <= x /\ x <= HeadTracker.left r + HeadTracker.width r
    /\ HeadTracker.top r <= y /\ y <= HeadTracker.top r + HeadTracker.height r
  | None => True
  end.

Definition properCanvas (canvas : option HeadTracker.Rect) : Prop :=
  match canvas with
  | Some r => 0 < HeadTracker.width r /\ 0 < HeadTracker.height r
  | None => True
  end.

(** Mouse events come from the canvas, frame times are not negative. *)
Definition properEvent (canvas : option HeadTracker.Rect) (e : TrackerEvent) : Prop :=
  match e with
  | MouseMove x y => onCanvas canvas x y
  | Tick delta => 0 <= delta
  | _ => True
  end.

Definition demoCanvas : option HeadTracker.Rect := Some (HeadTracker.mkRect 0 0 800 600).

Definition demoPointer : list TrackerEvent :=
  [Rebind demoAvatar; MouseMove 800 0; Tick 0.016; Tick 0.5; MouseLeave; Tick 0.016].

(** Yaw and pitch within the head limits, the pointer within the canvas. *)
Definition trackerInv `{Trig} (s : HeadTracker.HeadTracker) : Prop :=
  (- HeadTracker.headLimitYaw <= HeadTracker.currentYaw s
   /\ HeadTracker.currentYaw s <= HeadTracker.headLimitYaw)
  /\ (- HeadTracker.headLimitPitch <= HeadTracker.currentPitch s
      /\ HeadTracker.currentPitch s <= HeadTracker.headLimitPitch)
  /\ (HeadTracker.isMouseOver s = true ->
      (-1 <= fst (HeadTracker.mouseNDC s) /\ fst (HeadTracker.mouseNDC s) <= 1)
      /\ (-1 <= snd (HeadTracker.mouseNDC s) /\ snd (HeadTracker.mouseNDC s) <= 1)).

(** ** The viewer's background: what can happen to it *)

(** The steps that can follow one another on a viewer: a call of
    [setHdriBackground] running up to its [await]; the texture of such a
    call arriving, so that the call runs to its end; an update; a clear.
    A call whose load fails ends at its [await] and takes no further
    step. *)
Inductive BackgroundEvent :=
| StartSet (config : Viewer.HdriBgConfig)
| ResumeSet (config : Viewer.HdriBgConfig)
| UpdateBackground (patch : Viewer.HdriPatch)
| ClearBackground.

Definition backgroundStep (s : Viewer.VRMViewer) (e : BackgroundEvent) : Viewer.VRMViewer :=
  match e with
  | StartSet config => Viewer.setHdriBackgroundStart config s
  | ResumeSet config => Viewer.setHdriBackgroundResume config s
  | UpdateBackground patch => Viewer.updateHdriBackground patch s
  | ClearBackground => Viewer.clearBackground s
  end.

Definition backgroundRun (events : list BackgroundEvent) : Viewer.VRMViewer :=
  fold_left backgroundStep events Viewer.initial.

(** Nothing runs during a load: every texture arrives right after the
    start of the call it belongs to.  [prev] is the step before. *)
Fixpoint uninterruptedAfter (prev : option BackgroundEvent) (events : list BackgroundEvent)
  : Prop :=
  match events with
  | [] => True
  | e :: rest =>
    match e with
    | ResumeSet config => prev = Some (StartSet config)
    | _ => True
    end
    /\ uninterruptedAfter (Some e) rest
  end.

Definition uninterrupted (events : list BackgroundEvent) : Prop :=
  uninterruptedAfter None events.

(** The zoom of a configuration. *)
Definition zoomOf (config : Viewer.HdriBgConfig) : Q := 1 / Qmax 0.1 (Viewer.scale config).

(** The window of the texture: the same zoom, within (0, 10], on both
    axes, centred horizontally. *)
Definition centredWindow (texture : Viewer.Texture) : Prop :=
  exists zoom,
    0 < zoom /\ zoom <= 10
    /\ Viewer.repeat texture = (zoom, zoom)
    /\ fst (Viewer.offset texture) + zoom / 2 == 1 / 2.

(** Sphere and texture are held together, and the texture has a centred
    window. *)
Definition windowInv (s : Viewer.VRMViewer) : Prop :=
  match Viewer.hdriTexture s with
  | None => Viewer.hdriBgMesh s = None
  | Some texture => Viewer.hdriBgMesh s <> None /\ centredWindow texture
  end.

(** The sky sphere and its texture show the configuration. *)
Definition shows (mesh : Viewer.Mesh) (texture : Viewer.Texture)
    (config : Viewer.HdriBgConfig) : Prop :=
  Viewer.rotationY mesh = Viewer.offsetX config
  /\ Viewer.emissiveIntensity mesh = Viewer.intensity config
  /\ Viewer.repeat texture = (zoomOf config, zoomOf config)
  /\ Viewer.offset texture
     = ((1 - zoomOf config) / 2, (1 - zoomOf config) / 2 + Viewer.offsetY config).

(** A sphere that is held shows the stored configuration. *)
Definition showsStored (s : Viewer.VRMViewer) : Prop :=
  match Viewer.hdriBgMesh s with
  | None => True
  | Some mesh =>
    exists texture config,
      Viewer.hdriTexture s = Some texture
      /\ Viewer.getHdriConfig s = Some config
      /\ shows mesh texture config
  end.

(** With nothing running during a load: what holds before each step. *)
Definition storedInv (prev : option BackgroundEvent) (s : Viewer.VRMViewer) : Prop :=
  showsStored s
  /\ (Viewer.hdriBgMesh s <> None -> Viewer.hdriTexture s <> None)
  /\ forall config, prev = Some (StartSet config) ->
                    Viewer.currentHdriConfig s = Some config /\ Viewer.hdriBgMesh s = None.

Definition demoSky : Viewer.HdriBgConfig := Viewer.mkHdri "sky.jpg" "Sky" 0 0 1 1.

(** * Properties *)

(** ** Procedural generator and retargeting: tracks and bones *)

Lemma mkTrack_onExistingBone v bone b ty prop times qs vs :
  Procedural.getBone v bone = Some b ->
  onExistingBone v (mkTrack ty (name b ++ "." ++ prop) times qs vs).
Proof.
  intros Hb. exists bone, b, prop. split; [exact Hb | reflexivity].
Qed.

Lemma pushIf_onExistingBone v bone f :
  (forall b, Procedural.getBone v bone = Some b -> Forall (onExistingBone v) (f b)) ->
  Forall (onExistingBone v) (Procedural.pushIf (Procedural.getBone v bone) f).
Proof.
  intros Hf. unfold Procedural.pushIf.
  destruct (Procedural.getBone v bone) as [b|] eqn:Hb; [apply Hf; reflexivity | constructor].
Qed.

Lemma clipOrNull_tracks id dur tracks c :
  Procedural.clipOrNull id dur tracks = Some c -> clipTracks c = tracks.
Proof.
  destruct tracks; simpl; intros Hc; [discriminate | injection Hc as <-; reflexivity].
Qed.

(** Closes [Forall (onExistingBone v) tracks] for the track list of a
    generator: a concatenation of guarded pushes. *)
Ltac tracks_on_bones :=
  repeat first
    [ apply Forall_app_2
    | apply pushIf_onExistingBone; intros ? ?
    | apply Forall_cons_2
    | apply Forall_nil_2
    | eapply (mkTrack_onExistingBone _ _ _ _ "quaternion"); eassumption
    | eapply (mkTrack_onExistingBone _ _ _ _ "position"); eassumption ].

Ltac generator_on_bones :=
  let Hc := fresh "Hc" in
  intros Hc; apply clipOrNull_tracks in Hc; rewrite Hc; tracks_on_bones.

Lemma dance_happy_onExistingBone `{Trig} v c :
  Procedural.dance_happy v = Some c -> Forall (onExistingBone v) (clipTracks c).
Proof. unfold Procedural.dance_happy. generator_on_bones. Qed.

Lemma headed_generator_onExistingBone v id dur (f : Object3D -> list KeyframeTrack) c :
  (forall h, Procedural.getBone v "head" = Some h -> Forall (onExistingBone v) (f h)) ->
  match Procedural.getBone v "head" with
  | None => None
  | Some h => Some (mkClip id dur (f h))
  end = Some c ->
  Forall (onExistingBone v) (clipTracks c).
Proof.
  intros Hf. destruct (Procedural.getBone v "head") as [h|] eqn:Hh; [|discriminate].
  intros Hc; injection Hc as <-. simpl. apply Hf. reflexivity.
Qed.

Lemma registry_onExistingBone `{Trig} v :
  Forall (fun entry => forall c, snd entry v = Some c -> Forall (onExistingBone v) (clipTracks c))
         Procedural.PROCEDURAL_CLIPS.
Proof.
  unfold Procedural.PROCEDURAL_CLIPS.
  repeat (apply Forall_cons_2; [simpl; intros c|]); try apply Forall_nil_2.
  all: try (cbv delta [Procedural.idle_breathe Procedural.idle_happy Procedural.idle_sad
                         Procedural.thinking Procedural.point Procedural.shrug
                         Procedural.wave Procedural.clap Procedural.bow Procedural.cheer
                         Procedural.surprised_back Procedural.happy_jump
                         Procedural.sad_cry Procedural.angry_stomp Procedural.sleeping
                         Procedural.sitting] beta zeta;
            solve [generator_on_bones]).
  all: try (apply headed_generator_onExistingBone; intros h Hh; solve [tracks_on_bones]).
  unfold Procedural.dance_hiphop.
  destruct (Procedural.dance_happy v) as [d|] eqn:Hd; [|discriminate].
  intros Hc; injection Hc as <-. simpl. apply dance_happy_onExistingBone. exact Hd.
Qed.

Lemma lookupClip_In reg motionId fn :
  Procedural.lookupClip reg motionId = Some fn -> In (motionId, fn) reg.
Proof.
  induction reg as [|[k g] rest IH]; simpl; [discriminate|].
  destruct (String.eqb k motionId) eqn:Hk.
  - apply String.eqb_eq in Hk. subst k. intros Hfn; injection Hfn as <-. left; reflexivity.
  - intros Hfn. right. apply IH. exact Hfn.
Qed.

Lemma createProceduralClip_onExistingBone `{Trig} v motionId c :
  Procedural.createProceduralClip v motionId = Some c ->
  Forall (onExistingBone v) (clipTracks c).
Proof.
  unfold Procedural.createProceduralClip.
  destruct (Procedural.lookupClip Procedural.PROCEDURAL_CLIPS motionId) as [fn|] eqn:Hfn;
    [|discriminate].
  intros Hc. apply lookupClip_In in Hfn.
  pose proof (registry_onExistingBone v) as Hreg.
  rewrite List.Forall_forall in Hreg. exact (Hreg _ Hfn c Hc).
Qed.

Lemma retargetTrack_onExistingBone `{Trig} asset v bias sc isVRM0 t :
  Forall (onExistingBone v) (Retarget.retargetTrack asset v bias sc isVRM0 t).
Proof.
  unfold Retarget.retargetTrack.
  destruct (Retarget.rigMapLookup _ _) as [vrmBoneName|]; [|constructor].
  destruct (Procedural.getBone v vrmBoneName) as [vrmNode|] eqn:Hb; [|constructor].
  destruct (Retarget.getObjectByName asset _) as [[pw node]|]; [|constructor].
  destruct (trackType t); repeat constructor.
  - exists vrmBoneName, vrmNode. eexists. split; [exact Hb | reflexivity].
  - exists vrmBoneName, vrmNode. eexists. split; [exact Hb | reflexivity].
Qed.

Lemma flat_map_Forall {A B} (P : B -> Prop) (f : A -> list B) l :
  (forall x, Forall P (f x)) -> Forall P (flat_map f l).
Proof.
  intros Hf. induction l as [|x l IH]; simpl; [constructor|].
  apply Forall_app_2; [apply Hf | exact IH].
Qed.

Lemma fallbackIdleTracks_onExistingBone `{Trig} v :
  Forall (onExistingBone v) (Manager.fallbackIdleTracks v).
Proof.
  unfold Manager.fallbackIdleTracks. tracks_on_bones.
Qed.

Lemma jelly_bind_springs_on_raw_bones v l :
  Forall (fun entry => exists node, Jelly.rawBoneOf v (fst entry) = Some node)
         (flat_map (fun b =>
                      match Jelly.rawBoneOf v b with
                      | Some _ => [(b, Jelly.mkSpring b Vec.zero Vec.zero 0 0 false)]
                      | None => []
                      end) l).
Proof.
  apply flat_map_Forall. intros b.
  destruct (Jelly.rawBoneOf v b) as [node|] eqn:Hb; repeat constructor.
  exists node. exact Hb.
Qed.

(** C9.  For every avatar, whatever canonical bones it lacks: each clip made
    by a procedural generator, the clip made by the retargeting engine and
    the fallback idle have tracks only for nodes the avatar has under some
    bone name; retargeting returns a clip whenever the asset holds a source
    clip (a missing bone is skipped, it never throws); the jelly effect
    keeps springs only for raw bones the avatar has. *)
Theorem C9_clips_only_for_existing_bones `{Trig} (v : VRM) :
  (forall motionId,
     match Procedural.createProceduralClip v motionId with
     | Some c => Forall (onExistingBone v) (clipTracks c)
     | None => True
     end)
  /\ (forall asset url clipNameArg bias,
        match Retarget.sourceClipOf asset with
        | Some _ =>
          exists c, Retarget.retarget asset url v clipNameArg bias = Ok c
                    /\ Forall (onExistingBone v) (clipTracks c)
        | None => True
        end)
  /\ Forall (onExistingBone v) (Manager.fallbackIdleTracks v)
  /\ Forall (fun entry => exists node, Jelly.rawBoneOf v (fst entry) = Some node)
            (Jelly.springs (Jelly.bind v)).
Proof.
  split; [|split; [|split]].
  - intros motionId.
    destruct (Procedural.createProceduralClip v motionId) as [c|] eqn:Hc; [|exact I].
    eapply createProceduralClip_onExistingBone; exact Hc.
  - intros asset url clipNameArg bias. unfold Retarget.retarget.
    destruct (Retarget.sourceClipOf asset) as [src|]; [|exact I].
    eexists. split; [reflexivity|]. simpl.
    apply flat_map_Forall. intros t. apply retargetTrack_onExistingBone.
  - apply fallbackIdleTracks_onExistingBone.
  - apply jelly_bind_springs_on_raw_bones.
Qed.

(** ** dance_hiphop and dance_happy *)

(** C10.  For every avatar, the generator registered for [dance_hiphop]
    returns the clip of the generator registered for [dance_happy] with the
    same tracks (names, times, values) and duration, under the name
    [dance_hiphop]; the two return null for the same avatars. *)
Theorem C10_dance_hiphop_same_tracks `{Trig} (v : VRM) :
  Procedural.createProceduralClip v "dance_hiphop" = dance_hiphop_spec v
  /\ match Procedural.createProceduralClip v "dance_happy",
           Procedural.createProceduralClip v "dance_hiphop" with
     | Some a, Some b =>
       clipTracks b = clipTracks a /\ clipDuration b = clipDuration a
       /\ clipName a = "dance_happy" /\ clipName b = "dance_hiphop"
     | None, None => True
     | _, _ => False
     end.
Proof.
  unfold dance_hiphop_spec, Procedural.createProceduralClip. simpl.
  unfold Procedural.dance_hiphop.
  destruct (Procedural.dance_happy v) as [a|] eqn:Ha; split; try reflexivity; try exact I.
  simpl. repeat split; try reflexivity.
  unfold Procedural.dance_happy in Ha.
  destruct (_ ++ _)%list in Ha; simpl in Ha; [discriminate|].
  injection Ha as <-. reflexivity.
Qed.

(** ** Motion history and anti-repetition selection *)

Lemma tl_skipn {A} (n : nat) (l : list A) : tl (skipn n l) = skipn (S n) l.
Proof.
  change (tl (skipn n l)) with (skipn 1 (skipn n l)).
  rewrite List.skipn_skipn. reflexivity.
Qed.

Lemma pushBounded_recent (l : list string) (x : string) :
  History.pushBounded 10 (skipn (length l - 10) l) x
  = skipn (length (l ++ [x])%list - 10) (l ++ [x])%list.
Proof.
  unfold History.pushBounded.
  rewrite !length_app, length_skipn. simpl.
  destruct (Nat.ltb_spec 10 (length l - (length l - 10) + 1)) as [Hlt|Hge].
  - assert (Hl : (10 <= length l)%nat) by lia.
    replace (length l + 1 - 10)%nat with (S (length l - 10)) by lia.
    rewrite <- tl_skipn. f_equal.
    rewrite drop_app_le by lia. reflexivity.
  - assert (Hl : (length l < 10)%nat) by lia.
    replace (length l - 10)%nat with 0%nat by lia.
    replace (length l + 1 - 10)%nat with 0%nat by lia. reflexivity.
Qed.

Lemma replay_snoc plays p :
  replay (plays ++ [p]) = History.record (fst p) (snd p) (replay plays).
Proof. unfold replay. rewrite fold_left_app. reflexivity. Qed.

(** The history buffer holds the ids of the 10 most recent plays. *)
Lemma replay_history plays :
  History.history (replay plays) = recentPlays plays.
Proof.
  unfold recentPlays.
  induction plays as [|p plays IH] using rev_ind; [reflexivity|].
  rewrite replay_snoc. unfold History.record. simpl.
  rewrite IH, map_app. simpl.
  rewrite <- (length_map fst plays), <- (length_map fst (plays ++ [p])), map_app. simpl.
  apply pushBounded_recent.
Qed.

Lemma recentCount_count_occ h motionId :
  History.recentCount h motionId = count_occ string_dec (History.history h) motionId.
Proof.
  unfold History.recentCount.
  induction (History.history h) as [|x l IH]; simpl; [reflexivity|].
  destruct (string_dec x motionId) as [->|Hne].
  - rewrite String.eqb_refl. simpl. rewrite IH. reflexivity.
  - apply String.eqb_neq in Hne. rewrite Hne. exact IH.
Qed.

Lemma recentCount_replay plays m :
  History.recentCount (replay plays) (Motion.id m) = usesIn (recentPlays plays) m.
Proof. rewrite recentCount_count_occ, replay_history. reflexivity. Qed.

Lemma poolOf_replay plays candidates :
  History.poolOf (replay plays) candidates = specPool (recentPlays plays) candidates.
Proof.
  unfold History.poolOf, History.eligibleOf, specPool.
  erewrite List.filter_ext; [reflexivity|].
  intros m. simpl. rewrite recentCount_replay. reflexivity.
Qed.

Lemma truthy_preferred prefer m :
  History.truthy prefer
  && match prefer with
     | Some g => String.eqb (Motion.altGroup m) g
     | None => false
     end = preferred prefer m.
Proof.
  destruct prefer as [g|]; [|reflexivity]. simpl.
  destruct g; reflexivity.
Qed.

Lemma weightOf_replay plays prefer m :
  History.weightOf (replay plays) prefer m == specWeight (recentPlays plays) prefer m.
Proof.
  unfold History.weightOf, specWeight.
  rewrite truthy_preferred, recentCount_replay.
  assert (Hw : inject_Z (Z.of_nat History.MAX_SAME_MOTION_USES + 1
                         - Z.of_nat (usesIn (recentPlays plays) m))
               == 3 - inject_Z (Z.of_nat (usesIn (recentPlays plays) m))).
  { unfold History.MAX_SAME_MOTION_USES. unfold Z.sub.
    rewrite inject_Z_plus, inject_Z_opp.
    change (inject_Z (Z.of_nat 2 + 1)) with 3. unfold Qminus. reflexivity. }
  destruct (preferred prefer m).
  - rewrite Hw. reflexivity.
  - rewrite Hw. ring.
Qed.

Lemma Qsum_ext {A} (f g : A -> Q) (l : list A) :
  (forall x, f x == g x) -> Qsum (map f l) == Qsum (map g l).
Proof.
  intros Hfg. induction l as [|x l IH]; simpl; [reflexivity|].
  rewrite IH, Hfg. reflexivity.
Qed.

Lemma fold_left_Qplus (l : list Q) (a : Q) :
  fold_left Qplus l a == a + Qsum l.
Proof.
  revert a. induction l as [|x l IH]; intros a; simpl; [ring|].
  rewrite IH. ring.
Qed.

Lemma Qsum_pos {A} (f : A -> Q) (l : list A) :
  (forall x, 0 < f x) -> l <> [] -> 0 < Qsum (map f l).
Proof.
  intros Hf. induction l as [|x l IH]; [congruence|]. intros _. simpl.
  destruct l as [|y l].
  - simpl. pose proof (Hf x). lra.
  - assert (0 < Qsum (map f (y :: l))) by (apply IH; congruence).
    pose proof (Hf x). lra.
Qed.

(** The loop of the draw returns the first entry at which the running sum
    of the weights reaches [r]. *)
Lemma drawLoop_found (wf : Motion.MotionDef -> Q) (pool : list Motion.MotionDef) :
  (forall m, 0 < wf m) ->
  forall r, pool <> [] -> r <= Qsum (map wf pool) ->
  exists i m,
    History.drawLoop r pool (map wf pool) = Some m
    /\ nth_error pool i = Some m
    /\ (forall j, (j < i)%nat -> Qsum (map wf (firstn (S j) pool)) < r)
    /\ r <= Qsum (map wf (firstn (S i) pool)).
Proof.
  intros Hpos. induction pool as [|m pool IH]; intros r Hne Hr; [congruence|].
  simpl. destruct (Qle_bool (r - wf m) 0) eqn:Hle.
  - apply Qle_bool_iff in Hle. exists 0%nat, m. repeat split.
    + intros j Hj. lia.
    + simpl. lra.
  - assert (Hgt : 0 < r - wf m).
    { destruct (Qlt_le_dec 0 (r - wf m)) as [Hlt|Hge]; [exact Hlt|].
      apply Qle_bool_iff in Hge. congruence. }
    assert (Hne' : pool <> []).
    { intros ->. simpl in Hr. lra. }
    simpl in Hr.
    destruct (IH (r - wf m) Hne') as (i & m' & Hd & Hn & Hbefore & Hat); [lra|].
    exists (S i), m'. repeat split; [exact Hd | exact Hn | |].
    + intros [|j] Hj.
      * simpl. lra.
      * assert (Hj' : (j < i)%nat) by lia.
        specialize (Hbefore j Hj'). simpl in *. lra.
    + simpl in *. lra.
Qed.

Lemma drawLoop_ext (f g : Motion.MotionDef -> Q) (pool : list Motion.MotionDef) :
  (forall m, f m == g m) ->
  forall r r', r == r' ->
  History.drawLoop r pool (map f pool) = History.drawLoop r' pool (map g pool).
Proof.
  intros Hfg. induction pool as [|m pool IH]; intros r r' Hr; [reflexivity|].
  simpl.
  assert (Hq : r - f m == r' - g m) by (rewrite Hr, Hfg; reflexivity).
  rewrite Hq. destruct (Qle_bool (r' - g m) 0); [reflexivity|].
  apply IH. exact Hq.
Qed.

Lemma specPool_nonempty recent candidates :
  candidates <> [] -> specPool recent candidates <> [].
Proof.
  unfold specPool. destruct (List.filter _ candidates); [auto | congruence].
Qed.

Lemma specPool_incl recent candidates m :
  In m (specPool recent candidates) -> In m candidates.
Proof.
  unfold specPool.
  destruct (List.filter _ candidates) as [|e l] eqn:Hf; [auto|].
  rewrite <- Hf. intros Hin. apply List.filter_In in Hin. tauto.
Qed.

Lemma specWeight_pos recent prefer m : 0 < specWeight recent prefer m.
Proof.
  unfold specWeight.
  pose proof (Q.le_max_l 1 (3 - inject_Z (Z.of_nat (usesIn recent m)))) as Hmax.
  destruct (preferred prefer m); nra.
Qed.

(** C2.  For every sequence of recorded plays, every non-empty candidate
    list and every value of the random draw in [0, 1): the selection
    returns an entry of the pool, where the pool is the candidates used
    fewer than 2 times in the 10 most recent plays, or all candidates when
    there is none; the entry returned is the first one at which the running
    sum of the weights reaches the draw scaled by the total weight, where
    the weight of a candidate is max(1, 3 - its count in those 10 plays),
    times 1.5 when a preferred alternation group is supplied and the
    candidate belongs to it.  So each entry of the pool is drawn with
    probability weight / total weight. *)
Theorem C2_pickWithRotation_weighted_draw
    (plays : list (string * string)) (candidates : list Motion.MotionDef)
    (preferAltGroup : option string) (random : Q) :
  candidates <> [] -> 0 <= random -> random < 1 ->
  let recent := recentPlays plays in
  let pool := specPool recent candidates in
  let total := weightUpTo recent preferAltGroup pool (length pool) in
  exists i m,
    History.pickWithRotation (replay plays) candidates preferAltGroup random = Some m
    /\ nth_error pool i = Some m
    /\ In m candidates
    /\ (forall j, (j < i)%nat -> weightUpTo recent preferAltGroup pool (S j) < random * total)
    /\ random * total <= weightUpTo recent preferAltGroup pool (S i).
Proof.
  intros Hne H0 H1 recent pool total.
  assert (Hpool : pool <> []) by (apply specPool_nonempty; exact Hne).
  assert (Htotal : total == Qsum (map (specWeight recent preferAltGroup) pool)).
  { unfold total, weightUpTo. rewrite firstn_all. reflexivity. }
  assert (Hpos : 0 < total).
  { rewrite Htotal. apply Qsum_pos; [apply specWeight_pos | exact Hpool]. }
  destruct (drawLoop_found (specWeight recent preferAltGroup) pool
              (specWeight_pos recent preferAltGroup) (random * total) Hpool)
    as (i & m & Hd & Hn & Hbefore & Hat).
  { rewrite <- Htotal. nra. }
  exists i, m. repeat split; try assumption.
  - unfold History.pickWithRotation.
    destruct candidates as [|c0 cs]; [congruence|].
    rewrite poolOf_replay. fold recent. fold pool.
    rewrite (drawLoop_ext (History.weightOf (replay plays) preferAltGroup)
               (specWeight recent preferAltGroup) pool
               (weightOf_replay plays preferAltGroup)
               _ (random * total)).
    + rewrite Hd. reflexivity.
    + rewrite fold_left_Qplus, Htotal.
      rewrite (Qsum_ext _ _ pool (weightOf_replay plays preferAltGroup)).
      fold recent. ring.
  - apply (specPool_incl recent). eapply nth_error_In. exact Hn.
Qed.

Lemma C2_pickWithRotation_witness :
  exists i m,
    History.pickWithRotation (replay demoPlays) [demoIdleA; demoIdleB] (Some "b") 0.5 = Some m
    /\ nth_error (specPool (recentPlays demoPlays) [demoIdleA; demoIdleB]) i = Some m
    /\ In m [demoIdleA; demoIdleB]
    /\ (forall j, (j < i)%nat ->
         weightUpTo (recentPlays demoPlays) (Some "b")
                    (specPool (recentPlays demoPlays) [demoIdleA; demoIdleB]) (S j)
         < 0.5 * weightUpTo (recentPlays demoPlays) (Some "b")
                            (specPool (recentPlays demoPlays) [demoIdleA; demoIdleB])
                            (length (specPool (recentPlays demoPlays) [demoIdleA; demoIdleB])))
    /\ 0.5 * weightUpTo (recentPlays demoPlays) (Some "b")
                        (specPool (recentPlays demoPlays) [demoIdleA; demoIdleB])
                        (length (specPool (recentPlays demoPlays) [demoIdleA; demoIdleB]))
       <= weightUpTo (recentPlays demoPlays) (Some "b")
                     (specPool (recentPlays demoPlays) [demoIdleA; demoIdleB]) (S i).
Proof.
  apply (C2_pickWithRotation_weighted_draw demoPlays [demoIdleA; demoIdleB] (Some "b") 0.5).
  - discriminate.
  - unfold Qle; simpl; lia.
  - unfold Qlt; simpl; lia.
Defined.

(** Runs of the selection on a two-clip pool. *)
Example pickWithRotation_run :
  History.pickWithRotation (replay demoPlays) [demoIdleA; demoIdleB] (Some "b") 0.5
  = Some demoIdleB
  /\ History.pickWithRotation (replay demoPlays) [demoIdleA; demoIdleB] None 0 = Some demoIdleB
  /\ History.pickWithRotation (replay [("idle_a", "a"); ("idle_b", "b")])
                              [demoIdleA; demoIdleB] None 0.5
     = Some demoIdleA
  /\ History.pickWithRotation (replay [("idle_a", "a"); ("idle_b", "b")])
                              [demoIdleA; demoIdleB] None 0.6
     = Some demoIdleB.
Proof. vm_compute. repeat split. Qed.

(** ** playMotion, playMotionWithFallback *)

Section ManagerFacts.
Context `{Trig}.
Variable library : list Motion.MotionDef.
Variable loadVRMAFile : string -> VRM -> outcome AnimationClip.
Variable loadFBX : string -> outcome Retarget.FBXAsset.

(** [playMotion] returns on every input: no load failure leaves it as an
    exception. *)
Lemma playMotion_never_throws motionId s :
  fst (Manager.playMotion library loadVRMAFile loadFBX motionId s) = Ok tt.
Proof.
  unfold Manager.playMotion.
  destruct (Manager.mixer s); [|reflexivity].
  destruct (Manager.loadMotion _ _ _ _ _) as [[c|] s']; [|reflexivity].
  destruct (Manager.findDef library motionId) as [d|]; simpl;
    [destruct (Motion.playMode d)|]; reflexivity.
Qed.

(** The flag returned by [playMotionWithFallback] only tells whether a
    mixer is bound. *)
Lemma playMotionWithFallback_flag motionId s :
  fst (Manager.playMotionWithFallback library loadVRMAFile loadFBX motionId s)
  = match Manager.mixer s with Some _ => true | None => false end.
Proof.
  unfold Manager.playMotionWithFallback.
  destruct (Manager.mixer s); [|reflexivity].
  pose proof (playMotion_never_throws motionId s) as Hok.
  destruct (Manager.playMotion _ _ _ _ _) as [[u|msg] s']; simpl in *; [reflexivity|discriminate].
Qed.

(** When no clip can be loaded, [playMotion] leaves the state as
    [loadMotion] left it: no motion is started. *)
Lemma playMotion_without_clip motionId s s' :
  Manager.loadMotion library loadVRMAFile loadFBX motionId s = (None, s') ->
  snd (Manager.playMotion library loadVRMAFile loadFBX motionId s) = s' /\ s' = s.
Proof.
  intros Hload. unfold Manager.playMotion.
  assert (Hs : s' = s).
  { unfold Manager.loadMotion, Manager.loadProcedural in Hload.
    destruct (Manager.vrm s) as [v|]; [|congruence].
    destruct (Manager.mixer s); [|congruence].
    destruct (Manager.clipCache s !! motionId); [congruence|].
    destruct (Manager.findDef library motionId) as [d|].
    - destruct (Motion.format d);
        [destruct (Manager.loadVRMA _ _ _ _) as [c|msg]
        |destruct (Retarget.loadMixamoAnimation _ _ _ _ _) as [c|msg]].
      all: try (destruct (Manager.cacheNewClip _ _ _); congruence).
      all: destruct (Procedural.createProceduralClip v motionId);
        [destruct (Manager.cacheNewClip _ _ _)|]; congruence.
    - destruct (Procedural.createProceduralClip v motionId);
        [destruct (Manager.cacheNewClip _ _ _)|]; congruence. }
  destruct (Manager.mixer s); [|simpl; split; congruence].
  rewrite Hload. simpl. split; [reflexivity | exact Hs].
Qed.

End ManagerFacts.

(** C1 (the code departs from the claim).  With a mixer bound, an empty
    library and every asset missing, motion id [Idle1] has neither an
    authored asset nor a procedural generator: [loadMotion] returns null, no
    motion is started and the state is unchanged, yet
    [playMotionWithFallback] returns [true].  The same happens when the
    library lists [Idle1] and its file fails to load. *)
Theorem C1_playMotionWithFallback_reports_true_without_clip :
  fst (Manager.loadMotion (H := demoTrig) [] noVRMA noFBX "Idle1" demoBound) = None
  /\ Manager.playMotionWithFallback (H := demoTrig) [] noVRMA noFBX "Idle1" demoBound
     = (true, demoBound)
  /\ fst (Manager.loadMotion (H := demoTrig) [demoIdle "Idle1" "Idle1"] noVRMA noFBX
                             "Idle1" demoBound) = None
  /\ Manager.playMotionWithFallback (H := demoTrig) [demoIdle "Idle1" "Idle1"] noVRMA noFBX
                                    "Idle1" demoBound
     = (true, demoBound).
Proof. vm_compute. repeat split. Qed.

(** A motion whose file loads is started and reported with [true]; without a
    mixer the flag is [false]. *)
Example playMotionWithFallback_run :
  fst (Manager.playMotionWithFallback (H := demoTrig) [demoIdle "Idle1" "Idle1"] anyVRMA noFBX
                                      "Idle1" demoBound) = true
  /\ Manager.activeLoopMotionId
       (snd (Manager.playMotionWithFallback (H := demoTrig) [demoIdle "Idle1" "Idle1"]
                                            anyVRMA noFBX "Idle1" demoBound))
     = Some "Idle1"
  /\ fst (Manager.playMotionWithFallback (H := demoTrig) [] noVRMA noFBX "nod" demoBound) = true
  /\ fst (Manager.playMotionWithFallback (H := demoTrig) [] noVRMA noFBX "Idle1"
                                         Manager.initial) = false.
Proof. vm_compute. repeat split. Qed.

(** ** One-shot playback over a loop *)

Lemma actionOf_setShotSlot a s r : actionOf (Manager.setShotSlot a s) r = actionOf s r.
Proof. destruct s; reflexivity. Qed.

Lemma actionOf_setMixer m s r : actionOf (Manager.setMixer m s) r = Mixer.actions m !! r.
Proof. destruct s; reflexivity. Qed.

Lemma actions_onAction r f m r' :
  Mixer.actions (Mixer.onAction r f m) !! r'
  = if decide (r = r') then f <$> (Mixer.actions m !! r) else Mixer.actions m !! r'.
Proof.
  unfold Mixer.onAction. case_decide as Hr.
  - subst r'. destruct (Mixer.actions m !! r) eqn:Ha; simpl; [|rewrite Ha; reflexivity].
    rewrite lookup_insert_eq. reflexivity.
  - destruct (Mixer.actions m !! r); simpl; [|reflexivity].
    rewrite lookup_insert_ne by exact Hr. reflexivity.
Qed.

Lemma actionOf_act ref f s r :
  actionOf (Manager.act ref f s) r
  = match ref with
    | Some r0 => if decide (r0 = r) then f <$> actionOf s r else actionOf s r
    | None => actionOf s r
    end.
Proof.
  unfold Manager.act. destruct ref as [r0|]; [|reflexivity].
  unfold actionOf at 2 3. destruct (Manager.mixer s) as [m|] eqn:Hm.
  - rewrite actionOf_setMixer, actions_onAction.
    case_decide; [subst; reflexivity | reflexivity].
  - unfold actionOf. rewrite Hm. case_decide; reflexivity.
Qed.

Lemma actions_clipAction c m r :
  Mixer.actions (snd (Mixer.clipAction c m)) !! r
  = if decide (Mixer.uuid c = r)
    then Some (match Mixer.actions m !! r with
               | Some a => a
               | None => Mixer.newAction (Mixer.uuid c)
               end)
    else Mixer.actions m !! r.
Proof.
  unfold Mixer.clipAction. case_decide as Hr.
  - subst r. destruct (Mixer.actions m !! Mixer.uuid c) eqn:Ha; simpl; [exact Ha|].
    rewrite lookup_insert_eq. reflexivity.
  - destruct (Mixer.actions m !! Mixer.uuid c); simpl; [reflexivity|].
    rewrite lookup_insert_ne by exact Hr. reflexivity.
Qed.

Lemma fst_clipAction c m : fst (Mixer.clipAction c m) = Mixer.uuid c.
Proof. unfold Mixer.clipAction. destruct (Mixer.actions m !! Mixer.uuid c); reflexivity. Qed.

(** The method chain applied to the action of the one-shot clip. *)
Definition startShot (fadeDuration : Q) (a : Mixer.AnimationAction) : Mixer.AnimationAction :=
  Mixer.play
    (Mixer.fadeIn fadeDuration
       (Mixer.setEffectiveWeight 1
          (Mixer.setEffectiveTimeScale 1
             (Mixer.reset (Mixer.setClampWhenFinished true (Mixer.setLoop Mixer.LoopOnce a)))))).

(** [playOneShot], action by action, when the clip of the one-shot is not
    the clip of the active loop. *)
Lemma playOneShot_effect c fadeDuration s m :
  Manager.mixer s = Some m ->
  Manager.activeLoopAction s <> Some (Mixer.uuid c) ->
  let s1 := Manager.playOneShot c fadeDuration s in
  Manager.activeShotAction s1 = Some (Mixer.uuid c)
  /\ samePlaybackState s s1
  /\ forall r,
       actionOf s1 r =
       if decide (r = Mixer.uuid c) then
         Some (startShot fadeDuration
                 (match Mixer.actions m !! r with
                  | Some a => if decide (Manager.activeShotAction s = Some r)
                              then Mixer.fadeOut (fadeDuration * 0.5) a else a
                  | None => Mixer.newAction r
                  end))
       else if decide (Manager.activeLoopAction s = Some r) then
         Mixer.setEffectiveWeight 0.2
           <$> ((if decide (Manager.activeShotAction s = Some r)
                 then Mixer.fadeOut (fadeDuration * 0.5) else (fun a => a))
                <$> Mixer.actions m !! r)
       else if decide (Manager.activeShotAction s = Some r) then
         Mixer.fadeOut (fadeDuration * 0.5) <$> Mixer.actions m !! r
       else Mixer.actions m !! r.
Proof.
  intros Hm Hloop s1. subst s1.
  destruct s as [v mx n cc la li sa fa h i hp hk ce ab]. simpl in Hm, Hloop. subst mx.
  unfold Manager.playOneShot. simpl Manager.mixer. cbv iota.
  set (s0 := Manager.act _ _ _).
  assert (Hs0 : exists m0, s0 = Manager.mkManager v (Some m0) n cc la li sa fa h i hp hk ce ab
                 /\ forall r, Mixer.actions m0 !! r
                              = if decide (sa = Some r)
                                then Mixer.fadeOut (fadeDuration * 0.5) <$> Mixer.actions m !! r
                                else Mixer.actions m !! r).
  { subst s0. unfold Manager.act. simpl. destruct sa as [P|].
    - eexists. split; [reflexivity|]. intros r. rewrite actions_onAction.
      repeat case_decide; try congruence; reflexivity.
    - exists m. split; [reflexivity|]. intros r. case_decide; [congruence | reflexivity]. }
  destruct Hs0 as (m0 & -> & Hm0). simpl Manager.mixer. cbv iota.
  pose proof (fst_clipAction c m0) as Hfst.
  pose proof (actions_clipAction c m0) as Hsnd.
  destruct (Mixer.clipAction c m0) as [action m1]. simpl in Hfst, Hsnd. subst action.
  unfold Manager.act, Manager.setMixer, Manager.setShotSlot. simpl.
  assert (Hcase : forall r, Mixer.actions m1 !! r
            = if decide (Mixer.uuid c = r)
              then Some (match Mixer.actions m !! r with
                         | Some a => if decide (sa = Some r)
                                     then Mixer.fadeOut (fadeDuration * 0.5) a else a
                         | None => Mixer.newAction (Mixer.uuid c)
                         end)
              else if decide (sa = Some r)
                   then Mixer.fadeOut (fadeDuration * 0.5) <$> Mixer.actions m !! r
                   else Mixer.actions m !! r).
  { intros r. rewrite Hsnd, Hm0.
    repeat case_decide; destruct (Mixer.actions m !! r); reflexivity. }
  clear Hsnd Hm0.
  destruct la as [L|]; simpl.
  - repeat split. intros r. unfold actionOf. cbn [Manager.mixer].
    rewrite !actions_onAction, !Hcase.
    repeat case_decide; subst; try congruence;
      try (exfalso; apply Hloop; reflexivity);
      destruct (Mixer.actions m !! _) as [a|]; simpl; try reflexivity.
  - repeat split. intros r. unfold actionOf. cbn [Manager.mixer].
    rewrite !actions_onAction, !Hcase.
    repeat case_decide; subst; try congruence;
      destruct (Mixer.actions m !! _) as [a|]; simpl; try reflexivity.
Qed.

Lemma act_samePlaybackState ref f s : samePlaybackState s (Manager.act ref f s).
Proof.
  unfold Manager.act. destruct ref as [r0|]; [|repeat split].
  destruct s as [v [m|] n cc la li sa fa h i hp hk ce ab]; repeat split.
Qed.

Lemma act_activeShotAction ref f s :
  Manager.activeShotAction (Manager.act ref f s) = Manager.activeShotAction s.
Proof.
  unfold Manager.act. destruct ref as [r0|]; [|reflexivity].
  destruct s as [v [m|] n cc la li sa fa h i hp hk ce ab]; reflexivity.
Qed.

Lemma setShotSlot_samePlaybackState a s : samePlaybackState s (Manager.setShotSlot a s).
Proof. destruct s. repeat split. Qed.

Lemma setShotSlot_activeShotAction a s :
  Manager.activeShotAction (Manager.setShotSlot a s) = a.
Proof. destruct s. reflexivity. Qed.

Lemma samePlaybackState_trans s1 s2 s3 :
  samePlaybackState s1 s2 -> samePlaybackState s2 s3 -> samePlaybackState s1 s3.
Proof.
  unfold samePlaybackState. intros H12 H23.
  repeat match goal with H : _ /\ _ |- _ => destruct H end.
  repeat split; congruence.
Qed.

(** The handler of [finished], action by action. *)
Lemma onAnimationFinished_effect action s :
  Manager.activeShotAction s = Some action ->
  let s2 := Manager.onAnimationFinished action s in
  Manager.activeShotAction s2 = None
  /\ samePlaybackState s s2
  /\ forall r,
       actionOf s2 r =
       if decide (Manager.activeLoopAction s = Some r) then
         Mixer.setEffectiveWeight 1
           <$> ((if decide (action = r) then Mixer.fadeOut 0.4 else (fun a => a))
                <$> actionOf s r)
       else if decide (action = r) then Mixer.fadeOut 0.4 <$> actionOf s r
       else actionOf s r.
Proof.
  intros Hshot s2. subst s2. unfold Manager.onAnimationFinished.
  rewrite Hshot. cbn [Manager.optNatEqb]. rewrite Nat.eqb_refl. cbv zeta.
  set (sA := Manager.act (Some action) (Mixer.fadeOut 0.4) s).
  set (sB := Manager.setShotSlot None sA).
  assert (HAB : samePlaybackState s sB).
  { eapply samePlaybackState_trans; [apply act_samePlaybackState|].
    apply setShotSlot_samePlaybackState. }
  assert (Hloop : Manager.activeLoopAction sB = Manager.activeLoopAction s).
  { destruct HAB as (_ & _ & _ & Hl & _). exact Hl. }
  split; [|split].
  - rewrite act_activeShotAction. apply setShotSlot_activeShotAction.
  - eapply samePlaybackState_trans; [exact HAB | apply act_samePlaybackState].
  - intros r. rewrite actionOf_act, Hloop.
    subst sB. rewrite actionOf_setShotSlot. subst sA. rewrite actionOf_act.
    destruct (Manager.activeLoopAction s) as [L|].
    + repeat case_decide; try congruence; destruct (actionOf s r); reflexivity.
    + repeat case_decide; try congruence; reflexivity.
Qed.

(** The handler ignores the end of any action other than the active
    one-shot. *)
Lemma onAnimationFinished_other action s :
  Manager.activeShotAction s <> Some action ->
  Manager.onAnimationFinished action s = s.
Proof.
  intros Hne. unfold Manager.onAnimationFinished.
  destruct (Manager.activeShotAction s) as [x|]; simpl; [|reflexivity].
  destruct (Nat.eqb_spec x action); [congruence | reflexivity].
Qed.

(** C4.  A one-shot clip is started while a loop action [L] is active and
    enabled (the clip is not the clip of the loop).  Then: the loop action's
    effective weight is 0.2 with no fade pending; the one-shot action is the
    active one-shot, at weight 1, fading in, scheduled, set to play once and
    clamp; a previously active one-shot (another action than the loop and
    the new one) is fading out over half the fade duration.  When the
    one-shot finishes, it is fading out over 0.4 s, the one-shot slot is
    empty and the loop action's effective weight is 1.  The handler changes
    nothing else: the rest of the playback state and every other action are
    as before, and the end of any other action changes nothing at all. *)
Theorem C4_one_shot_lowers_and_restores_loop_weight
    (c : Mixer.ClipObject) (fadeDuration : Q) (s : Manager.AnimationManager)
    (L : nat) (loopAction : Mixer.AnimationAction) :
  Manager.activeLoopAction s = Some L ->
  actionOf s L = Some loopAction ->
  Mixer.enabled loopAction = true ->
  L <> Mixer.uuid c ->
  let shot := Mixer.uuid c in
  let s1 := Manager.playOneShot c fadeDuration s in
  let s2 := Manager.onAnimationFinished shot s1 in
  (Manager.activeShotAction s1 = Some shot
   /\ (exists l1, actionOf s1 L = Some l1
                  /\ Mixer.effectiveWeight l1 = 0.2 /\ Mixer.weight l1 = 0.2
                  /\ Mixer.fading l1 = None /\ Mixer.settledWeight l1 = 0.2)
   /\ (exists o1, actionOf s1 shot = Some o1
                  /\ Mixer.weight o1 = 1 /\ Mixer.fading o1 = Some (0, 1, fadeDuration)
                  /\ Mixer.scheduled o1 = true /\ Mixer.loopMode o1 = Mixer.LoopOnce
                  /\ Mixer.clampWhenFinished o1 = true)
   /\ (forall P, Manager.activeShotAction s = Some P -> P <> shot -> P <> L ->
                 Mixer.fading <$> actionOf s1 P
                 = (fun _ => Some (1, 0, fadeDuration * 0.5)) <$> actionOf s P))
  /\ (Manager.activeShotAction s2 = None
      /\ (exists o2, actionOf s2 shot = Some o2 /\ Mixer.fading o2 = Some (1, 0, 0.4))
      /\ (exists l2, actionOf s2 L = Some l2
                     /\ Mixer.effectiveWeight l2 = 1 /\ Mixer.weight l2 = 1
                     /\ Mixer.fading l2 = None))
  /\ (samePlaybackState s1 s2
      /\ (forall r, r <> shot -> r <> L -> actionOf s2 r = actionOf s1 r)
      /\ (forall other, other <> shot -> Manager.onAnimationFinished other s1 = s1)).
Proof.
  intros HL Ha Hen Hne shot s1 s2.
  assert (Hm : exists m, Manager.mixer s = Some m).
  { unfold actionOf in Ha. destruct (Manager.mixer s) as [m|]; [eauto | discriminate]. }
  destruct Hm as [m Hm].
  assert (Ham : Mixer.actions m !! L = Some loopAction).
  { unfold actionOf in Ha. rewrite Hm in Ha. exact Ha. }
  assert (Hloop : Manager.activeLoopAction s <> Some (Mixer.uuid c)) by congruence.
  destruct (playOneShot_effect c fadeDuration s m Hm Hloop) as (Hshot1 & Hsame1 & Hact1).
  fold s1 in Hshot1, Hsame1, Hact1. fold shot in Hshot1, Hact1.
  destruct (onAnimationFinished_effect shot s1 Hshot1) as (Hshot2 & Hsame2 & Hact2).
  fold s2 in Hshot2, Hsame2, Hact2.
  assert (HL1 : Manager.activeLoopAction s1 = Some L).
  { destruct Hsame1 as (_ & _ & _ & Hl & _). congruence. }
  assert (Hl1 : exists la, actionOf s1 L = Some (Mixer.setEffectiveWeight 0.2 la)
                            /\ Mixer.enabled la = true).
  { rewrite Hact1, Ham.
    repeat case_decide; try (unfold shot in *; congruence);
      eexists; (split; [reflexivity|]); destruct loopAction; exact Hen. }
  destruct Hl1 as (la & Hl1 & Hla).
  assert (Ho1 : exists a0, actionOf s1 shot = Some (startShot fadeDuration a0)).
  { rewrite Hact1, decide_True by reflexivity. eexists; reflexivity. }
  destruct Ho1 as [a0 Ho1].
  split; [|split].
  - split; [exact Hshot1|]. split; [|split].
    + eexists. split; [exact Hl1|].
      destruct la; simpl in *; subst; repeat split.
    + eexists. split; [exact Ho1|]. destruct a0. repeat split.
    + intros P HP HPs HPL. rewrite Hact1.
      repeat case_decide; try (unfold shot in *; congruence).
      destruct (Mixer.actions m !! P) as [p|] eqn:Hp; unfold actionOf; rewrite Hm, Hp; simpl;
        [destruct p|]; reflexivity.
  - split; [exact Hshot2|]. split.
    + eexists. split.
      * rewrite Hact2, Ho1. repeat case_decide; try (unfold shot in *; congruence); reflexivity.
      * destruct a0. reflexivity.
    + eexists. split.
      * rewrite Hact2, Hl1. repeat case_decide; try (unfold shot in *; congruence); reflexivity.
      * destruct la; simpl in *; subst; repeat split.
  - split; [exact Hsame2|]. split.
    + intros r Hr1 Hr2. rewrite Hact2. repeat case_decide; try (unfold shot in *; congruence); reflexivity.
    + intros other Hother. apply onAnimationFinished_other. unfold shot in *; congruence.
Qed.

Lemma C4_one_shot_witness :
  Mixer.effectiveWeight
    <$> actionOf (Manager.playOneShot (demoClip 8 "wave") 0.3 demoLooping) 7
  = Some 0.2
  /\ Mixer.effectiveWeight
       <$> actionOf (Manager.onAnimationFinished 8
                       (Manager.playOneShot (demoClip 8 "wave") 0.3 demoLooping)) 7
     = Some 1.
Proof.
  destruct (C4_one_shot_lowers_and_restores_loop_weight
              (demoClip 8 "wave") 0.3 demoLooping 7
              demoLoopAction)
    as ((_ & (l1 & Hl1 & Hw1 & _) & _) & (_ & _ & (l2 & Hl2 & Hw2 & _)) & _).
  - reflexivity.
  - vm_compute. reflexivity.
  - reflexivity.
  - simpl. lia.
  - simpl in Hl1, Hl2. rewrite Hl1, Hl2. simpl. rewrite Hw1, Hw2. split; reflexivity.
Defined.

(** ** Idle selection and repetition *)

(** C3 (fails on the code).  Thirty consecutive idle selections from a pool
    of three clips, all files loading: after the seventh selection the
    history, which holds the most recent plays, is a b c a b c a: clip a is
    played 3 times within 7 consecutive plays. *)
Lemma C3_three_plays_in_window :
  length demoDraws = 30%nat
  /\ Forall (fun d => 0 <= fst d /\ fst d < 1 /\ 0 <= snd d /\ snd d < 1) demoDraws
  /\ map Motion.id (Manager.idlePool demoLibrary "neutral") = ["idle_a"; "idle_b"; "idle_c"]
  /\ History.history
       (Manager.motionHistory
          (idleSelections (H := demoTrig) demoLibrary anyVRMA noFBX "neutral"
                          (firstn 7 demoDraws) demoBound))
     = ["idle_a"; "idle_b"; "idle_c"; "idle_a"; "idle_b"; "idle_c"; "idle_a"]
  /\ History.history
       (Manager.motionHistory
          (idleSelections (H := demoTrig) demoLibrary anyVRMA noFBX "neutral"
                          demoDraws demoBound))
     = ["idle_a"; "idle_b"; "idle_c"; "idle_a"; "idle_b"; "idle_c"; "idle_a"]
  /\ History.recentCount
       (Manager.motionHistory
          (idleSelections (H := demoTrig) demoLibrary anyVRMA noFBX "neutral"
                          demoDraws demoBound))
       "idle_a" = 3%nat.
Proof.
  split; [reflexivity|]. split.
  { unfold demoDraws. simpl.
    repeat (apply Forall_cons_2; [simpl; unfold Qle, Qlt; simpl; lia|]). apply Forall_nil_2. }
  vm_compute. repeat split.
Qed.

Section SelectionFacts.
Context `{Trig}.
Variable library : list Motion.MotionDef.
Variable loadVRMAFile : string -> VRM -> outcome AnimationClip.
Variable loadFBX : string -> outcome Retarget.FBXAsset.

Lemma act_motionHistory ref f s :
  Manager.motionHistory (Manager.act ref f s) = Manager.motionHistory s.
Proof.
  pose proof (act_samePlaybackState ref f s) as Hs. unfold samePlaybackState in Hs. tauto.
Qed.

Lemma loadMotion_motionHistory motionId s :
  Manager.motionHistory (snd (Manager.loadMotion library loadVRMAFile loadFBX motionId s))
  = Manager.motionHistory s.
Proof.
  unfold Manager.loadMotion, Manager.loadProcedural.
  destruct (Manager.vrm s) as [v|] eqn:Hv; [|reflexivity].
  destruct (Manager.mixer s) eqn:Hm; [|reflexivity].
  destruct (Manager.clipCache s !! motionId); [reflexivity|].
  assert (Hc : forall c, Manager.motionHistory (snd (Manager.cacheNewClip motionId c s))
                         = Manager.motionHistory s) by (intros c; destruct s; reflexivity).
  assert (Hp : Manager.motionHistory
                 (snd match Procedural.createProceduralClip v motionId with
                      | Some proceduralClip =>
                        let (obj, s') := Manager.cacheNewClip motionId proceduralClip s in
                        (Some obj, s')
                      | None => (None, s)
                      end) = Manager.motionHistory s).
  { destruct (Procedural.createProceduralClip v motionId) as [c|]; [|reflexivity].
    specialize (Hc c). destruct (Manager.cacheNewClip motionId c s). exact Hc. }
  destruct (Manager.findDef library motionId) as [d|]; [|exact Hp].
  destruct (Motion.format d);
    [destruct (Manager.loadVRMA _ _ _ _) as [c|msg]
    |destruct (Retarget.loadMixamoAnimation _ _ _ _ _) as [c|msg]]; try exact Hp.
  all: specialize (Hc c); destruct (Manager.cacheNewClip motionId c s); exact Hc.
Qed.

Lemma playLoop_motionHistory c motionId fadeDuration s :
  Manager.motionHistory (Manager.playLoop c motionId fadeDuration s) = Manager.motionHistory s.
Proof.
  unfold Manager.playLoop. destruct (Manager.mixer s) as [m|]; [|reflexivity].
  destruct (_ && _); [reflexivity|].
  destruct (Mixer.clipAction c m) as [a m'].
  destruct s; reflexivity.
Qed.

Lemma playOneShot_motionHistory c fadeDuration s :
  Manager.motionHistory (Manager.playOneShot c fadeDuration s) = Manager.motionHistory s.
Proof.
  unfold Manager.playOneShot. destruct (Manager.mixer s) as [m|] eqn:Hm; [|reflexivity].
  set (s0 := Manager.act _ _ s).
  assert (H0 : Manager.motionHistory s0 = Manager.motionHistory s) by apply act_motionHistory.
  destruct (Manager.mixer s0) as [m0|]; [|exact H0].
  destruct (Mixer.clipAction c m0) as [a m1].
  destruct s0. simpl in *.
  unfold Manager.act; simpl. destruct activeLoopAction; simpl; exact H0.
Qed.

Lemma resetToIdle_motionHistory s :
  Manager.motionHistory (Manager.resetToIdle s) = Manager.motionHistory s.
Proof.
  unfold Manager.resetToIdle. destruct (Manager.mixer s); [|reflexivity].
  set (s1 := Manager.setShotSlot None _).
  assert (H1 : Manager.motionHistory s1 = Manager.motionHistory s).
  { subst s1.
    transitivity (Manager.motionHistory
                    (Manager.act (Manager.activeShotAction
                                    (Manager.act (Manager.activeLoopAction s) (Mixer.fadeOut 0.5) s))
                                 (Mixer.fadeOut 0.3)
                                 (Manager.act (Manager.activeLoopAction s) (Mixer.fadeOut 0.5) s))).
    - destruct (Manager.act _ _ (Manager.act _ _ s)); reflexivity.
    - rewrite !act_motionHistory. reflexivity. }
  destruct (Manager.fallbackIdleAction s1) as [f|]; [|exact H1].
  transitivity (Manager.motionHistory
                  (Manager.act (Some f)
                     (fun a => Mixer.play (Mixer.fadeIn 0.5 (Mixer.reset a))) s1)).
  - destruct (Manager.act _ _ s1); reflexivity.
  - rewrite act_motionHistory. exact H1.
Qed.

(** A call of [playMotionWithFallback] records at most one play, of the
    motion asked for, under the group the library gives it. *)
Lemma playMotionWithFallback_motionHistory motionId s :
  let s' := snd (Manager.playMotionWithFallback library loadVRMAFile loadFBX motionId s) in
  Manager.motionHistory s' = Manager.motionHistory s
  \/ exists d, Manager.findDef library motionId = Some d
               /\ Manager.motionHistory s'
                  = History.record motionId (Motion.altGroup d) (Manager.motionHistory s).
Proof.
  unfold Manager.playMotionWithFallback, Manager.playMotion.
  destruct (Manager.mixer s); [|left; reflexivity].
  pose proof (loadMotion_motionHistory motionId s) as Hl.
  destruct (Manager.loadMotion _ _ _ motionId s) as [[c|] s1]; simpl in Hl;
    [|left; exact Hl].
  destruct (Manager.findDef library motionId) as [d|].
  - right. exists d. split; [reflexivity|].
    destruct (Motion.playMode d); simpl;
      rewrite ?playLoop_motionHistory, ?playOneShot_motionHistory;
      destruct s1; simpl in *; rewrite Hl; reflexivity.
  - left. simpl. rewrite playOneShot_motionHistory. exact Hl.
Qed.

Lemma findDef_In motionId d :
  Manager.findDef library motionId = Some d -> In d library /\ Motion.id d = motionId.
Proof.
  unfold Manager.findDef. intros Hf. apply find_some in Hf.
  destruct Hf as [Hin Heq]. apply String.eqb_eq in Heq. auto.
Qed.

End SelectionFacts.

Lemma drawLoop_In r pool weights m :
  History.drawLoop r pool weights = Some m -> In m pool.
Proof.
  revert r weights. induction pool as [|x pool IH]; intros r [|w weights]; simpl; try discriminate.
  destruct (Qle_bool (r - w) 0).
  - intros Hm; injection Hm as <-. left; reflexivity.
  - intros Hm. right. eapply IH. exact Hm.
Qed.

Lemma last_In {A} (l : list A) (x : A) : last l = Some x -> In x l.
Proof.
  intros Hl. apply last_Some in Hl. destruct Hl as [l' ->].
  apply in_or_app. right. left. reflexivity.
Qed.

(** The clip picked has fewer than 2 recent plays unless every candidate
    has 2 or more. *)
Lemma pickWithRotation_rotation h candidates prefer random m :
  History.pickWithRotation h candidates prefer random = Some m ->
  In m candidates
  /\ ((History.recentCount h (Motion.id m) < 2)%nat \/ allUsedTwice h candidates).
Proof.
  unfold History.pickWithRotation. destruct candidates as [|c0 cs]; [discriminate|].
  set (cands := c0 :: cs). intros Hpick.
  assert (Hin : In m (History.poolOf h cands)).
  { destruct (History.drawLoop _ _ _) as [m'|] eqn:Hd.
    - injection Hpick as <-. eapply drawLoop_In. exact Hd.
    - apply last_In. exact Hpick. }
  clear Hpick. unfold History.poolOf, History.eligibleOf in Hin.
  destruct (List.filter _ cands) as [|e l] eqn:Hf.
  - split; [exact Hin|]. right. intros c Hc.
    destruct (Nat.ltb_spec (History.recentCount h (Motion.id c)) History.MAX_SAME_MOTION_USES)
      as [Hlt|Hge]; [|exact Hge].
    assert (Hcin : In c (List.filter
                           (fun m => Nat.ltb (History.recentCount h (Motion.id m))
                                             History.MAX_SAME_MOTION_USES) cands)).
    { apply List.filter_In. split; [exact Hc|]. apply Nat.ltb_lt. exact Hlt. }
    rewrite Hf in Hcin. destruct Hcin.
  - rewrite <- Hf in Hin. apply List.filter_In in Hin. destruct Hin as [Hin Hlt].
    split; [exact Hin|]. left. apply Nat.ltb_lt in Hlt. exact Hlt.
Qed.

Lemma randomElement_In {A} random (arr : list A) x :
  History.randomElement random arr = Some x -> In x arr.
Proof. unfold History.randomElement. apply nth_error_In. Qed.

Lemma filter_nil_forall {A} (f : A -> bool) (l : list A) :
  List.filter f l = [] -> forall x, In x l -> f x = false.
Proof.
  intros Hf x Hx. destruct (f x) eqn:Hfx; [|reflexivity].
  assert (Hin : In x (List.filter f l)) by (apply List.filter_In; auto).
  rewrite Hf in Hin. destruct Hin.
Qed.

(** The alternate returned is a member of the group; it has fewer than 2
    recent plays unless every member of the group other than the last used
    one has 2 or more. *)
Lemma getNextAlt_rotation library h g random altId :
  History.getNextAlt library h g random = Some altId ->
  exists m, In m library /\ Motion.altGroup m = g /\ Motion.id m = altId
            /\ ((History.recentCount h (Motion.id m) < 2)%nat
                \/ allUsedTwice h (altOthers library h g)).
Proof.
  unfold History.getNextAlt, altOthers. cbv zeta.
  remember (List.filter (fun m => String.eqb (Motion.altGroup m) g) library) as group
    eqn:Hgroupdef.
  remember (last match History.altGroupUsage h !! g with
                 | Some l => l
                 | None => []
                 end) as lastUsed eqn:HlastUsed.
  assert (Hgroup : forall m, In m group -> In m library /\ Motion.altGroup m = g).
  { intros m Hm. subst group. apply List.filter_In in Hm. destruct Hm as [Hin Hg].
    apply String.eqb_eq in Hg. auto. }
  clear Hgroupdef HlastUsed.
  assert (Hcount : forall m, (History.recentCount h (Motion.id m) < 2)%nat
                             \/ (2 <= History.recentCount h (Motion.id m))%nat) by (intros; lia).
  destruct (Nat.leb_spec (length group) 1) as [Hle|Hgt].
  - intros Hr. destruct group as [|m [|m' rest]]; simpl in Hr, Hle; try discriminate; [|lia].
    injection Hr as <-. exists m.
    destruct (Hgroup m (or_introl eq_refl)) as [Hin Hag]. repeat split; try assumption.
    destruct (Hcount m) as [Hlt|Hge]; [left; exact Hlt|right].
    intros c Hc. apply List.filter_In in Hc. destruct Hc as [[<-|[]] _]. exact Hge.
  - remember (List.filter
                (fun m => match lastUsed with
                          | Some l => negb (String.eqb (Motion.id m) l)
                          | None => true
                          end
                          && Nat.ltb (History.recentCount h (Motion.id m))
                                     History.MAX_SAME_MOTION_USES) group)
      as cands eqn:Hcands.
    remember (List.filter
                (fun m => match lastUsed with
                          | Some l => negb (String.eqb (Motion.id m) l)
                          | None => true
                          end) group)
      as any eqn:Hany.
    destruct cands as [|c0 cs].
    + destruct any as [|a0 rest].
      * intros Hr. destruct group as [|m rest]; simpl in Hr; [discriminate|].
        injection Hr as <-. exists m.
        destruct (Hgroup m (or_introl eq_refl)) as [Hin Hag]. repeat split; try assumption.
        right. intros c [].
      * intros Hr. destruct (History.randomElement random (a0 :: rest)) as [m|] eqn:Hre;
          [|discriminate].
        injection Hr as <-. exists m. apply randomElement_In in Hre.
        rewrite Hany in Hre.
        pose proof Hre as Hre'. apply List.filter_In in Hre'. destruct Hre' as [Hmg Hnl].
        destruct (Hgroup m Hmg) as [Hin Hag]. repeat split; try assumption.
        right. intros c Hc. rewrite Hany in Hc.
        apply List.filter_In in Hc. destruct Hc as [Hcg Hcn].
        pose proof (filter_nil_forall _ _ (eq_sym Hcands) c Hcg) as Hf. simpl in Hf.
        rewrite Hcn in Hf. simpl in Hf. apply Nat.ltb_ge in Hf. exact Hf.
    + intros Hr. destruct (History.randomElement random (c0 :: cs)) as [m|] eqn:Hre;
        [|discriminate].
      injection Hr as <-. exists m. apply randomElement_In in Hre.
      rewrite Hcands in Hre. apply List.filter_In in Hre. destruct Hre as [Hmg Hc].
      destruct (Hgroup m Hmg) as [Hin Hag]. repeat split; try assumption.
      left. apply andb_true_iff in Hc. destruct Hc as [_ Hlt].
      apply Nat.ltb_lt in Hlt. exact Hlt.
Qed.

Lemma firstn_S_nth_error {A} (l : list A) (n : nat) (d : A) :
  nth_error l n = Some d -> firstn (S n) l = (firstn n l ++ [d])%list.
Proof.
  revert n. induction l as [|x l IH]; intros [|n] Hn; simpl in Hn; try discriminate.
  - injection Hn as <-. reflexivity.
  - change (x :: firstn (S n) l = x :: (firstn n l ++ [d])%list). rewrite (IH n Hn). reflexivity.
Qed.

Section SelectionRun.
Context `{Trig}.
Variable library : list Motion.MotionDef.
Variable loadVRMAFile : string -> VRM -> outcome AnimationClip.
Variable loadFBX : string -> outcome Retarget.FBXAsset.

Lemma idlePool_incl emo m : In m (Manager.idlePool library emo) -> In m library.
Proof.
  unfold Manager.idlePool. destruct (List.filter _ library) as [|c cs] eqn:Hf.
  - intros Hm. apply List.filter_In in Hm. tauto.
  - rewrite <- Hf. intros Hm. apply List.filter_In in Hm. tauto.
Qed.

(** One call of [playEmotionIdle]. *)
Lemma playEmotionIdle_step emo randomPick randomAlt s :
  let s' := Manager.playEmotionIdle library loadVRMAFile loadFBX emo randomPick randomAlt s in
  let h := Manager.motionHistory s in
  Manager.motionHistory s' = h
  \/ exists m g,
       In m library
       /\ Manager.motionHistory s' = History.record (Motion.id m) g h
       /\ ((In m (Manager.idlePool library emo)
            /\ ((History.recentCount h (Motion.id m) < 2)%nat
                \/ allUsedTwice h (Manager.idlePool library emo)))
           \/ (exists cur, In cur library
                           /\ Manager.activeLoopMotionId s = Some (Motion.id cur)
                           /\ Motion.altGroup m = Motion.altGroup cur
                           /\ ((History.recentCount h (Motion.id m) < 2)%nat
                               \/ allUsedTwice h (altOthers library h (Motion.altGroup cur))))).
Proof.
  intros s' h. subst s'. unfold Manager.playEmotionIdle.
  destruct (Manager.idlePool library emo) as [|p0 ps] eqn:Hpool.
  { left. apply resetToIdle_motionHistory. }
  rewrite <- Hpool.
  destruct (History.pickWithRotation _ _ None randomPick) as [p|] eqn:Hpick.
  - destruct (Manager.optEqb (Manager.activeLoopMotionId s) (Motion.id p)) eqn:Hsame.
    + (* the pick is the active loop: round-robin alternate *)
      destruct (Manager.activeLoopMotionId s) as [a|] eqn:Hactive; [|left; reflexivity].
      destruct (Manager.findDef library a) as [cd|] eqn:Hcd; [|left; reflexivity].
      destruct (History.getNextAlt library _ _ randomAlt) as [altId|] eqn:Halt;
        [|left; reflexivity].
      destruct (_ && _); [|left; reflexivity].
      destruct (playMotionWithFallback_motionHistory library loadVRMAFile loadFBX altId s)
        as [Hsame'|(d & Hd & Hrec)]; [left; exact Hsame'|].
      right. apply getNextAlt_rotation in Halt.
      destruct Halt as (m & Hin & Hg & Hid & Hrot).
      apply findDef_In in Hcd. destruct Hcd as [Hcdin Hcdid].
      exists m, (Motion.altGroup d). split; [exact Hin|]. split; [rewrite Hid; exact Hrec|].
      right. exists cd. repeat split; try assumption. rewrite Hcdid. reflexivity.
    + (* the pick is another clip *)
      destruct (Manager.playMotionWithFallback library loadVRMAFile loadFBX (Motion.id p) s)
        as [success s1] eqn:Hplay.
      pose proof (playMotionWithFallback_motionHistory library loadVRMAFile loadFBX
                    (Motion.id p) s) as Hh.
      rewrite Hplay in Hh. simpl in Hh.
      assert (Hres : Manager.motionHistory (if success then s1 else Manager.resetToIdle s1)
                     = Manager.motionHistory s1).
      { destruct success; [reflexivity | apply resetToIdle_motionHistory]. }
      rewrite Hres.
      destruct Hh as [Hh|(d & Hd & Hrec)]; [left; exact Hh|].
      right. apply pickWithRotation_rotation in Hpick. destruct Hpick as [Hin Hrot].
      exists p, (Motion.altGroup d). split; [apply (idlePool_incl emo); exact Hin|].
      split; [exact Hrec|]. left. split; assumption.
  - (* no pick *)
    simpl.
    destruct (Manager.activeLoopMotionId s) as [a|] eqn:Hactive; [|left; reflexivity].
    destruct (Manager.findDef library a) as [cd|] eqn:Hcd; [|left; reflexivity].
    destruct (History.getNextAlt library _ _ randomAlt) as [altId|] eqn:Halt;
      [|left; reflexivity].
    destruct (_ && _); [|left; reflexivity].
    destruct (playMotionWithFallback_motionHistory library loadVRMAFile loadFBX altId s)
      as [Hsame'|(d & Hd & Hrec)]; [left; exact Hsame'|].
    right. apply getNextAlt_rotation in Halt.
    destruct Halt as (m & Hin & Hg & Hid & Hrot).
    apply findDef_In in Hcd. destruct Hcd as [Hcdin Hcdid].
    exists m, (Motion.altGroup d). split; [exact Hin|]. split; [rewrite Hid; exact Hrec|].
    right. exists cd. repeat split; try assumption. rewrite Hcdid. reflexivity.
Qed.

End SelectionRun.

(** C3, amended.  For every sequence of consecutive idle selections, from
    any pool and any state, and every outcome of the random draws: the
    [n+1]-th selection either records no play, or records one play of a clip
    of the library.  A clip chosen by the weighted draw comes from the pool
    and has fewer than 2 plays among the 10 most recent plays, unless every
    clip of the pool has 2 or more; a clip chosen as alternate of the active
    idle belongs to its alternation group and has fewer than 2 such plays,
    unless every member of the group other than the one last used has 2 or
    more. *)
Theorem C3_third_play_only_when_pool_exhausted `{Trig}
    (library : list Motion.MotionDef)
    (loadVRMAFile : string -> VRM -> outcome AnimationClip)
    (loadFBX : string -> outcome Retarget.FBXAsset)
    (emo : string) (draws : list (Q * Q)) (s0 : Manager.AnimationManager) (n : nat) :
  let before := idleSelections library loadVRMAFile loadFBX emo (firstn n draws) s0 in
  let after := idleSelections library loadVRMAFile loadFBX emo (firstn (S n) draws) s0 in
  let h := Manager.motionHistory before in
  Manager.motionHistory after = h
  \/ exists m g,
       In m library
       /\ Manager.motionHistory after = History.record (Motion.id m) g h
       /\ ((In m (Manager.idlePool library emo)
            /\ ((History.recentCount h (Motion.id m) < 2)%nat
                \/ allUsedTwice h (Manager.idlePool library emo)))
           \/ (exists cur, In cur library
                           /\ Manager.activeLoopMotionId before = Some (Motion.id cur)
                           /\ Motion.altGroup m = Motion.altGroup cur
                           /\ ((History.recentCount h (Motion.id m) < 2)%nat
                               \/ allUsedTwice h (altOthers library h (Motion.altGroup cur))))).
Proof.
  intros before after h.
  destruct (Nat.lt_ge_cases n (length draws)) as [Hlt|Hge].
  - assert (Hsnoc : exists d, firstn (S n) draws = (firstn n draws ++ [d])%list).
    { destruct (nth_error draws n) as [d|] eqn:Hd.
      - exists d. apply firstn_S_nth_error. exact Hd.
      - apply nth_error_None in Hd. lia. }
    destruct Hsnoc as [d Hsnoc].
    subst after. rewrite Hsnoc. unfold idleSelections. rewrite fold_left_app. simpl.
    apply playEmotionIdle_step.
  - left. subst after h before.
    rewrite !firstn_all2 by lia. reflexivity.
Qed.

(** ** Blink state machine *)

Lemma Qltb_lt a b : Blink.Qltb a b = true <-> a < b.
Proof.
  unfold Blink.Qltb. rewrite negb_true_iff. split.
  - intros Hf. destruct (Qlt_le_dec a b) as [Hlt|Hle]; [exact Hlt|].
    apply Qle_bool_iff in Hle. congruence.
  - intros Hlt. destruct (Qle_bool b a) eqn:Hle; [|reflexivity].
    apply Qle_bool_iff in Hle. lra.
Qed.

Lemma Qltb_ge a b : Blink.Qltb a b = false <-> ~ a < b.
Proof.
  rewrite <- Qltb_lt. destruct (Blink.Qltb a b); split; congruence.
Qed.

Lemma Qle_bool_false a b : Qle_bool a b = false <-> b < a.
Proof.
  split.
  - intros Hf. destruct (Qlt_le_dec b a) as [Hlt|Hle]; [exact Hlt|].
    apply Qle_bool_iff in Hle. congruence.
  - intros Hlt. destruct (Qle_bool a b) eqn:Hle; [|reflexivity].
    apply Qle_bool_iff in Hle. lra.
Qed.

(** C7.  One update of the blink controller, for draws in [0, 1).  The
    phase stays or moves to the next of waiting, closing, closed, opening,
    waiting.  Leaving waiting (countdown at or below zero) draws the closing
    time in 60-100 ms, the hold time in 20-60 ms and the opening time in
    80-140 ms.  Closing advances the progress by delta / closing time and
    writes the weight progress^2 (ease-in), then weight 1 on entering
    closed; closed holds weight 1; opening advances by delta / opening time
    and writes 1 - progress * (2 - progress) (ease-out), then weight 0 on
    returning to waiting, where the countdown is 150-250 ms when the
    double-blink draw is below 0.15, else 2.5-6 s, extended by a 3-7 s pause
    when the stare draw is below 0.1. *)
Theorem C7_blink_cycle (delta : Q) (random : nat -> Q) (s : Blink.BlinkState) :
  unitDraws random ->
  let s' := Blink.updateBlink delta random s in
  match Blink.blinkPhase s, Blink.blinkPhase s' with
  | Blink.waiting, Blink.waiting =>
    Blink.blinkTimer s' = Blink.blinkTimer s - delta /\ 0 < Blink.blinkTimer s'
    /\ Blink.blinkValue s' = Blink.blinkValue s
  | Blink.waiting, Blink.closing =>
    Blink.blinkTimer s - delta <= 0 /\ Blink.blinkT s' = 0
    /\ 0.06 <= Blink.blinkCloseTime s' /\ Blink.blinkCloseTime s' < 0.1
    /\ 0.02 <= Blink.blinkHoldTime s' /\ Blink.blinkHoldTime s' < 0.06
    /\ 0.08 <= Blink.blinkOpenTime s' /\ Blink.blinkOpenTime s' < 0.14
  | Blink.closing, Blink.closing =>
    Blink.blinkT s' = Blink.blinkT s + delta / Blink.blinkCloseTime s
    /\ Blink.blinkT s' < 1
    /\ Blink.blinkValue s' = Blink.blinkT s' * Blink.blinkT s'
    /\ Blink.blinkCloseTime s' = Blink.blinkCloseTime s
  | Blink.closing, Blink.closed =>
    1 <= Blink.blinkT s + delta / Blink.blinkCloseTime s
    /\ Blink.blinkT s' = 0 /\ Blink.blinkValue s' = 1
    /\ Blink.blinkHoldTime s' = Blink.blinkHoldTime s
  | Blink.closed, Blink.closed =>
    Blink.blinkT s' = Blink.blinkT s + delta / Blink.blinkHoldTime s
    /\ Blink.blinkT s' < 1 /\ Blink.blinkValue s' = 1
    /\ Blink.blinkHoldTime s' = Blink.blinkHoldTime s
  | Blink.closed, Blink.opening =>
    1 <= Blink.blinkT s + delta / Blink.blinkHoldTime s
    /\ Blink.blinkT s' = 0 /\ Blink.blinkValue s' = 1
    /\ Blink.blinkOpenTime s' = Blink.blinkOpenTime s
  | Blink.opening, Blink.opening =>
    Blink.blinkT s' = Blink.blinkT s + delta / Blink.blinkOpenTime s
    /\ Blink.blinkT s' < 1
    /\ Blink.blinkValue s' = 1 - Blink.blinkT s' * (2 - Blink.blinkT s')
    /\ Blink.blinkOpenTime s' = Blink.blinkOpenTime s
  | Blink.opening, Blink.waiting =>
    1 <= Blink.blinkT s + delta / Blink.blinkOpenTime s
    /\ Blink.blinkValue s' = 0
    /\ countdownSpec random (Blink.blinkTimer s')
  | _, _ => False
  end.
Proof.
  intros Hr s'. subst s'.
  destruct s as [phase timer t closeTime holdTime openTime value].
  destruct phase; simpl.
  - (* waiting *)
    destruct (Qle_bool (timer - delta) 0) eqn:Hle; simpl.
    + apply Qle_bool_iff in Hle.
      destruct (Hr 0%nat), (Hr 1%nat), (Hr 2%nat).
      repeat split; try lra.
    + apply Qle_bool_false in Hle. repeat split; lra.
  - (* closing *)
    destruct (Qle_bool 1 (t + delta / closeTime)) eqn:Hle; simpl.
    + apply Qle_bool_iff in Hle. repeat split; assumption.
    + apply Qle_bool_false in Hle. repeat split; assumption.
  - (* closed *)
    destruct (Qle_bool 1 (t + delta / holdTime)) eqn:Hle; simpl.
    + apply Qle_bool_iff in Hle. repeat split; assumption.
    + apply Qle_bool_false in Hle. repeat split; assumption.
  - (* opening *)
    destruct (Qle_bool 1 (t + delta / openTime)) eqn:Hle; simpl.
    + apply Qle_bool_iff in Hle.
      unfold Blink.nextBlinkInterval, countdownSpec.
      destruct (Hr 0%nat), (Hr 1%nat), (Hr 2%nat), (Hr 3%nat), (Hr 4%nat).
      destruct (Blink.Qltb (random 1%nat) 0.1) eqn:Hstare; simpl.
      * apply Qltb_lt in Hstare.
        destruct (Blink.Qltb (random 3%nat) 0.15) eqn:Hdouble; simpl.
        -- apply Qltb_lt in Hdouble. repeat split; try assumption.
           left. repeat split; lra.
        -- apply Qltb_ge in Hdouble. repeat split; try assumption.
           right. right. repeat split; try assumption.
           exists (2.5 + random 0%nat * 3.5), (3 + random 2%nat * 4).
           repeat split; lra.
      * apply Qltb_ge in Hstare.
        destruct (Blink.Qltb (random 2%nat) 0.15) eqn:Hdouble; simpl.
        -- apply Qltb_lt in Hdouble. repeat split; try assumption.
           left. repeat split; lra.
        -- apply Qltb_ge in Hdouble. repeat split; try assumption.
           right. left. repeat split; try assumption; lra.
    + apply Qle_bool_false in Hle. repeat split; assumption.
Qed.

Lemma C7_blink_cycle_witness :
  let s' := Blink.updateBlink 6 halfDraws (Blink.init halfDraws) in
  Blink.blinkTimer (Blink.init halfDraws) - 6 <= 0 /\ Blink.blinkT s' = 0
  /\ 0.06 <= Blink.blinkCloseTime s' /\ Blink.blinkCloseTime s' < 0.1
  /\ 0.02 <= Blink.blinkHoldTime s' /\ Blink.blinkHoldTime s' < 0.06
  /\ 0.08 <= Blink.blinkOpenTime s' /\ Blink.blinkOpenTime s' < 0.14.
Proof.
  refine (C7_blink_cycle 6 halfDraws (Blink.init halfDraws) _).
  intros i. unfold halfDraws. split; [unfold Qle | unfold Qlt]; simpl; lia.
Defined.

(** A full blink at 60 frames per second with all draws at 0.5: the phases
    and the weights written, frame by frame. *)
Example blink_run :
  let step := Blink.updateBlink (1 # 60) halfDraws in
  let s0 := Blink.mkBlink Blink.waiting (1 # 100) 0 0.08 0.04 0.10 0 in
  map (fun n => Blink.blinkPhase (Nat.iter n step s0)) (seq 1 14)
  = [Blink.closing; Blink.closing; Blink.closing; Blink.closing; Blink.closing;
     Blink.closed; Blink.closed; Blink.closed; Blink.opening;
     Blink.opening; Blink.opening; Blink.opening; Blink.opening; Blink.opening]
  /\ Blink.blinkPhase (Nat.iter 16 step s0) = Blink.waiting
  /\ Qred (Blink.blinkValue (Nat.iter 16 step s0)) = 0
  /\ Qred (Blink.blinkTimer (Nat.iter 16 step s0)) = 17 # 4
  /\ Qred (Blink.blinkValue (Nat.iter 6 step s0)) = 1.
Proof. vm_compute. repeat split. Qed.

(** ** Two-bone IK: reach clamping *)

Lemma Qsquare_nonneg (q : Q) : 0 <= q * q.
Proof.
  destruct (Qlt_le_dec q 0) as [Hneg|Hpos].
  - assert (Hq : q * q == (- q) * (- q)) by ring. rewrite Hq.
    apply Qmult_le_0_compat; lra.
  - apply Qmult_le_0_compat; assumption.
Qed.

Lemma clamp_range x lo hi : lo <= hi -> lo <= Vec.clamp x lo hi /\ Vec.clamp x lo hi <= hi.
Proof.
  intros Hlh. unfold Vec.clamp. split.
  - apply Q.le_max_l.
  - apply Q.max_lub; [exact Hlh | apply Q.le_min_l].
Qed.

(** The stand-in square root is exact on squares. *)
Lemma demoRoots_exact (q : Q) : 0 <= q -> sqrt (MathRoots := demoRoots) (q * q) == q.
Proof.
  destruct q as [n d]. unfold Qle. simpl. intros Hn.
  assert (Hn' : (0 <= n)%Z) by lia.
  unfold Qeq. simpl.
  replace (n * n * Z.pos (d * d))%Z with ((n * Z.pos d) * (n * Z.pos d))%Z by lia.
  rewrite Z.sqrt_square by lia. lia.
Qed.

(** C6 (fails on the code).  Shoulder at the origin, elbow 1 below, hand 2
    below, target 3 below, beyond the reach 2: the solver ends at target
    distance 1.96 and cosine -0.9208, not at the fully extended elbow
    (distance 2, cosine -1).  Upper arm 1, lower arm 0.5, target at distance
    0.1, inside the inner reach 0.5: it ends at distance 0.51 and cosine
    0.9899, not at the fully folded elbow (distance 0.5, cosine 1).  All the
    square roots taken on the way are exact. *)
Lemma C6_not_fully_extended :
  (exists sol c,
     ArmIK.solveTwoBoneIK (H := demoTrig) (H0 := demoRoots)
       (mkV3 0 0 0) (mkV3 0 (-1) 0) (mkV3 0 (-2) 0) None (mkV3 0 (-3) 0) = Some sol
     /\ ArmIK.targetDist sol == 1.96
     /\ ArmIK.clampJS (ArmIK.cosAngle sol) (-1) 1 = ArmIK.Fin c
     /\ c == -0.9208 /\ ~ c == -1)
  /\ (exists sol c,
        ArmIK.solveTwoBoneIK (H := demoTrig) (H0 := demoRoots)
          (mkV3 0 0 0) (mkV3 0 (-1) 0) (mkV3 0 (-1.5) 0) None (mkV3 0 (-0.1) 0) = Some sol
        /\ ArmIK.targetDist sol == 0.51
        /\ ArmIK.clampJS (ArmIK.cosAngle sol) (-1) 1 = ArmIK.Fin c
        /\ c == 0.9899 /\ ~ c == 1).
Proof.
  split; eexists; eexists; (split; [vm_compute; reflexivity|]);
    (split; [vm_compute; reflexivity|]); (split; [vm_compute; reflexivity|]);
    split; vm_compute; congruence.
Qed.

Section SolverDefined.
Context `{Trig} `{MathRoots}.

Lemma sqrtJS_nonneg x : 0 <= x -> ArmIK.sqrtJS x = Some (sqrt x).
Proof. intros Hx. unfold ArmIK.sqrtJS. apply Qle_bool_iff in Hx. rewrite Hx. reflexivity. Qed.

Lemma sum3_nonneg a b c : 0 <= a * a + b * b + c * c.
Proof.
  pose proof (Qsquare_nonneg a). pose proof (Qsquare_nonneg b). pose proof (Qsquare_nonneg c).
  lra.
Qed.

Lemma length_defined v : ArmIK.length v = Some (sqrt (Vec.lengthSq v)).
Proof. apply sqrtJS_nonneg, sum3_nonneg. Qed.

Lemma distanceTo_defined a b : ArmIK.distanceTo a b = Some (sqrt (Vec.distanceToSquared a b)).
Proof. apply sqrtJS_nonneg. unfold Vec.distanceToSquared. cbv zeta. apply sum3_nonneg. Qed.

Lemma normalize_defined v : exists d, ArmIK.normalize v = Some d.
Proof. unfold ArmIK.normalize. rewrite length_defined. simpl. eexists. reflexivity. Qed.

Lemma quatNormalize_defined q : exists q', ArmIK.quatNormalize q = Some q'.
Proof.
  unfold ArmIK.quatNormalize, ArmIK.quatLength. rewrite sqrtJS_nonneg.
  - simpl. destruct (Qeq_bool _ 0); eexists; reflexivity.
  - pose proof (Qsquare_nonneg (qx q)). pose proof (Qsquare_nonneg (qy q)).
    pose proof (Qsquare_nonneg (qz q)). pose proof (Qsquare_nonneg (qw q)). lra.
Qed.

Lemma setFromUnitVectors_defined a b : exists q, ArmIK.setFromUnitVectors a b = Some q.
Proof.
  unfold ArmIK.setFromUnitVectors. cbv zeta.
  destruct (negb (Qle_bool ArmIK.EPSILON _)); [destruct (negb _)|]; apply quatNormalize_defined.
Qed.

(** The distance the solver works with. *)
Lemma reach_clamped (upperLen lowerLen dist : Q) :
  0 < upperLen -> 0 < lowerLen ->
  let inner := Qabs (upperLen - lowerLen) + 0.01 in
  let outer := (upperLen + lowerLen) * 0.98 in
  let d := Qmax (Qmin dist outer) inner in
  inner <= d
  /\ (inner <= dist -> dist <= outer -> d == dist)
  /\ (upperLen + lowerLen < dist -> d == Qmax outer inner)
  /\ (dist < Qabs (upperLen - lowerLen) -> d == inner)
  /\ (0.005 < upperLen -> 0.005 < lowerLen -> d < upperLen + lowerLen)
  /\ (upperLen <= 0.005 \/ lowerLen <= 0.005 -> upperLen + lowerLen <= d).
Proof.
  intros Hu Hl inner outer d. subst d.
  pose proof (Q.max_spec (Qmin dist outer) inner) as Ht.
  pose proof (Q.min_spec dist outer) as Hmn.
  pose proof (Q.max_spec outer inner) as Hmx.
  assert (Hout : outer == (upperLen + lowerLen) * 0.98) by reflexivity.
  assert (Hinn : inner == Qabs (upperLen - lowerLen) + 0.01) by reflexivity.
  pose proof (Qabs_nonneg (upperLen - lowerLen)) as Hnn.
  pose proof (Qle_Qabs (upperLen - lowerLen)) as Hab1.
  pose proof (Qle_Qabs (- (upperLen - lowerLen))) as Hab2.
  rewrite Qabs_opp in Hab2.
  assert (Hab3 : Qabs (upperLen - lowerLen) <= upperLen - lowerLen
                 \/ Qabs (upperLen - lowerLen) <= lowerLen - upperLen).
  { apply Qabs_case; intros _; [left | right]; lra. }
  set (mn := Qmin dist outer) in *. set (t := Qmax mn inner) in *.
  set (mx := Qmax outer inner) in *.
  set (a := Qabs (upperLen - lowerLen)) in *.
  clearbody mn t mx inner outer a.
  destruct Ht as [[H1 H2]|[H1 H2]]; destruct Hmn as [[H3 H4]|[H3 H4]];
    destruct Hmx as [[H5 H6]|[H5 H6]]; destruct Hab3 as [H7|H7];
    repeat split; intros; lra.
Qed.

(** The cosine of the elbow angle, before and after the clamp. *)
Lemma elbow_cosine (u l d : Q) :
  0 < u -> 0 < l -> Qabs (u - l) + 0.01 <= d ->
  let raw := (u * u + l * l - d * d) / (2 * u * l) in
  let c := Vec.clamp raw (-1) 1 in
  -1 <= c /\ c < 1
  /\ (d < u + l -> -1 < c)
  /\ (u + l <= d -> c == -1).
Proof.
  intros Hu Hl Hd raw c.
  assert (HD : 0 < 2 * u * l).
  { apply Qmult_lt_0_compat; [|exact Hl]. apply Qmult_lt_0_compat; [lra | exact Hu]. }
  pose proof (Qabs_nonneg (u - l)) as Ha.
  assert (Haa : Qabs (u - l) * Qabs (u - l) == (u - l) * (u - l)).
  { apply Qabs_case; intros _; ring. }
  set (a := Qabs (u - l)) in *.
  assert (Hd0 : 0 < d) by lra.
  assert (Hfold : raw < 1).
  { unfold raw. apply Qlt_shift_div_r; [exact HD|].
    set (e := d - a).
    assert (He : 0 < e) by (unfold e; lra).
    assert (P1 : 0 <= a * e) by (apply Qmult_le_0_compat; lra).
    assert (P2 : 0 < e * e) by (apply Qmult_lt_0_compat; assumption).
    assert (E : d * d == a * a + 2 * (a * e) + e * e) by (unfold e; ring).
    assert (E2 : (u - l) * (u - l) == u * u + l * l - 2 * u * l) by ring.
    lra. }
  assert (Hc : -1 <= c /\ c <= 1) by (apply clamp_range; lra).
  unfold c, Vec.clamp in *.
  split; [apply Hc|]. split; [|split].
  - apply Q.max_lub_lt; [lra|]. eapply Qle_lt_trans; [apply Q.le_min_r | exact Hfold].
  - intros Hreach.
    assert (Hraw : -1 < raw).
    { unfold raw. apply Qlt_shift_div_l; [exact HD|].
      assert (P : 0 < (u + l - d) * (u + l + d)) by (apply Qmult_lt_0_compat; lra).
      assert (E : (u + l - d) * (u + l + d) == u * u + l * l + 2 * u * l - d * d) by ring.
      lra. }
    eapply Qlt_le_trans; [|apply Q.le_max_r]. apply Q.min_glb_lt; [lra | exact Hraw].
  - intros Hreach.
    assert (Hraw : raw <= -1).
    { unfold raw. apply Qle_shift_div_r; [exact HD|].
      assert (P : 0 <= (d - (u + l)) * (d + (u + l))) by (apply Qmult_le_0_compat; lra).
      assert (E : (d - (u + l)) * (d + (u + l)) == d * d - u * u - l * l - 2 * u * l) by ring.
      lra. }
    apply Q.max_l. eapply Qle_trans; [apply Q.le_min_r | exact Hraw].
Qed.

End SolverDefined.

(** C6, amended.  For all world positions of the upper arm, the lower arm,
    the hand and the target with bones of positive length, the solve leaves
    the finite numbers nowhere: no square root of a negative number, no
    division by zero, the law-of-cosines value clamped into [-1, 1] before
    [acos]; so both rotations it writes are free of NaN.  The target
    distance used is the measured one limited above by
    0.98 * (upperLen + lowerLen) and then below by
    |upperLen - lowerLen| + 0.01; so every target farther than
    upperLen + lowerLen gives the same configuration (distance
    max(0.98 * (upperLen + lowerLen), |upperLen - lowerLen| + 0.01)) and
    every target closer than |upperLen - lowerLen| gives the same one
    (distance |upperLen - lowerLen| + 0.01).  The elbow is never fully
    folded (clamped cosine below 1).  When both bones are longer than 0.005
    it is never fully extended either (clamped cosine above -1); when one of
    them is not, it is fully extended for every target (clamped cosine
    -1). *)
Theorem C6_ik_reach_clamped `{Trig} `{MathRoots}
    (shoulderPos elbowPos handPos : Vector3) (parentWorld : option Quaternion)
    (targetWorld : Vector3) :
  0 < sqrt (Vec.distanceToSquared shoulderPos elbowPos) ->
  0 < sqrt (Vec.distanceToSquared elbowPos handPos) ->
  let upperLen := sqrt (Vec.distanceToSquared shoulderPos elbowPos) in
  let lowerLen := sqrt (Vec.distanceToSquared elbowPos handPos) in
  let dist := sqrt (Vec.lengthSq (Vec.sub targetWorld shoulderPos)) in
  let inner := Qabs (upperLen - lowerLen) + 0.01 in
  let outer := (upperLen + lowerLen) * 0.98 in
  exists sol c,
    ArmIK.solveTwoBoneIK shoulderPos elbowPos handPos parentWorld targetWorld = Some sol
    /\ ArmIK.targetDist sol = Qmax (Qmin dist outer) inner
    /\ (inner <= dist -> dist <= outer -> ArmIK.targetDist sol == dist)
    /\ (upperLen + lowerLen < dist -> ArmIK.targetDist sol == Qmax outer inner)
    /\ (dist < Qabs (upperLen - lowerLen) -> ArmIK.targetDist sol == inner)
    /\ ArmIK.cosAngle sol
       = ArmIK.Fin ((upperLen * upperLen + lowerLen * lowerLen
                     - ArmIK.targetDist sol * ArmIK.targetDist sol)
                    / (2 * upperLen * lowerLen))
    /\ ArmIK.clampJS (ArmIK.cosAngle sol) (-1) 1 = ArmIK.Fin c
    /\ -1 <= c /\ c < 1
    /\ (0.005 < upperLen -> 0.005 < lowerLen -> -1 < c)
    /\ (upperLen <= 0.005 \/ lowerLen <= 0.005 -> c == -1)
    /\ ArmIK.elbowAngle sol = acos c
    /\ ArmIK.lowerArmQuaternion sol = Quat.setFromAxisAngle (mkV3 1 0 0) (PI - acos c)
    /\ exists dir,
         ArmIK.normalize (Vec.sub targetWorld shoulderPos) = Some dir
         /\ ArmIK.setFromUnitVectors (mkV3 0 (-1) 0)
              (Vec.applyQuaternion dir
                 (Quat.invert (match parentWorld with
                               | Some q => q
                               | None => Quat.identity
                               end)))
            = Some (ArmIK.upperArmQuaternion sol).
Proof.
  intros Hu Hl upperLen lowerLen dist inner outer.
  destruct (reach_clamped upperLen lowerLen dist Hu Hl)
    as (Hinner & Hmid & Hfar & Hnear & Hshort & Hlong).
  fold inner outer in Hinner, Hmid, Hfar, Hnear, Hshort, Hlong.
  set (d := Qmax (Qmin dist outer) inner) in *.
  destruct (elbow_cosine upperLen lowerLen d Hu Hl Hinner) as (Hc1 & Hc2 & Hc3 & Hc4).
  set (raw := (upperLen * upperLen + lowerLen * lowerLen - d * d) / (2 * upperLen * lowerLen))
    in *.
  set (c := Vec.clamp raw (-1) 1) in *.
  assert (HD : ~ 2 * upperLen * lowerLen == 0).
  { assert (0 < 2 * upperLen * lowerLen); [|lra].
    apply Qmult_lt_0_compat; [|exact Hl]. apply Qmult_lt_0_compat; [lra | exact Hu]. }
  destruct (normalize_defined (Vec.sub targetWorld shoulderPos)) as [dir Hdir].
  destruct (setFromUnitVectors_defined (mkV3 0 (-1) 0)
              (Vec.applyQuaternion dir
                 (Quat.invert (match parentWorld with
                               | Some q => q
                               | None => Quat.identity
                               end)))) as [rotQ Hrot].
  exists (ArmIK.mkIK d (ArmIK.Fin raw) (acos c) rotQ
            (Quat.setFromAxisAngle (mkV3 1 0 0) (PI - acos c))), c.
  cbn [ArmIK.targetDist ArmIK.cosAngle ArmIK.elbowAngle ArmIK.lowerArmQuaternion
       ArmIK.upperArmQuaternion].
  split.
  { unfold ArmIK.solveTwoBoneIK.
    rewrite !distanceTo_defined, length_defined. cbn [ArmIK.bind].
    rewrite Hdir. cbn [ArmIK.bind]. cbv zeta.
    fold upperLen lowerLen dist. fold inner outer. fold d.
    unfold ArmIK.divide.
    destruct (Qeq_bool (2 * upperLen * lowerLen) 0) eqn:E;
      [apply Qeq_bool_iff in E; contradiction|].
    fold raw. cbn [ArmIK.clampJS ArmIK.acosJS]. fold c.
    assert (Hlo : Qle_bool (-1) c = true) by (apply Qle_bool_iff; exact Hc1).
    assert (Hhi : Qle_bool c 1 = true) by (apply Qle_bool_iff; lra).
    rewrite Hlo, Hhi. cbn [andb ArmIK.bind].
    rewrite Hrot. reflexivity. }
  split; [reflexivity|]. split; [exact Hmid|]. split; [exact Hfar|]. split; [exact Hnear|].
  split; [reflexivity|]. split; [reflexivity|]. split; [exact Hc1|]. split; [exact Hc2|].
  split; [intros A B; apply Hc3, Hshort; assumption|].
  split; [intros A; apply Hc4, Hlong; exact A|].
  split; [reflexivity|]. split; [reflexivity|].
  exists dir. split; [exact Hdir | exact Hrot].
Qed.

Lemma C6_ik_reach_witness :
  exists sol,
    ArmIK.solveTwoBoneIK (H := demoTrig) (H0 := demoRoots)
      (mkV3 0 0 0) (mkV3 0 (-1) 0) (mkV3 0 (-2) 0) None (mkV3 3 (-4) 0) = Some sol
    /\ ArmIK.targetDist sol == 1.96.
Proof.
  destruct (C6_ik_reach_clamped (H := demoTrig) (H0 := demoRoots)
              (mkV3 0 0 0) (mkV3 0 (-1) 0) (mkV3 0 (-2) 0) None (mkV3 3 (-4) 0))
    as (sol & c & Hsol & _ & _ & Hfar & _).
  - vm_compute. reflexivity.
  - vm_compute. reflexivity.
  - exists sol. split; [exact Hsol|].
    rewrite Hfar; [vm_compute; reflexivity | vm_compute; reflexivity].
Defined.

(** A solve with the target off the axis of the arm: the upper arm is
    turned towards the target (a unit rotation about the z axis), the elbow
    bent by the angle of the clamped reach. *)
Example solveTwoBoneIK_run :
  match ArmIK.solveTwoBoneIK (H := demoTrig) (H0 := demoRoots)
          (mkV3 0 0 0) (mkV3 0 (-1) 0) (mkV3 0 (-2) 0) None (mkV3 24 (-7) 0) with
  | Some sol =>
    map Qred (Quat.toArray (ArmIK.upperArmQuaternion sol)) = [0; 0; 3 # 5; 4 # 5]
    /\ Qred (ArmIK.targetDist sol) = 49 # 25
  | None => False
  end.
Proof. vm_compute. split; reflexivity. Qed.

(** ** Retargeting *)


Lemma SceneNode_forall_ind (P : Retarget.SceneNode -> Prop) :
  (forall self world children, Forall P children -> P (Retarget.Node self world children)) ->
  forall n, P n.
Proof.
  intros Hnode. fix IH 1. intros [self world children]. apply Hnode.
  induction children as [|c rest IHrest]; constructor; [apply IH | exact IHrest].
Qed.













(** A source skeleton whose hips are turned in the rest pose: the world
    rotation reported for the hips is (0, 3/5, 0, 4/5). *)
Example retarget_rotated_run :
  let skeleton :=
    Retarget.Node (mkObj "Armature" (mkV3 0 0 0) Quat.identity (mkV3 1 1 1)) Quat.identity
      [Retarget.Node (mkObj "mixamorigHips" (mkV3 0 1 0) (mkQuat 0 (3 # 5) 0 (4 # 5))
                            (mkV3 1 1 1))
                     (mkQuat 0 (3 # 5) 0 (4 # 5)) []] in
  let asset := Retarget.mkAsset skeleton [mkClip "mixamo.com" 1 [demoSourceTrack]] in
  match Retarget.retarget (H := demoTrig) asset "hips.fbx" demoAvatar None 0 with
  | Ok c =>
    map (fun t => map (fun q => map Qred (Quat.toArray q)) (trackQuats t)) (clipTracks c)
    = [[[12 # 25; - (12 # 25); - (9 # 25); 16 # 25]]]
  | Throw _ => False
  end.
Proof. vm_compute. reflexivity. Qed.

(** The retargeted keyframe of the sample track is the source keyframe. *)
Example retarget_run :
  map (fun q => map Qred (Quat.toArray q)) (trackQuats demoRetargetedTrack)
  = [[3 # 5; 0; 0; 4 # 5]]
  /\ trackName demoRetargetedTrack = "Normalized_Hips.quaternion".
Proof. vm_compute. split; reflexivity. Qed.

(** ** Jelly spring: the dynamics of one axis *)

Lemma Qmult_le_nonneg (a b c : Q) : 0 <= c -> a <= b -> a * c <= b * c.
Proof. intros Hc Hab. apply Qmult_le_compat_r; assumption. Qed.

(** ** Jelly spring: one spring settles *)

Lemma qpow_nonneg a n : 0 <= a -> 0 <= qpow a n.
Proof.
  intros Ha. induction n as [|n IH]; simpl; [lra|]. apply Qmult_le_0_compat; assumption.
Qed.

Lemma qpow_le_1 a n : 0 <= a -> a <= 1 -> qpow a n <= 1.
Proof.
  intros Ha0 Ha1. induction n as [|n IH]; simpl; [lra|].
  pose proof (qpow_nonneg a n Ha0) as Hp.
  assert (Hm : a * qpow a n <= 1 * qpow a n) by (apply Qmult_le_nonneg; assumption).
  lra.
Qed.

Lemma qpow_add a n m : qpow a (n + m) == qpow a n * qpow a m.
Proof.
  induction n as [|n IH]; simpl; [ring|]. rewrite IH. ring.
Qed.

Lemma qpow_mono a n m w :
  0 <= a -> a <= 1 -> 0 <= w -> (n <= m)%nat -> qpow a m * w <= qpow a n * w.
Proof.
  intros Ha0 Ha1 Hw Hnm.
  replace m with (n + (m - n))%nat by lia. rewrite qpow_add.
  pose proof (qpow_le_1 a (m - n) Ha0 Ha1) as H1.
  pose proof (qpow_nonneg a n Ha0) as Hn.
  assert (Hnw : 0 <= qpow a n * w) by (apply Qmult_le_0_compat; assumption).
  pose proof (Qmult_le_nonneg (qpow a (m - n)) 1 (qpow a n * w) Hnw H1) as Hm.
  assert (E : qpow a n * qpow a (m - n) * w == qpow a (m - n) * (qpow a n * w)) by ring.
  rewrite E. lra.
Qed.

(** Bernoulli: (1 + n (1 - a)) a^n <= 1. *)
Lemma qpow_bernoulli a n :
  0 <= a -> a <= 1 -> (1 + inject_Z (Z.of_nat n) * (1 - a)) * qpow a n <= 1.
Proof.
  intros Ha0 Ha1. induction n as [|n IH].
  - assert (E : (1 + inject_Z (Z.of_nat 0) * (1 - a)) * qpow a 0 == 1)
      by (change (inject_Z (Z.of_nat 0)) with 0; simpl qpow; ring).
    rewrite E. lra.
  - rewrite Nat2Z.inj_succ. unfold Z.succ. rewrite inject_Z_plus. simpl qpow.
    set (k := inject_Z (Z.of_nat n)) in *.
    assert (Hk : 0 <= k).
    { unfold k. change 0 with (inject_Z 0). rewrite <- Zle_Qle. lia. }
    pose proof (qpow_nonneg a n Ha0) as Hp.
    change (inject_Z 1) with 1.
    assert (Hfac : (1 + (k + 1) * (1 - a)) * a <= 1 + k * (1 - a)).
    { assert (E : 1 + k * (1 - a) - (1 + (k + 1) * (1 - a)) * a
                  == (k + 1) * ((1 - a) * (1 - a))) by ring.
      assert (Hsq : 0 <= (k + 1) * ((1 - a) * (1 - a))).
      { apply Qmult_le_0_compat; [lra | apply Qsquare_nonneg]. }
      lra. }
    pose proof (Qmult_le_nonneg _ _ (qpow a n) Hp Hfac) as Hm.
    assert (E : (1 + (k + 1) * (1 - a)) * (a * qpow a n)
                == (1 + (k + 1) * (1 - a)) * a * qpow a n) by ring.
    rewrite E. lra.
Qed.

Lemma nat_above (q : Q) : exists n : nat, q <= inject_Z (Z.of_nat n).
Proof.
  exists (Z.to_nat (Qceiling q)).
  pose proof (Qle_ceiling q) as Hc.
  destruct (Z_le_gt_dec 0 (Qceiling q)) as [Hpos|Hneg].
  - rewrite Z2Nat.id by exact Hpos. exact Hc.
  - assert (Hz : Z.to_nat (Qceiling q) = 0%nat) by lia. rewrite Hz.
    assert (Hq : inject_Z (Qceiling q) <= inject_Z 0) by (rewrite <- Zle_Qle; lia).
    change (inject_Z (Z.of_nat 0)) with (inject_Z 0).
    eapply Qle_trans; [exact Hc | exact Hq].
Qed.

(** A decay factor below 1 brings any bound under any level. *)
Lemma qpow_small a C eps :
  0 <= a -> a < 1 -> 0 <= C -> 0 < eps -> exists n, qpow a n * C <= eps.
Proof.
  intros Ha0 Ha1 HC Heps.
  destruct (nat_above (C / (eps * (1 - a)))) as [n Hn].
  exists n.
  pose proof (qpow_bernoulli a n Ha0 (Qlt_le_weak _ _ Ha1)) as Hb.
  pose proof (qpow_nonneg a n Ha0) as Hp.
  set (k := inject_Z (Z.of_nat n)) in *.
  assert (Hd : 0 < eps * (1 - a)) by (apply Qmult_lt_0_compat; lra).
  assert (HCk : C <= k * (eps * (1 - a))).
  { assert (E : C == C / (eps * (1 - a)) * (eps * (1 - a))) by (field; lra).
    rewrite E at 1. apply Qmult_le_nonneg; [lra | exact Hn]. }
  assert (H1 : qpow a n * C <= qpow a n * (k * (eps * (1 - a)))).
  { rewrite (Qmult_comm (qpow a n) C), (Qmult_comm (qpow a n) (k * _)).
    apply Qmult_le_nonneg; assumption. }
  assert (H2 : qpow a n * (k * (eps * (1 - a)))
               == eps * ((1 + k * (1 - a)) * qpow a n) - eps * qpow a n) by ring.
  assert (H3 : eps * ((1 + k * (1 - a)) * qpow a n) <= eps * 1).
  { rewrite (Qmult_comm eps _), (Qmult_comm eps 1).
    apply Qmult_le_nonneg; lra. }
  assert (H4 : 0 <= eps * qpow a n) by (apply Qmult_le_0_compat; lra).
  lra.
Qed.
Section SpringSettles.

(** The time step after the cap of [update]: 0 < h <= 0.05. *)
Variable h : Q.
Hypothesis h_pos : 0 < h.
Hypothesis h_cap : h <= 0.05.

Lemma axisV_eq x v : axisV h x v == (1 - 8 * h) * v - 300 * h * x.
Proof. unfold axisV, Jelly.tension, Jelly.damping. ring. Qed.

Lemma clamp_cases x lo hi :
  lo <= hi ->
  (x < lo /\ Vec.clamp x lo hi == lo)
  \/ (lo <= x /\ x <= hi /\ Vec.clamp x lo hi == x)
  \/ (hi < x /\ Vec.clamp x lo hi == hi).
Proof.
  intros Hlh. unfold Vec.clamp.
  destruct (Q.min_spec hi x) as [[H1 H2]|[H1 H2]];
    destruct (Q.max_spec lo (Qmin hi x)) as [[H3 H4]|[H3 H4]];
    rewrite H4, ?H2; rewrite H2 in H3.
  - right. right. split; [lra | reflexivity].
  - right. right. split; [lra | lra].
  - right. left. repeat split; lra.
  - destruct (Qlt_le_dec x lo) as [Hlt|Hge]; [left; split; lra|].
    right. left. repeat split; lra.
Qed.

Lemma axisX_range x v : -0.35 <= axisX h x v /\ axisX h x v <= 0.35.
Proof.
  unfold axisX, Jelly.maxDisplacement.
  destruct (clamp_range (x + axisV h x v * h) (- (0.35)) 0.35) as [H1 H2]; lra.
Qed.

(** The velocity is pulled toward the band of half-width 13.125. *)
Lemma axisV_bound x v V :
  -0.35 <= x -> x <= 0.35 -> 0 <= V ->
  - (13.125 + V) <= v -> v <= 13.125 + V ->
  - (13.125 + (1 - 8 * h) * V) <= axisV h x v /\ axisV h x v <= 13.125 + (1 - 8 * h) * V.
Proof.
  intros Hx1 Hx2 HV Hv1 Hv2. rewrite axisV_eq.
  assert (Ha : 0 <= 1 - 8 * h) by lra.
  split; nra.
Qed.

(** The unclamped step scales [potential] by exactly [1 - 8 h]. *)
Lemma potential_step x v :
  potential h (x + axisV h x v * h) (axisV h x v) == (1 - 8 * h) * potential h x v.
Proof. unfold potential, axisV, Jelly.tension, Jelly.damping. ring. Qed.

(** Clamping the offset does not raise [potential] at moderate velocity. *)
Lemma potential_clamp y w :
  -26.25 <= w -> w <= 26.25 ->
  potential h (Vec.clamp y (- Jelly.maxDisplacement) Jelly.maxDisplacement) w
  <= potential h y w.
Proof.
  intros Hw1 Hw2. unfold Jelly.maxDisplacement.
  destruct (clamp_cases y (- (0.35)) 0.35) as [[Hy Hc]|[(Hy1 & Hy2 & Hc)|[Hy Hc]]]; [lra| | |].
  - unfold potential. rewrite Hc.
    assert (Hd : 300 * y * y + (1 - 8 * h) * w * w + (8 - 300 * h) * y * w
                 - (300 * - (0.35) * - (0.35) + (1 - 8 * h) * w * w + (8 - 300 * h) * - (0.35) * w)
                 == (y - - (0.35)) * (300 * (y + - (0.35)) + (8 - 300 * h) * w)) by ring.
    assert (Hs : 300 * (y + - (0.35)) + (8 - 300 * h) * w <= 0) by nra.
    nra.
  - unfold potential. rewrite Hc. lra.
  - unfold potential. rewrite Hc.
    assert (Hd : 300 * y * y + (1 - 8 * h) * w * w + (8 - 300 * h) * y * w
                 - (300 * 0.35 * 0.35 + (1 - 8 * h) * w * w + (8 - 300 * h) * 0.35 * w)
                 == (y - 0.35) * (300 * (y + 0.35) + (8 - 300 * h) * w)) by ring.
    assert (Hs : 0 <= 300 * (y + 0.35) + (8 - 300 * h) * w) by nra.
    nra.
Qed.

Lemma potential_decay x v :
  -26.25 <= axisV h x v -> axisV h x v <= 26.25 ->
  potential h (axisX h x v) (axisV h x v) <= (1 - 8 * h) * potential h x v.
Proof.
  intros Hw1 Hw2. rewrite <- potential_step. unfold axisX.
  apply potential_clamp; assumption.
Qed.

(** [potential] dominates the squares of offset and velocity. *)
Lemma potential_lower x v : 0.2 * (x * x + v * v) <= potential h x v.
Proof.
  unfold potential.
  pose proof (Qsquare_nonneg (20 * x + v)) as Hsq1.
  pose proof (Qsquare_nonneg (20 * x - v)) as Hsq2.
  pose proof (Qsquare_nonneg v) as Hvv.
  pose proof (Qsquare_nonneg x) as Hxx.
  pose proof (Qmult_le_nonneg h 0.05 (v * v) Hvv h_cap) as Hhvv.
  destruct (Qlt_le_dec (x * v) 0) as [Hneg|Hpos].
  - assert (Hhxv : 0 <= h * - (x * v)) by (apply Qmult_le_0_compat; lra).
    assert (E1 : (20 * x + v) * (20 * x + v) == 400 * (x * x) + 40 * (x * v) + v * v) by ring.
    assert (E2 : 300 * x * x + (1 - 8 * h) * v * v + (8 - 300 * h) * x * v
                 == 300 * (x * x) + v * v - 8 * (h * (v * v)) + 8 * (x * v)
                    + 300 * (h * - (x * v))) by ring.
    rewrite E2. rewrite E1 in Hsq1. lra.
  - pose proof (Qmult_le_nonneg h 0.05 (x * v) Hpos h_cap) as Hhxv.
    assert (E1 : (20 * x - v) * (20 * x - v) == 400 * (x * x) - 40 * (x * v) + v * v) by ring.
    assert (E2 : 300 * x * x + (1 - 8 * h) * v * v + (8 - 300 * h) * x * v
                 == 300 * (x * x) + v * v - 8 * (h * (v * v)) + 8 * (x * v)
                    - 300 * (h * (x * v))) by ring.
    rewrite E2. rewrite E1 in Hsq2. lra.
Qed.

Lemma potential_upper x v :
  -0.35 <= x -> x <= 0.35 -> -26.25 <= v -> v <= 26.25 -> potential h x v <= 800.
Proof.
  intros Hx1 Hx2 Hv1 Hv2. unfold potential.
  assert (Hxx : x * x <= 0.1225) by nra.
  assert (Hvv : v * v <= 689.0625) by nra.
  assert (Hxv1 : x * v <= 9.1875) by nra.
  assert (Hxv2 : -9.1875 <= x * v) by nra.
  assert (Hvv0 : 0 <= v * v) by nra.
  nra.
Qed.


(** ** Jelly spring: one spring settles *)

Lemma Qmult_le_nonneg_l (a b c : Q) : 0 <= c -> a <= b -> c * a <= c * b.
Proof.
  intros Hc Hab. rewrite (Qmult_comm c a), (Qmult_comm c b).
  apply Qmult_le_nonneg; assumption.
Qed.

Lemma settledEntry_absorbing n dt e : settledEntry e -> settledEntry (entryIter n dt e).
Proof.
  revert e. induction n as [|n IH]; intros e He; simpl; [exact He|].
  apply IH. destruct e as [s sc]. destruct He as [[Ha [Ho Hv]] Hsc]. simpl in *.
  unfold entryStep, springStep, scaleStep. simpl. rewrite Ha. simpl.
  split; [split; [exact Ha | split; assumption] | exact Hsc].
Qed.

Lemma entryIter_add n m dt e : entryIter (n + m) dt e = entryIter m dt (entryIter n dt e).
Proof.
  revert e. induction n as [|n IH]; intros e; simpl; [reflexivity | apply IH].
Qed.

Lemma settledEntry_later n m dt e :
  (n <= m)%nat -> settledEntry (entryIter n dt e) -> settledEntry (entryIter m dt e).
Proof.
  intros Hnm Hs. replace m with (n + (m - n))%nat by lia.
  rewrite entryIter_add. apply settledEntry_absorbing. exact Hs.
Qed.

Lemma unsettled_of_potential s :
  totalPotential h s <= settleLevel -> Jelly.unsettled s = false.
Proof.
  intros HW. unfold totalPotential, settleLevel in HW.
  destruct s as [b [ox oy oz] [wx wy wz] d dl a]. simpl in HW.
  pose proof (potential_lower ox wx) as Px.
  pose proof (potential_lower oy wy) as Py.
  pose proof (potential_lower oz wz) as Pz.
  pose proof (Qsquare_nonneg ox). pose proof (Qsquare_nonneg oy).
  pose proof (Qsquare_nonneg oz). pose proof (Qsquare_nonneg wx).
  pose proof (Qsquare_nonneg wy). pose proof (Qsquare_nonneg wz).
  unfold Jelly.unsettled, Vec.lengthGt, Vec.lengthSq. simpl.
  assert (E : 0.005 * 0.005 == 0.000025) by reflexivity.
  assert (Hv : Qle_bool (wx * wx + wy * wy + wz * wz) (0.005 * 0.005) = true).
  { apply Qle_bool_iff. rewrite E. lra. }
  assert (Ho : Qle_bool (ox * ox + oy * oy + oz * oz) (0.005 * 0.005) = true).
  { apply Qle_bool_iff. rewrite E. lra. }
  rewrite Hv, Ho. reflexivity.
Qed.

Local Abbreviation a := (decay h).

Lemma decay_range : 0 <= a /\ a < 1.
Proof. unfold decay. split; lra. Qed.

Lemma integrate_moving V s :
  0 <= V -> moving (13.125 + V) s -> moving (13.125 + a * V) (Jelly.integrate h s).
Proof.
  intros HV [Ha [Hd [Ho Hv]]].
  destruct s as [b [ox oy oz] [wx wy wz] d dl ac]. simpl in *.
  destruct Ho as [[Hox1 Hox2] [[Hoy1 Hoy2] [Hoz1 Hoz2]]].
  destruct Hv as [[Hvx1 Hvx2] [[Hvy1 Hvy2] [Hvz1 Hvz2]]]. simpl in *.
  split; [exact Ha|]. split; [exact Hd|]. split.
  - unfold within. simpl.
    pose proof (axisX_range ox wx) as Rx.
    pose proof (axisX_range oy wy) as Ry.
    pose proof (axisX_range oz wz) as Rz.
    unfold axisX, axisV in Rx, Ry, Rz.
    repeat split; lra.
  - unfold within. simpl.
    assert (Hx1 : -0.35 <= ox) by lra. assert (Hy1 : -0.35 <= oy) by lra.
    assert (Hz1 : -0.35 <= oz) by lra.
    pose proof (axisV_bound ox wx V Hx1 Hox2 HV Hvx1 Hvx2) as Bx.
    pose proof (axisV_bound oy wy V Hy1 Hoy2 HV Hvy1 Hvy2) as By.
    pose proof (axisV_bound oz wz V Hz1 Hoz2 HV Hvz1 Hvz2) as Bz.
    unfold axisV in Bx, By, Bz. fold (decay h) in Bx, By, Bz.
    repeat split; lra.
Qed.

Lemma moving_weaken b b' s : b <= b' -> moving b s -> moving b' s.
Proof.
  intros Hb [Ha [Hd [Ho Hv]]]. split; [exact Ha|]. split; [exact Hd|]. split; [exact Ho|].
  destruct Hv as [[? ?] [[? ?] [? ?]]]. repeat split; lra.
Qed.

Lemma integrate_moving_26 s : moving 26.25 s -> moving 26.25 (Jelly.integrate h s).
Proof.
  intros Hm.
  assert (Hm' : moving (13.125 + 13.125) s) by (apply (moving_weaken 26.25); [lra | exact Hm]).
  apply integrate_moving in Hm'; [|lra].
  apply (moving_weaken (13.125 + a * 13.125)); [unfold decay; lra | exact Hm'].
Qed.

Lemma integrate_potential s :
  moving 26.25 s -> totalPotential h (Jelly.integrate h s) <= a * totalPotential h s.
Proof.
  intros Hm. pose proof (integrate_moving_26 s Hm) as Hm'.
  destruct Hm' as [_ [_ [_ Hv]]].
  destruct s as [b [ox oy oz] [wx wy wz] d dl ac].
  unfold totalPotential. simpl in *.
  destruct Hv as [[Hvx1 Hvx2] [[Hvy1 Hvy2] [Hvz1 Hvz2]]]. simpl in *.
  assert (Dx := potential_decay ox wx).
  assert (Dy := potential_decay oy wy).
  assert (Dz := potential_decay oz wz).
  unfold axisX, axisV in Dx, Dy, Dz. fold (decay h) in Dx, Dy, Dz.
  assert (Hx := Dx ltac:(lra) ltac:(lra)).
  assert (Hy := Dy ltac:(lra) ltac:(lra)).
  assert (Hz := Dz ltac:(lra) ltac:(lra)).
  lra.
Qed.

Lemma totalPotential_start s : moving 26.25 s -> totalPotential h s <= 2400.
Proof.
  intros [_ [_ [Ho Hv]]].
  destruct s as [b [ox oy oz] [wx wy wz] d dl ac]. unfold totalPotential. simpl in *.
  destruct Ho as [[Hox1 Hox2] [[Hoy1 Hoy2] [Hoz1 Hoz2]]].
  destruct Hv as [[Hvx1 Hvx2] [[Hvy1 Hvy2] [Hvz1 Hvz2]]]. simpl in *.
  assert (Ux := potential_upper ox wx ltac:(lra) ltac:(lra) ltac:(lra) ltac:(lra)).
  assert (Uy := potential_upper oy wy ltac:(lra) ltac:(lra) ltac:(lra) ltac:(lra)).
  assert (Uz := potential_upper oz wz ltac:(lra) ltac:(lra) ltac:(lra) ltac:(lra)).
  lra.
Qed.

(** One frame of a spring past its delay. *)
Lemma entryStep_moving b s sc :
  moving b s ->
  let st := Jelly.integrate h s in
  (Jelly.unsettled st = true /\ fst (entryStep h (s, sc)) = st)
  \/ (Jelly.unsettled st = false /\ settledEntry (entryStep h (s, sc))).
Proof.
  intros [Ha [Hd _]] st.
  assert (Hq : Qle_bool (Jelly.delayLeft s) 0 = true) by (apply Qle_bool_iff; exact Hd).
  unfold entryStep, springStep, scaleStep. simpl fst. simpl snd.
  rewrite Ha, Hq. simpl negb. cbv iota. fold st.
  destruct (Jelly.unsettled st) eqn:Hu.
  - left. split; reflexivity.
  - right. split; [reflexivity|]. split; [|reflexivity].
    split; [reflexivity | split; reflexivity].
Qed.

(** Once the velocities are within 26.25 the potential decays by [a] each
    frame until the spring settles. *)
Lemma settles_by_potential n :
  forall w s sc,
    0 <= w -> qpow a n * w <= settleLevel ->
    moving 26.25 s -> totalPotential h s <= w ->
    settledEntry (entryIter (S n) h (s, sc)).
Proof.
  destruct decay_range as [Ha0 Ha1].
  induction n as [|n IH]; intros w s sc Hw Hlevel Hm HW.
  - simpl in Hlevel. simpl entryIter.
    destruct (entryStep_moving 26.25 s sc Hm) as [[Hu _]|[_ Hs]]; [|exact Hs].
    pose proof (integrate_potential s Hm) as Hdec.
    assert (Haw : a * totalPotential h s <= 1 * w).
    { apply Qle_trans with (a * w); [apply Qmult_le_nonneg_l; assumption|].
      apply Qmult_le_nonneg; [exact Hw | lra]. }
    rewrite unsettled_of_potential in Hu; [discriminate | lra].
  - change (entryIter (S (S n)) h (s, sc)) with (entryIter (S n) h (entryStep h (s, sc))).
    destruct (entryStep_moving 26.25 s sc Hm) as [[Hu Hst]|[_ Hs]].
    + destruct (entryStep h (s, sc)) as [s1 sc1] eqn:E1. simpl in Hst. subst s1.
      apply (IH (a * w)).
      * apply Qmult_le_0_compat; assumption.
      * simpl in Hlevel.
        assert (E : qpow a n * (a * w) == a * qpow a n * w) by ring.
        rewrite E. exact Hlevel.
      * apply integrate_moving_26. exact Hm.
      * apply Qle_trans with (a * totalPotential h s).
        -- apply integrate_potential. exact Hm.
        -- apply Qmult_le_nonneg_l; assumption.
    + apply (settledEntry_absorbing (S n)). exact Hs.
Qed.

(** The velocities come within 26.25, or the spring settles before. *)
Lemma velocity_band n :
  forall V s sc,
    0 <= V -> qpow a n * V <= 13.125 ->
    moving (13.125 + V) s ->
    settledEntry (entryIter n h (s, sc))
    \/ (exists s' sc', entryIter n h (s, sc) = (s', sc') /\ moving 26.25 s').
Proof.
  destruct decay_range as [Ha0 Ha1].
  induction n as [|n IH]; intros V s sc HV Hlevel Hm.
  - right. exists s, sc. split; [reflexivity|].
    simpl in Hlevel. apply (moving_weaken (13.125 + V)); [lra | exact Hm].
  - simpl entryIter.
    destruct (entryStep_moving _ s sc Hm) as [[Hu Hst]|[_ Hs]].
    + destruct (entryStep h (s, sc)) as [s1 sc1] eqn:E1. simpl in Hst. subst s1.
      apply (IH (a * V)).
      * apply Qmult_le_0_compat; assumption.
      * simpl in Hlevel.
        assert (E : qpow a n * (a * V) == a * qpow a n * V) by ring.
        rewrite E. exact Hlevel.
      * apply integrate_moving; assumption.
    + left. apply settledEntry_absorbing. exact Hs.
Qed.

Lemma settles_after_delay N1 N2 V s sc :
  0 <= V -> qpow a N1 * V <= 13.125 -> qpow a N2 * 2400 <= settleLevel ->
  moving (13.125 + V) s ->
  settledEntry (entryIter (N1 + S N2) h (s, sc)).
Proof.
  intros HV H1 H2 Hm. rewrite entryIter_add.
  destruct (velocity_band N1 V s sc HV H1 Hm) as [Hs|[s' [sc' [E Hm']]]].
  - apply settledEntry_absorbing. exact Hs.
  - rewrite E. apply (settles_by_potential N2 2400); [lra | exact H2 | exact Hm' |].
    apply totalPotential_start. exact Hm'.
Qed.

Lemma settles_from_waiting N1 N2 V k :
  forall s sc,
    0 <= V -> qpow a N1 * V <= 13.125 -> qpow a N2 * 2400 <= settleLevel ->
    waiting h (13.125 + V) k s ->
    settledEntry (entryIter (k + (N1 + S N2)) h (s, sc)).
Proof.
  intros s sc HV H1 H2. revert s sc.
  induction k as [|k IH]; intros s sc [Hact [Hd [Ho Hv]]].
  - apply (settles_after_delay N1 N2 V); try assumption.
    split; [exact Hact|]. split; [|split; assumption].
    change (inject_Z (Z.of_nat 0)) with 0 in Hd. lra.
  - destruct (Qle_bool (Jelly.delayLeft s) 0) eqn:Hq.
    + apply (settledEntry_later (N1 + S N2)); [lia|].
      apply (settles_after_delay N1 N2 V); try assumption.
      split; [exact Hact|]. split; [apply Qle_bool_iff; exact Hq | split; assumption].
    + change (S k + (N1 + S N2))%nat with (S (k + (N1 + S N2))).
      simpl entryIter.
      assert (E : entryStep h (s, sc)
                  = (Jelly.mkSpring (Jelly.boneName s) (Jelly.offset s) (Jelly.velocity s)
                       (Jelly.delay s) (Jelly.delayLeft s - h) (Jelly.activated s), sc)).
      { unfold entryStep, springStep, scaleStep. simpl fst. simpl snd.
        rewrite Hact, Hq. reflexivity. }
      rewrite E. apply IH.
      split; [exact Hact|]. split; [|split; assumption].
      simpl Jelly.delayLeft.
      rewrite Nat2Z.inj_succ in Hd. unfold Z.succ in Hd. rewrite inject_Z_plus in Hd.
      change (inject_Z 1) with 1 in Hd.
      set (q := inject_Z (Z.of_nat k)) in *. clearbody q.
      assert (E2 : (q + 1) * h == q * h + h) by ring.
      rewrite E2 in Hd. set (p := q * h) in *. clearbody p. lra.
Qed.


End SpringSettles.

(** ** Jelly effect: the frame loop *)

Lemma rawBoneOf_setRawScale_same v b sc node :
  Jelly.rawBoneOf v b = Some node ->
  Jelly.rawBoneOf (Jelly.setRawScale v b sc) b
  = Some (mkObj (name node) (position node) (quaternion node) sc).
Proof.
  unfold Jelly.rawBoneOf, Jelly.setRawScale, getRawBoneNode.
  destruct (humanoid v) as [hum|] eqn:Hh; [|discriminate].
  intros Hn. rewrite Hn. simpl. apply lookup_insert_eq.
Qed.

Lemma rawBoneOf_setRawScale_other v b sc b' :
  b' <> b -> Jelly.rawBoneOf (Jelly.setRawScale v b sc) b' = Jelly.rawBoneOf v b'.
Proof.
  intros Hne. unfold Jelly.rawBoneOf, Jelly.setRawScale, getRawBoneNode.
  destruct (humanoid v) as [hum|] eqn:Hh; [|rewrite Hh; reflexivity].
  destruct (rawBones hum !! b) as [node|] eqn:Hn; [|rewrite Hh; reflexivity].
  simpl. apply lookup_insert_ne. congruence.
Qed.

Lemma humanoid_setRawScale v b sc :
  humanoid v <> None -> humanoid (Jelly.setRawScale v b sc) <> None.
Proof.
  unfold Jelly.setRawScale. destruct (humanoid v) as [hum|] eqn:Hh; [|congruence].
  intros _. destruct (rawBones hum !! b); [simpl; discriminate | rewrite Hh; discriminate].
Qed.

Lemma scaleOf_setRawScale_same v b sc :
  Jelly.rawBoneOf v b <> None -> scaleOf (Jelly.setRawScale v b sc) b = sc.
Proof.
  intros Hp. destruct (Jelly.rawBoneOf v b) as [node|] eqn:Hn; [|congruence].
  unfold scaleOf. rewrite (rawBoneOf_setRawScale_same v b sc node Hn). reflexivity.
Qed.

Lemma present_setRawScale v b sc b' :
  Jelly.rawBoneOf v b' <> None -> Jelly.rawBoneOf (Jelly.setRawScale v b sc) b' <> None.
Proof.
  intros Hp. destruct (String.eqb_spec b' b) as [->|Hne].
  - destruct (Jelly.rawBoneOf v b) as [node|] eqn:Hn; [|congruence].
    rewrite (rawBoneOf_setRawScale_same v b sc node Hn). discriminate.
  - rewrite rawBoneOf_setRawScale_other; assumption.
Qed.

(** One entry of the loop of [update]: the spring steps as [springStep], its
    bone as [scaleStep], the other bones are untouched. *)
Lemma updateSpring_spec dt v b s :
  exists v',
    Jelly.updateSpring dt v b s = (springStep dt s, v', Jelly.activated (springStep dt s))
    /\ (Jelly.rawBoneOf v b <> None -> scaleOf v' b = scaleStep dt s (scaleOf v b))
    /\ (forall b', b' <> b -> Jelly.rawBoneOf v' b' = Jelly.rawBoneOf v b')
    /\ (forall b', Jelly.rawBoneOf v b' <> None -> Jelly.rawBoneOf v' b' <> None)
    /\ (humanoid v <> None -> humanoid v' <> None).
Proof.
  unfold Jelly.updateSpring, springStep, scaleStep.
  destruct (Jelly.activated s) eqn:Ha; simpl negb; cbv iota.
  2:{ exists v. rewrite Ha. repeat split; auto. }
  destruct (Qle_bool (Jelly.delayLeft s) 0) eqn:Hq; simpl negb; cbv iota.
  2:{ exists v. simpl. repeat split; auto. }
  cbv zeta. destruct (Jelly.unsettled (Jelly.integrate dt s)) eqn:Hu.
  - eexists. split; [|split; [|split; [|split]]].
    + simpl. try rewrite Ha. reflexivity.
    + intros Hp. apply scaleOf_setRawScale_same. exact Hp.
    + intros b' Hne. apply rawBoneOf_setRawScale_other. exact Hne.
    + intros b' Hp. apply present_setRawScale. exact Hp.
    + apply humanoid_setRawScale.
  - eexists. split; [|split; [|split; [|split]]].
    + reflexivity.
    + intros Hp. apply scaleOf_setRawScale_same. apply present_setRawScale. exact Hp.
    + intros b' Hne. rewrite !rawBoneOf_setRawScale_other by exact Hne. reflexivity.
    + intros b' Hp. apply present_setRawScale, present_setRawScale. exact Hp.
    + intros Hh. apply humanoid_setRawScale, humanoid_setRawScale. exact Hh.
Qed.

Lemma updateSprings_spec dt l :
  forall v,
    List.NoDup (map fst l) ->
    Forall (fun e => Jelly.rawBoneOf v (fst e) <> None) l ->
    exists v',
      Jelly.updateSprings dt v l
      = (map (fun e => (fst e, springStep dt (snd e))) l, v',
         existsb isActivated (map (fun e => (fst e, springStep dt (snd e))) l))
      /\ (forall e, In e l -> scaleOf v' (fst e) = scaleStep dt (snd e) (scaleOf v (fst e)))
      /\ (forall b', ~ In b' (map fst l) -> Jelly.rawBoneOf v' b' = Jelly.rawBoneOf v b')
      /\ (forall b', Jelly.rawBoneOf v b' <> None -> Jelly.rawBoneOf v' b' <> None)
      /\ (humanoid v <> None -> humanoid v' <> None).
Proof.
  induction l as [|[b s] rest IH]; intros v Hnd Hpres.
  - exists v. simpl. repeat split; auto. intros e [].
  - simpl in Hnd. apply List.NoDup_cons_iff in Hnd. destruct Hnd as [Hnotin Hnd].
    apply Forall_cons_1 in Hpres. destruct Hpres as [Hb Hrest]. simpl in Hb.
    destruct (updateSpring_spec dt v b s) as [v1 [E1 [Hs1 [Ho1 [Hp1 Hh1]]]]].
    assert (Hrest1 : Forall (fun e => Jelly.rawBoneOf v1 (fst e) <> None) rest).
    { eapply Forall_impl; [exact Hrest|]. intros e He. apply Hp1. exact He. }
    destruct (IH v1 Hnd Hrest1) as [v2 [E2 [Hs2 [Ho2 [Hp2 Hh2]]]]].
    exists v2. simpl Jelly.updateSprings. rewrite E1, E2.
    split; [reflexivity|]. split; [|split; [|split]].
    + intros e [<-|Hin]; simpl fst; simpl snd.
      * assert (Hsc : scaleOf v2 b = scaleOf v1 b)
          by (unfold scaleOf; rewrite (Ho2 b Hnotin); reflexivity).
        rewrite Hsc. apply Hs1. exact Hb.
      * rewrite (Hs2 e Hin).
        assert (Hsc : scaleOf v1 (fst e) = scaleOf v (fst e)).
        { unfold scaleOf. rewrite Ho1; [reflexivity|].
          intros Heq. apply Hnotin. rewrite <- Heq. apply in_map. exact Hin. }
        rewrite Hsc. reflexivity.
    + intros b' Hn. simpl in Hn.
      rewrite Ho2 by tauto. apply Ho1. intros ->. tauto.
    + intros b' Hp. apply Hp2, Hp1, Hp.
    + intros Hh. apply Hh2, Hh1, Hh.
Qed.
Lemma springStep_idle dt s : Jelly.activated s = false -> springStep dt s = s.
Proof. intros Ha. unfold springStep. rewrite Ha. reflexivity. Qed.

Lemma scaleStep_idle dt s sc : Jelly.activated s = false -> scaleStep dt s sc = sc.
Proof. intros Ha. unfold scaleStep. rewrite Ha. reflexivity. Qed.

Lemma entryIter_idle n dt s sc :
  Jelly.activated s = false -> entryIter n dt (s, sc) = (s, sc).
Proof.
  intros Ha. induction n as [|n IH]; simpl; [reflexivity|].
  unfold entryStep. simpl. rewrite springStep_idle, scaleStep_idle by exact Ha. exact IH.
Qed.

Lemma entryIter_succ_r n dt e : entryIter (S n) dt e = entryStep dt (entryIter n dt e).
Proof.
  revert e. induction n as [|n IH]; intros e; [reflexivity|].
  change (entryIter (S (S n)) dt e) with (entryIter (S n) dt (entryStep dt e)).
  rewrite IH. reflexivity.
Qed.

Lemma iterate_succ_r n delta j :
  Jelly.iterate (S n) delta j = Jelly.update delta (Jelly.iterate n delta j).
Proof.
  revert j. induction n as [|n IH]; intros j; [reflexivity|].
  change (Jelly.iterate (S (S n)) delta j)
    with (Jelly.iterate (S n) delta (Jelly.update delta j)).
  rewrite IH. reflexivity.
Qed.

Lemma existsb_isActivated_false l :
  existsb isActivated l = false -> forall e, In e l -> Jelly.activated (snd e) = false.
Proof.
  intros He e Hin. destruct (Jelly.activated (snd e)) eqn:Ha; [|reflexivity].
  assert (Ht : existsb isActivated l = true)
    by (apply existsb_exists; exists e; split; [exact Hin | exact Ha]).
  congruence.
Qed.

(** One frame of the effect: every spring steps as [springStep], every bone
    of a spring as [scaleStep], and the effect stays active exactly when a
    spring is still activated. *)
Lemma update_spec delta v j :
  boundTo v j ->
  exists v',
    boundTo v' (Jelly.update delta j)
    /\ Jelly.springs (Jelly.update delta j)
       = map (fun e => (fst e, springStep (Qmin delta 0.05) (snd e))) (Jelly.springs j)
    /\ (forall e, In e (Jelly.springs j) ->
        scaleOf v' (fst e) = scaleStep (Qmin delta 0.05) (snd e) (scaleOf v (fst e)))
    /\ Jelly.active (Jelly.update delta j)
       = existsb isActivated (Jelly.springs (Jelly.update delta j)).
Proof.
  intros [Hv [Hh [Hnd [Hpres Hidle]]]].
  unfold Jelly.update. destruct (Jelly.active j) eqn:Hact; simpl negb; cbv iota.
  - rewrite Hv. destruct (humanoid v) as [hum|] eqn:Hhum; [|congruence].
    destruct (updateSprings_spec (Qmin delta 0.05) (Jelly.springs j) v Hnd Hpres)
      as [v' [E [Hs [Ho [Hp Hh']]]]].
    cbv zeta. rewrite E. exists v'. simpl.
    split; [|split; [reflexivity | split; [exact Hs | reflexivity]]].
    split; [reflexivity|]. split; [apply Hh'; congruence|]. simpl.
    split; [rewrite map_map; simpl; exact Hnd|].
    split; [|intros H; exact H].
    apply List.Forall_forall. intros e He. apply in_map_iff in He.
    destruct He as [e0 [<- He0]]. simpl. apply Hp.
    exact (proj1 (List.Forall_forall _ _) Hpres e0 He0).
  - pose proof (existsb_isActivated_false _ (Hidle eq_refl)) as Hall.
    exists v. split; [|split; [|split]].
    + split; [exact Hv|]. split; [exact Hh|]. split; [exact Hnd|]. split; [exact Hpres|].
      intros _. apply Hidle. reflexivity.
    + symmetry. rewrite <- (map_id (Jelly.springs j)) at 2.
      apply map_ext_in. intros [b s] Hin. simpl.
      rewrite springStep_idle; [reflexivity | exact (Hall (b, s) Hin)].
    + intros e Hin. rewrite scaleStep_idle; [reflexivity | exact (Hall e Hin)].
    + rewrite Hact. symmetry. apply Hidle. reflexivity.
Qed.

(** [n] frames of the effect are [n] steps of every spring and its bone. *)
Lemma iterate_spec delta v j n :
  boundTo v j ->
  exists v',
    boundTo v' (Jelly.iterate n delta j)
    /\ Jelly.springs (Jelly.iterate n delta j)
       = map (fun e => (fst e, fst (entryIter n (Qmin delta 0.05) (snd e, scaleOf v (fst e)))))
             (Jelly.springs j)
    /\ (forall e, In e (Jelly.springs j) ->
        scaleOf v' (fst e) = snd (entryIter n (Qmin delta 0.05) (snd e, scaleOf v (fst e))))
    /\ ((1 <= n)%nat ->
        Jelly.active (Jelly.iterate n delta j)
        = existsb isActivated (Jelly.springs (Jelly.iterate n delta j))).
Proof.
  intros Hb. induction n as [|n IH].
  - exists v. simpl. split; [exact Hb|]. split; [|split].
    + symmetry. rewrite <- (map_id (Jelly.springs j)) at 2.
      apply map_ext. intros [b s]. reflexivity.
    + intros e _. reflexivity.
    + intros Hn. inversion Hn.
  - destruct IH as [vn [Hbn [Hsp [Hsc _]]]].
    destruct (update_spec delta vn (Jelly.iterate n delta j) Hbn)
      as [v' [Hb' [Hsp' [Hsc' Hact']]]].
    rewrite iterate_succ_r. exists v'.
    split; [exact Hb'|]. split; [|split; [|intros _; exact Hact']].
    + rewrite Hsp', Hsp, map_map. apply map_ext. intros e. cbn [fst snd].
      rewrite entryIter_succ_r. reflexivity.
    + intros e Hin.
      assert (Hin' : In (fst e, fst (entryIter n (Qmin delta 0.05) (snd e, scaleOf v (fst e))))
                        (Jelly.springs (Jelly.iterate n delta j))).
      { rewrite Hsp. apply in_map_iff. exists e. split; [reflexivity | exact Hin]. }
      pose proof (Hsc' _ Hin') as Hstep. cbn [fst snd] in Hstep.
      rewrite Hstep, (Hsc e Hin), entryIter_succ_r. reflexivity.
Qed.

(** ** Jelly effect: what an impulse leaves in the springs *)

Lemma getSpring_In l bone s : Jelly.getSpring l bone = Some s -> exists k, In (k, s) l.
Proof.
  induction l as [|[k s0] rest IH]; simpl; [discriminate|].
  destruct (String.eqb k bone).
  - intros [= ->]. exists k. left. reflexivity.
  - intros Hg. destruct (IH Hg) as [k' Hin]. exists k'. right. exact Hin.
Qed.

Lemma putSpring_keys l bone s : map fst (Jelly.putSpring l bone s) = map fst l.
Proof.
  induction l as [|[k s0] rest IH]; simpl; [reflexivity|].
  destruct (String.eqb k bone); simpl; [reflexivity | rewrite IH; reflexivity].
Qed.

Lemma putSpring_Forall (P : Jelly.SpringState -> Prop) l bone s :
  P s -> List.Forall (fun e => P (snd e)) l ->
  List.Forall (fun e => P (snd e)) (Jelly.putSpring l bone s).
Proof.
  intros Hs. induction l as [|[k s0] rest IH]; simpl; intros Hl; [exact Hl|].
  apply Forall_cons_1 in Hl. destruct Hl as [H0 Hrest].
  destruct (String.eqb k bone).
  - apply Forall_cons_2; [exact Hs | exact Hrest].
  - apply Forall_cons_2; [exact H0 | apply IH; exact Hrest].
Qed.

Lemma triggerWithWave_succ fuel random bone intensity delay0 l i :
  Jelly.triggerWithWave (S fuel) random bone intensity delay0 (l, i)
  = match Jelly.getSpring l bone with
    | None => (l, i)
    | Some spring =>
      fold_left (fun st child =>
                   Jelly.triggerWithWave fuel random child (intensity * 0.6) (delay0 + 0.06) st)
                (Jelly.childrenOf Jelly.BONE_CHAIN bone)
                (Jelly.putSpring l bone
                   (Jelly.mkSpring (Jelly.boneName spring) (Jelly.offset spring)
                      (mkV3 (- intensity * (0.6 + random i * 0.8))
                            (intensity * (0.6 + random (S i) * 0.8))
                            (- intensity * (0.6 + random (S (S i)) * 0.8)))
                      delay0 delay0 true),
                 S (S (S i)))
    end.
Proof. reflexivity. Qed.

Lemma triggerWithWave_keys fuel random :
  forall bone intensity delay0 st,
    map fst (fst (Jelly.triggerWithWave fuel random bone intensity delay0 st)) = map fst (fst st).
Proof.
  induction fuel as [|fuel IH]; intros bone intensity delay0 [l i]; [reflexivity|].
  rewrite triggerWithWave_succ. cbn [fst].
  destruct (Jelly.getSpring l bone) as [spring|]; [|reflexivity].
  set (st0 := (Jelly.putSpring l bone _, S (S (S i)))).
  assert (Hst0 : map fst (fst st0) = map fst l) by apply putSpring_keys.
  clearbody st0. revert st0 Hst0.
  generalize (Jelly.childrenOf Jelly.BONE_CHAIN bone) as cs.
  induction cs as [|c cs IHc]; intros st0 Hst0; cbn [fold_left]; [exact Hst0|].
  apply IHc. rewrite IH. exact Hst0.
Qed.

Lemma impulse_within I I0 r :
  0 <= I -> I <= I0 -> 0 <= r -> r < 1 ->
  - (1.4 * I0) <= - I * (0.6 + r * 0.8) /\ - I * (0.6 + r * 0.8) <= 1.4 * I0
  /\ - (1.4 * I0) <= I * (0.6 + r * 0.8) /\ I * (0.6 + r * 0.8) <= 1.4 * I0.
Proof.
  intros HI0 HI1 Hr0 Hr1.
  assert (Ht0 : 0 <= 0.6 + r * 0.8) by lra.
  assert (Ht1 : 0.6 + r * 0.8 <= 1.4) by lra.
  pose proof (Qmult_le_0_compat _ _ HI0 Ht0) as Hp.
  pose proof (Qmult_le_nonneg_l _ _ I HI0 Ht1) as Hq.
  assert (E : - I * (0.6 + r * 0.8) == - (I * (0.6 + r * 0.8))) by ring.
  rewrite E. set (p := I * (0.6 + r * 0.8)) in *. clearbody p. lra.
Qed.

Lemma triggerWithWave_triggered I0 D fuel random :
  unitDraws random ->
  forall bone intensity delay0 st,
    0 <= intensity -> intensity <= I0 ->
    delay0 + 0.06 * inject_Z (Z.of_nat fuel) <= D ->
    List.Forall (fun e => triggered I0 D (snd e)) (fst st) ->
    List.Forall (fun e => triggered I0 D (snd e))
                (fst (Jelly.triggerWithWave fuel random bone intensity delay0 st)).
Proof.
  intros Hrand.
  induction fuel as [|fuel IH]; intros bone intensity delay0 [l i] HI0 HI1 Hd Hl;
    [exact Hl|].
  rewrite Nat2Z.inj_succ in Hd. unfold Z.succ in Hd. rewrite inject_Z_plus in Hd.
  change (inject_Z 1) with 1 in Hd.
  assert (Hf : 0 <= inject_Z (Z.of_nat fuel)).
  { change 0 with (inject_Z 0). rewrite <- Zle_Qle. lia. }
  set (f := inject_Z (Z.of_nat fuel)) in *. clearbody f.
  rewrite triggerWithWave_succ. cbn [fst] in Hl.
  destruct (Jelly.getSpring l bone) as [spring|] eqn:Hg; [|exact Hl].
  set (st0 := (Jelly.putSpring l bone _, S (S (S i)))).
  assert (Hst0 : List.Forall (fun e => triggered I0 D (snd e)) (fst st0)).
  { unfold st0. simpl fst. apply (putSpring_Forall (triggered I0 D)); [|exact Hl].
    destruct (getSpring_In _ _ _ Hg) as [k Hin].
    pose proof (proj1 (List.Forall_forall _ _) Hl (k, spring) Hin) as [Hoff _].
    simpl in Hoff. split; [exact Hoff|]. right. simpl.
    split; [reflexivity|]. split; [|lra].
    destruct (Hrand i) as [Ha0 Ha1]. destruct (Hrand (S i)) as [Hb0 Hb1].
    destruct (Hrand (S (S i))) as [Hc0 Hc1].
    pose proof (impulse_within intensity I0 _ HI0 HI1 Ha0 Ha1) as [? [? _]].
    pose proof (impulse_within intensity I0 _ HI0 HI1 Hb0 Hb1) as [_ [_ [? ?]]].
    pose proof (impulse_within intensity I0 _ HI0 HI1 Hc0 Hc1) as [? [? _]].
    unfold within. simpl. repeat split; assumption. }
  clearbody st0. revert st0 Hst0.
  generalize (Jelly.childrenOf Jelly.BONE_CHAIN bone) as cs.
  induction cs as [|c cs IHc]; intros st0 Hst0; cbn [fold_left]; [exact Hst0|].
  apply IHc. apply IH; [| | lra | exact Hst0].
  - apply Qmult_le_0_compat; lra.
  - assert (Hm : intensity * 0.6 <= intensity * 1) by (apply Qmult_le_nonneg_l; lra).
    lra.
Qed.
Lemma JELLY_BONES_NoDup : List.NoDup Jelly.JELLY_BONES.
Proof.
  apply NoDup_ListNoDup. apply (bool_decide_unpack _). vm_compute. exact I.
Qed.

Lemma bind_springs v bs :
  List.NoDup bs ->
  let l := flat_map (fun b =>
                       match Jelly.rawBoneOf v b with
                       | Some _ => [(b, Jelly.mkSpring b Vec.zero Vec.zero 0 0 false)]
                       | None => []
                       end) bs in
  List.NoDup (map fst l)
  /\ (forall e, In e l -> In (fst e) bs /\ Jelly.rawBoneOf v (fst e) <> None
                          /\ Jelly.offset (snd e) = Vec.zero /\ quiet (snd e)).
Proof.
  induction bs as [|b bs IH]; intros Hnd; simpl.
  - split; [constructor | intros e []].
  - apply List.NoDup_cons_iff in Hnd. destruct Hnd as [Hnotin Hnd].
    destruct (IH Hnd) as [IH1 IH2]. clear IH.
    destruct (Jelly.rawBoneOf v b) as [node|] eqn:Hb; simpl.
    + split.
      * constructor; [|exact IH1].
        intros Hin. apply in_map_iff in Hin. destruct Hin as [e [<- He]].
        apply Hnotin. exact (proj1 (IH2 e He)).
      * intros e [<-|He].
        -- simpl. split; [left; reflexivity|]. split; [congruence|].
           split; [reflexivity|]. split; [reflexivity | split; reflexivity].
        -- destruct (IH2 e He) as [H1 H2]. split; [right; exact H1 | exact H2].
    + split; [exact IH1|].
      intros e He. destruct (IH2 e He) as [H1 H2]. split; [right; exact H1 | exact H2].
Qed.

(** After an impulse on a freshly bound effect. *)
Lemma triggerImpulse_spec v random bone intensity :
  humanoid v <> None -> unitDraws random -> 0 <= intensity ->
  let j0 := Jelly.triggerImpulse random bone intensity (Jelly.bind v) in
  boundTo v j0
  /\ List.Forall (fun e => triggered intensity maxDelay (snd e)) (Jelly.springs j0).
Proof.
  intros Hhum Hrand HI j0.
  destruct (bind_springs v Jelly.JELLY_BONES JELLY_BONES_NoDup) as [Hnd Hall].
  fold (Jelly.springs (Jelly.bind v)) in Hnd, Hall.
  assert (Hkeys : map fst (Jelly.springs j0) = map fst (Jelly.springs (Jelly.bind v))).
  { unfold j0, Jelly.triggerImpulse. cbn [Jelly.springs]. apply triggerWithWave_keys. }
  split.
  - split; [reflexivity|]. split; [exact Hhum|]. split; [rewrite Hkeys; exact Hnd|].
    split; [|intros Hact; discriminate Hact].
    apply List.Forall_forall. intros e He.
    assert (Hk : In (fst e) (map fst (Jelly.springs (Jelly.bind v))))
      by (rewrite <- Hkeys; apply in_map; exact He).
    apply in_map_iff in Hk. destruct Hk as [e0 [Heq He0]].
    rewrite <- Heq. exact (proj1 (proj2 (Hall e0 He0))).
  - unfold j0, Jelly.triggerImpulse. cbn [Jelly.springs].
    apply triggerWithWave_triggered; [exact Hrand | exact HI | lra | |].
    + unfold maxDelay. lra.
    + cbn [fst]. apply List.Forall_forall. intros e He.
      destruct (Hall e He) as [_ [_ [Hoff Hq]]]. split; [exact Hoff | left; exact Hq].
Qed.

Lemma frame_cap delta : 0 < delta -> 0 < Qmin delta 0.05 /\ Qmin delta 0.05 <= 0.05.
Proof.
  intros Hd. destruct (Q.min_spec delta 0.05) as [[Hlt E]|[Hle E]]; rewrite E; lra.
Qed.

(** A spring left by an impulse is at rest, with its bone at scale
    (1, 1, 1), after [k + (N1 + S N2)] frames. *)
Lemma triggered_settles h N1 N2 k intensity n s sc :
  0 < h -> h <= 0.05 -> 0 <= intensity ->
  qpow (decay h) N1 * (1.4 * intensity) <= 13.125 ->
  qpow (decay h) N2 * 2400 <= settleLevel ->
  maxDelay <= inject_Z (Z.of_nat k) * h ->
  (k + (N1 + S N2) <= n)%nat ->
  triggered intensity maxDelay s ->
  quiet (fst (entryIter n h (s, sc)))
  /\ (Jelly.activated s = true -> snd (entryIter n h (s, sc)) = mkV3 1 1 1).
Proof.
  intros Hh0 Hh1 HI H1 H2 Hk Hn [Hoff [Hq|[Hact [Hv Hd]]]].
  - rewrite entryIter_idle by exact (proj1 Hq). split; [exact Hq|].
    intros Hact. rewrite (proj1 Hq) in Hact. discriminate.
  - assert (Hs : settledEntry (entryIter n h (s, sc))).
    { apply (settledEntry_later (k + (N1 + S N2))); [exact Hn|].
      apply (settles_from_waiting h Hh0 Hh1 N1 N2 (1.4 * intensity) k); try assumption.
      - lra.
      - split; [exact Hact|]. split; [lra|]. split.
        + rewrite Hoff. unfold within, Vec.zero. simpl. repeat split; lra.
        + destruct Hv as [[? ?] [[? ?] [? ?]]]. repeat split; lra. }
    destruct Hs as [Hq Hsc]. split; [exact Hq | intros _; exact Hsc].
Qed.
(** C8.  For every impulse intensity [intensity > 0] and every frame time
    [delta > 0] there is a number of frames [N], the same for every avatar
    with a humanoid, every bone and every outcome of the random draws, such
    that after [N] or more calls of [update] the effect is inactive, every
    spring has offset and velocity zero and is no longer activated, and the
    raw bone of every spring the impulse activated has scale (1, 1, 1). *)
Theorem C8_jelly_settles (intensity delta : Q) :
  0 < intensity -> 0 < delta ->
  exists N : nat,
    forall (v : VRM) (bone : string) (random : nat -> Q) (n : nat),
      humanoid v <> None -> unitDraws random -> (N <= n)%nat ->
      let j0 := Jelly.triggerImpulse random bone intensity (Jelly.bind v) in
      let j := Jelly.iterate n delta j0 in
      Jelly.active j = false
      /\ map fst (Jelly.springs j) = map fst (Jelly.springs j0)
      /\ List.Forall (fun e => quiet (snd e)) (Jelly.springs j)
      /\ (forall b s, In (b, s) (Jelly.springs j0) -> Jelly.activated s = true ->
          exists v' node,
            Jelly.vrm j = Some v' /\ Jelly.rawBoneOf v' b = Some node
            /\ scale node = mkV3 1 1 1).
Proof.
  intros HI Hdelta.
  destruct (frame_cap delta Hdelta) as [Hh0 Hh1].
  set (h := Qmin delta 0.05) in *.
  destruct (decay_range h Hh0 Hh1) as [Ha0 Ha1].
  destruct (qpow_small (decay h) (1.4 * intensity) 13.125 Ha0 Ha1) as [N1 HN1]; [lra | lra |].
  destruct (qpow_small (decay h) 2400 settleLevel Ha0 Ha1) as [N2 HN2];
    [lra | reflexivity |].
  destruct (nat_above (maxDelay / h)) as [k Hk].
  assert (Hk' : maxDelay <= inject_Z (Z.of_nat k) * h).
  { assert (E : maxDelay == maxDelay / h * h) by (field; lra).
    rewrite E at 1. apply Qmult_le_nonneg; [lra | exact Hk]. }
  exists (k + (N1 + S N2))%nat.
  intros v bone random n Hhum Hrand Hn j0 j.
  destruct (triggerImpulse_spec v random bone intensity Hhum Hrand (Qlt_le_weak _ _ HI))
    as [Hb0 Htr].
  fold j0 in Hb0, Htr.
  destruct (iterate_spec delta v j0 n Hb0) as [v' [Hb' [Hsp [Hsc Hact]]]].
  fold j in Hb', Hsp, Hact. fold h in Hsp, Hsc.
  assert (Hentry : forall e, In e (Jelly.springs j0) ->
            quiet (fst (entryIter n h (snd e, scaleOf v (fst e))))
            /\ (Jelly.activated (snd e) = true ->
                snd (entryIter n h (snd e, scaleOf v (fst e))) = mkV3 1 1 1)).
  { intros e He.
    apply (triggered_settles h N1 N2 k intensity n); try assumption; [lra|].
    exact (proj1 (List.Forall_forall _ _) Htr e He). }
  assert (Hquiet : List.Forall (fun e => quiet (snd e)) (Jelly.springs j)).
  { rewrite Hsp. apply List.Forall_forall. intros e He.
    apply in_map_iff in He. destruct He as [e0 [<- He0]]. cbn [snd].
    exact (proj1 (Hentry e0 He0)). }
  split; [|split; [|split; [exact Hquiet|]]].
  - rewrite Hact by lia.
    destruct (existsb isActivated (Jelly.springs j)) eqn:Hex; [|reflexivity].
    apply existsb_exists in Hex. destruct Hex as [e [He Hon]].
    pose proof (proj1 (List.Forall_forall _ _) Hquiet e He) as [Hoff _].
    unfold isActivated in Hon. congruence.
  - rewrite Hsp, map_map. apply map_ext. intros e. reflexivity.
  - intros b s Hin Hon. exists v'.
    destruct Hb' as [Hv' [_ [_ [Hpres _]]]].
    assert (Hin' : In (b, fst (entryIter n h (s, scaleOf v b))) (Jelly.springs j)).
    { rewrite Hsp. apply in_map_iff. exists (b, s). split; [reflexivity | exact Hin]. }
    pose proof (proj1 (List.Forall_forall _ _) Hpres _ Hin') as Hnode. cbn [fst] in Hnode.
    pose proof (Hsc (b, s) Hin) as Hscale. cbn [fst snd] in Hscale.
    pose proof (proj2 (Hentry (b, s) Hin) Hon) as Hone. cbn [fst snd] in Hone.
    rewrite Hone in Hscale.
    unfold scaleOf in Hscale.
    destruct (Jelly.rawBoneOf v' b) as [node|]; [|congruence].
    exists node. split; [exact Hv'|]. split; [reflexivity | exact Hscale].
Qed.

Lemma C8_jelly_settles_witness :
  exists N : nat,
    forall n : nat, (N <= n)%nat ->
      Jelly.active (Jelly.iterate n 0.05 jellyDemo) = false
      /\ List.Forall (fun e => quiet (snd e)) (Jelly.springs (Jelly.iterate n 0.05 jellyDemo)).
Proof.
  destruct (C8_jelly_settles 0.01 0.05) as [N HN]; [reflexivity | reflexivity |].
  exists N. intros n Hn.
  destruct (HN demoAvatar "hips" halfDraws n) as [Ha [_ [Hq _]]].
  - discriminate.
  - intros i. unfold halfDraws. split; [unfold Qle | unfold Qlt]; simpl; lia.
  - exact Hn.
  - split; [exact Ha | exact Hq].
Defined.

(** An impulse of intensity 0.01 on the hips of the demo avatar, frames of
    0.05 s, all draws at 0.5: the hips settle in the second frame, the spine,
    reached 0.06 s later with intensity 0.006, in the fourth, and the effect
    is inactive from then on. *)
Example jelly_run :
  let frames n := Jelly.iterate n 0.05 jellyDemo in
  map (fun n => Jelly.active (frames n)) [1; 2; 3; 4]%nat = [true; true; true; false]
  /\ map (fun n => Qred (vx (jellyScale (frames n) "hips"))) [1; 2]%nat = [0.9997; 1]
  /\ map (fun n => Qred (vx (jellyScale (frames n) "spine"))) [2; 3; 4]%nat
     = [1; 49991 # 50000; 1]
  /\ jellyScale (frames 4%nat) "hips" = mkV3 1 1 1
  /\ jellyScale (frames 4%nat) "spine" = mkV3 1 1 1
  /\ map (fun e => Jelly.activated (snd e)) (Jelly.springs (frames 4%nat))
     = [false; false; false].
Proof. vm_compute. repeat split; reflexivity. Qed.

(** * Further properties *)

(** ** Motion history *)

(** X1.  After any sequence of recorded plays, [getRecent(n)] for [n >= 1]
    returns the ids of the last [min(n, 10)] plays, oldest first: the
    tracker forgets everything older than 10 plays. *)
Theorem X1_getRecent_last_plays (plays : list (string * string)) (n : nat) :
  History.getRecent (replay plays) (S n)
  = skipn (length plays - Nat.min (S n) 10) (map fst plays).
Proof.
  unfold History.getRecent. rewrite replay_history. unfold recentPlays.
  rewrite length_skipn, List.skipn_skipn, length_map. f_equal. lia.
Qed.

(** X2.  After any sequence of recorded plays, the usage list of an
    alternation group holds the ids of the last 10 plays recorded under that
    group, oldest first, and a group never recorded has no list: [record]
    touches the list of its own group only. *)
Theorem X2_altGroupUsage_last_plays (plays : list (string * string)) (g : string) :
  History.altGroupUsage (replay plays) !! g
  = match playsOfGroup plays g with
    | [] => None
    | ids => Some (skipn (length ids - 10) ids)
    end.
Proof.
  induction plays as [|p plays IH] using rev_ind; [reflexivity|].
  rewrite replay_snoc. unfold History.record. cbn [History.altGroupUsage].
  unfold playsOfGroup in *. rewrite List.filter_app, map_app. simpl List.filter.
  destruct (String.eqb_spec (snd p) g) as [->|Hne].
  - rewrite lookup_insert_eq, IH. simpl map.
    set (ids := map fst (List.filter (fun q => String.eqb (snd q) g) plays)) in *.
    assert (Hne : (ids ++ [fst p])%list <> []) by (destruct ids; discriminate).
    destruct (ids ++ [fst p])%list as [|i0 rest] eqn:E; [congruence|]. rewrite <- E.
    f_equal. destruct ids as [|i ids'] eqn:Eids.
    + reflexivity.
    + rewrite <- Eids. apply pushBounded_recent.
  - rewrite lookup_insert_ne by exact Hne. rewrite IH. simpl map. rewrite app_nil_r.
    reflexivity.
Qed.

(** X3.  [pickWithRotation] returns [null] only on an empty candidate list,
    and otherwise one of the candidates, whatever the history, the preferred
    group and the random draw. *)
Theorem X3_pickWithRotation_picks_candidate (h : History.MotionHistory)
    (candidates : list Motion.MotionDef) (prefer : option string) (random : Q) :
  match History.pickWithRotation h candidates prefer random with
  | None => candidates = []
  | Some m => In m candidates
  end.
Proof.
  destruct (History.pickWithRotation h candidates prefer random) as [m|] eqn:Hp.
  - exact (proj1 (pickWithRotation_rotation _ _ _ _ _ Hp)).
  - destruct candidates as [|c cs]; [reflexivity|]. exfalso.
    unfold History.pickWithRotation in Hp.
    destruct (History.drawLoop _ _ _); [discriminate|].
    assert (Hpool : History.poolOf h (c :: cs) <> []).
    { unfold History.poolOf. destruct (History.eligibleOf h (c :: cs)); discriminate. }
    destruct (History.poolOf h (c :: cs)) as [|x l] using rev_ind; [congruence|].
    rewrite last_snoc in Hp. discriminate.
Qed.

Lemma randomElement_Some {A} (random : Q) (arr : list A) :
  0 <= random -> random < 1 -> arr <> [] ->
  exists x, History.randomElement random arr = Some x.
Proof.
  intros H0 H1 Hne. unfold History.randomElement.
  set (n := inject_Z (Z.of_nat (length arr))).
  assert (Hn : 0 < n).
  { unfold n. change 0 with (inject_Z 0). rewrite <- Zlt_Qlt.
    destruct arr; [congruence | simpl; lia]. }
  assert (Hlo : (0 <= Qfloor (random * n))%Z).
  { change 0%Z with (Qfloor 0). apply Qfloor_resp_le. apply Qmult_le_0_compat; lra. }
  assert (Hhi : (Qfloor (random * n) < Z.of_nat (length arr))%Z).
  { rewrite Zlt_Qlt. fold n. apply Qle_lt_trans with (random * n); [apply Qfloor_le|].
    assert (E : n == 1 * n) by ring. rewrite E at 2.
    apply Qmult_lt_compat_r; assumption. }
  destruct (nth_error arr (Z.to_nat (Qfloor (random * n)))) as [x|] eqn:E.
  - exists x. reflexivity.
  - apply nth_error_None in E. lia.
Qed.

(** X4.  With a draw in [0, 1), [getNextAlt] returns [null] only for a group
    without motions, and otherwise the id of a motion of the group; it
    returns the id last recorded for the group only when the group has no
    motion with another id. *)
Theorem X4_getNextAlt_alternates (library : list Motion.MotionDef)
    (h : History.MotionHistory) (g : string) (random : Q) :
  0 <= random -> random < 1 ->
  match History.getNextAlt library h g random with
  | None => forall m, In m library -> Motion.altGroup m <> g
  | Some altId =>
    (exists m, In m library /\ Motion.altGroup m = g /\ Motion.id m = altId)
    /\ (forall m, In m library -> Motion.altGroup m = g ->
        lastUsedOf h g <> Some (Motion.id m) -> lastUsedOf h g <> Some altId)
  end.
Proof.
  intros H0 H1. unfold History.getNextAlt, lastUsedOf. cbv zeta.
  remember (List.filter (fun m => String.eqb (Motion.altGroup m) g) library) as group
    eqn:Hgroupdef.
  remember (last match History.altGroupUsage h !! g with
                 | Some l => l
                 | None => []
                 end) as lastUsed eqn:HlastUsed.
  assert (Hgroup : forall m, In m group <-> In m library /\ Motion.altGroup m = g).
  { intros m. subst group. rewrite List.filter_In, String.eqb_eq. reflexivity. }
  clear Hgroupdef HlastUsed.
  assert (HnotLast : forall m : Motion.MotionDef,
            match lastUsed with
            | Some l => negb (String.eqb (Motion.id m) l)
            | None => true
            end = true <-> lastUsed <> Some (Motion.id m)).
  { intros m. destruct lastUsed as [l|]; [|split; [discriminate | reflexivity]].
    rewrite negb_true_iff, String.eqb_neq. split; congruence. }
  assert (Hfirst : forall m rest, group = m :: rest ->
            (exists m', In m' library /\ Motion.altGroup m' = g /\ Motion.id m' = Motion.id m)).
  { intros m rest E. exists m.
    assert (Hm : In m group) by (rewrite E; left; reflexivity).
    apply Hgroup in Hm. destruct Hm as [Hin Hg]. auto. }
  destruct (Nat.leb_spec (length group) 1) as [Hle|Hgt].
  - destruct group as [|m [|m' rest]] eqn:Egroup; simpl in Hle; [| |lia].
    + simpl. intros m Hin Hg. apply (proj2 (Hgroup m)); auto.
    + simpl. split; [exact (Hfirst m [] eq_refl)|].
      intros m0 Hin Hg Hm0.
      destruct (proj2 (Hgroup m0) (conj Hin Hg)) as [<-|[]]. exact Hm0.
  - remember (List.filter
                (fun m => match lastUsed with
                          | Some l => negb (String.eqb (Motion.id m) l)
                          | None => true
                          end
                          && Nat.ltb (History.recentCount h (Motion.id m))
                                     History.MAX_SAME_MOTION_USES) group)
      as cands eqn:Hcands.
    remember (List.filter
                (fun m => match lastUsed with
                          | Some l => negb (String.eqb (Motion.id m) l)
                          | None => true
                          end) group)
      as any eqn:Hany.
    assert (Hpicked : forall x, In x any ->
              (exists m, In m library /\ Motion.altGroup m = g /\ Motion.id m = Motion.id x)
              /\ lastUsed <> Some (Motion.id x)).
    { intros x Hx. rewrite Hany in Hx. apply List.filter_In in Hx.
      destruct Hx as [Hxg Hfx]. split.
      - exists x. apply Hgroup in Hxg. destruct Hxg as [Hin Hg]. auto.
      - apply HnotLast, Hfx. }
    assert (Hsub : forall x, In x cands -> In x any).
    { intros x Hx. rewrite Hcands in Hx. rewrite Hany.
      apply List.filter_In in Hx. destruct Hx as [Hxg Hfx].
      apply List.filter_In. split; [exact Hxg|].
      apply andb_true_iff in Hfx. exact (proj1 Hfx). }
    destruct cands as [|c0 cs].
    + destruct any as [|a0 rest].
      * destruct group as [|m rest] eqn:Egroup; [simpl in Hgt; lia|].
        cbn [nth_error option_map].
        split; [exact (Hfirst m rest eq_refl)|].
        intros m0 Hin Hg Hm0. exfalso.
        pose proof (filter_nil_forall _ _ (eq_sym Hany) m0 (proj2 (Hgroup m0) (conj Hin Hg)))
          as Hf.
        apply HnotLast in Hm0. cbv beta in Hf. congruence.
      * destruct (randomElement_Some random (a0 :: rest) H0 H1) as [x Hx]; [discriminate|].
        rewrite Hx. cbn [option_map]. apply randomElement_In in Hx.
        destruct (Hpicked x Hx) as [Hmem Hnl].
        split; [exact Hmem | intros; exact Hnl].
    + destruct (randomElement_Some random (c0 :: cs) H0 H1) as [x Hx]; [discriminate|].
      rewrite Hx. cbn [option_map]. apply randomElement_In in Hx.
      destruct (Hpicked x (Hsub x Hx)) as [Hmem Hnl].
      split; [exact Hmem | intros; exact Hnl].
Qed.

Lemma X4_getNextAlt_alternates_witness :
  match History.getNextAlt demoAlternates (replay [("idle_a", "g")]) "g" 0.5 with
  | None => forall m, In m demoAlternates -> Motion.altGroup m <> "g"
  | Some altId =>
    (exists m, In m demoAlternates /\ Motion.altGroup m = "g" /\ Motion.id m = altId)
    /\ (forall m, In m demoAlternates -> Motion.altGroup m = "g" ->
        lastUsedOf (replay [("idle_a", "g")]) "g" <> Some (Motion.id m) ->
        lastUsedOf (replay [("idle_a", "g")]) "g" <> Some altId)
  end.
Proof.
  apply (X4_getNextAlt_alternates demoAlternates (replay [("idle_a", "g")]) "g" 0.5);
    [unfold Qle | unfold Qlt]; simpl; lia.
Defined.

(** Two alternates of one group, the first one played last: the second one
    is next, whatever the draw. *)
Example getNextAlt_run :
  History.getNextAlt demoAlternates (replay [("idle_a", "g")]) "g" 0 = Some "idle_b"
  /\ History.getNextAlt demoAlternates (replay [("idle_a", "g")]) "g" 0.99 = Some "idle_b"
  /\ History.getNextAlt demoAlternates (replay [("idle_a", "g"); ("idle_b", "g")]) "g" 0.5
     = Some "idle_a".
Proof. vm_compute. repeat split. Qed.

(** ** The manager: cache, unbound state, binding *)

Section ManagerExtra.
Context `{Trig}.
Variable library : list Motion.MotionDef.
Variable loadVRMAFile : string -> VRM -> outcome AnimationClip.
Variable loadFBX : string -> outcome Retarget.FBXAsset.

Lemma sameButCache_refl s : sameButCache s s.
Proof. unfold sameButCache. repeat split. Qed.

Lemma cacheNewClip_spec motionId c s :
  sameButCache s (snd (Manager.cacheNewClip motionId c s))
  /\ Manager.clipCache (snd (Manager.cacheNewClip motionId c s)) !! motionId
     = Some (fst (Manager.cacheNewClip motionId c s)).
Proof.
  destruct s. unfold sameButCache. simpl. rewrite lookup_insert_eq. repeat split.
Qed.

(** [loadMotion] returns a clip and leaves it in the cache, or returns
    [null] and changes nothing; in both cases only the cache changes. *)
Lemma loadMotion_spec motionId s :
  let r := Manager.loadMotion library loadVRMAFile loadFBX motionId s in
  sameButCache s (snd r)
  /\ match fst r with
     | Some c => Manager.clipCache (snd r) !! motionId = Some c
                 /\ Manager.vrm s <> None /\ Manager.mixer s <> None
     | None => snd r = s
     end.
Proof.
  unfold Manager.loadMotion, Manager.loadProcedural.
  destruct (Manager.vrm s) as [v|] eqn:Hv;
    [|simpl; split; [apply sameButCache_refl | reflexivity]].
  destruct (Manager.mixer s) eqn:Hm;
    [|simpl; split; [apply sameButCache_refl | reflexivity]].
  destruct (Manager.clipCache s !! motionId) as [obj|] eqn:Hc.
  { simpl. split; [apply sameButCache_refl|]. split; [exact Hc|]. split; discriminate. }
  assert (Hnew : forall c,
            let r := (let (obj, s') := Manager.cacheNewClip motionId c s in (Some obj, s')) in
            sameButCache s (snd r)
            /\ match fst r with
               | Some c' => Manager.clipCache (snd r) !! motionId = Some c'
                            /\ Some v <> None /\ Some a <> None
               | None => snd r = s
               end).
  { intros c. pose proof (cacheNewClip_spec motionId c s) as [H1 H2].
    destruct (Manager.cacheNewClip motionId c s) as [obj s']. simpl in *.
    split; [exact H1|]. split; [exact H2|]. split; discriminate. }
  assert (Hp : let r := match Procedural.createProceduralClip v motionId with
                        | Some proceduralClip =>
                          let (obj, s') := Manager.cacheNewClip motionId proceduralClip s in
                          (Some obj, s')
                        | None => (None, s)
                        end in
               sameButCache s (snd r)
               /\ match fst r with
                  | Some c' => Manager.clipCache (snd r) !! motionId = Some c'
                               /\ Some v <> None /\ Some a <> None
                  | None => snd r = s
                  end).
  { destruct (Procedural.createProceduralClip v motionId) as [c|]; [exact (Hnew c)|].
    simpl. split; [apply sameButCache_refl | reflexivity]. }
  destruct (Manager.findDef library motionId) as [d|]; [|exact Hp].
  destruct (Motion.format d);
    [destruct (Manager.loadVRMA _ _ _ _) as [c|msg]
    |destruct (Retarget.loadMixamoAnimation _ _ _ _ _) as [c|msg]];
    try exact Hp; exact (Hnew c).
Qed.

End ManagerExtra.


(** X6.  A manager that is disposed ignores every request until it is bound
    again: nothing is loaded, played or reset, the state does not change,
    and [playMotionWithFallback] answers [false]. *)
Theorem X6_disposed_manager_ignores_requests `{Trig} (library : list Motion.MotionDef)
    (loadVRMAFile : string -> VRM -> outcome AnimationClip)
    (loadFBX : string -> outcome Retarget.FBXAsset)
    (s : Manager.AnimationManager) (motionId emo : string) (c : Mixer.ClipObject)
    (fade r1 r2 : Q) (action : nat) :
  let d := Manager.dispose s in
  Manager.loadMotion library loadVRMAFile loadFBX motionId d = (None, d)
  /\ Manager.playMotion library loadVRMAFile loadFBX motionId d = (Ok tt, d)
  /\ Manager.playMotionWithFallback library loadVRMAFile loadFBX motionId d = (false, d)
  /\ Manager.playEmotionIdle library loadVRMAFile loadFBX emo r1 r2 d = d
  /\ Manager.resetToIdle d = d
  /\ Manager.playClipOnce c fade d = d
  /\ Manager.playClipLoop c fade d = d
  /\ Manager.onAnimationFinished action d = d
  /\ Manager.getMotionHistory d = [].
Proof.
  intros d.
  assert (Hm : Manager.mixer d = None) by (destruct s; reflexivity).
  assert (Hv : Manager.vrm d = None) by (destruct s; reflexivity).
  assert (Hl : Manager.activeLoopMotionId d = None) by (destruct s; reflexivity).
  assert (Hs : Manager.activeShotAction d = None) by (destruct s; reflexivity).
  assert (Hreset : Manager.resetToIdle d = d)
    by (unfold Manager.resetToIdle; rewrite Hm; reflexivity).
  assert (Hplay : Manager.playMotionWithFallback library loadVRMAFile loadFBX motionId d
                  = (false, d))
    by (unfold Manager.playMotionWithFallback; rewrite Hm; reflexivity).
  split; [unfold Manager.loadMotion; rewrite Hv; reflexivity|].
  split; [unfold Manager.playMotion; rewrite Hm; reflexivity|].
  split; [exact Hplay|].
  split.
  { unfold Manager.playEmotionIdle. rewrite Hl.
    destruct (Manager.idlePool library emo) as [|p pool]; [exact Hreset|].
    destruct (History.pickWithRotation _ _ _ _) as [m|]; simpl; [|reflexivity].
    unfold Manager.playMotionWithFallback. rewrite Hm. simpl. exact Hreset. }
  split; [exact Hreset|].
  split; [unfold Manager.playClipOnce, Manager.playOneShot; rewrite Hm; reflexivity|].
  split; [unfold Manager.playClipLoop, Manager.playLoop; rewrite Hm; reflexivity|].
  split; [unfold Manager.onAnimationFinished; rewrite Hs; reflexivity|].
  destruct s; reflexivity.
Qed.

Section ManagerPlayback.
Context `{Trig}.
Variable library : list Motion.MotionDef.
Variable loadVRMAFile : string -> VRM -> outcome AnimationClip.
Variable loadFBX : string -> outcome Retarget.FBXAsset.

Lemma setHistory_sameButHistory h s :
  Manager.mixer (Manager.setHistory h s) = Manager.mixer s
  /\ Manager.activeLoopAction (Manager.setHistory h s) = Manager.activeLoopAction s
  /\ Manager.activeLoopMotionId (Manager.setHistory h s) = Manager.activeLoopMotionId s
  /\ Manager.activeShotAction (Manager.setHistory h s) = Manager.activeShotAction s
  /\ Manager.motionHistory (Manager.setHistory h s) = h.
Proof. destruct s. repeat split. Qed.

(** Asking for the loop that is already running starts nothing. *)
Lemma playLoop_running c motionId fade s :
  Manager.activeLoopMotionId s = Some motionId -> loopRunning s = true ->
  Manager.playLoop c motionId fade s = s.
Proof.
  intros Hid Hrun. unfold Manager.playLoop, loopRunning in *.
  destruct (Manager.mixer s) as [m|]; [|reflexivity].
  rewrite Hid. unfold Manager.optEqb. rewrite String.eqb_refl.
  destruct (Mixer.getAction (Manager.activeLoopAction s) m) as [a|]; [|discriminate].
  rewrite Hrun. reflexivity.
Qed.

End ManagerPlayback.

(** X7.  Asking again for the loop motion that is playing starts no new
    fade: the mixer, the loop slot and the one-shot slot stay as they are.
    When the clip is available the request still counts as a play in the
    motion history. *)
Theorem X7_playMotion_running_loop `{Trig} (library : list Motion.MotionDef)
    (loadVRMAFile : string -> VRM -> outcome AnimationClip)
    (loadFBX : string -> outcome Retarget.FBXAsset)
    (motionId : string) (d : Motion.MotionDef) (s : Manager.AnimationManager) :
  Manager.findDef library motionId = Some d ->
  Motion.playMode d = Motion.playLoop ->
  Manager.activeLoopMotionId s = Some motionId ->
  loopRunning s = true ->
  let s' := snd (Manager.playMotion library loadVRMAFile loadFBX motionId s) in
  Manager.mixer s' = Manager.mixer s
  /\ Manager.activeLoopAction s' = Manager.activeLoopAction s
  /\ Manager.activeLoopMotionId s' = Manager.activeLoopMotionId s
  /\ Manager.activeShotAction s' = Manager.activeShotAction s
  /\ Manager.motionHistory s'
     = match fst (Manager.loadMotion library loadVRMAFile loadFBX motionId s) with
       | Some _ => History.record motionId (Motion.altGroup d) (Manager.motionHistory s)
       | None => Manager.motionHistory s
       end.
Proof.
  intros Hdef Hmode Hid Hrun. unfold Manager.playMotion.
  assert (Hmix : Manager.mixer s <> None).
  { unfold loopRunning in Hrun. destruct (Manager.mixer s); [discriminate|discriminate]. }
  destruct (Manager.mixer s) as [m|] eqn:Hm; [|congruence].
  rewrite Hdef, Hmode.
  pose proof (loadMotion_spec library loadVRMAFile loadFBX motionId s) as [Hsame _].
  destruct (Manager.loadMotion library loadVRMAFile loadFBX motionId s) as [[c|] s1];
    cbn [fst snd] in *.
  - destruct Hsame as [_ [Hm1 [Hla [Hli [Hsa [_ [Hh _]]]]]]].
    set (s2 := Manager.setHistory _ s1).
    pose proof (setHistory_sameButHistory
                  (History.record motionId (Motion.altGroup d) (Manager.motionHistory s1)) s1)
      as [M1 [M2 [M3 [M4 M5]]]].
    fold s2 in M1, M2, M3, M4, M5.
    rewrite playLoop_running.
    + rewrite M1, M2, M3, M4, M5, Hm1, Hla, Hli, Hsa, Hh, Hm. repeat split.
    + rewrite M3, Hli. exact Hid.
    + unfold loopRunning in *. rewrite M1, M2, Hm1, Hla, Hm. rewrite Hm in Hrun. exact Hrun.
  - destruct Hsame as [_ [Hm1 [Hla [Hli [Hsa [_ [Hh _]]]]]]].
    rewrite Hm1, Hla, Hli, Hsa, Hh, Hm. repeat split.
Qed.

Lemma X7_playMotion_running_loop_witness :
  let s' := snd (Manager.playMotion (H := demoTrig) [demoIdle "Idle1" "Idle1"] anyVRMA noFBX
                                    "Idle1" demoIdle1Playing) in
  Manager.mixer s' = Manager.mixer demoIdle1Playing
  /\ Manager.activeLoopAction s' = Manager.activeLoopAction demoIdle1Playing
  /\ Manager.activeLoopMotionId s' = Manager.activeLoopMotionId demoIdle1Playing
  /\ Manager.activeShotAction s' = Manager.activeShotAction demoIdle1Playing
  /\ Manager.motionHistory s'
     = match fst (Manager.loadMotion (H := demoTrig) [demoIdle "Idle1" "Idle1"] anyVRMA noFBX
                                     "Idle1" demoIdle1Playing) with
       | Some _ => History.record "Idle1" (Motion.altGroup (demoIdle "Idle1" "Idle1"))
                                  (Manager.motionHistory demoIdle1Playing)
       | None => Manager.motionHistory demoIdle1Playing
       end.
Proof.
  apply (X7_playMotion_running_loop (H := demoTrig) [demoIdle "Idle1" "Idle1"] anyVRMA noFBX
           "Idle1" (demoIdle "Idle1" "Idle1") demoIdle1Playing); vm_compute; reflexivity.
Defined.

Lemma fallbackIdleTracks_nil `{Trig} (v : VRM) :
  Manager.fallbackIdleTracks v = [] <-> hasFallbackBone v = false.
Proof.
  unfold Manager.fallbackIdleTracks, hasFallbackBone. cbv zeta. cbn [existsb].
  destruct (Procedural.getBone v "hips"), (Procedural.getBone v "spine"),
    (Procedural.getBone v "chest"), (Procedural.getBone v "head"),
    (Procedural.getBone v "leftUpperArm"), (Procedural.getBone v "rightUpperArm");
    cbn [Procedural.pushIf app orb]; split; intros Hx; try reflexivity; discriminate Hx.
Qed.

(** X8.  [bind] starts from a clean slate (empty clip cache, empty history,
    no one-shot) and leaves the procedural fallback idle running as the
    active loop exactly when the avatar has one of the six bones it animates
    (hips, spine, chest, head, the two upper arms); an avatar with none of
    them is bound with no loop at all. *)
Theorem X8_bind_starts_fallback_idle `{Trig} (v : VRM) (s : Manager.AnimationManager) :
  let b := Manager.bind v s in
  Manager.vrm b = Some v
  /\ Manager.mixer b <> None
  /\ Manager.clipCache b = ∅
  /\ Manager.motionHistory b = History.empty
  /\ Manager.activeShotAction b = None
  /\ if hasFallbackBone v
     then Manager.activeLoopMotionId b = Some "__fallback_idle"
          /\ Manager.activeLoopAction b = Manager.fallbackIdleAction b
          /\ Manager.fallbackIdleAction b <> None
          /\ loopRunning b = true
     else Manager.activeLoopMotionId b = None
          /\ Manager.activeLoopAction b = None
          /\ Manager.fallbackIdleAction b = None.
Proof.
  destruct s as [v0 m0 n cc la li sa fa h i hp hk ce ab].
  unfold Manager.bind, Manager.dispose, Manager.createFallbackIdle. cbv zeta.
  cbn [Manager.vrm Manager.mixer].
  pose proof (fallbackIdleTracks_nil v) as Hnil.
  destruct (Manager.fallbackIdleTracks v) as [|t ts] eqn:Ht.
  - rewrite (proj1 Hnil eq_refl). cbn. repeat split. discriminate.
  - destruct (hasFallbackBone v); [|destruct Hnil as [_ Hn]; discriminate (Hn eq_refl)].
    unfold Manager.newClipObject, Mixer.clipAction, Mixer.onAction, loopRunning, Mixer.getAction.
    cbn [Manager.mixer Mixer.actions Mixer.emptyMixer Mixer.uuid Mixer.clip
         Manager.setMixer Manager.setFallbackIdle Manager.setLoopSlot].
    rewrite lookup_empty. cbn [Mixer.actions Mixer.clipDurations].
    rewrite !lookup_insert_eq. cbn [Mixer.actions Mixer.clipDurations].
    rewrite !lookup_insert_eq.
    cbn. rewrite !lookup_insert_eq.
    repeat split; try discriminate.
Qed.

Lemma createFallbackIdle_mixer `{Trig} (s : Manager.AnimationManager) :
  Manager.mixer s <> None -> Manager.mixer (Manager.createFallbackIdle s) <> None.
Proof.
  intros Hm. unfold Manager.createFallbackIdle.
  destruct (Manager.vrm s) as [v|]; [|exact Hm].
  destruct (Manager.mixer s) as [m|] eqn:Em; [|congruence].
  destruct (Manager.fallbackIdleTracks v) as [|t ts]; [rewrite Em; discriminate|].
  destruct (Manager.newClipObject _ s) as [obj s1] eqn:E1.
  destruct (Manager.mixer s1) as [m1|] eqn:Em1.
  - destruct (Mixer.clipAction obj m1) as [a m2].
    destruct s1. cbn. discriminate.
  - destruct s. cbn in E1. injection E1 as _ <-. cbn in Em1. cbn in Em. congruence.
Qed.

Lemma bind_mixer `{Trig} (v : VRM) (s : Manager.AnimationManager) :
  Manager.mixer (Manager.bind v s) <> None.
Proof.
  destruct s. unfold Manager.bind, Manager.dispose. apply createFallbackIdle_mixer.
  cbn. discriminate.
Qed.

(** X9.  The idle loading loop of [loadVRM] never gets past its first
    candidate: on the freshly bound manager [playMotionWithFallback("Idle1")]
    answers [true] whether or not a clip was found, so [Idle2] to [Idle5]
    are never asked for, and when [Idle1] cannot be loaded the manager is
    left as [bind] left it. *)
Theorem X9_loadVRM_tries_first_idle_only `{Trig} (library : list Motion.MotionDef)
    (loadVRMAFile : string -> VRM -> outcome AnimationClip)
    (loadFBX : string -> outcome Retarget.FBXAsset)
    (v : VRM) (armSpreadBias : option Q) (s : Manager.AnimationManager) :
  let bias := match armSpreadBias with Some b => b | None => 20 end in
  let bound := Manager.bind v (Manager.setArmSpreadBias bias s) in
  VRMModel.loadVRM library loadVRMAFile loadFBX v armSpreadBias s
  = (true, snd (Manager.playMotionWithFallback library loadVRMAFile loadFBX "Idle1" bound))
  /\ match fst (Manager.loadMotion library loadVRMAFile loadFBX "Idle1" bound) with
     | Some _ => True
     | None => snd (VRMModel.loadVRM library loadVRMAFile loadFBX v armSpreadBias s) = bound
     end.
Proof.
  intros bias bound.
  assert (Hm : Manager.mixer bound <> None) by apply bind_mixer.
  assert (Hload : VRMModel.loadVRM library loadVRMAFile loadFBX v armSpreadBias s
                  = (true, snd (Manager.playMotionWithFallback library loadVRMAFile loadFBX
                                                               "Idle1" bound))).
  { unfold VRMModel.loadVRM, VRMModel.idleCandidates. fold bias. fold bound.
    cbn [VRMModel.tryIdles].
    pose proof (playMotionWithFallback_flag library loadVRMAFile loadFBX "Idle1" bound) as Hf.
    destruct (Manager.playMotionWithFallback library loadVRMAFile loadFBX "Idle1" bound)
      as [ok s1]. cbn [fst snd] in *.
    destruct (Manager.mixer bound); [|congruence]. rewrite Hf. reflexivity. }
  split; [exact Hload|].
  destruct (fst (Manager.loadMotion library loadVRMAFile loadFBX "Idle1" bound)) eqn:Hl;
    [exact I|].
  rewrite Hload. cbn [snd].
  unfold Manager.playMotionWithFallback.
  destruct (Manager.mixer bound); [|congruence].
  pose proof (playMotion_never_throws library loadVRMAFile loadFBX "Idle1" bound) as Hok.
  destruct (Manager.loadMotion library loadVRMAFile loadFBX "Idle1" bound) as [r s1] eqn:E.
  cbn [fst] in Hl. subst r.
  pose proof (playMotion_without_clip library loadVRMAFile loadFBX "Idle1" bound s1 E)
    as [Hs1 Hs].
  destruct (Manager.playMotion library loadVRMAFile loadFBX "Idle1" bound) as [[u|msg] s2];
    cbn [fst snd] in *; [congruence | discriminate].
Qed.

(** An avatar whose library lists [Idle2] with a loadable file but no
    [Idle1]: [loadVRM] reports an idle as loaded and leaves the procedural
    fallback idle playing. *)
Example loadVRM_run :
  let r := VRMModel.loadVRM (H := demoTrig) [demoIdle "Idle2" "Idle2"] anyVRMA noFBX
                            demoAvatar None Manager.initial in
  fst r = true
  /\ Manager.activeLoopMotionId (snd r) = Some "__fallback_idle"
  /\ Manager.getMotionHistory (snd r) = [].
Proof. vm_compute. repeat split. Qed.

(** ** Procedural clips are well formed *)

Lemma wellFormed_quatTrack `{Trig} dur b times eulers :
  timesSpan dur times = true -> length eulers = length times ->
  wellFormedTrack dur (Procedural.quatTrack b times eulers).
Proof.
  intros Ht Hl. split; [exact Ht|]. simpl. rewrite length_map. split; [exact Hl | reflexivity].
Qed.

Lemma wellFormed_posTrack dur b times offsets :
  timesSpan dur times = true -> length offsets = length times ->
  wellFormedTrack dur (Procedural.posTrack b times offsets).
Proof.
  intros Ht Hl. split; [exact Ht|]. simpl. rewrite length_map. split; [exact Hl | reflexivity].
Qed.

Lemma pushIf_Forall (P : KeyframeTrack -> Prop) bone f :
  (forall b, Forall P (f b)) -> Forall P (Procedural.pushIf bone f).
Proof.
  intros Hf. destruct bone as [b|]; [apply Hf | constructor].
Qed.

Lemma clipOrNull_Some id dur tracks c :
  Procedural.clipOrNull id dur tracks = Some c ->
  c = mkClip id dur tracks /\ tracks <> [].
Proof.
  destruct tracks as [|t ts]; simpl; intros Hc; [discriminate|].
  injection Hc as <-. split; [reflexivity | discriminate].
Qed.

Ltac tracks_well_formed :=
  repeat first
    [ apply Forall_app_2
    | apply pushIf_Forall; intros ?
    | apply Forall_cons_2
    | apply Forall_nil_2
    | apply wellFormed_quatTrack; [vm_compute; reflexivity | reflexivity]
    | apply wellFormed_posTrack; [vm_compute; reflexivity | reflexivity] ].

Ltac generator_well_formed :=
  let Hc := fresh "Hc" in
  let Hne := fresh "Hne" in
  intros Hc; apply clipOrNull_Some in Hc; destruct Hc as [-> Hne];
  split; [reflexivity|];
  split; [reflexivity|];
  split; [exact Hne|];
  cbn [clipDuration clipTracks]; tracks_well_formed.

Lemma dance_happy_wellFormed `{Trig} v c :
  Procedural.dance_happy v = Some c -> clipName c = "dance_happy" /\ wellFormedClip c.
Proof. unfold Procedural.dance_happy. cbv zeta. generator_well_formed. Qed.

Lemma headed_generator_wellFormed v id dur (f : Object3D -> list KeyframeTrack) c :
  0 < dur -> (forall h, f h <> []) ->
  (forall h, Forall (wellFormedTrack dur) (f h)) ->
  match Procedural.getBone v "head" with
  | None => None
  | Some h => Some (mkClip id dur (f h))
  end = Some c ->
  clipName c = id /\ wellFormedClip c.
Proof.
  intros Hd Hne Hf. destruct (Procedural.getBone v "head") as [h|]; [|discriminate].
  intros Hc; injection Hc as <-. split; [reflexivity|].
  split; [exact Hd|]. split; [apply Hne | apply Hf].
Qed.

Lemma registry_wellFormed `{Trig} v :
  Forall (fun entry => forall c, snd entry v = Some c ->
                                 clipName c = fst entry /\ wellFormedClip c)
         Procedural.PROCEDURAL_CLIPS.
Proof.
  unfold Procedural.PROCEDURAL_CLIPS.
  repeat (apply Forall_cons_2; [cbn [fst snd]; intros c|]); try apply Forall_nil_2.
  all: try (cbv delta [Procedural.idle_breathe Procedural.idle_happy Procedural.idle_sad
                         Procedural.thinking Procedural.point Procedural.shrug
                         Procedural.wave Procedural.clap Procedural.bow Procedural.cheer
                         Procedural.surprised_back Procedural.happy_jump
                         Procedural.sad_cry Procedural.angry_stomp Procedural.sleeping
                         Procedural.sitting] beta zeta;
            solve [generator_well_formed]).
  all: try (apply headed_generator_wellFormed;
            [reflexivity | intros h; discriminate | intros h; solve [tracks_well_formed]]).
  unfold Procedural.dance_hiphop.
  destruct (Procedural.dance_happy v) as [d|] eqn:Hd; [|discriminate].
  intros Hc; injection Hc as <-.
  destruct (dance_happy_wellFormed v d Hd) as [_ Hw].
  split; [reflexivity | exact Hw].
Qed.

(** X10.  For every procedural motion id (the ids that
    [getProceduralMotionIds] lists) and whatever bones the avatar has, a
    clip returned by [createProceduralClip] carries the id it was asked for
    as its name, has a positive duration and at least one track, and every
    track has exactly one value per keyframe time, the times starting at 0,
    increasing strictly and ending at the duration of the clip. *)
Theorem X10_procedural_clips_well_formed `{Trig} (v : VRM) (motionId : string)
    (c : AnimationClip) :
  In motionId Procedural.getProceduralMotionIds ->
  Procedural.createProceduralClip v motionId = Some c ->
  clipName c = motionId /\ wellFormedClip c.
Proof.
  intros _. unfold Procedural.createProceduralClip.
  destruct (Procedural.lookupClip Procedural.PROCEDURAL_CLIPS motionId) as [fn|] eqn:Hfn;
    [|discriminate].
  intros Hc. apply lookupClip_In in Hfn.
  pose proof (registry_wellFormed v) as Hreg.
  rewrite List.Forall_forall in Hreg. exact (Hreg _ Hfn c Hc).
Qed.

Lemma X10_procedural_clips_well_formed_witness :
  clipName demoNodClip = "nod" /\ wellFormedClip demoNodClip.
Proof.
  apply (X10_procedural_clips_well_formed (H := circleTrig) demoAvatar "nod" demoNodClip).
  - unfold Procedural.getProceduralMotionIds. simpl.
    repeat first [left; reflexivity | right].
  - vm_compute. reflexivity.
Defined.

(** ** Retargeting keeps the timing *)

Lemma retargetTrack_sameTiming `{Trig} asset v bias sc isVRM0 t0 :
  (length (Retarget.retargetTrack asset v bias sc isVRM0 t0) <= 1)%nat
  /\ Forall (sameTiming t0) (Retarget.retargetTrack asset v bias sc isVRM0 t0).
Proof.
  unfold Retarget.retargetTrack. cbv zeta.
  destruct (Retarget.rigMapLookup _ _) as [bone|]; [|split; [simpl; lia | constructor]].
  destruct (Procedural.getBone v bone) as [node|]; [|split; [simpl; lia | constructor]].
  destruct (Retarget.getObjectByName asset _) as [[pw rig]|];
    [|split; [simpl; lia | constructor]].
  unfold sameTiming.
  destruct (trackType t0) eqn:Hty; (split; [simpl; lia|]).
  - apply Forall_cons_2; [|constructor]. simpl. rewrite length_map. auto.
  - apply Forall_cons_2; [|constructor]. simpl. rewrite length_map. auto.
  - constructor.
Qed.

Lemma flat_map_sameTiming `{Trig} asset v bias sc isVRM0 tracks :
  (length (flat_map (Retarget.retargetTrack asset v bias sc isVRM0) tracks) <= length tracks)%nat
  /\ Forall (fun t => exists t0, In t0 tracks /\ sameTiming t0 t)
            (flat_map (Retarget.retargetTrack asset v bias sc isVRM0) tracks).
Proof.
  induction tracks as [|t0 rest [IHl IHf]]; [split; [simpl; lia | constructor]|].
  destruct (retargetTrack_sameTiming asset v bias sc isVRM0 t0) as [Hl Hf].
  cbn [flat_map]. split; [rewrite length_app; simpl; lia|].
  apply Forall_app_2.
  - eapply Forall_impl; [exact Hf|]. intros t Ht. exists t0. split; [left; reflexivity | exact Ht].
  - eapply Forall_impl; [exact IHf|]. intros t [t1 [Hin Ht]].
    exists t1. split; [right; exact Hin | exact Ht].
Qed.

(** X11.  Retargeting fails only on an asset without animation clips.  The
    clip it returns has the duration of the source clip and the name asked
    for (the name of the source clip when none is given); it has no more
    tracks than the source, and each of its tracks comes from a source track
    of the same kind with the same keyframe times and as many values:
    retargeting drops tracks but never changes the timing. *)
Theorem X11_retarget_keeps_timing `{Trig} (asset : Retarget.FBXAsset) (url : string)
    (v : VRM) (clipNameArg : option string) (armSpreadBiasDeg : Q) :
  match Retarget.retarget asset url v clipNameArg armSpreadBiasDeg with
  | Throw _ => Retarget.animations asset = []
  | Ok c =>
    exists src,
      Retarget.sourceClipOf asset = Some src
      /\ clipDuration c = clipDuration src
      /\ clipName c = match clipNameArg with Some n => n | None => clipName src end
      /\ (length (clipTracks c) <= length (clipTracks src))%nat
      /\ Forall (fun t => exists t0, In t0 (clipTracks src) /\ sameTiming t0 t) (clipTracks c)
  end.
Proof.
  unfold Retarget.retarget.
  destruct (Retarget.sourceClipOf asset) as [src|] eqn:Hsrc.
  - cbv zeta. exists src. cbn [clipDuration clipName clipTracks].
    split; [reflexivity|]. split; [reflexivity|]. split; [reflexivity|].
    apply flat_map_sameTiming.
  - unfold Retarget.sourceClipOf in Hsrc.
    destruct (find _ (Retarget.animations asset)); [discriminate|].
    destruct (Retarget.animations asset); [reflexivity | discriminate].
Qed.

(** The clip retargeted from the one-track demo asset. *)
Example retarget_timing_run :
  clipDuration demoRetargetedClip = 1
  /\ map trackTimes (clipTracks demoRetargetedClip) = [[0]]
  /\ map trackName (clipTracks demoRetargetedClip) = ["Normalized_Hips.quaternion"].
Proof. vm_compute. repeat split. Qed.

(** ** Unit rotations *)

Lemma mul_lengthSq a b :
  quatLengthSq (Quat.mul a b) == quatLengthSq a * quatLengthSq b.
Proof. unfold quatLengthSq, Quat.mul. simpl. ring. Qed.

Lemma mul_isUnit a b : isUnit a -> isUnit b -> isUnit (Quat.mul a b).
Proof.
  unfold isUnit. intros Ha Hb. rewrite mul_lengthSq, Ha, Hb. reflexivity.
Qed.

Lemma invert_isUnit a : isUnit a -> isUnit (Quat.invert a).
Proof.
  unfold isUnit, quatLengthSq, Quat.invert. simpl. intros Ha. rewrite <- Ha. ring.
Qed.

Lemma identity_isUnit : isUnit Quat.identity.
Proof. reflexivity. Qed.

Lemma setFromEuler_isUnit `{Trig} (e : Q * Q * Q) :
  pythagorean -> isUnit (Quat.setFromEuler e).
Proof.
  intros Hp. destruct e as [[x y] z]. unfold isUnit, quatLengthSq, Quat.setFromEuler.
  cbv zeta. cbn [qx qy qz qw].
  pose proof (Hp (x / 2)) as H1. pose proof (Hp (y / 2)) as H2. pose proof (Hp (z / 2)) as H3.
  set (s1 := sin (x / 2)) in *. set (c1 := cos (x / 2)) in *.
  set (s2 := sin (y / 2)) in *. set (c2 := cos (y / 2)) in *.
  set (s3 := sin (z / 2)) in *. set (c3 := cos (z / 2)) in *.
  assert (E : (s1 * c2 * c3 + c1 * s2 * s3) * (s1 * c2 * c3 + c1 * s2 * s3)
              + (c1 * s2 * c3 - s1 * c2 * s3) * (c1 * s2 * c3 - s1 * c2 * s3)
              + (c1 * c2 * s3 + s1 * s2 * c3) * (c1 * c2 * s3 + s1 * s2 * c3)
              + (c1 * c2 * c3 - s1 * s2 * s3) * (c1 * c2 * c3 - s1 * s2 * s3)
              == (s1 * s1 + c1 * c1) * (s2 * s2 + c2 * c2) * (s3 * s3 + c3 * c3)) by ring.
  rewrite E, H1, H2, H3. reflexivity.
Qed.

Lemma circleTrig_pythagorean : pythagorean (H := circleTrig).
Proof.
  intros x. simpl.
  assert (Hx : ~ 1 + x * x == 0).
  { pose proof (Qsquare_nonneg x). lra. }
  field. exact Hx.
Qed.

Lemma unitRestPose_Node self world children :
  unitRestPose (Retarget.Node self world children)
  <-> isUnit world /\ Forall unitRestPose children.
Proof.
  simpl. split; intros [Hs Hc]; (split; [exact Hs|]).
  - induction children as [|c rest IH]; constructor; [apply Hc | apply IH; apply Hc].
  - induction children as [|c rest IH]; [exact I|].
    apply Forall_cons_1 in Hc. destruct Hc as [Hc Hrest]. split; [exact Hc | apply IH; exact Hrest].
Qed.

Lemma unitRestPose_world n : unitRestPose n -> isUnit (Retarget.getWorldQuaternion n).
Proof. destruct n as [self world children]. intros Hn. apply unitRestPose_Node in Hn. apply Hn. Qed.

(** In a skeleton whose world rotations are unit, those of the node found
    and of its parent are. *)
Lemma findByName_isUnit n :
  forall parent nm parent' node,
    unitRestPose n -> isUnit (parentWorldOf parent) ->
    Retarget.findByName parent n nm = Some (parent', node) ->
    isUnit (parentWorldOf parent') /\ isUnit (Retarget.getWorldQuaternion node).
Proof.
  induction n as [self world children IH] using SceneNode_forall_ind.
  intros parent nm parent' node Hrest Hparent.
  pose proof (unitRestPose_world _ Hrest) as Hn. apply unitRestPose_Node in Hrest.
  destruct Hrest as [Hself Hchildren]. simpl.
  destruct (String.eqb (name self) nm).
  - intros Hf. injection Hf as <- <-. auto.
  - assert (Hw : isUnit (parentWorldOf (Some (Retarget.Node self world children))))
      by exact Hn.
    revert Hw. generalize (Some (Retarget.Node self world children)). intros pc Hw.
    clear Hn.
    induction children as [|c rest IHrest]; [discriminate|].
    apply Forall_cons_1 in IH. destruct IH as [IHc IHr].
    apply Forall_cons_1 in Hchildren. destruct Hchildren as [Hc Hr].
    destruct (Retarget.findByName pc c nm) as [[pf nodef]|] eqn:Hfc.
    + intros Hf. injection Hf as <- <-. eapply IHc; eassumption.
    + apply IHrest; assumption.
Qed.

Lemma armBiasQuat_isUnit `{Trig} bias bone q :
  pythagorean -> Retarget.armBiasQuat bias bone = Some q -> isUnit q.
Proof.
  intros Hp. unfold Retarget.armBiasQuat. cbv zeta.
  destruct (Retarget.Qgtb _ _); [|discriminate].
  set (rad := bias * PI / 180).
  destruct (String.eqb bone "leftUpperArm");
    [|destruct (String.eqb bone "rightUpperArm"); [|discriminate]]; intros Hq.
  - assert (E : q = Quat.setFromEuler (0, 0, - rad)) by congruence.
    rewrite E. apply setFromEuler_isUnit. exact Hp.
  - assert (E : q = Quat.setFromEuler (0, 0, rad)) by congruence.
    rewrite E. apply setFromEuler_isUnit. exact Hp.
Qed.

Lemma retargetQuat_isUnit p r isVRM0 biasQ q :
  isUnit p -> isUnit r -> unitOrNone biasQ -> isUnit q ->
  isUnit (Retarget.retargetQuat p r isVRM0 biasQ q).
Proof.
  intros Hp Hr Hb Hq. unfold Retarget.retargetQuat, Quat.multiply, Quat.premultiply.
  assert (Hcore : isUnit (Quat.mul (Quat.mul p q) r))
    by (apply mul_isUnit; [apply mul_isUnit|]; assumption).
  set (core := Quat.mul (Quat.mul p q) r) in *.
  assert (Hflip : isUnit (if isVRM0 then mkQuat (- qx core) (qy core) (- qz core) (qw core)
                          else core)).
  { destruct isVRM0; [|exact Hcore].
    unfold isUnit, quatLengthSq in *. cbn [qx qy qz qw]. rewrite <- Hcore. ring. }
  destruct biasQ as [b|]; [apply mul_isUnit; assumption | exact Hflip].
Qed.

Lemma retargetTrack_unitKeyframes `{Trig} asset v bias sc isVRM0 t0 :
  pythagorean -> unitRestPose (Retarget.assetRoot asset) -> unitKeyframes t0 ->
  Forall unitKeyframes (Retarget.retargetTrack asset v bias sc isVRM0 t0).
Proof.
  intros Hp Hrest Ht0. unfold Retarget.retargetTrack. cbv zeta.
  destruct (Retarget.rigMapLookup _ _) as [bone|]; [|constructor].
  destruct (Procedural.getBone v bone) as [node|]; [|constructor].
  destruct (Retarget.getObjectByName asset _) as [[parent rig]|] eqn:Hfind; [|constructor].
  unfold Retarget.getObjectByName in Hfind.
  destruct (findByName_isUnit _ None _ parent rig Hrest identity_isUnit Hfind) as [Hpw Hrig].
  destruct (trackType t0); [| |constructor].
  - apply Forall_cons_2; [|constructor]. unfold unitKeyframes. cbn [trackQuats].
    apply List.Forall_forall. intros q Hq. apply in_map_iff in Hq.
    destruct Hq as [q0 [<- Hq0]].
    apply retargetQuat_isUnit.
    + exact Hpw.
    + apply invert_isUnit. exact Hrig.
    + destruct (Retarget.armBiasQuat bias bone) as [b|] eqn:Hb; [|exact I].
      simpl. eapply armBiasQuat_isUnit; eassumption.
    + exact (proj1 (List.Forall_forall _ _) Ht0 q0 Hq0).
  - apply Forall_cons_2; [|constructor]. unfold unitKeyframes. cbn [trackQuats]. constructor.
Qed.

(** X12.  Retargeting keeps rotations unit: when the world rotations that
    [getWorldQuaternion] reports for the nodes of the source skeleton and
    the rotation keyframes of the source clips are unit quaternions (and
    sin^2 + cos^2 = 1), every rotation keyframe of the retargeted clip is a
    unit quaternion, with or without the axis flip and the arm-spread
    bias. *)
Theorem X12_retarget_keeps_rotations_unit `{Trig} (asset : Retarget.FBXAsset) (url : string)
    (v : VRM) (clipNameArg : option string) (armSpreadBiasDeg : Q) (c : AnimationClip) :
  pythagorean ->
  unitRestPose (Retarget.assetRoot asset) ->
  Forall (fun src => Forall unitKeyframes (clipTracks src)) (Retarget.animations asset) ->
  Retarget.retarget asset url v clipNameArg armSpreadBiasDeg = Ok c ->
  Forall unitKeyframes (clipTracks c).
Proof.
  intros Hp Hrest Hsrc. unfold Retarget.retarget.
  destruct (Retarget.sourceClipOf asset) as [src|] eqn:Hs; [|discriminate].
  cbv zeta. intros Hc. injection Hc as <-. cbn [clipTracks].
  assert (Hin : In src (Retarget.animations asset)).
  { unfold Retarget.sourceClipOf in Hs.
    destruct (find _ (Retarget.animations asset)) as [c0|] eqn:Hf.
    - injection Hs as <-. apply find_some in Hf. exact (proj1 Hf).
    - destruct (Retarget.animations asset) as [|c0 rest]; [discriminate|].
      simpl in Hs. injection Hs as <-. left. reflexivity. }
  pose proof (proj1 (List.Forall_forall _ _) Hsrc src Hin) as Htracks.
  cbv beta in Htracks. revert Htracks. generalize (clipTracks src) as tracks.
  induction tracks as [|t0 rest IH]; intros Htracks; [constructor|].
  apply Forall_cons_1 in Htracks. destruct Htracks as [Ht0 Hr].
  cbn [flat_map]. apply Forall_app_2; [|apply IH; exact Hr].
  apply retargetTrack_unitKeyframes; assumption.
Qed.

Lemma X12_retarget_keeps_rotations_unit_witness :
  Forall unitKeyframes (clipTracks demoRetargetedClip).
Proof.
  apply (X12_retarget_keeps_rotations_unit (H := circleTrig) demoAsset "/motions/a.fbx"
           demoAvatar None 20 demoRetargetedClip).
  - exact circleTrig_pythagorean.
  - simpl. repeat split; reflexivity.
  - repeat constructor.
  - vm_compute. reflexivity.
Defined.

Lemma quatTrack_unitKeyframes `{Trig} b times eulers :
  pythagorean -> unitKeyframes (Procedural.quatTrack b times eulers).
Proof.
  intros Hp. unfold unitKeyframes. cbn [Procedural.quatTrack trackQuats].
  apply List.Forall_forall. intros q Hq. apply in_map_iff in Hq.
  destruct Hq as [e [<- _]]. apply setFromEuler_isUnit. exact Hp.
Qed.

Lemma posTrack_unitKeyframes b times offsets :
  unitKeyframes (Procedural.posTrack b times offsets).
Proof. constructor. Qed.

Lemma vectorTrack_unitKeyframes nm times vecs :
  unitKeyframes (mkTrack VectorKeyframeTrack nm times [] vecs).
Proof. constructor. Qed.

Ltac tracks_unit Hp :=
  repeat first
    [ apply quatTrack_unitKeyframes; exact Hp
    | apply posTrack_unitKeyframes
    | apply vectorTrack_unitKeyframes
    | apply Forall_app_2
    | apply pushIf_Forall; intros ?
    | apply Forall_cons_2
    | apply Forall_nil_2 ].

Ltac generator_unit Hp :=
  let Hc := fresh "Hc" in
  intros Hc; apply clipOrNull_tracks in Hc; rewrite Hc; tracks_unit Hp.

Lemma dance_happy_unitKeyframes `{Trig} v c :
  pythagorean -> Procedural.dance_happy v = Some c -> Forall unitKeyframes (clipTracks c).
Proof. intros Hp. unfold Procedural.dance_happy. cbv zeta. generator_unit Hp. Qed.

Lemma headed_generator_unitKeyframes v id dur (f : Object3D -> list KeyframeTrack) c :
  (forall h, Forall unitKeyframes (f h)) ->
  match Procedural.getBone v "head" with
  | None => None
  | Some h => Some (mkClip id dur (f h))
  end = Some c ->
  Forall unitKeyframes (clipTracks c).
Proof.
  intros Hf. destruct (Procedural.getBone v "head") as [h|]; [|discriminate].
  intros Hc; injection Hc as <-. apply Hf.
Qed.

Lemma registry_unitKeyframes `{Trig} v :
  pythagorean ->
  Forall (fun entry => forall c, snd entry v = Some c -> Forall unitKeyframes (clipTracks c))
         Procedural.PROCEDURAL_CLIPS.
Proof.
  intros Hp. unfold Procedural.PROCEDURAL_CLIPS.
  repeat (apply Forall_cons_2; [cbn [fst snd]; intros c|]); try apply Forall_nil_2.
  all: try (cbv delta [Procedural.idle_breathe Procedural.idle_happy Procedural.idle_sad
                         Procedural.thinking Procedural.point Procedural.shrug
                         Procedural.wave Procedural.clap Procedural.bow Procedural.cheer
                         Procedural.surprised_back Procedural.happy_jump
                         Procedural.sad_cry Procedural.angry_stomp Procedural.sleeping
                         Procedural.sitting] beta zeta;
            solve [generator_unit Hp]).
  all: try (apply (headed_generator_unitKeyframes v); intros h; solve [tracks_unit Hp]).
  unfold Procedural.dance_hiphop.
  destruct (Procedural.dance_happy v) as [d|] eqn:Hd; [|discriminate].
  intros Hc; injection Hc as <-. cbn [clipTracks].
  exact (dance_happy_unitKeyframes v d Hp Hd).
Qed.

(** X13.  Every rotation keyframe of every procedural clip and of the
    fallback idle is a unit quaternion, whatever bones the avatar has
    (given sin^2 + cos^2 = 1). *)
Theorem X13_generated_rotations_unit `{Trig} (v : VRM) :
  pythagorean ->
  (forall motionId c, Procedural.createProceduralClip v motionId = Some c ->
                      Forall unitKeyframes (clipTracks c))
  /\ Forall unitKeyframes (Manager.fallbackIdleTracks v).
Proof.
  intros Hp. split.
  - intros motionId c. unfold Procedural.createProceduralClip.
    destruct (Procedural.lookupClip Procedural.PROCEDURAL_CLIPS motionId) as [fn|] eqn:Hfn;
      [|discriminate].
    intros Hc. apply lookupClip_In in Hfn.
    pose proof (registry_unitKeyframes v Hp) as Hreg.
    rewrite List.Forall_forall in Hreg. exact (Hreg _ Hfn c Hc).
  - unfold Manager.fallbackIdleTracks. cbv zeta. tracks_unit Hp.
Qed.

Lemma X13_generated_rotations_unit_witness :
  Forall unitKeyframes (clipTracks demoNodClip)
  /\ Forall unitKeyframes (Manager.fallbackIdleTracks (H := circleTrig) demoAvatar).
Proof.
  destruct (X13_generated_rotations_unit (H := circleTrig) demoAvatar circleTrig_pythagorean)
    as [Hclips Hidle].
  split; [|exact Hidle].
  apply (Hclips "nod" demoNodClip). vm_compute. reflexivity.
Defined.

(** ** Jelly effect: what it writes *)

Lemma sameButScale_refl n : sameButScale n n.
Proof. repeat split. Qed.

Lemma sameButScales_refl keys v : sameButScales keys v v.
Proof.
  split; [reflexivity|]. destruct (humanoid v) as [h|]; [|exact I].
  split; [reflexivity|]. split; [reflexivity|].
  intros b. destruct (rawBones h !! b); [|exact I]. split; [apply sameButScale_refl | auto].
Qed.

Lemma sameButScales_trans keys v1 v2 v3 :
  sameButScales keys v1 v2 -> sameButScales keys v2 v3 -> sameButScales keys v1 v3.
Proof.
  intros [Hm1 H1] [Hm2 H2]. split; [congruence|].
  destruct (humanoid v1) as [h1|], (humanoid v2) as [h2|], (humanoid v3) as [h3|];
    try contradiction; try exact I.
  destruct H1 as [Hn1 [Hr1 Hb1]]. destruct H2 as [Hn2 [Hr2 Hb2]].
  split; [congruence|]. split; [congruence|].
  intros b. specialize (Hb1 b). specialize (Hb2 b).
  destruct (rawBones h1 !! b) as [n1|], (rawBones h2 !! b) as [n2|], (rawBones h3 !! b) as [n3|];
    try contradiction; try exact I.
  destruct Hb1 as [[A1 [A2 A3]] Hk1]. destruct Hb2 as [[B1 [B2 B3]] Hk2].
  split; [repeat split; congruence|].
  intros Hnot. rewrite (Hk2 Hnot), (Hk1 Hnot). reflexivity.
Qed.

Lemma setRawScale_sameButScales keys v b sc :
  In b keys -> sameButScales keys v (Jelly.setRawScale v b sc).
Proof.
  intros Hin. unfold Jelly.setRawScale.
  destruct (humanoid v) as [h|] eqn:Hh; [|apply sameButScales_refl].
  destruct (rawBones h !! b) as [node|] eqn:Hb; [|apply sameButScales_refl].
  split; [reflexivity|]. rewrite Hh. cbn [humanoid normalizedBones rawBones restHipsY].
  split; [reflexivity|]. split; [reflexivity|].
  intros b'. destruct (String.eqb_spec b' b) as [->|Hne].
  - rewrite Hb, lookup_insert_eq. split; [repeat split | tauto].
  - rewrite lookup_insert_ne by congruence.
    destruct (rawBones h !! b'); [|exact I]. split; [apply sameButScale_refl | auto].
Qed.

Lemma updateSpring_sameButScales keys dt v b s :
  In b keys -> sameButScales keys v (snd (fst (Jelly.updateSpring dt v b s))).
Proof.
  intros Hin. unfold Jelly.updateSpring.
  destruct (negb (Jelly.activated s)); [apply sameButScales_refl|].
  destruct (negb (Qle_bool (Jelly.delayLeft s) 0)); [apply sameButScales_refl|].
  cbv zeta. destruct (Jelly.unsettled _); cbn [fst snd].
  - apply setRawScale_sameButScales. exact Hin.
  - eapply sameButScales_trans; apply setRawScale_sameButScales; exact Hin.
Qed.

Lemma updateSprings_sameButScales keys dt l :
  forall v, (forall e, In e l -> In (fst e) keys) ->
            sameButScales keys v (snd (fst (Jelly.updateSprings dt v l))).
Proof.
  induction l as [|[b s] rest IH]; intros v Hkeys; [apply sameButScales_refl|].
  cbn [Jelly.updateSprings].
  pose proof (updateSpring_sameButScales keys dt v b s (Hkeys (b, s) (or_introl eq_refl))) as H1.
  destruct (Jelly.updateSpring dt v b s) as [[s1 v1] a1]. cbn [fst snd] in H1.
  specialize (IH v1 (fun e He => Hkeys e (or_intror He))).
  destruct (Jelly.updateSprings dt v1 rest) as [[rest' v2] a2]. cbn [fst snd] in *.
  eapply sameButScales_trans; eassumption.
Qed.

Lemma updateSprings_keys dt l :
  forall v, map fst (fst (fst (Jelly.updateSprings dt v l))) = map fst l.
Proof.
  induction l as [|[b s] rest IH]; intros v; [reflexivity|].
  cbn [Jelly.updateSprings].
  destruct (Jelly.updateSpring dt v b s) as [[s1 v1] a1].
  specialize (IH v1).
  destruct (Jelly.updateSprings dt v1 rest) as [[rest' v2] a2]. cbn [fst snd map] in *.
  rewrite IH. reflexivity.
Qed.

Lemma jellyStep_inv v j e : jellyInv v j -> jellyInv v (jellyStep j e).
Proof.
  intros [Hkeys [v' [Hv Hsame]]]. destruct e as [random bone intensity|delta].
  - split.
    + cbn [jellyStep Jelly.triggerImpulse Jelly.springs].
      rewrite triggerWithWave_keys. exact Hkeys.
    + exists v'. split; [exact Hv | exact Hsame].
  - cbn [jellyStep]. unfold Jelly.update.
    destruct (negb (Jelly.active j)); [split; [exact Hkeys | eauto]|].
    rewrite Hv. destruct (humanoid v'); [|split; [exact Hkeys | eauto]].
    pose proof (updateSprings_keys (Qmin delta 0.05) (Jelly.springs j) v') as Hk.
    pose proof (updateSprings_sameButScales (map fst (Jelly.springs (Jelly.bind v)))
                  (Qmin delta 0.05) (Jelly.springs j) v') as Hs.
    destruct (Jelly.updateSprings (Qmin delta 0.05) v' (Jelly.springs j)) as [[l' v''] a].
    cbn [fst snd] in *. split; [cbn [Jelly.springs]; congruence|].
    exists v''. split; [reflexivity|].
    eapply sameButScales_trans; [exact Hsame|]. apply Hs.
    intros e He. rewrite <- Hkeys. apply in_map. exact He.
Qed.

Lemma jellyRun_inv v events : forall j, jellyInv v j -> jellyInv v (jellyRun events j).
Proof.
  induction events as [|e rest IH]; intros j Hj; [exact Hj|].
  cbn [jellyRun fold_left]. apply IH. apply jellyStep_inv. exact Hj.
Qed.

Lemma bind_inv v : jellyInv v (Jelly.bind v).
Proof.
  split; [reflexivity|]. exists v. split; [reflexivity | apply sameButScales_refl].
Qed.

(** X14.  Whatever impulses and frames follow [bind], in any order and with
    any intensity and frame time, the effect writes nothing but the scale of
    raw bones that have a spring: it keeps holding the avatar it was bound
    to, whose normalized bones, bones without a spring, and the name,
    position and rotation of every raw bone stay as they were, and no spring
    is added or removed. *)
Theorem X14_jelly_writes_only_scales (v : VRM) (events : list JellyEvent) :
  let j := jellyRun events (Jelly.bind v) in
  map fst (Jelly.springs j) = map fst (Jelly.springs (Jelly.bind v))
  /\ exists v', Jelly.vrm j = Some v'
                /\ sameButScales (map fst (Jelly.springs (Jelly.bind v))) v v'.
Proof. apply jellyRun_inv, bind_inv. Qed.

(** ** Jelly effect: the scale stays within the clamp *)

Lemma scaleOf_setRawScale v b sc b' :
  scaleOf (Jelly.setRawScale v b sc) b' = scaleOf v b'
  \/ scaleOf (Jelly.setRawScale v b sc) b' = sc.
Proof.
  destruct (String.eqb_spec b' b) as [->|Hne].
  - destruct (Jelly.rawBoneOf v b) as [node|] eqn:Hn.
    + right. apply scaleOf_setRawScale_same. congruence.
    + left. unfold Jelly.setRawScale, Jelly.rawBoneOf, getRawBoneNode in *.
      destruct (humanoid v) as [h|]; [|reflexivity]. rewrite Hn. reflexivity.
  - left. unfold scaleOf. rewrite rawBoneOf_setRawScale_other by exact Hne. reflexivity.
Qed.

Lemma scaleWithin_one : scaleWithin (mkV3 1 1 1).
Proof. unfold scaleWithin. simpl. repeat split; lra. Qed.

Lemma scaleWithin_integrate dt s :
  let st := Jelly.integrate dt s in
  scaleWithin (mkV3 (1 + vx (Jelly.offset st)) (1 + vy (Jelly.offset st))
                    (1 + vz (Jelly.offset st))).
Proof.
  cbv zeta. unfold Jelly.integrate. cbv zeta.
  cbn [Jelly.offset Vec.clampScalar vx vy vz]. unfold scaleWithin. cbn [vx vy vz].
  assert (Hlh : - Jelly.maxDisplacement <= Jelly.maxDisplacement)
    by (unfold Jelly.maxDisplacement; lra).
  repeat match goal with
         | |- context [Vec.clamp ?x ?lo ?hi] =>
           let c := fresh "c" in
           let Hc := fresh "Hc" in
           pose proof (clamp_range x lo hi Hlh) as Hc;
           set (c := Vec.clamp x lo hi) in *; clearbody c
         end.
  unfold Jelly.maxDisplacement in *. repeat split; lra.
Qed.

Lemma updateSpring_scaleWithin dt v b s b' :
  scaleWithin (scaleOf v b') ->
  scaleWithin (scaleOf (snd (fst (Jelly.updateSpring dt v b s))) b').
Proof.
  intros Hw. unfold Jelly.updateSpring.
  destruct (negb (Jelly.activated s)); [exact Hw|].
  destruct (negb (Qle_bool (Jelly.delayLeft s) 0)); [exact Hw|].
  cbv zeta.
  set (sc := mkV3 _ _ _).
  assert (Hsc : scaleWithin sc) by apply scaleWithin_integrate.
  assert (H1 : scaleWithin (scaleOf (Jelly.setRawScale v b sc) b')).
  { destruct (scaleOf_setRawScale v b sc b') as [-> | ->]; assumption. }
  destruct (Jelly.unsettled _); cbn [fst snd]; [exact H1|].
  destruct (scaleOf_setRawScale (Jelly.setRawScale v b sc) b (mkV3 1 1 1) b') as [-> | ->];
    [exact H1 | apply scaleWithin_one].
Qed.

Lemma updateSprings_scaleWithin dt l b' :
  forall v, scaleWithin (scaleOf v b') ->
            scaleWithin (scaleOf (snd (fst (Jelly.updateSprings dt v l))) b').
Proof.
  induction l as [|[b s] rest IH]; intros v Hw; [exact Hw|].
  cbn [Jelly.updateSprings].
  pose proof (updateSpring_scaleWithin dt v b s b' Hw) as H1.
  destruct (Jelly.updateSpring dt v b s) as [[s1 v1] a1]. cbn [fst snd] in H1.
  specialize (IH v1 H1).
  destruct (Jelly.updateSprings dt v1 rest) as [[rest' v2] a2]. exact IH.
Qed.

Lemma jellyStep_scaleWithin j e :
  (forall b, scaleWithin (jellyScale j b)) -> forall b, scaleWithin (jellyScale (jellyStep j e) b).
Proof.
  intros Hw b. destruct e as [random bone intensity|delta]; [exact (Hw b)|].
  cbn [jellyStep]. unfold Jelly.update.
  destruct (negb (Jelly.active j)); [exact (Hw b)|].
  destruct (Jelly.vrm j) as [v|] eqn:Hv; [|exact (Hw b)].
  destruct (humanoid v); [|exact (Hw b)].
  pose proof (updateSprings_scaleWithin (Qmin delta 0.05) (Jelly.springs j) b v) as Hs.
  destruct (Jelly.updateSprings (Qmin delta 0.05) v (Jelly.springs j)) as [[l' v'] a].
  unfold jellyScale. cbn [Jelly.vrm fst snd] in *. apply Hs.
  specialize (Hw b). unfold jellyScale in Hw. rewrite Hv in Hw. exact Hw.
Qed.

(** X15.  The clamp bounds the distortion: if every raw bone of the avatar
    has a scale within [0.65, 1.35] on each axis when the effect is bound,
    it still has after any impulses and frames, however hard the impulse
    and however long (or negative) the frame time. *)
Theorem X15_jelly_scale_bounded (v : VRM) (events : list JellyEvent) (b : string) :
  (forall b', scaleWithin (scaleOf v b')) ->
  scaleWithin (jellyScale (jellyRun events (Jelly.bind v)) b).
Proof.
  intros Hw.
  assert (Hrun : forall j, (forall b', scaleWithin (jellyScale j b')) ->
                           forall b', scaleWithin (jellyScale (jellyRun events j) b')).
  { induction events as [|e rest IH]; intros j Hj; [exact Hj|].
    cbn [jellyRun fold_left]. apply IH. apply jellyStep_scaleWithin. exact Hj. }
  apply Hrun. exact Hw.
Qed.

Lemma demoAvatar_scaleWithin (b : string) : scaleWithin (scaleOf demoAvatar b).
Proof.
  unfold scaleOf, Jelly.rawBoneOf, getRawBoneNode, demoAvatar. cbn [humanoid rawBones].
  destruct (String.eqb_spec b "head") as [->|Hh];
    [rewrite lookup_insert_eq; apply scaleWithin_one|].
  rewrite lookup_insert_ne by congruence.
  destruct (String.eqb_spec b "hips") as [->|Hp];
    [rewrite lookup_insert_eq; apply scaleWithin_one|].
  rewrite lookup_insert_ne by congruence.
  destruct (String.eqb_spec b "spine") as [->|Hs];
    [rewrite lookup_insert_eq; apply scaleWithin_one|].
  rewrite lookup_insert_ne by congruence.
  rewrite lookup_empty. apply scaleWithin_one.
Qed.

Lemma X15_jelly_scale_bounded_witness :
  scaleWithin (jellyScale (jellyRun demoJellyEvents (Jelly.bind demoAvatar)) "hips").
Proof.
  apply (X15_jelly_scale_bounded demoAvatar demoJellyEvents "hips").
  exact demoAvatar_scaleWithin.
Defined.

(** An impulse of intensity 1000 and a frame of 10 s: the hips are at the
    clamp, 0.65 and 1.35. *)
Example jelly_clamp_run :
  let j := jellyRun [Impulse halfDraws "hips" 1000; Frame 10] (Jelly.bind demoAvatar) in
  (Qred (vx (jellyScale j "hips")), Qred (vy (jellyScale j "hips")),
   Qred (vz (jellyScale j "hips"))) = (13 # 20, 27 # 20, 13 # 20).
Proof. vm_compute. reflexivity. Qed.

(** ** Jelly effect: dispose, and impulses that hit no spring *)

Lemma fold_setRawScale_one (keys : list string) (l : list (string * Jelly.SpringState)) :
  forall v b,
    (forall e, In e l -> In (fst e) keys) ->
    let v' := fold_left (fun v (e : string * Jelly.SpringState) =>
                           Jelly.setRawScale v (fst e) (mkV3 1 1 1)) l v in
    sameButScales keys v v'
    /\ (scaleOf v b = mkV3 1 1 1 \/ In b (map fst l) -> scaleOf v' b = mkV3 1 1 1).
Proof.
  induction l as [|[k s] rest IH]; intros v b Hkeys; cbn [fold_left].
  - split; [apply sameButScales_refl|]. intros [H1|[]]. exact H1.
  - destruct (IH (Jelly.setRawScale v k (mkV3 1 1 1)) b (fun e He => Hkeys e (or_intror He)))
      as [Hsame Hone].
    cbn [fst]. split.
    + eapply sameButScales_trans; [|exact Hsame].
      apply setRawScale_sameButScales. exact (Hkeys (k, s) (or_introl eq_refl)).
    + intros Hb. apply Hone. cbn [map fst] in Hb.
      destruct (scaleOf_setRawScale v k (mkV3 1 1 1) b) as [E|E]; [|left; exact E].
      destruct Hb as [H1|[<-|Hin]]; [left; congruence | | right; exact Hin].
      left. destruct (Jelly.rawBoneOf v k) as [node|] eqn:Hn.
      * apply scaleOf_setRawScale_same. congruence.
      * unfold scaleOf. unfold Jelly.setRawScale, Jelly.rawBoneOf, getRawBoneNode in *.
        destruct (humanoid v) as [h|] eqn:Hh; [rewrite Hn, Hh, Hn | rewrite Hh]; reflexivity.
Qed.

(** X16.  [dispose] leaves no bone distorted: whenever it is called, in the
    middle of a bounce or not, every raw bone that has a spring ends at
    scale (1, 1, 1), nothing else of the avatar is touched, and the effect
    is left empty, inactive and unbound. *)
Theorem X16_jelly_dispose_resets_scales (v : VRM) (events : list JellyEvent) :
  let j := jellyRun events (Jelly.bind v) in
  fst (Jelly.dispose j) = Jelly.mkJelly None [] false
  /\ exists v', snd (Jelly.dispose j) = Some v'
                /\ sameButScales (map fst (Jelly.springs (Jelly.bind v))) v v'
                /\ forall b, In b (map fst (Jelly.springs (Jelly.bind v))) ->
                             scaleOf v' b = mkV3 1 1 1.
Proof.
  intros j. split; [reflexivity|].
  destruct (jellyRun_inv v events (Jelly.bind v) (bind_inv v)) as [Hkeys [v1 [Hv Hsame]]].
  fold j in Hkeys, Hv. unfold Jelly.dispose. rewrite Hv. cbn [snd].
  eexists. split; [reflexivity|].
  assert (Hin : forall e, In e (Jelly.springs j) ->
                          In (fst e) (map fst (Jelly.springs (Jelly.bind v)))).
  { intros e He. rewrite <- Hkeys. apply in_map. exact He. }
  split.
  - eapply sameButScales_trans; [exact Hsame|].
    exact (proj1 (fold_setRawScale_one _ (Jelly.springs j) v1 "" Hin)).
  - intros b Hb.
    apply (proj2 (fold_setRawScale_one _ (Jelly.springs j) v1 b Hin)).
    right. rewrite Hkeys. exact Hb.
Qed.

(** The hips of the demo avatar in the middle of a bounce, then disposed. *)
Example jelly_dispose_run :
  let j := jellyRun [Impulse halfDraws "hips" 3; Frame 0.016] (Jelly.bind demoAvatar) in
  Qred (vx (jellyScale j "hips")) = 14971 # 15625
  /\ match snd (Jelly.dispose j) with
     | Some v' => scaleOf v' "hips" = mkV3 1 1 1
     | None => False
     end.
Proof. vm_compute. split; reflexivity. Qed.

Lemma updateSprings_idle dt l :
  forall v, existsb isActivated l = false -> Jelly.updateSprings dt v l = (l, v, false).
Proof.
  induction l as [|[b s] rest IH]; intros v Hidle; [reflexivity|].
  cbn [existsb] in Hidle. apply orb_false_iff in Hidle. destruct Hidle as [Hs Hrest].
  unfold isActivated in Hs. cbn [snd] in Hs.
  cbn [Jelly.updateSprings]. unfold Jelly.updateSpring. rewrite Hs. cbn [negb].
  rewrite (IH v Hrest). reflexivity.
Qed.

(** X17.  An impulse on a bone that has no spring (a bone the avatar lacks,
    or any other name) changes no spring; it only flags the effect active,
    and the next frame clears the flag again: an idle effect is back in the
    state it was in, and no bone was written. *)
Theorem X17_jelly_impulse_without_spring (v : VRM) (j : Jelly.JellyEffect)
    (random : nat -> Q) (bone : string) (intensity delta : Q) :
  boundTo v j -> Jelly.active j = false ->
  Jelly.getSpring (Jelly.springs j) (if String.eqb bone "all" then "hips" else bone) = None ->
  Jelly.triggerImpulse random bone intensity j
  = Jelly.mkJelly (Jelly.vrm j) (Jelly.springs j) true
  /\ Jelly.update delta (Jelly.triggerImpulse random bone intensity j) = j.
Proof.
  intros [Hv [Hh [_ [_ Hidle]]]] Hact Hnone.
  assert (Htrig : Jelly.triggerImpulse random bone intensity j
                  = Jelly.mkJelly (Jelly.vrm j) (Jelly.springs j) true).
  { unfold Jelly.triggerImpulse. cbv zeta. unfold Jelly.waveFuel.
    rewrite triggerWithWave_succ, Hnone. reflexivity. }
  split; [exact Htrig|].
  rewrite Htrig. unfold Jelly.update. cbn [Jelly.active Jelly.vrm Jelly.springs negb].
  rewrite Hv. destruct (humanoid v); [|congruence].
  rewrite (updateSprings_idle _ _ v (Hidle Hact)).
  destruct j as [jv js ja]. cbn in *. congruence.
Qed.

Lemma X17_jelly_impulse_without_spring_witness :
  Jelly.triggerImpulse halfDraws "leftHand" 4 (Jelly.bind demoAvatar)
  = Jelly.mkJelly (Jelly.vrm (Jelly.bind demoAvatar)) (Jelly.springs (Jelly.bind demoAvatar)) true
  /\ Jelly.update 0.016 (Jelly.triggerImpulse halfDraws "leftHand" 4 (Jelly.bind demoAvatar))
     = Jelly.bind demoAvatar.
Proof.
  apply (X17_jelly_impulse_without_spring demoAvatar (Jelly.bind demoAvatar) halfDraws
           "leftHand" 4 0.016).
  - split; [reflexivity|]. split; [discriminate|].
    split; [vm_compute; repeat constructor; simpl; intuition discriminate|].
    split; [|reflexivity].
    vm_compute. repeat constructor; discriminate.
  - reflexivity.
  - reflexivity.
Defined.

(** ** Expression weights *)

Lemma clamp01_range x : 0 <= Emote.clamp01 x /\ Emote.clamp01 x <= 1.
Proof.
  unfold Emote.clamp01. split.
  - apply Q.min_glb; [lra | apply Q.le_max_l].
  - apply Q.le_min_l.
Qed.

Lemma lookup_four (a b c d : Q) (name : string) :
  Emote.orZero ((<["surprised" := d]> (<["sad" := c]> (<["angry" := b]>
                  (<["happy" := a]> (∅ : gmap string Q))))) !! name)
  = if String.eqb name "surprised" then d
    else if String.eqb name "sad" then c
    else if String.eqb name "angry" then b
    else if String.eqb name "happy" then a
    else 0.
Proof.
  destruct (String.eqb_spec name "surprised") as [->|H1]; [rewrite lookup_insert_eq; reflexivity|].
  rewrite lookup_insert_ne by congruence.
  destruct (String.eqb_spec name "sad") as [->|H2]; [rewrite lookup_insert_eq; reflexivity|].
  rewrite lookup_insert_ne by congruence.
  destruct (String.eqb_spec name "angry") as [->|H3]; [rewrite lookup_insert_eq; reflexivity|].
  rewrite lookup_insert_ne by congruence.
  destruct (String.eqb_spec name "happy") as [->|H4]; [rewrite lookup_insert_eq; reflexivity|].
  rewrite lookup_insert_ne by congruence. rewrite lookup_empty. reflexivity.
Qed.

(** X18.  [setEmotion] clamps every target weight into [0, 1] (a missing
    weight counts as 0).  The emotion label is [neutral] exactly when no
    target exceeds 0.25; otherwise it names one of the four expressions,
    whose target exceeds 0.25 and is the largest of the four. *)
Theorem X18_setEmotion_dominant (emotions : Emote.EmotionWeights) (s : Emote.EmoteState) :
  let s' := Emote.setEmotion emotions s in
  (forall name, 0 <= targetOf s' name /\ targetOf s' name <= 1)
  /\ ((Emote.getCurrentEmotion s' = "neutral" /\ forall name, targetOf s' name <= 0.25)
      \/ (In (Emote.getCurrentEmotion s') Emote.EXPRESSION_NAMES
          /\ 0.25 < targetOf s' (Emote.getCurrentEmotion s')
          /\ forall name, targetOf s' name <= targetOf s' (Emote.getCurrentEmotion s'))).
Proof.
  unfold Emote.setEmotion. cbv zeta.
  pose proof (clamp01_range (Emote.happy emotions)) as Ha.
  pose proof (clamp01_range (Emote.angry emotions)) as Hb.
  pose proof (clamp01_range (Emote.sad emotions)) as Hc.
  pose proof (clamp01_range (Emote.surprised emotions)) as Hd.
  set (a := Emote.clamp01 (Emote.happy emotions)) in *.
  set (b := Emote.clamp01 (Emote.angry emotions)) in *.
  set (c := Emote.clamp01 (Emote.sad emotions)) in *.
  set (d := Emote.clamp01 (Emote.surprised emotions)) in *.
  clearbody a b c d.
  unfold Emote.dominant, targetOf, Emote.getCurrentEmotion. cbn [fold_left fst snd].
  destruct (Blink.Qltb 0 a) eqn:E1; cbn [fst snd];
    (destruct (Blink.Qltb _ b) eqn:E2); cbn [fst snd];
    (destruct (Blink.Qltb _ c) eqn:E3); cbn [fst snd];
    (destruct (Blink.Qltb _ d) eqn:E4); cbn [fst snd];
    (destruct (Blink.Qltb 0.25 _) eqn:E5);
    cbn [Emote.targetEmotions Emote.currentEmotion];
    rewrite ?Qltb_lt, ?Qltb_ge in *;
    (split;
     [ intros name; rewrite lookup_four;
       destruct (String.eqb name "surprised"), (String.eqb name "sad"),
         (String.eqb name "angry"), (String.eqb name "happy"); lra
     | first
         [ left; split; [reflexivity|];
           intros name; rewrite lookup_four;
           destruct (String.eqb name "surprised"), (String.eqb name "sad"),
             (String.eqb name "angry"), (String.eqb name "happy"); lra
         | right; split; [cbn; tauto|];
           rewrite !lookup_four; cbn [String.eqb Ascii.eqb Bool.eqb];
           split; [lra|];
           intros name; rewrite lookup_four;
           destruct (String.eqb name "surprised"), (String.eqb name "sad"),
             (String.eqb name "angry"), (String.eqb name "happy"); lra ] ]).
Qed.

(** The weights 0.8, none, -1, 2 for happy, angry, sad, surprised: the
    targets are 0.8, 0, 0, 1 and the label is [surprised]. *)
Example setEmotion_run :
  let s' := Emote.setEmotion demoWeights Emote.initial in
  map (fun name => Qred (targetOf s' name)) Emote.EXPRESSION_NAMES = [4 # 5; 0; 0; 1]
  /\ Emote.getCurrentEmotion s' = "surprised".
Proof. vm_compute. split; reflexivity. Qed.

Lemma blend_between (c g t : Q) :
  0 <= t -> t <= 1 -> Qmin c g <= c + (g - c) * t /\ c + (g - c) * t <= Qmax c g.
Proof.
  intros Ht0 Ht1. destruct (Qlt_le_dec c g) as [Hlt|Hle].
  - rewrite Q.min_l, Q.max_r by lra.
    assert (H1 : 0 <= (g - c) * t) by (apply Qmult_le_0_compat; lra).
    assert (H2 : (g - c) * t <= (g - c) * 1) by (apply Qmult_le_nonneg_l; lra).
    split; lra.
  - rewrite Q.min_r, Q.max_l by lra.
    assert (H1 : 0 <= (c - g) * t) by (apply Qmult_le_0_compat; lra).
    assert (H2 : (c - g) * t <= (c - g) * 1) by (apply Qmult_le_nonneg_l; lra).
    assert (E : (g - c) * t == - ((c - g) * t)) by ring.
    rewrite E. split; lra.
Qed.

Lemma updateExpressions_eq `{MathExp} (delta : Q) (s : Emote.EmoteState) :
  Emote.updateExpressions delta s
  = (Emote.mkEmote (Emote.currentEmotion s) (Emote.targetEmotions s)
       (<["surprised" := blendOf delta s "surprised"]>
          (<["sad" := blendOf delta s "sad"]>
             (<["angry" := blendOf delta s "angry"]>
                (<["happy" := blendOf delta s "happy"]> (Emote.currentEmotions s)))))
       (Emote.microTarget s),
     [("happy", blendOf delta s "happy"); ("angry", blendOf delta s "angry");
      ("sad", blendOf delta s "sad"); ("surprised", blendOf delta s "surprised")]).
Proof.
  unfold Emote.updateExpressions, Emote.EXPRESSION_NAMES, blendOf, goalOf, targetOf, currentOf.
  cbv zeta. cbn [fold_left Emote.currentEmotion Emote.targetEmotions Emote.currentEmotions
                 Emote.microTarget app].
  rewrite !lookup_insert_ne by discriminate. reflexivity.
Qed.

(** X19.  One frame of expression blending, for a frame time that is not
    negative: the four expressions are written in the order happy, angry,
    sad, surprised; each weight written lies between the previous weight
    and the weight blended towards (target plus micro expression, capped at
    1), so a weight never overshoots and, starting in [0, 1], stays in
    [0, 1]; targets, micro expression and label are not touched. *)
Theorem X19_updateExpressions_no_overshoot `{MathExp} (delta : Q) (s : Emote.EmoteState) :
  expDecays -> 0 <= delta ->
  (forall name, 0 <= currentOf s name /\ currentOf s name <= 1) ->
  (forall name, 0 <= goalOf s name) ->
  let r := Emote.updateExpressions delta s in
  map fst (snd r) = Emote.EXPRESSION_NAMES
  /\ (forall name w, In (name, w) (snd r) ->
        currentOf (fst r) name = w
        /\ Qmin (currentOf s name) (goalOf s name) <= w
        /\ w <= Qmax (currentOf s name) (goalOf s name)
        /\ 0 <= w /\ w <= 1)
  /\ Emote.targetEmotions (fst r) = Emote.targetEmotions s
  /\ Emote.microTarget (fst r) = Emote.microTarget s
  /\ Emote.currentEmotion (fst r) = Emote.currentEmotion s.
Proof.
  intros Hexp Hdelta Hcur Hgoal r. subst r. rewrite updateExpressions_eq. cbn [fst snd].
  split; [reflexivity|]. split; [|repeat split].
  assert (Ht : 0 <= 1 - exp (- Emote.lerpSpeed * delta)
               /\ 1 - exp (- Emote.lerpSpeed * delta) <= 1).
  { assert (Hx : - Emote.lerpSpeed * delta <= 0).
    { unfold Emote.lerpSpeed.
      assert (H0 : 0 <= 2.0 * delta) by (apply Qmult_le_0_compat; lra).
      assert (E : - 2.0 * delta == - (2.0 * delta)) by ring. rewrite E. lra. }
    destruct (Hexp _ Hx) as [H0 H1]. split; lra. }
  assert (Hblend : forall name,
            Qmin (currentOf s name) (goalOf s name) <= blendOf delta s name
            /\ blendOf delta s name <= Qmax (currentOf s name) (goalOf s name)
            /\ 0 <= blendOf delta s name /\ blendOf delta s name <= 1).
  { intros name. unfold blendOf.
    destruct (blend_between (currentOf s name) (goalOf s name) _ (proj1 Ht) (proj2 Ht))
      as [Hlo Hhi].
    destruct (Hcur name) as [Hc0 Hc1]. pose proof (Hgoal name) as Hg0.
    assert (Hg1 : goalOf s name <= 1) by (unfold goalOf; apply Q.le_min_l).
    split; [exact Hlo|]. split; [exact Hhi|].
    split.
    - eapply Qle_trans; [|exact Hlo]. apply Q.min_glb; assumption.
    - eapply Qle_trans; [exact Hhi|]. apply Q.max_lub; assumption. }
  intros name w Hin. cbn [In] in Hin.
  destruct Hin as [Hw|[Hw|[Hw|[Hw|[]]]]]; injection Hw as <- <-;
    (split; [|apply Hblend]); unfold currentOf at 1; cbn [Emote.currentEmotions];
    rewrite ?lookup_insert_eq;
    repeat (rewrite lookup_insert_ne by discriminate; rewrite ?lookup_insert_eq);
    reflexivity.
Qed.

Lemma setEmotion_targets (emotions : Emote.EmotionWeights) (s : Emote.EmoteState) (name : string) :
  0 <= targetOf (Emote.setEmotion emotions s) name
  /\ targetOf (Emote.setEmotion emotions s) name <= 1
  /\ Emote.microTarget (Emote.setEmotion emotions s) = Emote.microTarget s
  /\ Emote.currentEmotions (Emote.setEmotion emotions s) = Emote.currentEmotions s.
Proof.
  unfold Emote.setEmotion, targetOf. cbv zeta.
  destruct (Emote.dominant _) as [maxName maxVal].
  cbn [Emote.targetEmotions Emote.microTarget Emote.currentEmotions fold_left fst snd].
  rewrite lookup_four.
  pose proof (clamp01_range (Emote.happy emotions)).
  pose proof (clamp01_range (Emote.angry emotions)).
  pose proof (clamp01_range (Emote.sad emotions)).
  pose proof (clamp01_range (Emote.surprised emotions)).
  destruct (String.eqb name "surprised"), (String.eqb name "sad"),
    (String.eqb name "angry"), (String.eqb name "happy"); repeat split; lra.
Qed.

Lemma demoExp_decays : expDecays (H := demoExp).
Proof.
  intros x Hx. simpl.
  assert (Hpos : 0 < 1 - x) by lra.
  split.
  - apply Qlt_shift_div_l; [exact Hpos | lra].
  - apply Qle_shift_div_r; [exact Hpos | lra].
Qed.

Lemma X19_updateExpressions_no_overshoot_witness :
  let s := Emote.setEmotion demoWeights Emote.initial in
  let r := Emote.updateExpressions (H := demoExp) 0.5 s in
  map fst (snd r) = Emote.EXPRESSION_NAMES
  /\ (forall name w, In (name, w) (snd r) ->
        currentOf (fst r) name = w
        /\ Qmin (currentOf s name) (goalOf s name) <= w
        /\ w <= Qmax (currentOf s name) (goalOf s name)
        /\ 0 <= w /\ w <= 1)
  /\ Emote.targetEmotions (fst r) = Emote.targetEmotions s
  /\ Emote.microTarget (fst r) = Emote.microTarget s
  /\ Emote.currentEmotion (fst r) = Emote.currentEmotion s.
Proof.
  apply (X19_updateExpressions_no_overshoot (H := demoExp) 0.5
           (Emote.setEmotion demoWeights Emote.initial)).
  - exact demoExp_decays.
  - lra.
  - intros name. unfold currentOf.
    destruct (setEmotion_targets demoWeights Emote.initial name) as [_ [_ [_ ->]]].
    cbn [Emote.initial Emote.currentEmotions]. rewrite lookup_empty. cbn. split; lra.
  - intros name. unfold goalOf.
    destruct (setEmotion_targets demoWeights Emote.initial name) as [Ht [_ [-> _]]].
    cbn [Emote.initial Emote.microTarget]. rewrite lookup_empty. cbn [Emote.orZero].
    apply Q.min_glb; lra.
Defined.

(** ** Blink weight *)

Lemma Qdiv_nonneg (a b : Q) : 0 <= a -> 0 < b -> 0 <= a / b.
Proof. intros Ha Hb. apply Qle_shift_div_l; [exact Hb | lra]. Qed.

Lemma updateBlink_inv delta random s :
  0 <= delta -> unitDraws random -> blinkInv s -> blinkInv (Blink.updateBlink delta random s).
Proof.
  intros Hd Hr (Ht & Hc & Hh & Ho & Hv0 & Hv1).
  destruct s as [phase timer t closeTime holdTime openTime value].
  unfold blinkInv in *. cbn [Blink.blinkT Blink.blinkCloseTime Blink.blinkHoldTime
                             Blink.blinkOpenTime Blink.blinkValue] in *.
  unfold Blink.updateBlink.
  destruct phase.
  - destruct (Qle_bool (timer - delta) 0);
      cbn [Blink.blinkT Blink.blinkCloseTime Blink.blinkHoldTime Blink.blinkOpenTime
           Blink.blinkValue]; [|repeat split; assumption].
    destruct (Hr 0%nat) as [A0 _]. destruct (Hr 1%nat) as [B0 _]. destruct (Hr 2%nat) as [C0 _].
    repeat split; lra.
  - pose proof (Qdiv_nonneg delta closeTime Hd Hc) as Hq.
    set (q := delta / closeTime) in *. clearbody q.
    destruct (Qle_bool 1 (t + q)) eqn:E;
      cbn [Blink.blinkT Blink.blinkCloseTime Blink.blinkHoldTime Blink.blinkOpenTime
           Blink.blinkValue]; [repeat split; lra|].
    apply Qle_bool_false in E. unfold Blink.easeInQuad.
    assert (H0 : 0 <= (t + q) * (t + q)) by apply Qsquare_nonneg.
    assert (H1 : (t + q) * (t + q) <= 1 * (t + q)) by (apply Qmult_le_nonneg; lra).
    repeat split; lra.
  - pose proof (Qdiv_nonneg delta holdTime Hd Hh) as Hq.
    set (q := delta / holdTime) in *. clearbody q.
    destruct (Qle_bool 1 (t + q));
      cbn [Blink.blinkT Blink.blinkCloseTime Blink.blinkHoldTime Blink.blinkOpenTime
           Blink.blinkValue]; repeat split; lra.
  - pose proof (Qdiv_nonneg delta openTime Hd Ho) as Hq.
    set (q := delta / openTime) in *. clearbody q.
    destruct (Qle_bool 1 (t + q)) eqn:E.
    + destruct (Blink.nextBlinkInterval random 0) as [interval i].
      cbn [Blink.blinkT Blink.blinkCloseTime Blink.blinkHoldTime Blink.blinkOpenTime
           Blink.blinkValue]. repeat split; lra.
    + cbn [Blink.blinkT Blink.blinkCloseTime Blink.blinkHoldTime Blink.blinkOpenTime
           Blink.blinkValue].
      apply Qle_bool_false in E. unfold Blink.easeOutQuad.
      assert (E1 : 1 - (t + q) * (2 - (t + q)) == (1 - (t + q)) * (1 - (t + q))) by ring.
      assert (H0 : 0 <= (1 - (t + q)) * (1 - (t + q))) by apply Qsquare_nonneg.
      assert (H1 : (1 - (t + q)) * (1 - (t + q)) <= 1 * (1 - (t + q)))
        by (apply Qmult_le_nonneg; lra).
      repeat split; lra.
Qed.

(** X20.  From the state the constructor sets up, over any number of
    frames with frame times that are not negative and draws in [0, 1), the
    blink weight written stays in [0, 1], the progress of the phase is never
    negative and the three phase durations stay positive (so no frame
    divides by zero). *)
Theorem X20_blink_weight_in_range (r0 : nat -> Q) (frames : list (Q * (nat -> Q))) :
  Forall (fun f => 0 <= fst f /\ unitDraws (snd f)) frames ->
  blinkInv (blinkRun frames (Blink.init r0)).
Proof.
  intros Hframes.
  assert (Hinit : blinkInv (Blink.init r0)).
  { unfold blinkInv, Blink.init. simpl. repeat split; lra. }
  revert Hinit. generalize (Blink.init r0) as s.
  induction frames as [|f rest IH]; intros s Hs; [exact Hs|].
  apply Forall_cons_1 in Hframes. destruct Hframes as [[Hd Hr] Hrest].
  cbn [blinkRun fold_left]. apply (IH Hrest). apply updateBlink_inv; assumption.
Qed.

Lemma halfDraws_unit : unitDraws halfDraws.
Proof. intros i. unfold halfDraws. split; lra. Qed.

Lemma X20_blink_weight_in_range_witness :
  blinkInv (blinkRun demoBlinkFrames (Blink.init halfDraws)).
Proof.
  apply (X20_blink_weight_in_range halfDraws demoBlinkFrames).
  unfold demoBlinkFrames. apply List.Forall_forall. intros f Hf.
  apply repeat_spec in Hf. subst f. split; [cbn; lra | exact halfDraws_unit].
Defined.

(** ** Head tracking stays within its limits *)

Section TrackerLimits.
Context `{Trig} `{MathExp}.
Hypothesis PI_nonneg : 0 <= PI.
Hypothesis exp_decays : expDecays.

Lemma degToRad_nonneg d : 0 <= d -> 0 <= HeadTracker.degToRad d.
Proof.
  intros Hd. unfold HeadTracker.degToRad. apply Qmult_le_0_compat; [exact Hd|].
  apply Qle_shift_div_l; lra.
Qed.

Lemma scaled_within (x L : Q) : -1 <= x -> x <= 1 -> 0 <= L -> - L <= x * L /\ x * L <= L.
Proof.
  intros Hx0 Hx1 HL.
  assert (Hhi : x * L <= 1 * L) by (apply Qmult_le_nonneg; assumption).
  assert (Hlo : (-1) * L <= x * L) by (apply Qmult_le_nonneg; assumption).
  split; lra.
Qed.

Lemma smoothing_factor delta :
  0 <= delta ->
  0 <= 1 - exp (- HeadTracker.smoothSpeed * delta)
  /\ 1 - exp (- HeadTracker.smoothSpeed * delta) <= 1.
Proof.
  intros Hd.
  assert (Hx : - HeadTracker.smoothSpeed * delta <= 0).
  { unfold HeadTracker.smoothSpeed.
    assert (Hp : 0 <= 2.5 * delta) by (apply Qmult_le_0_compat; lra).
    assert (E : - 2.5 * delta == - (2.5 * delta)) by ring. rewrite E. lra. }
  destruct (exp_decays _ Hx) as [He0 He1]. split; lra.
Qed.

Lemma blend_within (c g t L : Q) :
  0 <= t -> t <= 1 -> - L <= c -> c <= L -> - L <= g -> g <= L ->
  - L <= c + (g - c) * t /\ c + (g - c) * t <= L.
Proof.
  intros Ht0 Ht1 Hc0 Hc1 Hg0 Hg1.
  destruct (blend_between c g t Ht0 Ht1) as [Hlo Hhi]. split.
  - eapply Qle_trans; [|exact Hlo]. apply Q.min_glb; assumption.
  - eapply Qle_trans; [exact Hhi|]. apply Q.max_lub; assumption.
Qed.

Lemma ndc_within (c lo size : Q) :
  0 < size -> lo <= c -> c <= lo + size ->
  0 <= (c - lo) / size /\ (c - lo) / size <= 1.
Proof.
  intros Hs Hlo Hhi. split.
  - apply Qle_shift_div_l; [exact Hs | lra].
  - apply Qle_shift_div_r; [exact Hs | lra].
Qed.

Lemma trackerStep_inv canvas s e :
  properCanvas canvas -> properEvent canvas e -> trackerInv s ->
  trackerInv (trackerStep canvas s e).
Proof.
  intros Hcanvas He (Hyaw & Hpitch & Hmouse).
  pose proof (degToRad_nonneg 20 ltac:(lra)) as HLY.
  pose proof (degToRad_nonneg 15 ltac:(lra)) as HLP.
  fold HeadTracker.headLimitYaw in HLY. fold HeadTracker.headLimitPitch in HLP.
  destruct e as [x y| |b|delta|v|]; cbn [trackerStep properEvent] in *.
  - unfold HeadTracker.onMouseMove. destruct canvas as [r|];
      [|split; [exact Hyaw | split; [exact Hpitch | exact Hmouse]]].
    cbn [properCanvas onCanvas] in *. destruct Hcanvas as [Hw Hh].
    destruct He as (Hx0 & Hx1 & Hy0 & Hy1).
    split; [exact Hyaw|]. split; [exact Hpitch|]. intros _.
    cbn [HeadTracker.setMousePosition HeadTracker.mouseNDC fst snd].
    destruct (ndc_within x _ _ Hw Hx0 Hx1) as [A0 A1].
    destruct (ndc_within y _ _ Hh Hy0 Hy1) as [B0 B1].
    set (p := (x - HeadTracker.left r) / HeadTracker.width r) in *.
    set (q := (y - HeadTracker.top r) / HeadTracker.height r) in *.
    clearbody p q. repeat split; lra.
  - split; [exact Hyaw|]. split; [exact Hpitch|]. intros Hover. discriminate Hover.
  - split; [exact Hyaw|]. split; [exact Hpitch|]. exact Hmouse.
  - unfold HeadTracker.update. destruct (negb (HeadTracker.enabled s));
      [split; [exact Hyaw | split; [exact Hpitch | exact Hmouse]]|].
    cbv zeta. cbn [HeadTracker.currentYaw HeadTracker.currentPitch HeadTracker.isMouseOver
                   HeadTracker.mouseNDC].
    destruct (smoothing_factor delta He) as [Ht0 Ht1].
    split; [|split; [|exact Hmouse]].
    + apply blend_within; try tauto.
      * destruct (HeadTracker.isMouseOver s); [|lra].
        apply scaled_within; [apply Hmouse | apply Hmouse | exact HLY]; reflexivity.
      * destruct (HeadTracker.isMouseOver s); [|lra].
        apply scaled_within; [apply Hmouse | apply Hmouse | exact HLY]; reflexivity.
    + apply blend_within; try tauto.
      * destruct (HeadTracker.isMouseOver s); [|lra].
        apply scaled_within; [apply Hmouse | apply Hmouse | exact HLP]; reflexivity.
      * destruct (HeadTracker.isMouseOver s); [|lra].
        apply scaled_within; [apply Hmouse | apply Hmouse | exact HLP]; reflexivity.
  - unfold HeadTracker.bind. destruct (humanoid v);
      (split; [exact Hyaw | split; [exact Hpitch | exact Hmouse]]).
  - unfold HeadTracker.dispose, trackerInv.
    cbn [HeadTracker.currentYaw HeadTracker.currentPitch HeadTracker.isMouseOver
         HeadTracker.mouseNDC].
    split; [lra|]. split; [lra | exact Hmouse].
Qed.

End TrackerLimits.

(** X21.  Whatever the tracker goes through (pointer moves on the canvas,
    pointer leaving, enabling and disabling, frames with a frame time that
    is not negative, binding avatars, disposing), the smoothed head rotation
    stays within its limits: yaw within 20 degrees and pitch within 15
    degrees either way. *)
Theorem X21_head_tracking_within_limits `{Trig} `{MathExp}
    (canvas : option HeadTracker.Rect) (events : list TrackerEvent) :
  0 <= PI -> expDecays -> properCanvas canvas -> Forall (properEvent canvas) events ->
  let s := trackerRun canvas events HeadTracker.initial in
  (- HeadTracker.degToRad 20 <= HeadTracker.currentYaw s
   /\ HeadTracker.currentYaw s <= HeadTracker.degToRad 20)
  /\ (- HeadTracker.degToRad 15 <= HeadTracker.currentPitch s
      /\ HeadTracker.currentPitch s <= HeadTracker.degToRad 15).
Proof.
  intros HPI Hexp Hcanvas Hevents s.
  assert (Hinv : trackerInv s).
  { subst s.
    assert (Hinit : trackerInv HeadTracker.initial).
    { pose proof (degToRad_nonneg HPI 20 ltac:(lra)).
      pose proof (degToRad_nonneg HPI 15 ltac:(lra)).
      unfold trackerInv, HeadTracker.headLimitYaw, HeadTracker.headLimitPitch. cbn.
      split; [lra|]. split; [lra|]. discriminate. }
    revert Hinit. generalize HeadTracker.initial as s0.
    induction events as [|e rest IH]; intros s0 Hs0; [exact Hs0|].
    apply Forall_cons_1 in Hevents. destruct Hevents as [He Hrest].
    cbn [trackerRun fold_left]. apply (IH Hrest).
    apply trackerStep_inv; assumption. }
  destruct Hinv as [Hyaw [Hpitch _]]. split; assumption.
Qed.

Lemma X21_head_tracking_within_limits_witness :
  let s := trackerRun (H := circleTrig) (H0 := demoExp) demoCanvas demoPointer
                      HeadTracker.initial in
  (- HeadTracker.degToRad (H := circleTrig) 20 <= HeadTracker.currentYaw s
   /\ HeadTracker.currentYaw s <= HeadTracker.degToRad (H := circleTrig) 20)
  /\ (- HeadTracker.degToRad (H := circleTrig) 15 <= HeadTracker.currentPitch s
      /\ HeadTracker.currentPitch s <= HeadTracker.degToRad (H := circleTrig) 15).
Proof.
  apply (X21_head_tracking_within_limits (H := circleTrig) (H0 := demoExp) demoCanvas demoPointer).
  - cbn. lra.
  - exact demoExp_decays.
  - cbn. split; lra.
  - unfold demoPointer. repeat constructor; cbn; lra.
Defined.

(** ** The viewer's background *)

Lemma zoom_range scale : 0 < 1 / Qmax 0.1 scale /\ 1 / Qmax 0.1 scale <= 10.
Proof.
  set (m := Qmax 0.1 scale).
  assert (Hm : 0.1 <= m) by apply Q.le_max_l.
  split.
  - apply Qlt_shift_div_l; lra.
  - apply Qle_shift_div_r; lra.
Qed.

Lemma window_centred (zoom : Q) : (1 - zoom) / 2 + zoom / 2 == 1 / 2.
Proof. field. Qed.

Lemma applyHdriTextureTransform_window scale offsetY s :
  Viewer.hdriBgMesh s <> None ->
  Viewer.hdriTexture s <> None ->
  windowInv (Viewer.applyHdriTextureTransform scale offsetY s).
Proof.
  intros Hm Ht. unfold Viewer.applyHdriTextureTransform.
  destruct (Viewer.hdriTexture s) as [t|]; [|contradiction].
  unfold windowInv. cbn [Viewer.hdriTexture Viewer.hdriBgMesh].
  split; [exact Hm|]. exists (1 / Qmax 0.1 scale).
  destruct (zoom_range scale) as [Hz0 Hz1].
  split; [exact Hz0|]. split; [exact Hz1|]. split; [reflexivity|].
  cbn [Viewer.offset fst]. apply window_centred.
Qed.

Lemma backgroundStep_window s e : windowInv s -> windowInv (backgroundStep s e).
Proof.
  intros Hs. destruct e as [config|config|patch|]; cbn [backgroundStep].
  - reflexivity.
  - unfold Viewer.setHdriBackgroundResume. cbv zeta.
    apply applyHdriTextureTransform_window; cbn; discriminate.
  - unfold Viewer.updateHdriBackground.
    destruct (Viewer.currentHdriConfig s) as [config|]; [|exact Hs].
    destruct (Viewer.hdriBgMesh s) as [mesh|] eqn:Hm; [|exact Hs].
    unfold windowInv in Hs. rewrite Hm in Hs.
    destruct (Viewer.hdriTexture s) as [t|] eqn:Ht; [|discriminate].
    cbv zeta. unfold Viewer.applyHdriTextureTransform. cbn [Viewer.hdriTexture].
    cbn [Viewer.hdriBgMesh Viewer.hdriTexture Viewer.currentHdriConfig].
    unfold windowInv. cbn [Viewer.hdriTexture Viewer.hdriBgMesh].
    split; [discriminate|].
    eexists. destruct (zoom_range (Viewer.orElse (Viewer.patchScale patch) (Viewer.scale config)))
      as [Hz0 Hz1].
    split; [exact Hz0|]. split; [exact Hz1|]. split; [reflexivity|].
    cbn [Viewer.offset fst]. apply window_centred.
  - reflexivity.
Qed.

Lemma backgroundStep_stored prev s e :
  match e with
  | ResumeSet config => prev = Some (StartSet config)
  | _ => True
  end ->
  storedInv prev s -> storedInv (Some e) (backgroundStep s e).
Proof.
  intros He (Hshow & Hheld & Hprev).
  destruct e as [config|config|patch|]; cbn [backgroundStep].
  - split; [exact I|]. split; [intros Hm; contradiction Hm; reflexivity|].
    intros c Hc. injection Hc as <-. split; reflexivity.
  - destruct (Hprev config He) as [Hconfig _].
    split; [|split; [intros _; cbn; discriminate | intros c Hc; discriminate Hc]].
    unfold Viewer.setHdriBackgroundResume. cbv zeta.
    unfold Viewer.applyHdriTextureTransform. cbn [Viewer.hdriTexture Viewer.hdriBgMesh
                                                    Viewer.currentHdriConfig].
    unfold showsStored. cbn [Viewer.hdriBgMesh Viewer.hdriTexture Viewer.getHdriConfig
                               Viewer.currentHdriConfig].
    eexists _, config. split; [reflexivity|]. split; [exact Hconfig|].
    repeat split; reflexivity.
  - split; [|split; [|intros c Hc; discriminate Hc]].
    + unfold Viewer.updateHdriBackground.
      destruct (Viewer.currentHdriConfig s) as [config|] eqn:Hc; [|exact Hshow].
      destruct (Viewer.hdriBgMesh s) as [mesh|] eqn:Hm; [|unfold showsStored; rewrite Hm; exact I].
      destruct (Viewer.hdriTexture s) as [t|] eqn:Ht;
        [|contradiction Hheld; [discriminate | reflexivity]].
      cbv zeta. unfold Viewer.applyHdriTextureTransform. cbn [Viewer.hdriTexture].
      cbn [Viewer.hdriBgMesh Viewer.hdriTexture Viewer.currentHdriConfig].
      unfold showsStored. cbn [Viewer.hdriBgMesh Viewer.hdriTexture Viewer.getHdriConfig
                                 Viewer.currentHdriConfig].
      eexists _, _. split; [reflexivity|]. split; [reflexivity|].
      repeat split; reflexivity.
    + unfold Viewer.updateHdriBackground.
      destruct (Viewer.currentHdriConfig s) as [config|] eqn:Hc; [|exact Hheld].
      destruct (Viewer.hdriBgMesh s) as [mesh|] eqn:Hm; [|rewrite Hm; exact Hheld].
      destruct (Viewer.hdriTexture s) as [t|] eqn:Ht;
        [|contradiction Hheld; [discriminate | reflexivity]].
      cbv zeta. unfold Viewer.applyHdriTextureTransform. cbn [Viewer.hdriTexture].
      cbn. intros _. discriminate.
  - split; [exact I|]. split; [intros Hm; contradiction Hm; reflexivity|].
    intros c Hc; discriminate Hc.
Qed.

Lemma uninterrupted_showsStored events :
  forall prev s,
    uninterruptedAfter prev events -> storedInv prev s ->
    showsStored (fold_left backgroundStep events s).
Proof.
  induction events as [|e rest IH]; intros prev s Hun Hs; [exact (proj1 Hs)|].
  destruct Hun as [He Hrest]. cbn [fold_left].
  apply (IH (Some e)); [exact Hrest|]. apply (backgroundStep_stored prev); assumption.
Qed.

(** X22.  Through any interleaving of the steps of the viewer's background
    (calls of [setHdriBackground] up to their [await], their textures
    arriving in any order or never, updates, clears), a texture is held
    exactly when a sky sphere is, and its window has the same zoom, within
    (0, 10], on both axes and is centred horizontally.  When nothing runs
    during a load, a sphere that is held shows the stored configuration:
    its rotation and brightness are the configuration's, the zoom is
    1 / max(0.1, scale), and the window is shifted by offsetY vertically. *)
Theorem X22_hdri_background_shows_config (events : list BackgroundEvent) :
  let s := backgroundRun events in
  match Viewer.hdriTexture s with
  | None => Viewer.hdriBgMesh s = None
  | Some texture =>
    Viewer.hdriBgMesh s <> None
    /\ exists zoom,
         0 < zoom /\ zoom <= 10
         /\ Viewer.repeat texture = (zoom, zoom)
         /\ fst (Viewer.offset texture) + zoom / 2 == 1 / 2
  end
  /\ (uninterrupted events ->
      match Viewer.hdriBgMesh s with
      | None => True
      | Some mesh =>
        exists texture config zoom,
          Viewer.hdriTexture s = Some texture
          /\ Viewer.getHdriConfig s = Some config
          /\ Viewer.rotationY mesh = Viewer.offsetX config
          /\ Viewer.emissiveIntensity mesh = Viewer.intensity config
          /\ zoom = 1 / Qmax 0.1 (Viewer.scale config)
          /\ Viewer.repeat texture = (zoom, zoom)
          /\ snd (Viewer.offset texture) + zoom / 2 == 1 / 2 + Viewer.offsetY config
      end).
Proof.
  intros s. split.
  - assert (Hinv : windowInv s).
    { subst s. unfold backgroundRun.
      assert (Hinit : windowInv Viewer.initial) by reflexivity.
      revert Hinit. generalize Viewer.initial as s0.
      induction events as [|e rest IH]; intros s0 Hs0; [exact Hs0|].
      cbn [fold_left]. apply IH. apply backgroundStep_window. exact Hs0. }
    exact Hinv.
  - intros Hun.
    assert (Hshow : showsStored s).
    { subst s. unfold backgroundRun. apply (uninterrupted_showsStored events None); [exact Hun|].
      split; [exact I|]. split; [intros Hm; contradiction Hm; reflexivity|].
      intros c Hc; discriminate Hc. }
    unfold showsStored in Hshow.
    destruct (Viewer.hdriBgMesh s) as [mesh|]; [|exact I].
    destruct Hshow as (texture & config & Ht & Hc & Hrot & Hint & Hrep & Hoff).
    exists texture, config, (zoomOf config).
    repeat split; try assumption; try reflexivity.
    rewrite Hoff. cbn [snd]. field.
Qed.

(** A background set and then updated, with nothing in between. *)
Example hdri_background_run :
  let s := backgroundRun
             [StartSet demoSky; ResumeSet demoSky;
              UpdateBackground (Viewer.mkPatch None (Some 0.25) None (Some 0))] in
  Viewer.hdriTexture s = Some (Viewer.mkTexture (1 / 0.1, 1 / 0.1)
                                               ((1 - 1 / 0.1) / 2, (1 - 1 / 0.1) / 2 + 0.25)).
Proof. reflexivity. Qed.

(** A clear during the load: when the texture arrives the sphere is built
    all the same, with no configuration stored, and updates do nothing. *)
Example hdri_clear_during_load_run :
  let s := backgroundRun [StartSet demoSky; ClearBackground; ResumeSet demoSky] in
  Viewer.hdriBgMesh s = Some (Viewer.mkMesh 0 1)
  /\ Viewer.getHdriConfig s = None
  /\ Viewer.updateHdriBackground (Viewer.mkPatch None None (Some 2) None) s = s.
Proof. repeat split. Qed.
